(* ===== verification/_CoqProject ===== *)
-Q . S2P
Prelude.v
Monad.v
Stdio.v
RecorderConfig.v
RecorderState.v
PcmPipeline.v
WavPart.v
WavRotation.v
WavRecovery.v
RecoveryScan.v
Sha256.v
Nvs.v
Power.v
StatusLed.v
ShutdownArmed.v
WakeRecovery.v
DeviceIdentity.v
Calendar.v
RtcEvent.v
Rtc.v
CdcCore.v
CdcTx.v
Interleave.v
Ends.v
PdmCapture.v
Calls.v
SessionGate.v
ManifestText.v
ManifestDoc.v
ManifestStore.v
ManifestKey.v
ManifestCrash.v
ManifestScan.v
SdMount.v
UsbOwnership.v
Recorder.v
ManifestBoot.v
CdcSession.v
UsbDescriptor.v
CdcWorker.v
Coordinator.v
Device.v
Bench.v
Handover.v
ReleaseOrder.v
AudioPath.v
Finished.v
Stopping.v
