(* ===== verification/Prelude.v ===== *)
(** * M5Daylog recorder firmware: verification library (root file)

    The repository is the firmware of a pocket recorder (ESP32-S3): it records
    16 kHz mono PCM to WAV files on a FAT microSD card, keeps a manifest of the
    finished recordings, and hands the card to a PC over USB.  The library
    models the recorder component of the firmware,
    [src/firmware/components/recorder], and the application of
    [src/firmware/main], function by function, proves what each part promises
    to the others, and composes them into the tasks and callbacks of the
    device.

    ** Shared files

    - [Prelude] (this file): machine integers with their wrap-around, byte
      strings, list lemmas, tactics ([zlia], [split_bools]) and the hint
      databases.
    - [Monad]: the state monad [st], its notation and the weakest-precondition
      rules [wp_bind], [wp_ret], [wp_mono] that every stateful proof uses.
    - [Stdio]: the card.  A world is a map from paths to files and directories,
      the set of files with unsynced data, the history of all former states
      (what a power cut can leave), the flavour of the card's [rename] (FAT
      refuses an existing target) and a plan of faults.  Every library call
      takes its next fault from the plan; a faulted write stores a prefix, a
      faulted read or listing stops early.  A theorem over all worlds is a
      theorem over all fault plans.  [honest_faults] excludes only the plan
      that reports ENOENT for a file that exists.
    - [RecorderConfig]: the constants of [recorder_config.h].

    ** Components

    - [RecorderState] ([recorder_state.c]): lifecycle machine, event lines.
    - [PcmPipeline] ([pcm_pipeline.c]): the two 32 KiB buffers between capture
      and writer, and the counters.
    - [WavPart] ([wav_part.c], [sd_pcm_sink.c]): the part file being recorded.
    - [WavRotation] ([wav_rotation.c]): rotation triggers, segment paths, the
      final rename.
    - [WavRecovery], [RecoveryScan] ([wav_recovery.c]): what boot does with part
      files a power cut left: recover or quarantine.
    - [Sha256] ([sha256.c]): the hash the manifest stores.
    - [ManifestText] ([device_manifest.c], pure part): texts, the canonical
      parser, the append; [ManifestDoc] proves that the parser and the
      byte-wise checks decide properties of a list of entries.
    - [ManifestStore] ([device_manifest.c], files): publication of a document by
      temporary, rename and backup, the upsert, the boot recovery;
      [ManifestKey] relates the key comparison to entries, [ManifestCrash]
      proves the behaviour under faults and power cuts, [ManifestBoot] that of
      the first manifest of a card, over any number of boots.
    - [ManifestScan] ([device_manifest.c], scan): the inventory of the tree.
    - [Nvs] ([recorder_nvs.c]): the settings store behind its mutex.  The
      platform's store is the class [NvsOps] with the laws [NvsLaws]; clients
      are proved against the class.
    - [ShutdownArmed] ([shutdown_armed.c]), [WakeRecovery]
      ([task87_wake_recovery.c]): the durable lifecycle byte and the proof a
      resumed boot owes before it may open the gate.
    - [DeviceIdentity] ([device_identity.c]): UUIDs, [device.json], the stored
      identity.
    - [Calendar], [Rtc] ([rtc_correction.c]), [RtcEvent]
      ([rtc_correction_event.c]): ISO-8601 and the clock chip's registers;
      SET_TIME with its pending record; the event log it must reach.
    - [CdcCore] ([usb_cdc_protocol_core.c]): UTF-8 check, line framer, request
      dispatch.
    - [CdcTx] ([usb_cdc_tx.c]): writing a response and the wait for its last
      transfer.
    - [Interleave], [Ends]: threads whose every atomic access is a step, the
      invariants of their interleavings, and the ends of their loops.
    - [SessionGate] ([usb_cdc_session_gate.c]): on such threads, the gate that
      tells the commands of one USB session from those of the next.
    - [StatusLed] ([recorder_status_led.c]), [Power] ([recorder_power.c]): the
      pixel and its terminal indication; the hold pin, the battery voltage and
      the order of a shutdown.
    - [PdmCapture] ([i2s_pdm_capture.c]): the microphone channel, the interrupt
      that counts lost DMA buffers, and the task that collects the count.
    - [SdMount] ([sd_mount.c]): mounting the card for the device or the host.
    - [UsbOwnership] ([usb_msc_ownership.c]): the hand-over protocol, the SCSI
      callbacks, the release and its trace.
    - [Recorder] ([main.c]): the writer task with the boot recovery, rotation,
      finalize and offload, the capture task, the battery task, the error path.
    - [CdcSession], [UsbDescriptor], [CdcWorker] ([usb_cdc_protocol.c]): the
      session operations, the endpoint walk, the worker's receive loop.
      [Calls] runs a sequential function ([CdcCore], [CdcTx]) inside a thread,
      each of its callbacks a step or a program of the thread.
    - [Coordinator] ([task49_runtime.c]): the events of the ownership, the
      callbacks given to the PC link, and the boot gate of [app_main].
    - [Device]: all of it on one shared state: boot, recorder tasks,
      coordinator, worker, USB callbacks.  [Bench] is a concrete platform and a
      PC to run the device on.
    - [Handover], [ReleaseOrder], [AudioPath], [Finished], [Stopping]: the
      theorems about the whole device: the owner of the card, the release, the
      way of the audio, the finished recordings, the end of the tasks.

    ** How they interact

    The writer drains [PcmPipeline] into [WavPart]; [WavRotation] closes the
    part and renames it; the finished file is hashed by [Sha256] and entered by
    [ManifestStore].  At boot [RecoveryScan] repairs part files,
    [device_manifest_recover_tmp] settles an interrupted publication, and
    [ManifestScan] checks that manifest and tree agree, using [WavPart]'s
    header, [DeviceIdentity]'s parsers and [Sha256].  [Rtc] flushes its pending
    record through [RtcEvent] into the event log, and keeps it in [Nvs], as
    [ShutdownArmed] and [DeviceIdentity] do.  A request line goes through
    [CdcCore], inside a command of [SessionGate], and its answer through
    [CdcTx].

    These are the sequential parts.  The shared parts are programs of threads
    ([Interleave]): a thread's step is one critical section, one access of a
    shared variable, or one operation of a sequential part on state that no
    other task uses at the time; the threads take their steps in any order
    ([run] over any schedule).  [Device.firmware] lists the threads.  The boot
    ([Coordinator]) creates the recorder's tasks, initializes the ownership and
    starts the worker; the USB stack calls [UsbOwnership] and [CdcSession]; the
    coordinator waits for the ownership's events, asks the writer to finish the
    recording (an offload request under [s_rec_lock]), lets [UsbOwnership] and
    [SdMount] give the card to the host, and after the PC's release stops the
    stack, arms the lifecycle byte and switches the power off.  A history no
    code can read ([note]) records what reached the host, the medium and the
    power; the theorems about the device speak of it.

    ** What the theorems show

    - A requested stop can always be completed: wherever the recorder's tasks are
      interrupted, they end when they run, and set the bits the hand-over waits
      for.
    - The card never has two masters, for every schedule, fault, request and
      callback: whatever the host's commands reach, the device's file system
      was released and the recording was finished and entered before.  The card
      comes back in order: the gate closes for one release attempt, its
      response completes, the stack stops, the shutdown is armed, and only then
      the gate opens again.  A mount is complete or leaves nothing behind.
    - No audio is lost: for every schedule and fault, what the sink accepted and
      then the ring buffer is what the microphone gave, up to its last read; a
      finalized segment holds exactly what the sink accepted since its opening,
      and no step of the firmware ever changes or removes a finished recording,
      over any number of boots and power cuts.
      The pipeline refines a bounded queue; a part file always
      shows a header and the accepted samples; rotation is atomic; recovery and
      its scan keep every whole sample under every fault plan; every overflow
      of the microphone's queue is handed out once, with its size.
    - The manifest is a document of well-formed entries: the parser accepts
      exactly their spellings; an update is atomic across any number of power
      cuts with any tearing of unsynced files, and so is the creation of a
      card's first manifest; the upsert stores an entry once;
      a successful scan is a complete inventory, in both directions; the
      admission check reserves room for two entries.
    - Durable decisions are ordered and fail closed: the lifecycle byte, the
      wake proof, the clock correction and its event.
    - The platform parts: a terminal indication stays; a shutdown drops and
      latches the hold before the chip sleeps.
    - The PC link: the endpoint walk stays inside the descriptor and finds the
      endpoint; UTF-8 and framing against their specifications, every answer
      one line, a request does only what it names, a response is sent without
      gap, the waits end, and a reset is a barrier for every interleaving.
    - Encodings: SHA-256 against the padded-message definition, ISO-8601 and
      chip registers, device.json.

    ** Fuel and bounds

    Loops of the source that are not structural take fuel, and the theorems use
    the stated amount, never "if it returns": [produce_loop] 4 passes (two
    buffers to fill, one pass to find both full, one to leave); the parser's
    loop over entries and the count of keys as much as the document is long,
    every turn taking at least one byte; [utf8_loop] the length of the text;
    the file loops ([scan_fuel], [file_fuel]) the size of the file; the writer
    of [CdcTx] the bytes left and the transport's patience, the final wait one
    turn per tick of the timeout; a function run by calls ([Calls]) two turns
    more than it makes calls, proved enough by [CdcWorker.write_script_ends]
    and [CdcWorker.process_line_asks_once]; [dec_u] prints 20 digits, enough for 64 bits.
    Unsigned arithmetic is reduced where it can wrap.

    ** Parameters

    The card's library calls are the definitions of [Stdio].  The settings
    store, the clock chip and clocks ([RtcPlatform]), the JSON library
    ([Cjson], [parse_object]), the transport and tick counter of the USB stack
    ([transport], [clock]) are not in the repository; they are classes or
    records of operations with the documented behaviour as laws, and every
    theorem with such a law has a concrete instance in its witness.

    ** Not modelled, and why

    - Driver calls (SPI, SD, I2S, RMT, GPIO, ADC, sleep, TinyUSB) are operations
      of the platform classes; the contents of their configuration structures
      are not.  Task notifications, task priorities, stack sizes and logging are
      not modelled: a task's loop may begin a pass at any time, which allows
      every order the notifications allow.
    - [Recorder] and [Coordinator] see the microphone, the power and the pixel
      as classes of operations with any behaviour; [PdmCapture], [Power] and
      [StatusLed] are not instances of them.
    - The gate is modelled under sequential consistency; its acquire and
      release annotations are not.
    - The upsert theorems of the manifest are about an existing manifest, as the
      boot makes sure of one; what the upsert does without one is modelled
      ([create_with_entry]) but has no theorem of its own.
    - In [Device] the clock correction's flush is an operation of a class; what
      it writes to the event log is [RtcEvent]'s and not joined with the
      recorder's card. *)

From Stdlib Require Export ZArith Lia Ascii String.
From stdpp Require Export base list strings gmap.

Open Scope Z_scope.

Declare Scope c_scope.
Delimit Scope c_scope with c.

(** ** Machine integers

    A C unsigned integer of width [w] is a [Z]; every operation that can
    leave its range is followed by the reduction below. *)

Definition u8 (z : Z) : Z := z mod 2 ^ 8.
Definition u16 (z : Z) : Z := z mod 2 ^ 16.
Definition u32 (z : Z) : Z := z mod 2 ^ 32.
Definition u64 (z : Z) : Z := z mod 2 ^ 64.

Notation "a +32 b" := (u32 (a + b)) (at level 50, left associativity) : c_scope.
Notation "a -32 b" := (u32 (a - b)) (at level 50, left associativity) : c_scope.
Notation "a *32 b" := (u32 (a * b)) (at level 40, left associativity) : c_scope.

(** [byte_ok b]: a value a [uint8_t] can hold. *)
Definition byte_ok (b : Z) : Prop := 0 <= b < 256.

(** Byte strings: buffers, file contents and (without their NUL) C strings. *)
Abbreviation bytes := (list Z).

Definition bytes_ok (l : bytes) : Prop := Forall byte_ok l.

Definition zlen {A} (l : list A) : Z := Z.of_nat (List.length l).

(** The bytes of a C string literal. *)
Definition txt (s : string) : bytes :=
  map (fun a => Z.of_N (N_of_ascii a)) (list_ascii_of_string s).

#[global] Arguments txt : simpl never.

(** The bytes of a C string literal that holds JSON text; an apostrophe stands
    for the escaped quotation mark. *)
Definition jtxt (s : string) : bytes := map (fun c => if c =? 39 then 34 else c) (txt s).

#[global] Arguments jtxt : simpl never.

Definition ch (s : string) : Z := hd 0 (txt s).

(** ** Tactics *)

(** [lia] that also knows division and remainder. *)
Ltac zlia := Z.div_mod_to_equations; lia.

(** Case analysis on the first [if] or [match] scrutinee of the goal. *)
Ltac step_match :=
  match goal with
  | |- context [if ?b then _ else _] => destruct b eqn:?
  | |- context [match ?x with _ => _ end] => destruct x eqn:?
  end.

Ltac split_bools :=
  repeat match goal with
  | H : _ && _ = true |- _ => apply andb_prop in H; destruct H
  | H : _ || _ = false |- _ => apply orb_false_elim in H; destruct H
  | H : negb _ = true |- _ => apply negb_true_iff in H
  | H : negb _ = false |- _ => apply negb_false_iff in H
  | H : (_ =? _) = true |- _ => apply Z.eqb_eq in H
  | H : (_ =? _) = false |- _ => apply Z.eqb_neq in H
  | H : (_ <=? _) = true |- _ => apply Z.leb_le in H
  | H : (_ <=? _) = false |- _ => apply Z.leb_gt in H
  | H : (_ <? _) = true |- _ => apply Z.ltb_lt in H
  | H : (_ <? _) = false |- _ => apply Z.ltb_ge in H
  | H : bool_decide _ = true |- _ => apply bool_decide_eq_true_1 in H
  | H : bool_decide _ = false |- _ => apply bool_decide_eq_false_1 in H
  end.

Create HintDb m5.
Create Rewrite HintDb m5.

(** ** Integer lemmas *)

Lemma u8_range z : 0 <= u8 z < 256.
Proof. apply Z.mod_pos_bound. lia. Qed.

Lemma u16_range z : 0 <= u16 z < 65536.
Proof. apply Z.mod_pos_bound. lia. Qed.

Lemma u32_range z : 0 <= u32 z < 4294967296.
Proof. apply Z.mod_pos_bound. lia. Qed.

Lemma u64_range z : 0 <= u64 z < 18446744073709551616.
Proof. apply Z.mod_pos_bound. lia. Qed.

Lemma u8_small z : 0 <= z < 256 -> u8 z = z.
Proof. intros; apply Z.mod_small; lia. Qed.

Lemma u16_small z : 0 <= z < 65536 -> u16 z = z.
Proof. intros; apply Z.mod_small; lia. Qed.

Lemma u32_small z : 0 <= z < 4294967296 -> u32 z = z.
Proof. intros; apply Z.mod_small; lia. Qed.

Lemma u64_small z : 0 <= z < 18446744073709551616 -> u64 z = z.
Proof. intros; apply Z.mod_small; lia. Qed.

Lemma u32_add_l a b : u32 (u32 a + b) = u32 (a + b).
Proof. apply Zplus_mod_idemp_l. Qed.

Lemma u32_add_r a b : u32 (a + u32 b) = u32 (a + b).
Proof. apply Zplus_mod_idemp_r. Qed.

#[export] Hint Resolve u8_range u16_range u32_range u64_range : m5.
#[export] Hint Rewrite u32_add_l u32_add_r : m5.

(** Bit fields as arithmetic. *)
Lemma land255 z : Z.land z 255 = z mod 256.
Proof. change 255 with (Z.ones 8). by rewrite Z.land_ones. Qed.

Lemma land_shiftl a b n : 0 <= n -> 0 <= a < 2 ^ n -> Z.land a (Z.shiftl b n) = 0.
Proof.
  intros Hn Ha. apply Z.bits_inj'. intros i Hi.
  rewrite Z.land_spec, Z.bits_0, Z.shiftl_spec by done.
  destruct (Z.ltb_spec i n); [by rewrite (Z.testbit_neg_r b), andb_false_r by lia|].
  destruct (decide (a = 0)) as [->|]; [by rewrite Z.bits_0|].
  rewrite (Z.bits_above_log2 a); [done|lia|]. apply Z.log2_lt_pow2; [lia|].
  eapply Z.lt_le_trans; [apply Ha|apply Z.pow_le_mono_r; lia].
Qed.

Lemma lor_shiftl a b n :
  0 <= n -> 0 <= a < 2 ^ n -> Z.lor a (Z.shiftl b n) = a + b * 2 ^ n.
Proof.
  intros Hn Ha. rewrite <- Z.shiftl_mul_pow2 by done. symmetry.
  pose proof (land_shiftl a b n Hn Ha).
  by rewrite <- Z.lxor_lor, Z.add_nocarry_lxor.
Qed.

(** A property of every byte, by evaluation. *)
Lemma every_byte (P : Z -> bool) b :
  forallb P (seqZ 0 256) = true -> byte_ok b -> P b = true.
Proof.
  intros HP [H1 H2]. rewrite forallb_forall in HP. apply HP.
  apply list_elem_of_In, elem_of_seqZ. lia.
Qed.

(** ** List lemmas *)

(** Two ways to split a list at an element. *)
Lemma app_mid {A} (a b a' b' : list A) x y :
  (a ++ x :: b = a' ++ y :: b')%list ->
  (a = a' /\ x = y /\ b = b') \/ (exists k, a' = (a ++ x :: k)%list /\ b = (k ++ y :: b')%list) \/
  (exists k, a = (a' ++ y :: k)%list /\ b' = (k ++ x :: b)%list).
Proof.
  revert a'. induction a as [|z a IH]; intros [|z' a']; cbn; intros [=]; subst.
  - by left.
  - right. left. eauto.
  - right. right. eauto.
  - destruct (IH a' ltac:(done)) as [(-> & -> & ->)|[(k & -> & ->)|(k & -> & ->)]]; eauto 6.
Qed.

Lemma zlen_nonneg {A} (l : list A) : 0 <= zlen l.
Proof. unfold zlen; lia. Qed.

Lemma zlen_app {A} (l1 l2 : list A) : zlen (l1 ++ l2) = zlen l1 + zlen l2.
Proof. unfold zlen. rewrite length_app. lia. Qed.

Lemma zlen_nil {A} : zlen (@nil A) = 0.
Proof. reflexivity. Qed.

Lemma zlen_cons {A} (x : A) l : zlen (x :: l) = 1 + zlen l.
Proof. unfold zlen; cbn; lia. Qed.

Lemma zlen_txt s : zlen (txt s) = Z.of_nat (String.length s).
Proof.
  unfold zlen, txt. rewrite length_map. f_equal.
  induction s as [|a s IH]; cbn; [done|by rewrite IH].
Qed.

Lemma zlen_jtxt s : zlen (jtxt s) = Z.of_nat (String.length s).
Proof. unfold jtxt. rewrite <- zlen_txt. unfold zlen. by rewrite length_map. Qed.

#[export] Hint Rewrite @zlen_app @zlen_nil @zlen_cons zlen_txt zlen_jtxt : m5.

(** C array slice [data + off], [len] bytes. *)
Definition slice {A} (off len : nat) (l : list A) : list A :=
  take len (drop off l).

(** [memcpy(base + off, d, len)]: the array [l] with [d] stored at [off]. *)
Definition splice {A} (off : nat) (d l : list A) : list A :=
  (take off l ++ d ++ drop (off + length d) l)%list.

Lemma length_splice {A} off (d l : list A) :
  (off + length d <= length l)%nat -> length (splice off d l) = length l.
Proof.
  intros. unfold splice. rewrite !length_app, length_take, length_drop. lia.
Qed.

Lemma take_splice {A} off (d l : list A) :
  (off + length d <= length l)%nat ->
  take (off + length d) (splice off d l) = (take off l ++ d)%list.
Proof.
  intros. unfold splice. rewrite app_assoc. apply take_app_length'.
  rewrite length_app, length_take. lia.
Qed.

(** [strcmp(path + len - strlen(suffix), suffix) == 0], guarded by
    [len >= strlen(suffix)]. *)
Definition has_suffix (suffix path : bytes) : bool :=
  (Nat.leb (length suffix) (length path)) &&
  bool_decide (drop (length path - length suffix) path = suffix).

Lemma has_suffix_spec suffix path :
  has_suffix suffix path = true <-> exists stem, path = (stem ++ suffix)%list.
Proof.
  unfold has_suffix. split.
  - intros H. apply andb_prop in H as [Hl Hd].
    apply Nat.leb_le in Hl. apply bool_decide_eq_true_1 in Hd.
    exists (take (length path - length suffix) path).
    rewrite <- Hd at 2. symmetry. apply take_drop.
  - intros [stem ->]. apply andb_true_intro. split.
    + apply Nat.leb_le. rewrite length_app. lia.
    + apply bool_decide_eq_true_2. rewrite length_app.
      replace (length stem + length suffix - length suffix)%nat
        with (length stem) by lia.
      apply drop_app_length.
Qed.

(** A C string: what precedes the first NUL. *)
Fixpoint cstr (l : bytes) : bytes :=
  match l with c :: l => if c =? 0 then [] else c :: cstr l | [] => [] end.

Lemma cstr_app s rest : 0 ∉ s -> cstr (s ++ 0 :: rest) = s.
Proof.
  induction s as [|c s IH]; intros Hs; [done|]. apply not_elem_of_cons in Hs as [Hc Hs]. cbn.
  rewrite (proj2 (Z.eqb_neq c 0)) by done. f_equal. auto.
Qed.

(** [snprintf(out, out_size, ...)] of a rendered text, as every caller in the
    firmware uses it: the text when it fits with its NUL, else failure. *)
Definition snprintf_fit (out_size : Z) (s : bytes) : option bytes :=
  if zlen s <? out_size then Some s else None.

Lemma snprintf_fit_ok n s : zlen s < n -> snprintf_fit n s = Some s.
Proof. intros H. unfold snprintf_fit. by rewrite (proj2 (Z.ltb_lt _ _) H). Qed.

Lemma snprintf_fit_Some n s s' : snprintf_fit n s = Some s' -> s' = s /\ zlen s < n.
Proof. unfold snprintf_fit. destruct (Z.ltb_spec (zlen s) n); naive_solver. Qed.

(** ** Decimal rendering ([%u], [%d]) *)

Fixpoint dec_aux (fuel : nat) (z : Z) (acc : bytes) : bytes :=
  match fuel with
  | O => acc
  | S k =>
      let acc' := (48 + z mod 10) :: acc in
      if z <? 10 then acc' else dec_aux k (z / 10) acc'
  end.

(** Twenty digits are enough for a 64-bit value. *)
Definition dec_u (z : Z) : bytes := dec_aux 20 z [].

Definition dec_d (z : Z) : bytes :=
  if z <? 0 then 45 :: dec_u (- z) else dec_u z.

Example dec_u_sample : dec_u 16000 = txt "16000".
Proof. reflexivity. Qed.

(** [%02d], [%04d] of a value in range. *)
Definition pad2 (z : Z) : bytes := [48 + z / 10 mod 10; 48 + z mod 10].
Definition pad4 (z : Z) : bytes :=
  [48 + z / 1000 mod 10; 48 + z / 100 mod 10; 48 + z / 10 mod 10; 48 + z mod 10].

(** ** Character classes *)

Definition is_digit (c : Z) : bool := (48 <=? c) && (c <=? 57).
Definition is_lower_hex_letter (c : Z) : bool := (97 <=? c) && (c <=? 102).

Lemma dec_aux_digits fuel z acc :
  0 <= z -> Forall (fun c => is_digit c = true) acc ->
  Forall (fun c => is_digit c = true) (dec_aux fuel z acc).
Proof.
  revert z acc. induction fuel as [|k IH]; intros z acc Hz Hacc; cbn; [done|].
  assert (Hd : is_digit (48 + z mod 10) = true).
  { unfold is_digit. pose proof (Z.mod_pos_bound z 10). lia. }
  destruct (z <? 10); [by constructor|].
  apply IH; [apply Z.div_pos; lia | by constructor].
Qed.

Lemma dec_u_digits z : 0 <= z -> Forall (fun c => is_digit c = true) (dec_u z).
Proof. intros. by apply dec_aux_digits. Qed.

Lemma dec_aux_length fuel z acc k :
  0 <= z < 10 ^ Z.of_nat k -> (0 < k)%nat ->
  (length (dec_aux fuel z acc) <= k + length acc)%nat.
Proof.
  revert z acc k. induction fuel as [|n IH]; intros z acc k Hz Hk; cbn; [lia|].
  destruct (Z.ltb_spec z 10); [cbn; lia|].
  destruct k as [|[|k]]; [lia|cbn in Hz; lia|].
  rewrite Nat2Z.inj_succ, Z.pow_succ_r in Hz by lia.
  etrans; [apply (IH _ _ (S k))|cbn; lia]; [|lia].
  split; [apply Z.div_pos; lia|apply Z.div_lt_upper_bound; lia].
Qed.

(** A 32-bit value takes at most ten digits, and a sign. *)
Lemma dec_u_length z : 0 <= z < 4294967296 -> zlen (dec_u z) <= 10.
Proof.
  intros. pose proof (dec_aux_length 20 z [] 10 ltac:(cbn; lia) ltac:(lia)) as Hl.
  unfold zlen, dec_u. cbn in Hl |- *. lia.
Qed.

Lemma dec_d_length z : -2147483648 <= z < 2147483648 -> zlen (dec_d z) <= 11.
Proof.
  intros. unfold dec_d. destruct (Z.ltb_spec z 0); rewrite ?zlen_cons.
  - pose proof (dec_u_length (- z) ltac:(lia)). lia.
  - pose proof (dec_u_length z ltac:(lia)). lia.
Qed.

(** ** Substring search ([memfind] of the manifest, the bounded [memmem]) *)

(** Position of the first occurrence of [ndl] in [hay]. *)
Fixpoint find_sub (ndl hay : bytes) : option nat :=
  if bool_decide (take (length ndl) hay = ndl) then Some O
  else match hay with
       | [] => None
       | _ :: t => S <$> find_sub ndl t
       end.

Lemma find_sub_Some ndl hay n :
  find_sub ndl hay = Some n ->
  exists pre post, hay = (pre ++ ndl ++ post)%list /\ length pre = n.
Proof.
  revert n. induction hay as [|x t IH]; intros n; cbn.
  - case_bool_decide as H; [|done]. intros [= <-].
    rewrite take_nil in H. exists [], []. by rewrite <- H.
  - case_bool_decide as H.
    + intros [= <-]. exists [], (drop (length ndl) (x :: t)). split; [|done].
      cbn. rewrite <- H at 1. by rewrite take_drop.
    + destruct (find_sub ndl t) as [m|]; [|done]. cbn. intros [= <-].
      destruct (IH m eq_refl) as (pre & post & -> & <-).
      by exists (x :: pre), post.
Qed.
