(* ===== verification/Monad.v ===== *)
(** * Monad: explicit state passing

    Every stateful component of the development threads its own state through
    [st]; [wp m Q w] says that running [m] from [w] ends in a result and a
    state satisfying [Q].  All runs are total functions, so [wp] is total
    correctness. *)

From S2P Require Import Prelude.

Definition st (S A : Type) : Type := S -> A * S.

Definition ret {S A} (x : A) : st S A := fun w => (x, w).

Definition bind {S A B} (m : st S A) (k : A -> st S B) : st S B := fun w =>
  let '(x, w') := m w in k x w'.

Declare Scope io_scope.
Delimit Scope io_scope with io.
Notation "'let*' x ':=' m 'in' k" := (bind m (fun x => k))
  (at level 10, x pattern, m at level 200, k at level 200,
   format "'let*'  x  ':='  m  'in' '//' k") : io_scope.
Notation "m1 ;;; m2" := (bind m1 (fun _ => m2))
  (at level 100, m2 at level 200, right associativity) : io_scope.
Open Scope io_scope.

(** ** State access *)

Definition get {S A} (f : S -> A) : st S A := fun w => (f w, w).
Definition modify {S} (f : S -> S) : st S unit := fun w => (tt, f w).

(** ** Weakest preconditions *)

Definition wp {S A} (m : st S A) (Q : A -> S -> Prop) (w : S) : Prop :=
  Q (m w).1 (m w).2.

Lemma wp_run {S A} (m : st S A) (Q : A -> S -> Prop) w :
  wp m Q w -> let '(x, w') := m w in Q x w'.
Proof. unfold wp. by destruct (m w). Qed.

Lemma wp_ret {S A} (x : A) (Q : A -> S -> Prop) w : Q x w -> wp (ret x) Q w.
Proof. done. Qed.

Lemma wp_bind {S A B} (m : st S A) (k : A -> st S B) Q w :
  wp m (fun x w' => wp (k x) Q w') w -> wp (bind m k) Q w.
Proof. unfold wp, bind. by destruct (m w). Qed.

Lemma wp_unbind {S A B} (m : st S A) (k : A -> st S B) Q w :
  wp (bind m k) Q w -> wp m (fun x w' => wp (k x) Q w') w.
Proof. unfold wp, bind. by destruct (m w). Qed.

Lemma wp_mono {S A} (m : st S A) (Q Q' : A -> S -> Prop) w :
  wp m Q w -> (forall x w', Q x w' -> Q' x w') -> wp m Q' w.
Proof. unfold wp. auto. Qed.

Lemma wp_and {S A} (m : st S A) (Q Q' : A -> S -> Prop) w :
  wp m Q w -> wp m Q' w -> wp m (fun x w' => Q x w' /\ Q' x w') w.
Proof. done. Qed.

Lemma wp_if {S A} (b : bool) (m1 m2 : st S A) Q w :
  (b = true -> wp m1 Q w) -> (b = false -> wp m2 Q w) ->
  wp (if b then m1 else m2) Q w.
Proof. destruct b; auto. Qed.

Lemma wp_get {S A} (f : S -> A) (Q : A -> S -> Prop) w : Q (f w) w -> wp (get f) Q w.
Proof. done. Qed.

Lemma wp_modify {S} (f : S -> S) (Q : unit -> S -> Prop) w : Q tt (f w) -> wp (modify f) Q w.
Proof. done. Qed.

(** A call whose code is a parameter. *)
Lemma wp_call {S A} (m : st S A) (Q : A -> S -> Prop) w :
  (forall x w', m w = (x, w') -> Q x w') -> wp m Q w.
Proof. unfold wp. intros H. apply H. by destruct (m w). Qed.

(** ** Runs along a preorder *)

(** The state after any run of [m] is [R]-above the one before. *)
Definition along {S A} (R : S -> S -> Prop) (m : st S A) : Prop := forall w, R w (m w).2.

Lemma along_ret {S A} (R : S -> S -> Prop) `{!Reflexive R} (x : A) : along R (ret x).
Proof. intros w. by cbn. Qed.

Lemma along_get {S A} (R : S -> S -> Prop) `{!Reflexive R} (f : S -> A) : along R (get f).
Proof. intros w. by cbn. Qed.

Lemma along_bind {S A B} (R : S -> S -> Prop) `{!Transitive R} (m : st S A) (k : A -> st S B) :
  along R m -> (forall x, along R (k x)) -> along R (bind m k).
Proof.
  intros Hm Hk w. unfold bind. specialize (Hm w). destruct (m w) as [x w'].
  etransitivity; [exact Hm|]. apply Hk.
Qed.

Lemma along_wp {S A} (R : S -> S -> Prop) (m : st S A) :
  (forall w, wp m (fun _ w' => R w w') w) -> along R m.
Proof. done. Qed.

(** Symbolic execution of the pure part of a run. *)
Ltac st_prim :=
  repeat (cbn beta; match goal with
  | |- wp (bind _ _) _ _ => apply wp_bind
  | |- wp (ret _) _ _ => apply wp_ret
  | |- wp (get _) _ _ => apply wp_get
  | |- wp (modify _) _ _ => apply wp_modify
  end).
