(* ===== verification/Stdio.v ===== *)
(** * Stdio: the C library's file interface as the firmware uses it

    A [world] holds the card contents, the files whose last bytes have not
    reached the medium, a fault plan and the history of card states.  Every
    fallible call first consults the fault plan: a planned fault makes the
    call fail with its [errno] (a write may have stored a prefix), so a
    theorem over all worlds covers every failure of every call.  The history
    records each card state the run passed through and so the states a power
    cut can leave. *)

From S2P Require Import Prelude Monad.

Inductive errno := ENOENT | EEXIST | EIO.

#[export] Instance errno_eq_dec : EqDecision errno.
Proof. solve_decision. Defined.

Inductive node :=
  | NFile (content : bytes)
  | NDir.

#[export] Instance node_eq_dec : EqDecision node.
Proof. solve_decision. Defined.

Abbreviation disk := (gmap bytes node).

Record fault := Fault { f_errno : errno; f_partial : nat }.

Record world := World {
  w_disk : disk;
  w_dirty : gset bytes;
  w_faults : list (option fault);
  (** whether [rename] replaces an existing target (POSIX) or fails with
      [EEXIST] (FAT) *)
  w_rename_over : bool;
  w_hist : list (disk * gset bytes);
}.

Definition io (A : Type) : Type := st world A.

(** ** State access *)

Definition get_disk : io disk := fun w => (w_disk w, w).
Definition get_dirty : io (gset bytes) := fun w => (w_dirty w, w).
Definition get_rename_over : io bool := fun w => (w_rename_over w, w).

(** The card moves to [d]; the state it leaves goes into the history. *)
Definition commit (d : disk) (dirty : gset bytes) : io unit := fun w =>
  (tt, World d dirty (w_faults w) (w_rename_over w)
         ((w_disk w, w_dirty w) :: w_hist w)).

Definition next_fault : io (option fault) := fun w =>
  match w_faults w with
  | [] => (None, w)
  | f :: fs => (f, World (w_disk w) (w_dirty w) fs (w_rename_over w) (w_hist w))
  end.

(** A planned fault is drawn. *)
Definition hit (f : option fault) : bool := match f with Some _ => true | None => false end.

(** ** Calls *)

Record handle := Handle { h_path : bytes; h_pos : nat }.

Definition is_file (n : option node) : bool :=
  match n with Some (NFile _) => true | _ => false end.

(** [fopen(path, "rb")] / [fopen(path, "r+b")]. *)
Definition fopen_existing (path : bytes) : io (option handle) :=
  let* f := next_fault in
  let* d := get_disk in
  ret (if hit f then None else
        if is_file (d !! path) then Some (Handle path 0) else None).

(** [fopen(path, "wb")]: creates or truncates. *)
Definition fopen_wb (path : bytes) : io (option handle) :=
  let* f := next_fault in
  let* d := get_disk in
  let* dirty := get_dirty in
  if hit f || bool_decide (d !! path = Some NDir) then ret None else
  commit (<[path := NFile []]> d) ({[path]} ∪ dirty) ;;;
  ret (Some (Handle path 0)).

(** [fopen(path, "a")]: creates when missing, positions at the end. *)
Definition fopen_append (path : bytes) : io (option handle) :=
  let* f := next_fault in
  let* d := get_disk in
  let* dirty := get_dirty in
  if hit f then ret None else
  match d !! path with
  | Some NDir => ret None
  | Some (NFile c) => ret (Some (Handle path (length c)))
  | None => commit (<[path := NFile []]> d) ({[path]} ∪ dirty) ;;;
            ret (Some (Handle path 0))
  end.

(** Contents after writing [data] at offset [pos]; a gap reads as zeros. *)
Definition write_at (pos : nat) (data c : bytes) : bytes :=
  (take pos c ++ replicate (pos - length c) 0 ++ data ++
   drop (pos + length data) c)%list.

Definition file_content (n : option node) : bytes :=
  match n with Some (NFile c) => c | _ => [] end.

(** [fwrite(data, 1, n, fp) == n], with the advanced handle. *)
Definition fwrite (h : handle) (data : bytes) : io (bool * handle) :=
  let* f := next_fault in
  let* d := get_disk in
  let* dirty := get_dirty in
  let stored := match f with Some f => take (f_partial f) data | None => data end in
  let c := file_content (d !! h_path h) in
  commit (<[h_path h := NFile (write_at (h_pos h) stored c)]> d)
         ({[h_path h]} ∪ dirty) ;;;
  ret (negb (hit f) || bool_decide (stored = data),
        Handle (h_path h) (h_pos h + length stored)).

Definition fseek (h : handle) (pos : nat) : io (option handle) :=
  let* f := next_fault in
  ret (if hit f then None else Some (Handle (h_path h) pos)).

(** [fflush(fp) == 0]. *)
Definition fflush (h : handle) : io bool :=
  let* f := next_fault in ret (if hit f then false else true).

(** [fsync(fileno(fp)) == 0]: on success the bytes are on the medium. *)
Definition fsync (h : handle) : io bool :=
  let* f := next_fault in
  let* d := get_disk in
  let* dirty := get_dirty in
  if hit f then ret false else
  commit d (dirty ∖ {[h_path h]}) ;;; ret true.

(** [fclose(fp) == 0]. *)
Definition fclose (h : handle) : io bool :=
  let* f := next_fault in ret (if hit f then false else true).

(** [fread] of at most [n] bytes: the bytes read, and whether [ferror]. *)
Definition fread (h : handle) (n : nat) : io (bytes * bool * handle) :=
  let* f := next_fault in
  let* d := get_disk in
  let c := take n (drop (h_pos h) (file_content (d !! h_path h))) in
  let got := match f with Some f => take (f_partial f) c | None => c end in
  ret (got, hit f,
        Handle (h_path h) (h_pos h + length got)).

Definition stat (path : bytes) : io (errno + node) :=
  let* f := next_fault in
  let* d := get_disk in
  ret (match f with
        | Some f => inl (f_errno f)
        | None => match d !! path with Some n => inr n | None => inl ENOENT end
        end).

Definition mkdir (path : bytes) : io (option errno) :=
  let* f := next_fault in
  let* d := get_disk in
  let* dirty := get_dirty in
  match f, d !! path with
  | Some f, _ => ret (Some (f_errno f))
  | None, Some _ => ret (Some EEXIST)
  | None, None => commit (<[path := NDir]> d) dirty ;;; ret None
  end.

(** [rename(old, new)] of a file: [None] on success.  Unsynced bytes of [old]
    stay unsynced under [new]. *)
Definition rename (old new : bytes) : io (option errno) :=
  let* f := next_fault in
  let* d := get_disk in
  let* dirty := get_dirty in
  let* over := get_rename_over in
  match f, d !! old with
  | Some f, _ => ret (Some (f_errno f))
  | None, None => ret (Some ENOENT)
  | None, Some n =>
      if bool_decide (is_Some (d !! new)) && negb over then ret (Some EEXIST) else
      commit (<[new := n]> (delete old d))
             (dirty ∖ {[old; new]} ∪
              (if bool_decide (old ∈ dirty) then {[new]} else ∅)) ;;;
      ret None
  end.

Definition remove (path : bytes) : io (option errno) :=
  let* f := next_fault in
  let* d := get_disk in
  let* dirty := get_dirty in
  match f, d !! path with
  | Some f, _ => ret (Some (f_errno f))
  | None, None => ret (Some ENOENT)
  | None, Some _ => commit (delete path d) (dirty ∖ {[path]}) ;;; ret None
  end.

(** [truncate(path, n) == 0] for [n] within the file. *)
Definition truncate (path : bytes) (n : nat) : io bool :=
  let* f := next_fault in
  let* d := get_disk in
  let* dirty := get_dirty in
  match f, d !! path with
  | None, Some (NFile c) =>
      commit (<[path := NFile (take n c)]> d) ({[path]} ∪ dirty) ;;; ret true
  | _, _ => ret false
  end.

(** [fopen(path, "r+b")], with the [errno] of a failure. *)
Definition fopen_update (path : bytes) : io (errno + handle) :=
  let* f := next_fault in
  let* d := get_disk in
  ret (match f, d !! path with
       | Some f, _ => inl (f_errno f)
       | None, Some (NFile _) => inr (Handle path 0)
       | None, Some NDir => inl EIO
       | None, None => inl ENOENT
       end).

(** [fseek(fp, 0, SEEK_END)] *)
Definition fseek_end (h : handle) : io (option handle) :=
  let* f := next_fault in
  let* d := get_disk in
  ret (if hit f then None
       else Some (Handle (h_path h) (length (file_content (d !! h_path h))))).

(** [ftell(fp)]: [None] when negative. *)
Definition ftell (h : handle) : io (option nat) :=
  let* f := next_fault in ret (if hit f then None else Some (h_pos h)).

(** [ftruncate(fileno(fp), n) == 0] for [n] within the file. *)
Definition ftruncate (h : handle) (n : nat) : io bool :=
  let* f := next_fault in
  let* d := get_disk in
  let* dirty := get_dirty in
  if hit f then ret false else
  commit (<[h_path h := NFile (take n (file_content (d !! h_path h)))]> d)
         ({[h_path h]} ∪ dirty) ;;;
  ret true.

(** At most [n] bytes of [l], through the first newline. *)
Fixpoint through_newline (n : nat) (l : bytes) : bytes :=
  match n, l with
  | S n, c :: l => if c =? 10 then [c] else c :: through_newline n l
  | _, _ => []
  end.

(** What [fgets] reports: the bytes stored, whether the end of the file and
    whether an error was met. *)
Record fgets_result := Gets { gets_line : option bytes; gets_eof : bool; gets_error : bool }.

(** [fgets(line, size, fp)]: a read error gives what was read before it. *)
Definition fgets (h : handle) (size : nat) : io (fgets_result * handle) :=
  let* f := next_fault in
  let* d := get_disk in
  let whole := through_newline (size - 1) (drop (h_pos h) (file_content (d !! h_path h))) in
  let got := match f with Some f => take (f_partial f) whole | None => whole end in
  ret (Gets (match got with [] => None | _ => Some got end)
            (negb (hit f) && bool_decide (length whole < size - 1)%nat &&
             negb (bool_decide (last whole = Some 10)))
            (hit f),
       Handle (h_path h) (h_pos h + length got)).

(** The plan has no fault left: every call does its work. *)
Definition faultless (w : world) : Prop := w_faults w = [].

Definition clean_world (d : disk) : world := World d ∅ [] false [].

(** ** Directories *)

(** Name of [path] as an entry of [dir]: [dir/name], [name] without '/'. *)
Definition entry_of (dir path : bytes) : option bytes :=
  let pre := (dir ++ [47])%list in
  if bool_decide (take (length pre) path = pre) then
    let name := drop (length pre) path in
    if bool_decide (name = []) || bool_decide (47 ∈ name) then None else Some name
  else None.

Definition entries (dir : bytes) (d : disk) : list bytes :=
  omap (fun kv => entry_of dir (fst kv)) (map_to_list d).

(** [opendir(path)] with the [readdir] results that follow: [None] when the
    directory does not open; the flag tells that enumeration stopped on an
    error after a prefix. *)
Definition list_dir (path : bytes) : io (option (list bytes * bool)) :=
  let* f := next_fault in
  let* d := get_disk in
  if hit f then ret None else
  match d !! path with
  | Some NDir =>
      let* f := next_fault in
      ret (Some (match f with
                 | Some f => (take (f_partial f) (entries path d), true)
                 | None => (entries path d, false)
                 end))
  | _ => ret None
  end.


(** No call reports a missing file where there is one. *)
Definition honest_faults (w : world) : Prop :=
  Forall (fun f => match f with Some f => f_errno f <> ENOENT | None => True end) (w_faults w).

(** ** What each call does to the world

    [keeps w w']: the call only used up fault-plan entries.
    [moves w d dirty w']: one commit to [d] with [dirty] unsynced. *)

Record keeps (w w' : world) : Prop := Keeps {
  keeps_disk : w_disk w' = w_disk w;
  keeps_dirty : w_dirty w' = w_dirty w;
  keeps_over : w_rename_over w' = w_rename_over w;
  keeps_hist : w_hist w' = w_hist w;
  keeps_faultless : faultless w -> faultless w';
  keeps_honest : honest_faults w -> honest_faults w';
}.

Record moves (w : world) (d : disk) (dirty : gset bytes) (w' : world) : Prop := Moves {
  moves_disk : w_disk w' = d;
  moves_dirty : w_dirty w' = dirty;
  moves_over : w_rename_over w' = w_rename_over w;
  moves_hist : w_hist w' = (w_disk w, w_dirty w) :: w_hist w;
  moves_faultless : faultless w -> faultless w';
  moves_honest : honest_faults w -> honest_faults w';
}.

Lemma keeps_refl w : keeps w w.
Proof. by split. Qed.

(** A call that only uses up its entry of the plan. *)
Lemma keeps_pop d dirty f fs over hist :
  keeps (World d dirty (f :: fs) over hist) (World d dirty fs over hist).
Proof. split; try done. by intros [_ Hh]%Forall_cons. Qed.

Lemma keeps_trans w1 w2 w3 : keeps w1 w2 -> keeps w2 w3 -> keeps w1 w3.
Proof. intros [] []. split; [congruence..|auto|auto]. Qed.

Lemma keeps_moves w1 w2 d dirty w3 :
  keeps w1 w2 -> moves w2 d dirty w3 -> moves w1 d dirty w3.
Proof. intros [] []. split; [congruence..|auto|auto]. Qed.

#[export] Hint Resolve keeps_refl : m5.

Section call_specs.
  Context (w : world).

Lemma wp_get_disk Q : Q (w_disk w) w -> wp get_disk Q w.
Proof. done. Qed.
Lemma wp_get_dirty Q : Q (w_dirty w) w -> wp get_dirty Q w.
Proof. done. Qed.
Lemma wp_get_rename_over Q : Q (w_rename_over w) w -> wp get_rename_over Q w.
Proof. done. Qed.

Lemma wp_next_fault Q :
    (forall f w', keeps w w' -> (hit f = true -> ~ faultless w) -> Q f w') ->
    wp next_fault Q w.
Proof.
    intros H. unfold wp, next_fault.
    destruct w as [d dirty [|f fs] over hist]; cbn; apply H; try done; first [apply keeps_refl|apply keeps_pop].
Qed.

Lemma wp_commit d dirty Q :
    (forall w', moves w d dirty w' -> Q tt w') -> wp (commit d dirty) Q w.
Proof. intros H. apply H. by split. Qed.
End call_specs.

(** Symbolic execution of the state primitives. *)
Ltac wp_prim :=
  repeat (cbn beta; match goal with
  | |- wp (bind _ _) _ _ => apply wp_bind
  | |- wp (ret _) _ _ => apply wp_ret
  | |- wp get_disk _ _ => apply wp_get_disk
  | |- wp get_dirty _ _ => apply wp_get_dirty
  | |- wp get_rename_over _ _ => apply wp_get_rename_over
  | |- wp next_fault _ _ =>
      apply wp_next_fault;
      let f := fresh "f" in let w1 := fresh "w" in
      let Hk := fresh "Hk" in let Hf := fresh "Hf" in intros f w1 Hk Hf
  | |- wp (commit _ _) _ _ =>
      apply wp_commit; let w1 := fresh "w" in let Hm := fresh "Hm" in intros w1 Hm
  end).

Section call_lemmas.
  Context (w : world).

Lemma wp_fopen_existing path Q :
    (forall w', keeps w w' ->
       (faultless w -> is_file (w_disk w !! path) = false) -> Q None w') ->
    (forall w' c, keeps w w' -> w_disk w !! path = Some (NFile c) ->
       Q (Some (Handle path 0)) w') ->
    wp (fopen_existing path) Q w.
Proof.
    intros H1 H2. unfold fopen_existing. wp_prim. rewrite (keeps_disk _ _ Hk).
    destruct (hit f); [apply H1; naive_solver|].
    destruct (w_disk w !! path) as [[c|]|] eqn:Hp; cbn; eauto.
Qed.

Lemma wp_fopen_wb path Q :
    (forall w', keeps w w' ->
       (faultless w -> w_disk w !! path = Some NDir) -> Q None w') ->
    (forall w', moves w (<[path := NFile []]> (w_disk w)) ({[path]} ∪ w_dirty w) w' ->
       Q (Some (Handle path 0)) w') ->
    wp (fopen_wb path) Q w.
Proof.
    intros H1 H2. unfold fopen_wb. wp_prim.
    rewrite (keeps_disk _ _ Hk), (keeps_dirty _ _ Hk).
    destruct (hit f) eqn:?; cbn; [apply H1; naive_solver|].
    case_bool_decide; [by apply H1|]. wp_prim. eauto using keeps_moves.
Qed.

  (** A directory is never truncated. *)
Lemma wp_fopen_wb_file path Q :
    (forall w', keeps w w' ->
       (faultless w -> w_disk w !! path = Some NDir) -> Q None w') ->
    (forall w', w_disk w !! path <> Some NDir ->
       moves w (<[path := NFile []]> (w_disk w)) ({[path]} ∪ w_dirty w) w' ->
       Q (Some (Handle path 0)) w') ->
    wp (fopen_wb path) Q w.
Proof.
    intros H1 H2. unfold fopen_wb. wp_prim.
    rewrite (keeps_disk _ _ Hk), (keeps_dirty _ _ Hk).
    destruct (hit f) eqn:?; cbn; [apply H1; naive_solver|].
    case_bool_decide; [by apply H1|]. wp_prim. eauto using keeps_moves.
Qed.

Lemma wp_fopen_append path Q :
    (forall w', keeps w w' ->
       (faultless w -> w_disk w !! path = Some NDir) -> Q None w') ->
    (forall w' c, keeps w w' -> w_disk w !! path = Some (NFile c) ->
       Q (Some (Handle path (length c))) w') ->
    (forall w', w_disk w !! path = None ->
       moves w (<[path := NFile []]> (w_disk w)) ({[path]} ∪ w_dirty w) w' ->
       Q (Some (Handle path 0)) w') ->
    wp (fopen_append path) Q w.
Proof.
    intros H1 H2 H3. unfold fopen_append. wp_prim.
    rewrite (keeps_disk _ _ Hk), (keeps_dirty _ _ Hk).
    destruct (hit f) eqn:?; cbn; [apply H1; naive_solver|].
    destruct (w_disk w !! path) as [[c|]|] eqn:Hp; wp_prim; eauto using keeps_moves.
Qed.

  (** A write stores a prefix; reporting success, the whole. *)
Lemma wp_fwrite h data Q :
    (forall w' ok stored,
       moves w (<[h_path h := NFile (write_at (h_pos h) stored
                                (file_content (w_disk w !! h_path h)))]> (w_disk w))
               ({[h_path h]} ∪ w_dirty w) w' ->
       stored `prefix_of` data -> (ok = true -> stored = data) ->
       (faultless w -> ok = true) ->
       Q (ok, Handle (h_path h) (h_pos h + length stored)) w') ->
    wp (fwrite h data) Q w.
Proof.
    intros H1. unfold fwrite. wp_prim.
    rewrite ?(keeps_disk _ _ Hk), ?(keeps_dirty _ _ Hk) in *.
    apply H1; [by eapply keeps_moves| |by case_bool_decide; destruct f|by destruct f; naive_solver].
    destruct f as [f|]; [|done]. exists (drop (f_partial f) data). by rewrite take_drop.
Qed.

Lemma wp_fseek h pos Q :
    (forall w', keeps w w' -> ~ faultless w -> Q None w') ->
    (forall w', keeps w w' -> Q (Some (Handle (h_path h) pos)) w') ->
    wp (fseek h pos) Q w.
Proof. intros H1 H2. unfold fseek. wp_prim. destruct (hit f) eqn:?; eauto. Qed.

Lemma wp_fflush h Q :
    (forall w' ok, keeps w w' -> (faultless w -> ok = true) -> Q ok w') ->
    wp (fflush h) Q w.
Proof. intros H1. unfold fflush. wp_prim. destruct (hit f) eqn:?; apply H1; naive_solver. Qed.

Lemma wp_fclose h Q :
    (forall w' ok, keeps w w' -> (faultless w -> ok = true) -> Q ok w') ->
    wp (fclose h) Q w.
Proof. intros H1. unfold fclose. wp_prim. destruct (hit f) eqn:?; apply H1; naive_solver. Qed.

Lemma wp_fsync h Q :
    (forall w', keeps w w' -> ~ faultless w -> Q false w') ->
    (forall w', moves w (w_disk w) (w_dirty w ∖ {[h_path h]}) w' -> Q true w') ->
    wp (fsync h) Q w.
Proof.
    intros H1 H2. unfold fsync. wp_prim. rewrite (keeps_disk _ _ Hk), (keeps_dirty _ _ Hk).
    destruct (hit f) eqn:?; wp_prim; eauto using keeps_moves.
Qed.

  (** A read returns a prefix of what is there; without a fault, all of it. *)
Lemma wp_fread h n Q :
    (forall w' got err, keeps w w' ->
       got `prefix_of` take n (drop (h_pos h) (file_content (w_disk w !! h_path h))) ->
       (err = false -> got = take n (drop (h_pos h) (file_content (w_disk w !! h_path h)))) ->
       (faultless w -> err = false) ->
       Q (got, err, Handle (h_path h) (h_pos h + length got)) w') ->
    wp (fread h n) Q w.
Proof.
    intros H1. unfold fread. wp_prim. rewrite ?(keeps_disk _ _ Hk) in *.
    apply H1; [done| |by destruct f|by destruct f; naive_solver].
    destruct f as [f|]; [|done]. eexists. by rewrite take_drop.
Qed.

Lemma wp_fopen_update path Q :
    (forall w' e, keeps w w' -> (e = ENOENT -> faultless w -> w_disk w !! path = None) ->
       (faultless w -> is_file (w_disk w !! path) = false) -> Q (inl e) w') ->
    (forall w' c, keeps w w' -> w_disk w !! path = Some (NFile c) ->
       Q (inr (Handle path 0)) w') ->
    wp (fopen_update path) Q w.
Proof.
    intros H1 H2. unfold fopen_update. wp_prim. rewrite (keeps_disk _ _ Hk).
    destruct f as [f|]; [apply H1; naive_solver|].
    destruct (w_disk w !! path) as [[c|]|] eqn:Hp; cbn; eauto; apply H1; naive_solver.
Qed.

Lemma wp_fseek_end h Q :
    (forall w', keeps w w' -> ~ faultless w -> Q None w') ->
    (forall w', keeps w w' ->
       Q (Some (Handle (h_path h) (length (file_content (w_disk w !! h_path h))))) w') ->
    wp (fseek_end h) Q w.
Proof.
    intros H1 H2. unfold fseek_end. wp_prim. rewrite (keeps_disk _ _ Hk).
    destruct (hit f) eqn:?; eauto.
Qed.

Lemma wp_ftell h Q :
    (forall w', keeps w w' -> ~ faultless w -> Q None w') ->
    (forall w', keeps w w' -> Q (Some (h_pos h)) w') ->
    wp (ftell h) Q w.
Proof. intros H1 H2. unfold ftell. wp_prim. destruct (hit f) eqn:?; eauto. Qed.

Lemma wp_ftruncate h n Q :
    (forall w', keeps w w' -> ~ faultless w -> Q false w') ->
    (forall w', moves w (<[h_path h := NFile (take n (file_content (w_disk w !! h_path h)))]> (w_disk w))
                  ({[h_path h]} ∪ w_dirty w) w' -> Q true w') ->
    wp (ftruncate h n) Q w.
Proof.
    intros H1 H2. unfold ftruncate. wp_prim. rewrite (keeps_disk _ _ Hk), (keeps_dirty _ _ Hk).
    destruct (hit f) eqn:?; wp_prim; eauto using keeps_moves.
Qed.

  (** A line is a prefix of what [fgets] would deliver; without an error, all
      of it. *)
Lemma wp_fgets h size Q :
    (forall w' got eof err, keeps w w' ->
       let whole := through_newline (size - 1) (drop (h_pos h) (file_content (w_disk w !! h_path h))) in
       got `prefix_of` whole -> (err = false -> got = whole) ->
       (faultless w -> err = false) ->
       (eof = true -> (length whole < size - 1)%nat /\ last whole <> Some 10 /\ err = false) ->
       (err = false -> (length whole < size - 1)%nat -> last whole <> Some 10 -> eof = true) ->
       Q (Gets (match got with [] => None | _ => Some got end) eof err,
          Handle (h_path h) (h_pos h + length got)) w') ->
    wp (fgets h size) Q w.
Proof.
    intros H1. unfold fgets. wp_prim. rewrite ?(keeps_disk _ _ Hk) in *.
    apply H1; [done|..].
    - destruct f as [f|]; [|done]. eexists. by rewrite take_drop.
    - by destruct f.
    - by destruct f; naive_solver.
    - destruct f; cbn; [done|]. intros Heof. by split_bools.
    - destruct f; cbn; [done|]. intros _ Hl Hn.
      by rewrite bool_decide_eq_true_2, bool_decide_eq_false_2.
Qed.

Lemma wp_stat path Q :
    (forall w' e, keeps w w' -> ~ faultless w -> Q (inl e) w') ->
    (forall w', keeps w w' -> w_disk w !! path = None -> Q (inl ENOENT) w') ->
    (forall w' n, keeps w w' -> w_disk w !! path = Some n -> Q (inr n) w') ->
    wp (stat path) Q w.
Proof.
    intros H1 H2 H3. unfold stat. wp_prim. rewrite (keeps_disk _ _ Hk).
    destruct f as [f|]; [naive_solver|]. destruct (w_disk w !! path) eqn:?; eauto.
Qed.

  (** A missing file is reported only when it is missing. *)
Lemma wp_stat_honest path Q :
    honest_faults w ->
    (forall w' e, keeps w w' -> ~ faultless w -> e <> ENOENT -> Q (inl e) w') ->
    (forall w', keeps w w' -> w_disk w !! path = None -> Q (inl ENOENT) w') ->
    (forall w' n, keeps w w' -> w_disk w !! path = Some n -> Q (inr n) w') ->
    wp (stat path) Q w.
Proof.
    intros Hh H1 H2 H3. unfold wp, stat, bind, next_fault, get_disk, ret.
    unfold honest_faults in Hh. destruct w as [d dirty [|[f|] fs] over hist]; cbn in *.
    - destruct (d !! path) eqn:?; eauto using keeps_refl.
    - apply Forall_cons in Hh as [Hf1 _]. by apply H1; [apply keeps_pop|..].
    - destruct (d !! path) eqn:?; eauto using keeps_pop.
Qed.

Lemma wp_mkdir path Q :
    (forall w' e, keeps w w' -> (faultless w -> e = EEXIST /\ is_Some (w_disk w !! path)) ->
       Q (Some e) w') ->
    (forall w', w_disk w !! path = None ->
       moves w (<[path := NDir]> (w_disk w)) (w_dirty w) w' -> Q None w') ->
    wp (mkdir path) Q w.
Proof.
    intros H1 H2. unfold mkdir. wp_prim. rewrite (keeps_disk _ _ Hk), (keeps_dirty _ _ Hk).
    destruct f as [f|]; [apply H1; naive_solver|].
    destruct (w_disk w !! path) eqn:?; wp_prim; eauto using keeps_moves.
Qed.

Definition renamed_dirty (old new : bytes) (dirty : gset bytes) : gset bytes :=
    dirty ∖ {[old; new]} ∪ (if bool_decide (old ∈ dirty) then {[new]} else ∅).

Lemma wp_rename old new Q :
    (forall w' e, keeps w w' ->
       (faultless w -> w_disk w !! old = None \/
          (e = EEXIST /\ is_Some (w_disk w !! new) /\ w_rename_over w = false)) ->
       Q (Some e) w') ->
    (forall w' n, w_disk w !! old = Some n ->
       (w_disk w !! new = None \/ w_rename_over w = true) ->
       moves w (<[new := n]> (delete old (w_disk w)))
             (renamed_dirty old new (w_dirty w)) w' -> Q None w') ->
    wp (rename old new) Q w.
Proof.
    intros H1 H2. unfold rename. wp_prim.
    rewrite (keeps_disk _ _ Hk), (keeps_dirty _ _ Hk), (keeps_over _ _ Hk).
    destruct f as [f|]; [apply H1; naive_solver|].
    destruct (w_disk w !! old) eqn:?; [|wp_prim; eauto].
    case_bool_decide as Hn; destruct (w_rename_over w) eqn:?; cbn; wp_prim;
      try (eapply H2; eauto using keeps_moves); eauto.
    all: left; by apply eq_None_not_Some.
Qed.

Lemma wp_remove path Q :
    (forall w' e, keeps w w' -> (faultless w -> w_disk w !! path = None) -> Q (Some e) w') ->
    (forall w' n, w_disk w !! path = Some n ->
       moves w (delete path (w_disk w)) (w_dirty w ∖ {[path]}) w' -> Q None w') ->
    wp (remove path) Q w.
Proof.
    intros H1 H2. unfold remove. wp_prim. rewrite (keeps_disk _ _ Hk), (keeps_dirty _ _ Hk).
    destruct f as [f|]; [apply H1; naive_solver|].
    destruct (w_disk w !! path) eqn:?; wp_prim; eauto using keeps_moves.
Qed.

Lemma wp_truncate path n Q :
    (forall w', keeps w w' ->
       (faultless w -> is_file (w_disk w !! path) = false) -> Q false w') ->
    (forall w' c, w_disk w !! path = Some (NFile c) ->
       moves w (<[path := NFile (take n c)]> (w_disk w)) ({[path]} ∪ w_dirty w) w' ->
       Q true w') ->
    wp (truncate path n) Q w.
Proof.
    intros H1 H2. unfold truncate. wp_prim. rewrite (keeps_disk _ _ Hk), (keeps_dirty _ _ Hk).
    destruct f as [f|]; [apply H1; naive_solver|].
    destruct (w_disk w !! path) as [[c|]|] eqn:?; wp_prim; eauto using keeps_moves.
Qed.
End call_lemmas.

(** One step of symbolic execution: a call, or the control flow around it. *)
Ltac wp_call :=
  match goal with
  | |- wp (fopen_existing _) _ _ => apply wp_fopen_existing
  | |- wp (fopen_wb _) _ _ => apply wp_fopen_wb
  | |- wp (fopen_append _) _ _ => apply wp_fopen_append
  | |- wp (fwrite _ _) _ _ => apply wp_fwrite
  | |- wp (fseek _ _) _ _ => apply wp_fseek
  | |- wp (fflush _) _ _ => apply wp_fflush
  | |- wp (fclose _) _ _ => apply wp_fclose
  | |- wp (fsync _) _ _ => apply wp_fsync
  | |- wp (fread _ _) _ _ => apply wp_fread
  | |- wp (fopen_update _) _ _ => apply wp_fopen_update
  | |- wp (fseek_end _) _ _ => apply wp_fseek_end
  | |- wp (ftell _) _ _ => apply wp_ftell
  | |- wp (ftruncate _ _) _ _ => apply wp_ftruncate
  | |- wp (fgets _ _) _ _ => apply wp_fgets
  | |- wp (stat _) _ _ => apply wp_stat
  | |- wp (mkdir _) _ _ => apply wp_mkdir
  | |- wp (rename _ _) _ _ => apply wp_rename
  | |- wp (remove _) _ _ => apply wp_remove
  | |- wp (truncate _ _) _ _ => apply wp_truncate
  end.

Ltac wp_step :=
  wp_prim;
  match goal with
  | |- wp (if ?b then _ else _) _ _ => destruct b eqn:?
  | |- wp (match ?x with _ => _ end) _ _ => destruct x eqn:?
  | |- _ => wp_call; intros
  end;
  repeat match goal with
  | H : negb _ = true |- _ => apply negb_true_iff in H
  | H : negb _ = false |- _ => apply negb_false_iff in H
  end; simplify_eq; wp_prim.

Ltac wp_auto := repeat wp_step.

(** Open the world facts a run collected, newest first, into the goal. *)
Ltac worlds :=
  repeat match goal with
  | H : keeps _ _ |- _ => destruct H
  | H : moves _ _ _ _ |- _ => destruct H
  end;
  repeat match goal with
  | H : w_disk ?w' = _ |- context [w_disk ?w'] => rewrite H
  | H : w_dirty ?w' = _ |- context [w_dirty ?w'] => rewrite H
  | H : w_disk ?w' = _, H' : context [w_disk ?w'] |- _ =>
      lazymatch H' with H => fail | _ => rewrite H in H' end
  | H : w_dirty ?w' = _, H' : context [w_dirty ?w'] |- _ =>
      lazymatch H' with H => fail | _ => rewrite H in H' end
  | H : w_disk ?w !! ?p = _ |- context [w_disk ?w !! ?p] => rewrite H
  end;
  rewrite ?lookup_insert_eq, ?insert_insert_eq.

#[global] Arguments write_at : simpl never.

Lemma not_in_synced (path : bytes) (X : gset bytes) : path ∉ X ∖ {[path]}.
Proof. set_solver. Qed.

Lemma write_at_end c data : write_at (length c) data c = (c ++ data)%list.
Proof.
  unfold write_at. rewrite take_ge, Nat.sub_diag by lia. cbn.
  rewrite drop_ge by lia. by rewrite app_nil_r.
Qed.

Lemma write_at_nil data : write_at 0 data [] = data.
Proof. apply (write_at_end []). Qed.

(** ** Everything the card went through

    [during P w w']: from [w] on, every state the card was in, the one in
    [w'] included, satisfies [P]: what a power cut at any moment leaves. *)

Definition during (P : disk -> Prop) (w w' : world) : Prop :=
  P (w_disk w') /\
  exists l, w_hist w' = (l ++ w_hist w)%list /\ Forall (fun s => P (fst s)) l.

Lemma during_refl (P : disk -> Prop) w : P (w_disk w) -> during P w w.
Proof. intros HP. split; [done|]. by exists []. Qed.

Lemma during_keeps P w w1 w2 : during P w w1 -> keeps w1 w2 -> during P w w2.
Proof.
  intros [HP (l & Hl & Hall)] []. split; [congruence|]. exists l. split; [congruence|done].
Qed.

Lemma during_moves (P : disk -> Prop) w w1 d dirty w2 :
  during P w w1 -> moves w1 d dirty w2 -> P d -> during P w w2.
Proof.
  intros [HP (l & Hl & Hall)] [] Hd. split; [congruence|].
  exists ((w_disk w1, w_dirty w1) :: l). split; [cbn; congruence|by constructor].
Qed.

Lemma during_trans P w1 w2 w3 : during P w1 w2 -> during P w2 w3 -> during P w1 w3.
Proof.
  intros [_ (l & Hl & Hall)] [HP (l' & Hl' & Hall')]. split; [done|].
  exists (l' ++ l)%list. split; [by rewrite Hl', Hl, app_assoc|by apply Forall_app].
Qed.

Lemma during_mono (P P' : disk -> Prop) w w' :
  (forall d, P d -> P' d) -> during P w w' -> during P' w w'.
Proof.
  intros HP [H (l & Hl & Hall)]. split; [auto|]. exists l. split; [done|].
  eapply Forall_impl; [done|cbn; auto].
Qed.

#[export] Hint Resolve during_refl during_keeps : m5.

(** [passes P w w']: the same of the states with their unsynced files. *)
Definition passes (P : disk -> gset bytes -> Prop) (w w' : world) : Prop :=
  P (w_disk w') (w_dirty w') /\
  exists l, w_hist w' = (l ++ w_hist w)%list /\ Forall (fun s => P (fst s) (snd s)) l.

Lemma passes_refl (P : disk -> gset bytes -> Prop) w : P (w_disk w) (w_dirty w) -> passes P w w.
Proof. intros HP. split; [done|]. by exists []. Qed.

Lemma passes_keeps P w w1 w2 : passes P w w1 -> keeps w1 w2 -> passes P w w2.
Proof.
  intros [HP (l & Hl & Hall)] []. split; [congruence|]. exists l. split; [congruence|done].
Qed.

Lemma passes_moves (P : disk -> gset bytes -> Prop) w w1 d dirty w2 :
  passes P w w1 -> moves w1 d dirty w2 -> P d dirty -> passes P w w2.
Proof.
  intros [HP (l & Hl & Hall)] [] Hd. split; [congruence|].
  exists ((w_disk w1, w_dirty w1) :: l). split; [cbn; congruence|by constructor].
Qed.

Lemma passes_trans P w1 w2 w3 : passes P w1 w2 -> passes P w2 w3 -> passes P w1 w3.
Proof.
  intros [_ (l & Hl & Hall)] [HP (l' & Hl' & Hall')]. split; [done|].
  exists (l' ++ l)%list. split; [by rewrite Hl', Hl, app_assoc|by apply Forall_app].
Qed.

Lemma passes_mono (P P' : disk -> gset bytes -> Prop) w w' :
  (forall d x, P d x -> P' d x) -> passes P w w' -> passes P' w w'.
Proof.
  intros HP [H (l & Hl & Hall)]. split; [auto|]. exists l. split; [done|].
  eapply Forall_impl; [done|cbn; auto].
Qed.
