(* ===== verification/RecorderConfig.v ===== *)
(** * RecorderConfig: the fixed constants of [recorder_config.h] *)

From S2P Require Import Prelude.

Definition RECORDER_SAMPLE_RATE_HZ : Z := 16000.
Definition RECORDER_CHANNELS : Z := 1.
Definition RECORDER_BITS_PER_SAMPLE : Z := 16.
Definition RECORDER_BYTES_PER_SAMPLE : Z := 2.
Definition RECORDER_BYTE_RATE : Z :=
  RECORDER_SAMPLE_RATE_HZ * RECORDER_CHANNELS * RECORDER_BYTES_PER_SAMPLE.
Definition RECORDER_BLOCK_ALIGN : Z := RECORDER_CHANNELS * RECORDER_BYTES_PER_SAMPLE.
Definition RECORDER_BUFFER_BYTES : Z := 32768.
Definition RECORDER_WAV_HEADER_SIZE : Z := 44.
Definition RECORDER_PART_SUFFIX : bytes := txt ".wav.part".
Definition RECORDER_WAV_SUFFIX : bytes := txt ".wav".
Definition RECORDER_ROTATION_INTERVAL_SEC : Z := 1800.
Definition RECORDER_ROTATION_PAYLOAD_BYTES : Z :=
  RECORDER_BYTE_RATE * RECORDER_ROTATION_INTERVAL_SEC.
Definition RECORDER_MAX_PATH_LEN : Z := 256.
Definition RECORDER_LOW_BATTERY_MV : Z := 3600.
Definition RECORDER_LOW_BATTERY_CONFIRM_SAMPLES : Z := 3.
Definition RECORDER_RECORDINGS_DIR : bytes := txt "/sdcard/M5DAYLOG/recordings".
Definition RECORDER_QUARANTINE_DIR : bytes := txt "/sdcard/M5DAYLOG/quarantine".
Definition RECORDER_EVENTS_PATH : bytes := txt "/sdcard/M5DAYLOG/events.jsonl".
Definition RECORDER_METADATA_SCHEMA_VERSION : Z := 1.
Definition RECORDER_MODEL : bytes := txt "M5Capsule v1.1".
Definition RECORDER_FIRMWARE_VERSION : bytes := txt "0.1.0".
Definition RECORDER_MANIFEST_PATH : bytes := txt "/sdcard/M5DAYLOG/manifest.json".
Definition RECORDER_MANIFEST_TMP_PATH : bytes := txt "/sdcard/M5DAYLOG/manifest.tmp".
Definition RECORDER_MANIFEST_ENTRY_MAX : Z := 1024.
Definition RECORDER_MANIFEST_MAX_BYTES : Z := 131072.
Definition RECORDER_UUID_STR_LEN : Z := 37.
Definition RECORDER_ISO8601_STR_LEN : Z := 32.
