(* ===== verification/RecorderState.v ===== *)
(** * RecorderState: the recorder lifecycle machine and its diagnostics

    Models [recorder_state.c]: the legal-transition table, the machine that
    applies it, the names written to [events.jsonl] and the event line
    itself with its append. *)

From S2P Require Import Prelude Monad Stdio.

Inductive recorder_state_t :=
  | RECORDER_STATE_BOOT
  | RECORDER_STATE_RECOVER
  | RECORDER_STATE_RECORDING
  | RECORDER_STATE_USB_PREPARE
  | RECORDER_STATE_USB_SYNC
  | RECORDER_STATE_REMOUNT
  | RECORDER_STATE_LOW_BATTERY_STOP
  | RECORDER_STATE_ERROR.

#[export] Instance recorder_state_eq_dec : EqDecision recorder_state_t.
Proof. solve_decision. Defined.

Inductive recorder_reason_t :=
  | RECORDER_REASON_NONE
  | RECORDER_REASON_BOOT
  | RECORDER_REASON_RECOVERY
  | RECORDER_REASON_SD_MOUNT
  | RECORDER_REASON_SD_WRITE
  | RECORDER_REASON_SD_FLUSH
  | RECORDER_REASON_MIC_INIT
  | RECORDER_REASON_I2S_READ
  | RECORDER_REASON_DMA_OVERRUN
  | RECORDER_REASON_BUFFER_OVERFLOW
  | RECORDER_REASON_LOW_BATTERY
  | RECORDER_REASON_MANIFEST
  | RECORDER_REASON_FINALIZE
  | RECORDER_REASON_INTERNAL
  | RECORDER_REASON_USB.

#[export] Instance recorder_reason_eq_dec : EqDecision recorder_reason_t.
Proof. solve_decision. Defined.

(** [recorder_state_machine_t]. *)
Record recorder_state_machine_t := Machine {
  state : recorder_state_t;
  reason : recorder_reason_t;
  transition_count : Z;
}.

Definition recorder_state_is_terminal (s : recorder_state_t) : bool :=
  bool_decide (s = RECORDER_STATE_LOW_BATTERY_STOP) ||
  bool_decide (s = RECORDER_STATE_ERROR).

Definition recorder_state_transition_allowed (from to : recorder_state_t) : bool :=
  if bool_decide (from = RECORDER_STATE_ERROR) then false else
  if bool_decide (from = to) then true else
  if bool_decide (to = RECORDER_STATE_ERROR) then true else
  if recorder_state_is_terminal from then false else
  match from with
  | RECORDER_STATE_BOOT => bool_decide (to = RECORDER_STATE_RECOVER)
  | RECORDER_STATE_RECOVER => bool_decide (to = RECORDER_STATE_RECORDING)
  | RECORDER_STATE_RECORDING =>
      bool_decide (to = RECORDER_STATE_USB_PREPARE) ||
      bool_decide (to = RECORDER_STATE_LOW_BATTERY_STOP)
  | RECORDER_STATE_USB_PREPARE => bool_decide (to = RECORDER_STATE_USB_SYNC)
  | RECORDER_STATE_USB_SYNC => bool_decide (to = RECORDER_STATE_REMOUNT)
  | RECORDER_STATE_REMOUNT => bool_decide (to = RECORDER_STATE_RECOVER)
  | RECORDER_STATE_LOW_BATTERY_STOP | RECORDER_STATE_ERROR => false
  end.

Definition recorder_state_machine_init : recorder_state_machine_t :=
  Machine RECORDER_STATE_BOOT RECORDER_REASON_BOOT 0.

Definition recorder_state_transition (m : recorder_state_machine_t)
    (next : recorder_state_t) (r : recorder_reason_t)
    : bool * recorder_state_machine_t :=
  if negb (recorder_state_transition_allowed (state m) next) then (false, m)
  else if negb (bool_decide (state m = next))
       then (true, Machine next r (u32 (transition_count m + 1)))
       else (true, Machine (state m) r (transition_count m)).

Definition recorder_state_str (s : recorder_state_t) : bytes :=
  match s with
  | RECORDER_STATE_BOOT => txt "BOOT"
  | RECORDER_STATE_RECOVER => txt "RECOVER"
  | RECORDER_STATE_RECORDING => txt "RECORDING"
  | RECORDER_STATE_USB_PREPARE => txt "USB_PREPARE"
  | RECORDER_STATE_USB_SYNC => txt "USB_SYNC"
  | RECORDER_STATE_REMOUNT => txt "REMOUNT"
  | RECORDER_STATE_LOW_BATTERY_STOP => txt "LOW_BATTERY_STOP"
  | RECORDER_STATE_ERROR => txt "ERROR"
  end.

Definition recorder_reason_str (r : recorder_reason_t) : bytes :=
  match r with
  | RECORDER_REASON_NONE => txt "none"
  | RECORDER_REASON_BOOT => txt "boot"
  | RECORDER_REASON_RECOVERY => txt "recovery"
  | RECORDER_REASON_SD_MOUNT => txt "sd-mount"
  | RECORDER_REASON_SD_WRITE => txt "sd-write"
  | RECORDER_REASON_SD_FLUSH => txt "sd-flush"
  | RECORDER_REASON_MIC_INIT => txt "mic-init"
  | RECORDER_REASON_I2S_READ => txt "i2s-read"
  | RECORDER_REASON_DMA_OVERRUN => txt "dma-overrun"
  | RECORDER_REASON_BUFFER_OVERFLOW => txt "buffer-overflow"
  | RECORDER_REASON_LOW_BATTERY => txt "low-battery"
  | RECORDER_REASON_MANIFEST => txt "manifest"
  | RECORDER_REASON_FINALIZE => txt "finalize"
  | RECORDER_REASON_INTERNAL => txt "internal"
  | RECORDER_REASON_USB => txt "usb"
  end.

(** The quotation mark, for JSON text. *)
Definition q : bytes := [34].

(** [{"event":"state","timestamp":...,"from":...,"to":...,"reason":...,
    "batteryMv":...}\n]: the four [snprintf] formats differ only in whether
    the timestamp and the battery value are [null]. *)
Definition state_event_text (timestamp : bytes) (from to : recorder_state_t)
    (r : recorder_reason_t) (battery_mv : Z) : bytes :=
  let have_ts := negb (bool_decide (timestamp = [])) in
  (txt "{" ++ q ++ txt "event" ++ q ++ txt ":" ++ q ++ txt "state" ++ q ++
   txt "," ++ q ++ txt "timestamp" ++ q ++ txt ":" ++
   (if have_ts then q ++ timestamp ++ q else txt "null") ++
   txt "," ++ q ++ txt "from" ++ q ++ txt ":" ++ q ++ recorder_state_str from ++ q ++
   txt "," ++ q ++ txt "to" ++ q ++ txt ":" ++ q ++ recorder_state_str to ++ q ++
   txt "," ++ q ++ txt "reason" ++ q ++ txt ":" ++ q ++ recorder_reason_str r ++ q ++
   txt "," ++ q ++ txt "batteryMv" ++ q ++ txt ":" ++
   (if 0 <? battery_mv then dec_d battery_mv else txt "null") ++
   txt "}" ++ [10])%list.

Definition recorder_state_format_event (out_size : Z) (timestamp : bytes)
    (from to : recorder_state_t) (r : recorder_reason_t) (battery_mv : Z)
    : option bytes :=
  if out_size =? 0 then None
  else snprintf_fit out_size (state_event_text timestamp from to r battery_mv).

Definition recorder_state_append_event (path timestamp : bytes)
    (from to : recorder_state_t) (r : recorder_reason_t) (battery_mv : Z)
    : io bool :=
  match recorder_state_format_event 320 timestamp from to r battery_mv with
  | None => ret false
  | Some line =>
      if bool_decide (path = []) then ret false else
      let* fp := fopen_append path in
      match fp with
      | None => ret false
      | Some h =>
          let* (wrote, h) := fwrite h line in
          let* flushed := if wrote then fflush h else ret false in
          let* closed := fclose h in
          ret (flushed && closed)
      end
  end.

(** ** Runs of the machine *)

(** The machine after a sequence of requests, refused ones included. *)
Definition run (m : recorder_state_machine_t)
    (reqs : list (recorder_state_t * recorder_reason_t))
    : recorder_state_machine_t :=
  fold_left (fun m rq => snd (recorder_state_transition m (fst rq) (snd rq))) reqs m.

(** The lifecycle a run that has not stopped follows: boot, then the
    recover / record / prepare / sync / remount cycle, by transition number. *)
Definition lifecycle (n : nat) : recorder_state_t :=
  match n with
  | O => RECORDER_STATE_BOOT
  | S k => match Nat.modulo k 5 with
           | 0%nat => RECORDER_STATE_RECOVER
           | 1%nat => RECORDER_STATE_RECORDING
           | 2%nat => RECORDER_STATE_USB_PREPARE
           | 3%nat => RECORDER_STATE_USB_SYNC
           | _ => RECORDER_STATE_REMOUNT
           end
  end.

(** Where the machine can be after [n] effective transitions. *)
Inductive on_lifecycle : recorder_state_machine_t -> nat -> Prop :=
  | on_cycle n r :
      on_lifecycle (Machine (lifecycle n) r (u32 (Z.of_nat n))) n
  | on_low_battery n r :
      lifecycle n = RECORDER_STATE_RECORDING ->
      on_lifecycle (Machine RECORDER_STATE_LOW_BATTERY_STOP r
                      (u32 (Z.of_nat (S n)))) (S n)
  | on_error n r :
      on_lifecycle (Machine RECORDER_STATE_ERROR r (u32 (Z.of_nat (S n)))) (S n).

(** ** Lemmas *)

Lemma transition_refused m next r :
  recorder_state_transition_allowed (state m) next = false ->
  recorder_state_transition m next r = (false, m).
Proof. unfold recorder_state_transition. by intros ->. Qed.

Lemma transition_from_error m next r :
  state m = RECORDER_STATE_ERROR -> recorder_state_transition m next r = (false, m).
Proof. intros H. apply transition_refused. by rewrite H. Qed.

Lemma u32_succ n : u32 (u32 (Z.of_nat n) + 1) = u32 (Z.of_nat (S n)).
Proof. rewrite u32_add_l. f_equal. lia. Qed.

Lemma lifecycle_cases n :
  lifecycle n <> RECORDER_STATE_ERROR /\ lifecycle n <> RECORDER_STATE_LOW_BATTERY_STOP.
Proof. destruct n as [|k]; [done|]. cbn. by repeat step_match. Qed.

(** The one forward edge out of a lifecycle state is the next lifecycle state. *)
Lemma lifecycle_next n to :
  recorder_state_transition_allowed (lifecycle n) to = true ->
  to = lifecycle n \/ to = lifecycle (S n) \/ to = RECORDER_STATE_ERROR \/
  (to = RECORDER_STATE_LOW_BATTERY_STOP /\ lifecycle n = RECORDER_STATE_RECORDING).
Proof.
  destruct n as [|k]; [destruct to; cbn; auto; done|].
  unfold lifecycle. pose proof (Nat.mod_upper_bound k 5 ltac:(done)).
  assert (Hs : (S k mod 5 = if Nat.eqb (k mod 5) 4 then 0 else S (k mod 5))%nat).
  { rewrite <- (Nat.add_1_r k), Nat.Div0.add_mod. destruct (k mod 5)%nat as [|[|[|[|[|]]]]]; cbn; lia. }
  rewrite Hs. destruct (k mod 5)%nat as [|[|[|[|[|]]]]]; try lia;
    destruct to; cbn; auto; done.
Qed.

Lemma on_lifecycle_step m n next r :
  on_lifecycle m n ->
  let m' := snd (recorder_state_transition m next r) in
  on_lifecycle m' n \/ on_lifecycle m' (S n).
Proof.
  intros H. cbn. unfold recorder_state_transition.
  destruct (recorder_state_transition_allowed _ _) eqn:Ha; [|by left].
  case_bool_decide as He; cbn; [left; by destruct H; constructor|right].
  destruct H as [n r'|n r' Hn|n r']; cbn in *; rewrite ?u32_succ; [| |done].
  - apply lifecycle_next in Ha as [->|[->|[->|[-> Hn]]]];
      [congruence|apply (on_cycle (S n))|apply (on_error n)|by apply (on_low_battery n)].
  - destruct next; try discriminate; [congruence|constructor].
Qed.

Lemma run_snoc m reqs rq :
  run m (reqs ++ [rq]) = snd (recorder_state_transition (run m reqs) (fst rq) (snd rq)).
Proof. unfold run. by rewrite fold_left_app. Qed.

Lemma state_str_length s : 0 < zlen (recorder_state_str s) <= 16.
Proof. by destruct s. Qed.

Lemma reason_str_length r : 0 < zlen (recorder_reason_str r) <= 15.
Proof. by destruct r. Qed.

#[export] Hint Resolve state_str_length reason_str_length : m5.

(** ** The machine's contract *)

(** Whatever requests arrive, with whatever reasons and in whatever
    order, the machine is on the boot / recover / record / prepare / sync /
    remount cycle at exactly the position its transition counter says (modulo
    2^32), or has stopped for low battery from RECORDING only, or is in
    ERROR; and it made at most one effective transition per request. *)
Theorem run_on_lifecycle reqs :
  exists n, (n <= length reqs)%nat /\ on_lifecycle (run recorder_state_machine_init reqs) n.
Proof.
  induction reqs as [|rq reqs (n & Hn & H)] using rev_ind.
  - exists 0%nat. split; [done|]. apply (on_cycle 0).
  - rewrite run_snoc, length_app. cbn [length].
    destruct (on_lifecycle_step _ _ (fst rq) (snd rq) H) as [H'|H'];
      [exists n | exists (S n)]; (split; [lia|done]).
Qed.

(** ERROR is absorbing: once a run of requests has brought the machine
    into ERROR, no later requests change its state, its reason or its
    counter, and every one of them is refused. *)
Theorem error_absorbing m reqs next r :
  state m = RECORDER_STATE_ERROR ->
  run m reqs = m /\ fst (recorder_state_transition (run m reqs) next r) = false.
Proof.
  intros H. assert (Hr : run m reqs = m).
  { induction reqs as [|rq reqs IH] using rev_ind; [done|].
    rewrite run_snoc, IH. by rewrite transition_from_error. }
  rewrite Hr. split; [done|]. by rewrite transition_from_error.
Qed.

Lemma error_absorbing_witness :
  let m := Machine RECORDER_STATE_ERROR RECORDER_REASON_SD_WRITE 7 in
  run m [(RECORDER_STATE_RECOVER, RECORDER_REASON_NONE)] = m.
Proof.
  exact (proj1 (error_absorbing (Machine RECORDER_STATE_ERROR RECORDER_REASON_SD_WRITE 7)
           [(RECORDER_STATE_RECOVER, RECORDER_REASON_NONE)]
           RECORDER_STATE_BOOT RECORDER_REASON_NONE eq_refl)).
Defined.

(** ** The event line *)

Lemma event_text_length timestamp from to r battery :
  zlen timestamp <= 64 -> -2147483648 <= battery < 2147483648 ->
  zlen (state_event_text timestamp from to r battery) < 320.
Proof.
  intros Ht Hb. unfold state_event_text.
  pose proof (state_str_length from). pose proof (state_str_length to).
  pose proof (reason_str_length r). pose proof (dec_d_length battery Hb).
  case_bool_decide; destruct (0 <? battery); cbn [negb];
    unfold q; autorewrite with m5; cbn [String.length]; lia.
Qed.

(** No diagnostic line of the firmware is ever lost to the 320-byte line
    buffer: for every pair of states, every reason, every timestamp of up to
    64 characters (the callers pass the 26 of an ISO 8601 stamp) and every
    32-bit battery reading, the formatter returns the whole line. *)
Theorem event_line_never_truncated timestamp from to r battery :
  zlen timestamp <= 64 -> -2147483648 <= battery < 2147483648 ->
  recorder_state_format_event 320 timestamp from to r battery =
    Some (state_event_text timestamp from to r battery).
Proof.
  intros Ht Hb. unfold recorder_state_format_event.
  apply snprintf_fit_ok, event_text_length; done.
Qed.

(** What [recorder_state_append_event] may leave in the event file. *)
Definition appended (d d' : disk) (path line : bytes) (ok : bool) : Prop :=
  d' = d \/
  exists stored, stored `prefix_of` line /\ (ok = true -> stored = line) /\
    d' = <[path := NFile (file_content (d !! path) ++ stored)%list]> d.

(** Appending a diagnostic event touches no other file and never damages
    earlier lines: under every fault plan the event file afterwards holds its
    old content followed by a prefix of the new line, by the whole line when
    the call reports success; and without a fault the call succeeds. *)
Theorem append_event_appends path timestamp from to r battery w line :
  path <> [] -> w_disk w !! path <> Some NDir ->
  recorder_state_format_event 320 timestamp from to r battery = Some line ->
  wp (recorder_state_append_event path timestamp from to r battery)
    (fun ok w' =>
       appended (w_disk w) (w_disk w') path line ok /\
       (ok = true -> w_disk w' = <[path := NFile (file_content (w_disk w !! path) ++ line)%list]> (w_disk w)) /\
       (faultless w -> ok = true)) w.
Proof.
  intros Hp Hd Hl. unfold recorder_state_append_event. rewrite Hl. clear Hl.
  rewrite bool_decide_eq_false_2 by done. wp_auto; unfold appended; worlds; cbn in *; worlds; cbn in *.
  all: rewrite ?write_at_end, ?write_at_nil.
  all: try (split; [by left|naive_solver]).
  all: split; [right; eexists; split; [eassumption|split; [|reflexivity]] | split].
  all: intros; split_bools; naive_solver.
Qed.

Lemma append_event_appends_witness :
  fst (recorder_state_append_event (txt "/e") [] RECORDER_STATE_BOOT RECORDER_STATE_RECOVER
         RECORDER_REASON_NONE 3700 (clean_world {[txt "/e" := NFile (txt "x")]})) = true.
Proof.
  apply (append_event_appends (txt "/e") [] RECORDER_STATE_BOOT RECORDER_STATE_RECOVER
           RECORDER_REASON_NONE 3700 (clean_world {[txt "/e" := NFile (txt "x")]})
           (state_event_text [] RECORDER_STATE_BOOT RECORDER_STATE_RECOVER
              RECORDER_REASON_NONE 3700)); by vm_compute.
Defined.

Lemma event_line_never_truncated_witness :
  exists line, recorder_state_format_event 320 (txt "2026-01-01T00:00:00+09:00")
    RECORDER_STATE_RECORDING RECORDER_STATE_ERROR RECORDER_REASON_SD_WRITE (-5) = Some line.
Proof.
  eexists. apply event_line_never_truncated; by vm_compute.
Defined.
