(* ===== verification/PcmPipeline.v ===== *)
(** * PcmPipeline: the 32 KiB x 2 ping-pong buffer

    Models [pcm_pipeline.c]: two caller-provided slots, the read and write
    indices (0 and 1 as [false] and [true]) and the diagnostics counters.
    The abstract specification is a bounded byte queue. *)

From S2P Require Import Prelude RecorderConfig.

(** [recorder_counters_t]. *)
Record recorder_counters_t := Counters {
  samples_captured : Z;
  chunks_written : Z;
  buffer_overflow : Z;
  buffer_drop_bytes : Z;
  buffer_drop_samples : Z;
  dma_overrun_events : Z;
  dma_drop_bytes : Z;
  dma_drop_samples : Z;
  dma_read_stalls : Z;
  sd_write_errors : Z;
  max_sd_latency_us : Z;
}.

(** One element of [slot[]], [fill[]] and [full[]]. *)
Record slot_t := Slot { data : bytes; fill : Z; full : bool }.

(** [pcm_pipeline_t]. *)
Record pcm_pipeline_t := Pipeline {
  slot0 : slot_t;
  slot1 : slot_t;
  read_index : bool;
  write_index : bool;
  counters : recorder_counters_t;
}.

Definition slot (p : pcm_pipeline_t) (i : bool) : slot_t :=
  if i then slot1 p else slot0 p.

Definition set_slot (p : pcm_pipeline_t) (i : bool) (s : slot_t) : pcm_pipeline_t :=
  if i then Pipeline (slot0 p) s (read_index p) (write_index p) (counters p)
  else Pipeline s (slot1 p) (read_index p) (write_index p) (counters p).

Definition set_write (p : pcm_pipeline_t) (i : bool) : pcm_pipeline_t :=
  Pipeline (slot0 p) (slot1 p) (read_index p) i (counters p).

Definition set_read (p : pcm_pipeline_t) (i : bool) : pcm_pipeline_t :=
  Pipeline (slot0 p) (slot1 p) i (write_index p) (counters p).

Definition set_counters (p : pcm_pipeline_t) (c : recorder_counters_t) : pcm_pipeline_t :=
  Pipeline (slot0 p) (slot1 p) (read_index p) (write_index p) c.

Definition pcm_pipeline_init (backing0 backing1 : bytes) : pcm_pipeline_t :=
  Pipeline (Slot backing0 0 false) (Slot backing1 0 false) false false
           (Counters 0 0 0 0 0 0 0 0 0 0 0).

(** Counter updates of [pcm_pipeline_produce]. *)
Definition count_overflow (c : recorder_counters_t) (rest : Z) : recorder_counters_t :=
  Counters (samples_captured c) (chunks_written c)
    (u32 (buffer_overflow c + 1))
    (u32 (buffer_drop_bytes c + u32 rest))
    (u32 (buffer_drop_samples c + u32 (rest / RECORDER_BYTES_PER_SAMPLE)))
    (dma_overrun_events c) (dma_drop_bytes c) (dma_drop_samples c)
    (dma_read_stalls c) (sd_write_errors c) (max_sd_latency_us c).

Definition count_captured (c : recorder_counters_t) (take_ : Z) : recorder_counters_t :=
  Counters (u32 (samples_captured c + u32 (take_ / RECORDER_BYTES_PER_SAMPLE)))
    (chunks_written c) (buffer_overflow c) (buffer_drop_bytes c)
    (buffer_drop_samples c) (dma_overrun_events c) (dma_drop_bytes c)
    (dma_drop_samples c) (dma_read_stalls c) (sd_write_errors c)
    (max_sd_latency_us c).

(** The body of the loop once a free slot [w] is active: copy what fits. *)
Definition produce_chunk (p : pcm_pipeline_t) (d : bytes) (usable offset : Z)
    : Z * pcm_pipeline_t :=
  let w := write_index p in
  let s := slot p w in
  let room := RECORDER_BUFFER_BYTES - fill s in
  let rest := usable - offset in
  let take_ := if rest <? room then rest else room in
  let chunk := slice (Z.to_nat offset) (Z.to_nat take_) d in
  let fill' := fill s + take_ in
  let s' := Slot (splice (Z.to_nat (fill s)) chunk (data s)) fill' (full s) in
  let p := set_counters (set_slot p w s') (count_captured (counters p) take_) in
  if fill' =? RECORDER_BUFFER_BYTES
  then (offset + take_, set_write (set_slot p w (Slot (data s') fill' true)) (negb w))
  else (offset + take_, p).

(** The [while (offset < usable)] loop; [None] when the fuel runs out. *)
Fixpoint produce_loop (fuel : nat) (p : pcm_pipeline_t) (d : bytes)
    (usable offset : Z) : option (Z * pcm_pipeline_t) :=
  match fuel with
  | O => None
  | S k =>
      if negb (offset <? usable) then Some (zlen d - offset, p)
      else if full (slot0 p) && full (slot1 p) then
        let rest := usable - offset in
        Some (zlen d - offset, set_counters p (count_overflow (counters p) rest))
      else
        let p := if full (slot p (write_index p))
                 then set_write p (negb (write_index p)) else p in
        let '(offset, p) := produce_chunk p d usable offset in
        produce_loop k p d usable offset
  end.

(** Four passes: two slots to fill, one to find both full, one to leave. *)
Definition pcm_pipeline_produce (p : pcm_pipeline_t) (d : bytes)
    : option (Z * pcm_pipeline_t) :=
  if zlen d =? 0 then Some (0, p)
  else produce_loop 4 p d (zlen d - zlen d mod RECORDER_BYTES_PER_SAMPLE) 0.

Definition pcm_pipeline_has_full (p : pcm_pipeline_t) : bool :=
  full (slot0 p) || full (slot1 p).

(** The slot [peek] and [release] act on: the read index, else the other. *)
Definition full_index (p : pcm_pipeline_t) : option bool :=
  let i := read_index p in
  if full (slot p i) then Some i
  else if full (slot p (negb i)) then Some (negb i) else None.

Definition pcm_pipeline_peek_full (p : pcm_pipeline_t) : option (bytes * Z) :=
  match full_index p with
  | None => None
  | Some i => Some (data (slot p i), RECORDER_BUFFER_BYTES)
  end.

Definition pcm_pipeline_release_full (p : pcm_pipeline_t) : pcm_pipeline_t :=
  match full_index p with
  | None => p
  | Some i =>
      let p := set_slot p i (Slot (data (slot p i)) 0 false) in
      let p := set_read p (negb i) in
      let c := counters p in
      set_counters p
        (Counters (samples_captured c) (u32 (chunks_written c + 1))
           (buffer_overflow c) (buffer_drop_bytes c) (buffer_drop_samples c)
           (dma_overrun_events c) (dma_drop_bytes c) (dma_drop_samples c)
           (dma_read_stalls c) (sd_write_errors c) (max_sd_latency_us c))
  end.

Definition pcm_pipeline_note_sd_write (p : pcm_pipeline_t) (latency_us : Z)
    : pcm_pipeline_t :=
  let c := counters p in
  if max_sd_latency_us c <? latency_us then
    set_counters p
      (Counters (samples_captured c) (chunks_written c) (buffer_overflow c)
         (buffer_drop_bytes c) (buffer_drop_samples c) (dma_overrun_events c)
         (dma_drop_bytes c) (dma_drop_samples c) (dma_read_stalls c)
         (sd_write_errors c) latency_us)
  else p.

Definition pcm_pipeline_note_driver_overflow (p : pcm_pipeline_t)
    (events drop_bytes : Z) : pcm_pipeline_t :=
  if (events =? 0) && (drop_bytes =? 0) then p else
  let c := counters p in
  set_counters p
    (Counters (samples_captured c) (chunks_written c) (buffer_overflow c)
       (buffer_drop_bytes c) (buffer_drop_samples c)
       (u32 (dma_overrun_events c + events)) (u32 (dma_drop_bytes c + drop_bytes))
       (u32 (dma_drop_samples c + u32 (drop_bytes / RECORDER_BYTES_PER_SAMPLE)))
       (dma_read_stalls c) (sd_write_errors c) (max_sd_latency_us c)).

Definition pcm_pipeline_note_read_stall (p : pcm_pipeline_t) : pcm_pipeline_t :=
  let c := counters p in
  set_counters p
    (Counters (samples_captured c) (chunks_written c) (buffer_overflow c)
       (buffer_drop_bytes c) (buffer_drop_samples c) (dma_overrun_events c)
       (dma_drop_bytes c) (dma_drop_samples c) (u32 (dma_read_stalls c + 1))
       (sd_write_errors c) (max_sd_latency_us c)).

Definition pcm_pipeline_note_sd_error (p : pcm_pipeline_t) : pcm_pipeline_t :=
  let c := counters p in
  set_counters p
    (Counters (samples_captured c) (chunks_written c) (buffer_overflow c)
       (buffer_drop_bytes c) (buffer_drop_samples c) (dma_overrun_events c)
       (dma_drop_bytes c) (dma_drop_samples c) (dma_read_stalls c)
       (u32 (sd_write_errors c + 1)) (max_sd_latency_us c)).

(** ** The abstract queue

    A pipeline stands for a queue of bytes: the full slot at the read index,
    the other slot when it is full, then the filled part of the slot being
    written. *)

Definition CAP : Z := RECORDER_BUFFER_BYTES.

Definition full_part (s : slot_t) : bytes := if full s then data s else [].

Definition active_part (s : slot_t) : bytes :=
  if full s then [] else take (Z.to_nat (fill s)) (data s).

#[global] Arguments full_part : simpl never.
#[global] Arguments active_part : simpl never.

Definition queued (p : pcm_pipeline_t) : bytes :=
  let r := read_index p in
  (full_part (slot p r) ++ full_part (slot p (negb r)) ++
   active_part (slot p (write_index p)))%list.

Record slot_wf (s : slot_t) : Prop := SlotWf {
  data_length : zlen (data s) = CAP;
  fill_bounds : if full s then fill s = CAP else 0 <= fill s < CAP;
  fill_even : fill s mod 2 = 0;
}.

(** Which slots are full, in read order, fixes the write index. *)
Definition indices_wf (p : pcm_pipeline_t) : Prop :=
  let r := read_index p in
  match full (slot p r), full (slot p (negb r)) with
  | false, false => write_index p = r /\ fill (slot p (negb r)) = 0
  | true, false => write_index p = negb r
  | true, true => write_index p = r
  | false, true => False
  end.

Record counters_wf (c : recorder_counters_t) : Prop := CountersWf {
  samples_u32 : u32 (samples_captured c) = samples_captured c;
  overflow_u32 : u32 (buffer_overflow c) = buffer_overflow c;
  drop_bytes_u32 : u32 (buffer_drop_bytes c) = buffer_drop_bytes c;
  drop_samples_u32 : u32 (buffer_drop_samples c) = buffer_drop_samples c;
}.

Record wf (p : pcm_pipeline_t) : Prop := Wf {
  wf_slot0 : slot_wf (slot0 p);
  wf_slot1 : slot_wf (slot1 p);
  wf_indices : indices_wf p;
  wf_counters : counters_wf (counters p);
}.

(** Slots still free, the loop's measure. *)
Definition free_slots (p : pcm_pipeline_t) : nat :=
  (if full (slot0 p) then 0 else 1) + (if full (slot1 p) then 0 else 1).

Lemma zlen_take {A} n (l : list A) : 0 <= n <= zlen l -> zlen (take (Z.to_nat n) l) = n.
Proof. unfold zlen. intros. rewrite length_take. lia. Qed.

Lemma full_part_length s : slot_wf s -> zlen (full_part s) = if full s then CAP else 0.
Proof. intros []. unfold full_part. by destruct (full s). Qed.

Lemma active_part_length s :
  slot_wf s -> zlen (active_part s) = if full s then 0 else fill s.
Proof.
  intros [Hl Hb _]. unfold active_part. destruct (full s); [done|].
  apply zlen_take. rewrite Hl. lia.
Qed.

Lemma slot_wf_slot p i : wf p -> slot_wf (slot p i).
Proof. intros []. by destruct i. Qed.

#[export] Hint Resolve slot_wf_slot : m5.

Lemma queued_length p : wf p ->
  zlen (queued p) = CAP * (2 - Z.of_nat (free_slots p)) +
    (if full (slot p (write_index p)) then 0 else fill (slot p (write_index p))).
Proof.
  intros H. unfold queued. rewrite !zlen_app.
  rewrite !full_part_length, active_part_length by auto with m5.
  unfold free_slots.
  destruct (read_index p), (write_index p); cbn [slot negb];
    destruct (full (slot0 p)), (full (slot1 p)); lia.
Qed.

Lemma active_full p :
  wf p -> full (slot p (write_index p)) = Nat.eqb (free_slots p) 0.
Proof.
  intros [_ _ Hi _]. revert Hi. unfold indices_wf, free_slots.
  destruct (read_index p), (write_index p); cbn [slot negb];
    destruct (full (slot0 p)), (full (slot1 p)); cbn; intuition congruence.
Qed.

Lemma CAP_val : CAP = 32768.
Proof. done. Qed.

Lemma free_slots_le p : (free_slots p <= 2)%nat.
Proof. unfold free_slots. by destruct (full (slot0 p)), (full (slot1 p)); lia. Qed.

Lemma queued_bounds p : wf p -> 0 <= zlen (queued p) <= 2 * CAP.
Proof.
  intros H. split; [apply zlen_nonneg|]. rewrite queued_length by done.
  pose proof (slot_wf_slot p (write_index p) H) as [_ Hb _].
  pose proof (free_slots_le p). rewrite active_full in * by done. rewrite CAP_val in *.
  destruct (Nat.eqb_spec (free_slots p) 0); lia.
Qed.

(** Filling the active slot, short of full and up to full. *)
Lemma fill_slot s chunk f :
  slot_wf s -> full s = false -> f = fill s + zlen chunk -> f <= CAP ->
  zlen chunk mod 2 = 0 ->
  let d' := splice (Z.to_nat (fill s)) chunk (data s) in
  (f < CAP -> slot_wf (Slot d' f false) /\
     active_part (Slot d' f false) = (active_part s ++ chunk)%list) /\
  (f = CAP -> slot_wf (Slot d' f true) /\
     full_part (Slot d' f true) = (active_part s ++ chunk)%list).
Proof.
  intros [Hl Hb He] Hf -> Hc Hm d'. rewrite Hf in Hb.
  pose proof (zlen_nonneg chunk).
  assert (Hd : zlen d' = CAP).
  { unfold zlen, d' in *. rewrite length_splice; lia. }
  assert (Ht : take (Z.to_nat (fill s + zlen chunk)) d' = (active_part s ++ chunk)%list).
  { unfold active_part. rewrite Hf, <- take_splice by (unfold zlen in *; lia).
    f_equal. unfold zlen. lia. }
  split; intros H1; (split; [split; cbn; [done|lia|zlia]|]).
  - unfold active_part at 1. cbn. done.
  - unfold full_part. cbn. rewrite <- Ht, H1, take_ge; [done|]. unfold zlen in *; lia.
Qed.

(** ** [produce] *)

(** What the loop does from [offset]: [n] bytes go in, the rest is dropped. *)
Definition produce_post (p : pcm_pipeline_t) (d : bytes) (usable offset : Z)
    (ret : Z) (p' : pcm_pipeline_t) : Prop :=
  let n := Z.min (usable - offset) (2 * CAP - zlen (queued p)) in
  let rest := usable - offset - n in
  wf p' /\ queued p' = (queued p ++ slice (Z.to_nat offset) (Z.to_nat n) d)%list /\
  ret = zlen d - offset - n /\
  samples_captured (counters p') = u32 (samples_captured (counters p) + n / 2) /\
  buffer_overflow (counters p') =
    u32 (buffer_overflow (counters p) + (if 0 <? rest then 1 else 0)) /\
  buffer_drop_bytes (counters p') = u32 (buffer_drop_bytes (counters p) + rest) /\
  buffer_drop_samples (counters p') =
    u32 (buffer_drop_samples (counters p) + rest / 2).

Lemma count_captured_wf c n : counters_wf c -> counters_wf (count_captured c n).
Proof. intros []. split; cbn; auto. unfold u32. by rewrite Zmod_mod. Qed.

Lemma count_overflow_wf c n : counters_wf c -> counters_wf (count_overflow c n).
Proof. intros []. split; cbn; auto; unfold u32; by rewrite Zmod_mod. Qed.

#[local] Hint Resolve count_captured_wf count_overflow_wf : m5.

Lemma full_part_false s : full s = false -> full_part s = [].
Proof. unfold full_part. by intros ->. Qed.

Lemma active_part_true s : full s = true -> active_part s = [].
Proof. unfold active_part. by intros ->. Qed.

Lemma active_part_empty s : full s = false -> fill s = 0 -> active_part s = [].
Proof. unfold active_part. by intros -> ->. Qed.

(** Queue equations of a pipeline with known fullness flags. *)
Ltac queue_eq :=
  unfold queued; cbn [slot negb read_index write_index slot0 slot1 set_write set_slot
    set_counters set_read full data fill];
  repeat match goal with
  | H : full_part ?s = _ |- context [full_part ?s] => rewrite H
  | H : active_part ?s = _ |- context [active_part ?s] => rewrite H
  end;
  rewrite ?app_nil_r, ?app_nil_l, ?app_assoc;
  repeat match goal with
  | H : full ?s = false |- context [full_part ?s] => rewrite (full_part_false s H)
  | H : full ?s = true |- context [active_part ?s] => rewrite (active_part_true s H)
  | H : full ?s = false, H' : fill ?s = 0 |- context [active_part ?s] =>
      rewrite (active_part_empty s H H')
  | |- context [full_part (Slot ?d ?f false)] =>
      rewrite (full_part_false (Slot d f false) eq_refl)
  | |- context [active_part (Slot ?d ?f true)] =>
      rewrite (active_part_true (Slot d f true) eq_refl)
  end;
  rewrite ?app_nil_r, ?app_nil_l, ?app_assoc; done.

Lemma produce_chunk_spec p d usable offset :
  wf p -> (0 < free_slots p)%nat -> 0 <= offset < usable -> usable <= zlen d ->
  offset mod 2 = 0 -> usable mod 2 = 0 ->
  let n := Z.min (usable - offset) (CAP - fill (slot p (write_index p))) in
  exists p', produce_chunk p d usable offset = (offset + n, p') /\ wf p' /\
    queued p' = (queued p ++ slice (Z.to_nat offset) (Z.to_nat n) d)%list /\
    (offset + n = usable \/ S (free_slots p') = free_slots p) /\
    0 < n /\ (offset + n) mod 2 = 0 /\
    counters p' = count_captured (counters p) n.
Proof.
  intros Hwf Hfree Ho Hu Hom Hum. cbn zeta.
  set (n := Z.min _ _). unfold produce_chunk.
  pose proof (active_full p Hwf) as Hf. 
  rewrite (proj2 (Nat.eqb_neq _ 0)) in Hf by lia.
  pose proof (slot_wf_slot p (write_index p) Hwf) as Hs.
  assert (Hn : (if usable - offset <? CAP - fill (slot p (write_index p))
                then usable - offset else CAP - fill (slot p (write_index p))) = n).
  { unfold n. destruct (Z.ltb_spec (usable - offset) (CAP - fill (slot p (write_index p)))); lia. }
  change RECORDER_BUFFER_BYTES with CAP. rewrite Hn. clear Hn.
  set (chunk := slice _ _ d).
  assert (Hb : 0 <= fill (slot p (write_index p)) < CAP).
  { destruct Hs as [_ Hb _]. by rewrite Hf in Hb. }
  assert (Hnb : 0 < n <= usable - offset /\ n <= CAP - fill (slot p (write_index p)) /\
                (n < CAP - fill (slot p (write_index p)) -> n = usable - offset)) by lia.
  assert (Hlc : zlen chunk = n).
  { unfold chunk, slice. apply zlen_take. unfold zlen in *. rewrite length_drop. lia. }
  assert (Hne : n mod 2 = 0).
  { destruct Hs as [_ _ He]. unfold n. rewrite CAP_val. zlia. }
  destruct (fill_slot _ chunk (fill (slot p (write_index p)) + n) Hs Hf)
    as [H1 H2]; [lia|lia|by rewrite Hlc|].
  clearbody n. destruct Hwf as [Hw0 Hw1 Hi Hc].
  destruct p as [s0 s1 r w c]. unfold indices_wf in Hi. cbn in *.
  destruct (Z.eqb_spec (fill (slot (Pipeline s0 s1 r w c) w) + n) CAP) as [Hfull|Hfull];
    [destruct (H2 Hfull) as [H3 H4]|destruct H1 as [H3 H4]; [lia|]];
    (eexists; split; [reflexivity|]; split_and!);
    destruct r, w; cbn in *; destruct (full s0) eqn:Hf0, (full s1) eqn:Hf1; try done;
    try (destruct Hi; done); try destruct Hi; try lia; try zlia;
    try (split; cbn; auto with m5; unfold indices_wf; cbn; by rewrite ?Hf0, ?Hf1);
    try (by queue_eq);
    try (by right; unfold free_slots; cbn; rewrite ?Hf0, ?Hf1); left; lia.
Qed.

Lemma free_slots_full p :
  (full (slot0 p) && full (slot1 p)) = Nat.eqb (free_slots p) 0.
Proof. unfold free_slots. by destruct (full (slot0 p)), (full (slot1 p)). Qed.

Lemma slice_app {A} (o n m : nat) (l : list A) :
  (slice o n l ++ slice (o + n) m l)%list = slice o (n + m) l.
Proof. unfold slice. by rewrite <- drop_drop, take_take_drop. Qed.

Lemma slice_0 {A} o (l : list A) : slice o 0 l = [].
Proof. done. Qed.

(** Nothing left to store. *)
Lemma produce_post_done p d usable : wf p -> produce_post p d usable usable (zlen d - usable) p.
Proof.
  intros Hwf. pose proof (queued_bounds p Hwf). unfold produce_post.
  replace (Z.min (usable - usable) (2 * CAP - zlen (queued p))) with 0 by lia.
  rewrite !Z.sub_diag, Z.sub_0_r. change (Z.to_nat 0) with 0%nat.
  change (0 / 2) with 0. change (0 <? 0) with false. cbv iota.
  rewrite slice_0, app_nil_r, !Z.add_0_r. destruct (wf_counters p Hwf).
  split_and!; congruence || lia || done.
Qed.

Lemma set_counters_wf p c : wf p -> counters_wf c -> wf (set_counters p c).
Proof. intros [] ?. by split. Qed.

(** No slot free: the rest is dropped and counted. *)
Lemma produce_post_overflow p d usable offset :
  wf p -> free_slots p = 0%nat -> offset < usable ->
  produce_post p d usable offset (zlen d - offset)
    (set_counters p (count_overflow (counters p) (usable - offset))).
Proof.
  intros Hwf H0 Hlt. pose proof (queued_length p Hwf) as Hq.
  rewrite (active_full p Hwf), H0 in Hq. cbn in Hq. unfold produce_post.
  replace (Z.min (usable - offset) (2 * CAP - zlen (queued p))) with 0 by lia.
  rewrite !Z.sub_0_r, (proj2 (Z.ltb_lt _ _)) by lia. change (Z.to_nat 0) with 0%nat.
  change (0 / 2) with 0. rewrite slice_0, app_nil_r, Z.add_0_r.
  rewrite (samples_u32 _ (wf_counters p Hwf)).
  split; [by apply set_counters_wf, count_overflow_wf, wf_counters|].
  split_and!; try done; try lia; unfold count_overflow; cbn; by rewrite ?u32_add_r.
Qed.

(** One chunk, then the loop's result from there. *)
Lemma produce_post_chunk p d usable offset n p1 ret p' :
  wf p -> produce_post p1 d usable (offset + n) ret p' ->
  queued p1 = (queued p ++ slice (Z.to_nat offset) (Z.to_nat n) d)%list ->
  counters p1 = count_captured (counters p) n ->
  0 <= offset -> 0 < n <= usable - offset -> n <= 2 * CAP - zlen (queued p) ->
  usable <= zlen d -> n mod 2 = 0 -> produce_post p d usable offset ret p'.
Proof.
  intros Hwf (Hwf' & Hq' & -> & Hs & Ho & Hb & Hds) Hq1 Hc H0 Hn Hn2 Hu Hm.
  assert (Hl : zlen (queued p1) = zlen (queued p) + n).
  { rewrite Hq1, zlen_app. f_equal. unfold slice. apply zlen_take.
    unfold zlen in *. rewrite length_drop. lia. }
  pose proof (queued_bounds p Hwf). unfold produce_post. rewrite Hl in *.
  set (m := Z.min (usable - (offset + n)) _) in *.
  replace (Z.min (usable - offset) (2 * CAP - zlen (queued p))) with (n + m) by lia.
  replace (usable - offset - (n + m)) with (usable - (offset + n) - m) by lia.
  rewrite Hc in *. cbn in *. split_and!; try done; try lia.
  - rewrite Hq', Hq1, <- app_assoc. f_equal.
    rewrite !Z2Nat.inj_add by lia. apply slice_app.
  - rewrite Hs, u32_add_l. change RECORDER_BYTES_PER_SAMPLE with 2.
    replace ((n + m) / 2) with (n / 2 + m / 2) by zlia.
    rewrite <- (Z.add_assoc _ (u32 _)), (Z.add_comm (u32 _)), Z.add_assoc, u32_add_r.
    f_equal. lia.
Qed.

Lemma produce_loop_spec fuel p d usable offset :
  wf p -> (0 < fuel)%nat -> (offset < usable -> (1 + free_slots p < fuel)%nat) ->
  0 <= offset <= usable -> usable <= zlen d -> offset mod 2 = 0 -> usable mod 2 = 0 ->
  exists ret p', produce_loop fuel p d usable offset = Some (ret, p') /\
    produce_post p d usable offset ret p'.
Proof.
  revert p offset. induction fuel as [|k IH]; intros p offset Hwf H0 Hfuel Ho Hu Hom Hum; [lia|].
  cbn [produce_loop]. destruct (Z.ltb_spec offset usable) as [Hlt|Hge]; cbn [negb].
  2: { replace offset with usable by lia. eauto using produce_post_done. }
  rewrite free_slots_full. destruct (Nat.eqb_spec (free_slots p) 0) as [Hf|Hf].
  { eauto using produce_post_overflow. }
  rewrite (active_full p Hwf), (proj2 (Nat.eqb_neq _ _) Hf).
  destruct (produce_chunk_spec p d usable offset) as
    (p1 & -> & Hwf1 & Hq1 & Hfree & Hn & Hm & Hc); [done|lia..|].
  pose proof (queued_length p Hwf) as Hq. pose proof (free_slots_le p).
  rewrite (active_full p Hwf), (proj2 (Nat.eqb_neq _ _) Hf) in Hq.
  destruct (IH p1 (offset + Z.min (usable - offset) (CAP - fill (slot p (write_index p)))))
    as (ret & p' & -> & Hpost); [done|lia..|].
  eexists _, _. split; [done|].
  eapply produce_post_chunk; [done|exact Hpost|exact Hq1|exact Hc|rewrite CAP_val in *; lia..|].
  zlia.
Qed.

Lemma init_wf b0 b1 : zlen b0 = CAP -> zlen b1 = CAP -> wf (pcm_pipeline_init b0 b1).
Proof. intros. by repeat split. Qed.

#[export] Hint Resolve init_wf : m5.

Definition backing : bytes := replicate (Z.to_nat CAP) 0.
Definition empty_pipeline : pcm_pipeline_t := pcm_pipeline_init backing backing.

Lemma empty_pipeline_wf : wf empty_pipeline.
Proof. apply init_wf; by vm_compute. Qed.

(** ** The contract: a bounded byte queue drained in whole buffers *)

Inductive op :=
  | Produce (d : bytes)
  | Drain.

(** What the capture task ([Produce]: returned count) and the writer task
    ([Drain]: bytes of the buffer it peeked, wrote and released) observe. *)
Definition impl_step (p : pcm_pipeline_t) (o : op) : option (pcm_pipeline_t * (Z * bytes)) :=
  match o with
  | Produce d => '(n, p') ← pcm_pipeline_produce p d; Some (p', (n, []))
  | Drain => match pcm_pipeline_peek_full p with
             | None => Some (p, (0, []))
             | Some (b, len) => Some (pcm_pipeline_release_full p, (len, b))
             end
  end.

Definition spec_step (q : bytes) (o : op) : bytes * (Z * bytes) :=
  match o with
  | Produce d =>
      let usable := zlen d - zlen d mod 2 in
      let n := Z.min usable (2 * CAP - zlen q) in
      ((q ++ take (Z.to_nat n) d)%list, (zlen d - n, []))
  | Drain => if CAP <=? zlen q
             then (drop (Z.to_nat CAP) q, (CAP, take (Z.to_nat CAP) q))
             else (q, (0, []))
  end.

Fixpoint impl_run (p : pcm_pipeline_t) (os : list op)
    : option (pcm_pipeline_t * list (Z * bytes)) :=
  match os with
  | [] => Some (p, [])
  | o :: os => '(p, x) ← impl_step p o; '(p, xs) ← impl_run p os; Some (p, x :: xs)
  end.

Fixpoint spec_run (q : bytes) (os : list op) : bytes * list (Z * bytes) :=
  match os with
  | [] => (q, [])
  | o :: os => let '(q, x) := spec_step q o in
               let '(q, xs) := spec_run q os in (q, x :: xs)
  end.

Lemma produce_spec p d : wf p ->
  exists ret p', pcm_pipeline_produce p d = Some (ret, p') /\
    produce_post p d (zlen d - zlen d mod 2) 0 ret p'.
Proof.
  intros Hwf. pose proof (zlen_nonneg d). unfold pcm_pipeline_produce.
  destruct (Z.eqb_spec (zlen d) 0) as [Hz|Hz].
  - eexists _, _. split; [done|]. rewrite Hz. cbn.
    pose proof (produce_post_done p d 0 Hwf) as Hp. by rewrite Hz in Hp.
  - pose proof (free_slots_le p). change RECORDER_BYTES_PER_SAMPLE with 2.
    apply produce_loop_spec; try done; try lia; zlia.
Qed.

(** The full slot peek finds is the front of the queue. *)
Lemma full_index_spec p : wf p ->
  match full_index p with
  | Some i => i = read_index p /\ full (slot p i) = true /\ CAP <= zlen (queued p)
  | None => zlen (queued p) < CAP /\ full (slot0 p) = false /\ full (slot1 p) = false
  end.
Proof.
  intros Hwf. pose proof (queued_length p Hwf) as Hq. pose proof Hwf as [H0 H1 Hi _].
  destruct H0 as [_ Hb0 _], H1 as [_ Hb1 _]. revert Hq Hi Hb0 Hb1.
  unfold full_index, indices_wf, free_slots. rewrite CAP_val.
  destruct (read_index p) eqn:Hr, (write_index p); cbn [slot negb];
    destruct (full (slot0 p)) eqn:Hf0, (full (slot1 p)) eqn:Hf1; cbn [slot];
    intros; try done; rewrite ?Hf0, ?Hf1; split_and!; try done; try lia; naive_solver.
Qed.

Lemma release_spec p : wf p -> CAP <= zlen (queued p) ->
  pcm_pipeline_peek_full p = Some (take (Z.to_nat CAP) (queued p), CAP) /\
  wf (pcm_pipeline_release_full p) /\
  queued (pcm_pipeline_release_full p) = drop (Z.to_nat CAP) (queued p).
Proof.
  intros Hwf Hq. pose proof (full_index_spec p Hwf) as Hf.
  unfold pcm_pipeline_peek_full, pcm_pipeline_release_full.
  destruct (full_index p) as [i|]; [|lia]. destruct Hf as (-> & Hf & _).
  assert (Hd : queued p = (data (slot p (read_index p)) ++
     full_part (slot p (negb (read_index p))) ++ active_part (slot p (write_index p)))%list).
  { unfold queued. f_equal. unfold full_part. by rewrite Hf. }
  destruct (slot_wf_slot p (read_index p) Hwf) as [Hl Hb He].
  assert (Hn : length (data (slot p (read_index p))) = Z.to_nat CAP) by (unfold zlen in Hl; lia).
  rewrite Hd, <- Hn, take_app_length, drop_app_length. split; [done|].
  destruct Hwf as [H0 H1 Hi Hc]. destruct p as [s0 s1 r w c]. unfold indices_wf in Hi.
  assert (Hz : forall s, slot_wf s -> slot_wf (Slot (data s) 0 false)).
  { intros s []. split; cbn; [done|by rewrite CAP_val|done]. }
  destruct r, w; cbn in *; destruct (full s0) eqn:Hf0, (full s1) eqn:Hf1; try done;
    (split; [split; cbn; auto; [unfold indices_wf; cbn; by rewrite ?Hf0, ?Hf1|by destruct Hc]
            |queue_eq]).
Qed.

(** The slot of [peek] holds the front of the queue, and stays it while the
    capture task produces. *)
Lemma full_index_data p i : wf p -> full_index p = Some i ->
  CAP <= zlen (queued p) /\ zlen (data (slot p i)) = CAP /\
  take (Z.to_nat CAP) (data (slot p i)) = take (Z.to_nat CAP) (queued p).
Proof.
  intros Hwf Hi. pose proof (full_index_spec p Hwf) as Hf. rewrite Hi in Hf.
  destruct Hf as (_ & _ & Hq). destruct (release_spec p Hwf Hq) as [Hp _].
  pose proof (data_length _ (slot_wf_slot p i Hwf)) as Hl.
  unfold pcm_pipeline_peek_full in Hp. rewrite Hi in Hp. injection Hp as Hp.
  split_and!; [done..|]. by rewrite Hp, take_take, Nat.min_id.
Qed.

Lemma produce_keeps_read p d ret p' :
  pcm_pipeline_produce p d = Some (ret, p') -> read_index p' = read_index p.
Proof.
  unfold pcm_pipeline_produce. destruct (_ =? _); [by intros [= _ <-]|].
  generalize 4%nat (zlen d - zlen d mod RECORDER_BYTES_PER_SAMPLE) 0.
  intros fuel usable. revert p. induction fuel as [|k IH]; intros p offset; cbn [produce_loop]; [done|].
  destruct (negb _); [by intros [= _ <-]|]. destruct (_ && _); [by intros [= _ <-]|].
  assert (Hr : forall q : pcm_pipeline_t, read_index (produce_chunk q d usable offset).2 = read_index q).
  { intros q. unfold produce_chunk. by destruct (_ =? _), (write_index q). }
  set (q := if full (slot p (write_index p)) then _ else p).
  assert (Hq : read_index q = read_index p) by (unfold q; by destruct (full _)).
  specialize (Hr q). destruct (produce_chunk q d usable offset) as [offset' q'].
  intros ->%IH. cbn in Hr. congruence.
Qed.

Lemma produce_keeps_full p d ret p' i :
  wf p -> pcm_pipeline_produce p d = Some (ret, p') -> full_index p = Some i -> full_index p' = Some i.
Proof.
  intros Hwf Hp Hi. pose proof (produce_keeps_read _ _ _ _ Hp) as Hr.
  destruct (full_index_data p i Hwf Hi) as [Hq _].
  pose proof (full_index_spec p Hwf) as Hf. rewrite Hi in Hf. destruct Hf as (-> & _).
  destruct (produce_spec p d Hwf) as (ret' & p2 & Hp2 & Hwf2 & Hq2 & _).
  rewrite Hp in Hp2. injection Hp2 as <- <-.
  pose proof (full_index_spec p' Hwf2) as Hf. destruct (full_index p') as [j|].
  - destruct Hf as (-> & _). by rewrite Hr.
  - rewrite Hq2, zlen_app in Hf. pose proof (zlen_nonneg (slice (Z.to_nat 0)
      (Z.to_nat (Z.min (zlen d - zlen d mod 2 - 0) (2 * CAP - zlen (queued p)))) d)). lia.
Qed.

Lemma impl_step_refines p o : wf p ->
  exists p' x, impl_step p o = Some (p', x) /\ wf p' /\
    spec_step (queued p) o = (queued p', x).
Proof.
  intros Hwf. destruct o as [d|]; cbn [impl_step spec_step].
  - destruct (produce_spec p d Hwf) as (ret & p' & -> & Hwf' & Hq & Hr & _).
    rewrite !Z.sub_0_r in *. exists p', (ret, []). cbn. split_and!; [done..|].
    rewrite Hq, Hr. unfold slice. by rewrite drop_0.
  - destruct (Z.leb_spec CAP (zlen (queued p))) as [Hc|Hc].
    + destruct (release_spec p Hwf Hc) as (-> & Hwf' & Hq).
      eexists _, _. split; [done|]. by rewrite Hq.
    + pose proof (full_index_spec p Hwf) as Hf. unfold pcm_pipeline_peek_full.
      destruct (full_index p); [lia|]. by eexists _, _.
Qed.

(** C8: the ping-pong buffer implements a bounded byte queue drained in whole
    32 KiB buffers: for every interleaving of captures (of any length) and
    drains, what the capture task and the writer task observe is what the
    queue of capacity 65536 gives, no byte is reordered, duplicated or lost
    inside the capacity, and no loop of the code runs out of its bound. *)
Theorem pipeline_refines_queue b0 b1 os :
  zlen b0 = CAP -> zlen b1 = CAP ->
  exists p xs, impl_run (pcm_pipeline_init b0 b1) os = Some (p, xs) /\
    wf p /\ spec_run [] os = (queued p, xs).
Proof.
  intros H0 H1.
  assert (H : forall os p, wf p -> exists p' xs, impl_run p os = Some (p', xs) /\
     wf p' /\ spec_run (queued p) os = (queued p', xs)).
  { clear os. induction os as [|o os IH]; intros p Hwf; cbn; [eauto|].
    destruct (impl_step_refines p o Hwf) as (p1 & x & -> & Hwf1 & ->). cbn.
    destruct (IH p1 Hwf1) as (p' & xs & -> & Hwf' & ->). cbn. eauto. }
  apply (H os (pcm_pipeline_init b0 b1)). auto with m5.
Qed.

Lemma pipeline_refines_queue_witness :
  exists p xs, impl_run empty_pipeline [Produce [1; 2; 3]; Drain] = Some (p, xs) /\
    wf p /\ spec_run [] [Produce [1; 2; 3]; Drain] = (queued p, xs).
Proof. apply pipeline_refines_queue; by vm_compute. Defined.

(** Every captured byte is accounted for: a produce call stores what fits
    behind the queued bytes, counts the stored samples, and counts exactly
    the bytes and samples it dropped (one overflow event when there are any),
    all modulo 2^32; the well-formedness of the buffer is preserved. *)
Theorem produce_accounts p d : wf p ->
  exists ret p', pcm_pipeline_produce p d = Some (ret, p') /\ wf p' /\
    let usable := zlen d - zlen d mod 2 in
    let stored := Z.min usable (2 * CAP - zlen (queued p)) in
    queued p' = (queued p ++ take (Z.to_nat stored) d)%list /\
    ret = zlen d - stored /\
    samples_captured (counters p') = u32 (samples_captured (counters p) + stored / 2) /\
    buffer_drop_bytes (counters p') =
      u32 (buffer_drop_bytes (counters p) + (usable - stored)) /\
    buffer_drop_samples (counters p') =
      u32 (buffer_drop_samples (counters p) + (usable - stored) / 2) /\
    buffer_overflow (counters p') =
      u32 (buffer_overflow (counters p) + (if stored <? usable then 1 else 0)).
Proof.
  intros Hwf. destruct (produce_spec p d Hwf) as (ret & p' & Hp & Hpost).
  exists ret, p'. unfold produce_post in Hpost. rewrite !Z.sub_0_r in Hpost.
  destruct Hpost as (Hwf' & Hq & Hr & Hs & Ho & Hb & Hds). cbn zeta.
  unfold slice in Hq. rewrite drop_0 in Hq. split_and!; try done.
  rewrite Ho. f_equal. f_equal.
  set (u := zlen d - _ mod 2). set (n := Z.min _ _).
  destruct (Z.ltb_spec 0 (u - n)), (Z.ltb_spec n u); lia.
Qed.

Lemma produce_accounts_witness :
  exists ret p', pcm_pipeline_produce empty_pipeline [7; 8; 9; 10] = Some (ret, p') /\
    ret = 0.
Proof.
  destruct (produce_accounts empty_pipeline [7; 8; 9; 10] empty_pipeline_wf)
    as (ret & p' & Hp & _ & _ & Hr & _).
  exists ret, p'. split; [exact Hp|]. rewrite Hr. by vm_compute.
Defined.

(** With an odd byte count and room to spare, [produce] returns 1 although
    it dropped nothing and counted no overflow. *)
Theorem produce_odd_reports_one p d : wf p ->
  zlen d mod 2 = 1 -> zlen d <= 2 * CAP - zlen (queued p) ->
  exists p', pcm_pipeline_produce p d = Some (1, p') /\
    queued p' = (queued p ++ take (length d - 1) d)%list /\
    buffer_overflow (counters p') = buffer_overflow (counters p) /\
    buffer_drop_bytes (counters p') = buffer_drop_bytes (counters p).
Proof.
  intros Hwf Hodd Hfit. destruct (produce_spec p d Hwf) as (ret & p' & Hp & Hpost).
  unfold produce_post in Hpost. rewrite !Z.sub_0_r in Hpost. rewrite Hodd in *.
  rewrite Z.min_l, Z.sub_diag in Hpost by lia.
  destruct Hpost as (_ & Hq & Hr & _ & Ho & Hb & _).
  pose proof (wf_counters p Hwf) as [_ Hou Hbu _]. rewrite Z.add_0_r in *.
  exists p'. unfold slice in Hq. rewrite drop_0 in Hq.
  rewrite Hp, Hr, Hq, Ho, Hb, Hou, Hbu. split_and!; try done; try (f_equal; f_equal; lia).
  f_equal. f_equal. unfold zlen. lia.
Qed.

Lemma produce_odd_reports_one_witness :
  exists p', pcm_pipeline_produce empty_pipeline [5] = Some (1, p') /\
    buffer_overflow (counters p') = 0.
Proof.
  destruct (produce_odd_reports_one empty_pipeline [5] empty_pipeline_wf)
    as (p' & Hp & _ & Ho & _); [by vm_compute..|].
  exists p'. split; [exact Hp|]. rewrite Ho. by vm_compute.
Defined.
