(* ===== verification/WavPart.v ===== *)
(** * WavPart: the [.wav.part] file and the SD sink that owns it

    Models [wav_part.c] (the ESP build, with the media sync) and
    [sd_pcm_sink.c]: the 44-byte RIFF header, open / write / flush / close of
    the part file over [Stdio], and the sink's counters. *)

From S2P Require Import Prelude Monad Stdio RecorderConfig.

Definition put_u16le (v : Z) : bytes := [Z.land v 255; Z.land (Z.shiftr v 8) 255].

Definition put_u32le (v : Z) : bytes :=
  [Z.land v 255; Z.land (Z.shiftr v 8) 255;
   Z.land (Z.shiftr v 16) 255; Z.land (Z.shiftr v 24) 255].

Definition has_part_suffix (path : bytes) : bool := has_suffix RECORDER_PART_SUFFIX path.

Definition wav_part_build_header (pcm_bytes sample_rate_hz channels bits_per_sample : Z)
    : bytes :=
  let bytes_per_sample := u16 (bits_per_sample / 8) in
  let block_align := u16 (channels * bytes_per_sample) in
  let byte_rate := u32 (sample_rate_hz * block_align) in
  (txt "RIFF" ++ put_u32le (u32 (36 + pcm_bytes)) ++ txt "WAVE" ++ txt "fmt " ++
   put_u32le 16 ++ put_u16le 1 ++ put_u16le channels ++ put_u32le sample_rate_hz ++
   put_u32le byte_rate ++ put_u16le block_align ++ put_u16le bits_per_sample ++
   txt "data" ++ put_u32le pcm_bytes)%list.

(** [wav_part_t]. *)
Record wav_part_t := WavPart {
  fp : option handle;
  pcm_bytes : Z;
  sample_rate_hz : Z;
  channels : Z;
  bits_per_sample : Z;
  open : bool;
}.

Definition set_fp (p : wav_part_t) (h : option handle) (o : bool) : wav_part_t :=
  WavPart h (pcm_bytes p) (sample_rate_hz p) (channels p) (bits_per_sample p) o.

Definition wav_part_sync_media (h : handle) : io bool :=
  let* flushed := fflush h in
  if negb flushed then ret false else fsync h.

(** Header at offset 0, media sync, then back to the append position. *)
Definition wav_part_rewrite_header (p : wav_part_t) (h : handle) : io (bool * handle) :=
  let header := wav_part_build_header (pcm_bytes p) (sample_rate_hz p)
                                      (channels p) (bits_per_sample p) in
  let* s := fseek h 0 in
  match s with
  | None => ret (false, h)
  | Some h =>
      let* (ok, h) := fwrite h header in
      if negb ok then ret (false, h) else
      let* synced := wav_part_sync_media h in
      if negb synced then ret (false, h) else
      let tail := u32 (RECORDER_WAV_HEADER_SIZE + pcm_bytes p) in
      let* s := fseek h (Z.to_nat tail) in
      match s with
      | None => ret (false, h)
      | Some h => ret (true, h)
      end
  end.

Definition wav_part_open (part : wav_part_t) (path : bytes)
    (rate ch_ bits : Z) : io (bool * wav_part_t) :=
  if negb (has_part_suffix path) then ret (false, part) else
  if (ch_ =? 0) || (bits =? 0) || negb (bits mod 8 =? 0) then ret (false, part) else
  let* f := fopen_wb path in
  match f with
  | None => ret (false, set_fp part None false)
  | Some h =>
      let part := WavPart (Some h) 0 rate ch_ bits true in
      let closed := WavPart None 0 rate ch_ bits false in
      let* (ok, h) := fwrite h (wav_part_build_header 0 rate ch_ bits) in
      if negb ok then (let* _ := fclose h in ret (false, closed)) else
      let* synced := wav_part_sync_media h in
      if negb synced then (let* _ := fclose h in ret (false, closed)) else
      ret (true, set_fp part (Some h) true)
  end.

Definition wav_part_write (part : wav_part_t) (pcm : bytes) : io (bool * wav_part_t) :=
  match open part, fp part with
  | true, Some h =>
      if zlen pcm =? 0 then ret (true, part) else
      let usable := zlen pcm - zlen pcm mod (bits_per_sample part / 8) in
      if usable =? 0 then ret (true, part) else
      let* (ok, h) := fwrite h (take (Z.to_nat usable) pcm) in
      if negb ok then ret (false, set_fp part (Some h) true) else
      ret (true, WavPart (Some h) (u32 (pcm_bytes part + u32 usable))
                   (sample_rate_hz part) (channels part) (bits_per_sample part) true)
  | _, _ => ret (false, part)
  end.

Definition wav_part_flush (part : wav_part_t) : io (bool * wav_part_t) :=
  match open part, fp part with
  | true, Some h =>
      let* (ok, h) := wav_part_rewrite_header part h in
      ret (ok, set_fp part (Some h) true)
  | _, _ => ret (false, part)
  end.

Definition wav_part_close (part : wav_part_t) : io (bool * wav_part_t) :=
  if negb (open part) then ret (true, part) else
  match fp part with
  | None => ret (true, set_fp part None false)
  | Some h =>
      let* (ok, h) := wav_part_rewrite_header part h in
      let* closed := fclose h in
      ret (ok && closed, set_fp part None false)
  end.

(** ** [sd_pcm_sink.c] *)

(** [sd_pcm_sink_t]. *)
Record sd_pcm_sink_t := Sink {
  wav : wav_part_t;
  sink_open : bool;
  sink_chunks_written : Z;
  write_errors : Z;
  max_latency_us : Z;
}.

Definition sd_pcm_sink_open (s : sd_pcm_sink_t) (path : bytes) : io (bool * sd_pcm_sink_t) :=
  let* (ok, w) := wav_part_open (wav s) path RECORDER_SAMPLE_RATE_HZ
                    RECORDER_CHANNELS RECORDER_BITS_PER_SAMPLE in
  ret (ok, Sink w ok 0 0 0).

(** [start_us] and [end_us] are the two clock reads around the write. *)
Definition sd_pcm_sink_write_chunk (s : sd_pcm_sink_t) (d : bytes)
    (start_us end_us : Z) : io (bool * sd_pcm_sink_t) :=
  if negb (sink_open s) then ret (false, s) else
  let failed w := Sink w (sink_open s) (sink_chunks_written s)
                       (u32 (write_errors s + 1)) (max_latency_us s) in
  if negb (zlen d =? RECORDER_BUFFER_BYTES) then ret (false, failed (wav s)) else
  let* (ok, w) := wav_part_write (wav s) d in
  let latency_us := u32 (end_us - start_us) in
  if negb ok then ret (false, failed w) else
  ret (true, Sink w (sink_open s) (u32 (sink_chunks_written s + 1)) (write_errors s)
               (if max_latency_us s <? latency_us then latency_us
                else max_latency_us s)).

Definition sd_pcm_sink_flush (s : sd_pcm_sink_t) : io (bool * sd_pcm_sink_t) :=
  if negb (sink_open s) then ret (false, s) else
  let* (ok, w) := wav_part_flush (wav s) in
  ret (ok, Sink w (sink_open s) (sink_chunks_written s) (write_errors s) (max_latency_us s)).

Definition sd_pcm_sink_close (s : sd_pcm_sink_t) : io (bool * sd_pcm_sink_t) :=
  if negb (sink_open s) then ret (true, s) else
  let* (ok, w) := wav_part_close (wav s) in
  ret (ok, Sink w false (sink_chunks_written s) (write_errors s) (max_latency_us s)).

(** ** The header's shape

    [wav_header s1 s2]: the 44 bytes of a mono 16 kHz 16-bit header whose two
    size fields hold [s1] and [s2], whatever they are. *)

Definition wav_header (s1 s2 : bytes) : bytes :=
  (txt "RIFF" ++ s1 ++ txt "WAVEfmt " ++ put_u32le 16 ++ put_u16le 1 ++
   put_u16le RECORDER_CHANNELS ++ put_u32le RECORDER_SAMPLE_RATE_HZ ++
   put_u32le RECORDER_BYTE_RATE ++ put_u16le RECORDER_BLOCK_ALIGN ++
   put_u16le RECORDER_BITS_PER_SAMPLE ++ txt "data" ++ s2)%list.

(** A well-formed header with arbitrary sizes. *)
Definition header_shape (h : bytes) : Prop :=
  exists s1 s2, length s1 = 4%nat /\ length s2 = 4%nat /\ h = wav_header s1 s2.

Definition recorder_header (n : Z) : bytes :=
  wav_part_build_header n RECORDER_SAMPLE_RATE_HZ RECORDER_CHANNELS RECORDER_BITS_PER_SAMPLE.

Lemma recorder_header_eq n :
  recorder_header n = wav_header (put_u32le (u32 (36 + n))) (put_u32le n).
Proof. reflexivity. Qed.

Lemma recorder_header_shape n : header_shape (recorder_header n).
Proof. rewrite recorder_header_eq. by exists (put_u32le (u32 (36 + n))), (put_u32le n). Qed.

Lemma header_shape_length h : header_shape h -> length h = 44%nat.
Proof.
  intros (s1 & s2 & H1 & H2 & ->). unfold wav_header. rewrite !length_app, H1, H2. reflexivity.
Qed.

Lemma recorder_header_length n : length (recorder_header n) = 44%nat.
Proof. apply header_shape_length, recorder_header_shape. Qed.

(** A header overwritten by a prefix of another is a header still. *)
Lemma header_shape_mix k h h' :
  header_shape h -> header_shape h' -> header_shape (take k h ++ drop k h')%list.
Proof.
  intros Hh Hh'. destruct (decide (44 <= k)%nat) as [Hk|Hk].
  { rewrite take_ge, drop_ge, app_nil_r by (rewrite header_shape_length by done; lia). done. }
  destruct Hh as (s1 & s2 & H1 & H2 & ->), Hh' as (t1 & t2 & H3 & H4 & ->).
  destruct s1 as [|a0 [|a1 [|a2 [|a3 [|]]]]], s2 as [|b0 [|b1 [|b2 [|b3 [|]]]]],
    t1 as [|c0 [|c1 [|c2 [|c3 [|]]]]], t2 as [|d0 [|d1 [|d2 [|d3 [|]]]]]; try discriminate.
  do 44 (destruct k as [|k];
    [eexists [_; _; _; _], [_; _; _; _]; split; [|split]; reflexivity|]). lia.
Qed.

(** ** The part file's invariant *)

(** [path] holds a header and a payload that starts with [payload]. *)
Definition holds_audio (path payload : bytes) (d : disk) : Prop :=
  exists h junk, header_shape h /\ d !! path = Some (NFile (h ++ payload ++ junk)%list).

Lemma holds_audio_app path a b d : holds_audio path (a ++ b)%list d -> holds_audio path a d.
Proof. intros (h & junk & Hh & Hd). exists h, (b ++ junk)%list. by rewrite <- app_assoc in Hd. Qed.

Record part_inv (path payload : bytes) (p : wav_part_t) (w : world) : Prop := PartInv {
  inv_open : open p = true;
  inv_fp : fp p = Some (Handle path (44 + length payload));
  inv_bytes : pcm_bytes p = zlen payload;
  inv_rate : sample_rate_hz p = RECORDER_SAMPLE_RATE_HZ;
  inv_channels : channels p = RECORDER_CHANNELS;
  inv_bits : bits_per_sample p = RECORDER_BITS_PER_SAMPLE;
  inv_file : exists h, header_shape h /\ w_disk w !! path = Some (NFile (h ++ payload)%list);
}.

(** The weaker state a failed write leaves: bytes past the payload. *)
Record part_live (path body : bytes) (p : wav_part_t) (w : world) : Prop := PartLive {
  live_open : open p = true;
  live_fp : exists h, fp p = Some h /\ h_path h = path;
  live_rate : sample_rate_hz p = RECORDER_SAMPLE_RATE_HZ;
  live_channels : channels p = RECORDER_CHANNELS;
  live_bits : bits_per_sample p = RECORDER_BITS_PER_SAMPLE;
  live_file : exists h, header_shape h /\ w_disk w !! path = Some (NFile (h ++ body)%list);
}.

Lemma inv_live path payload p w : part_inv path payload p w -> part_live path payload p w.
Proof. intros []. split; eauto. Qed.

(** The payload fits a 32-bit WAV. *)
Definition payload_fits (payload : bytes) : Prop := zlen payload < 4294967296 - 44.

Lemma inv_holds path payload p w :
  part_inv path payload p w -> holds_audio path payload (w_disk w).
Proof.
  intros [_ _ _ _ _ _ (h & Hh & Hd)]. exists h, []. by rewrite app_nil_r.
Qed.

Lemma write_at_header k new h payload :
  header_shape new -> header_shape h ->
  exists h', header_shape h' /\
    write_at 0 (take k new) (h ++ payload)%list = (h' ++ payload)%list.
Proof.
  intros Hn Hh. pose proof (header_shape_length _ Hn). pose proof (header_shape_length _ Hh).
  exists (take k new ++ drop k h)%list.
  destruct (decide (k <= 44)%nat).
  - split; [by apply header_shape_mix|]. unfold write_at. rewrite length_take.
    rewrite take_0, Nat.sub_0_l. cbn [replicate app].
    replace (0 + Nat.min k (length new))%nat with k by lia.
    by rewrite drop_app_le, app_assoc by lia.
  - rewrite take_ge, (drop_ge h), app_nil_r by lia. split; [done|].
    unfold write_at. rewrite take_0. cbn [replicate app].
    rewrite (drop_app_length' h) by lia. done.
Qed.

Lemma write_at_header_full new h payload :
  header_shape new -> header_shape h ->
  write_at 0 new (h ++ payload)%list = (new ++ payload)%list.
Proof.
  intros Hn Hh. unfold write_at. rewrite take_0. cbn [replicate app].
  rewrite (drop_app_length' h); [done|].
  rewrite (header_shape_length _ Hn). by rewrite (header_shape_length _ Hh).
Qed.

(** ** Header rewrite *)

(** The card since [w]: only the header of [path] may have changed. *)
Record only_header (path payload : bytes) (w w' : world) : Prop := OnlyHeader {
  oh_during : during (holds_audio path payload) w w';
  oh_disk : exists hd, header_shape hd /\
              w_disk w' = <[path := NFile (hd ++ payload)%list]> (w_disk w);
  oh_faultless : faultless w -> faultless w';
  oh_over : w_rename_over w' = w_rename_over w;
}.

Lemma only_header_refl path payload p w :
  part_live path payload p w -> only_header path payload w w.
Proof.
  intros H. destruct (live_file _ _ _ _ H) as (h & Hh & Hd). split; [| |done..].
  - apply during_refl. exists h, []. by rewrite app_nil_r.
  - exists h. split; [done|]. by rewrite insert_id.
Qed.

Lemma only_header_keeps path payload w w1 w2 :
  only_header path payload w w1 -> keeps w1 w2 -> only_header path payload w w2.
Proof.
  intros [Hdu Hdi Hf Hov] Hk. split; [eauto with m5| |destruct Hk; auto|destruct Hk; congruence].
  by rewrite (keeps_disk _ _ Hk).
Qed.

Lemma holds_audio_insert path payload hd d :
  header_shape hd -> holds_audio path payload (<[path := NFile (hd ++ payload)%list]> d).
Proof. intros H. exists hd, []. by rewrite app_nil_r, lookup_insert_eq. Qed.

Lemma only_header_sync path payload w w1 dirty w2 :
  only_header path payload w w1 -> moves w1 (w_disk w1) dirty w2 ->
  only_header path payload w w2.
Proof.
  intros [Hdu (hd & Hh & Hdi) Hf Hov] Hm.
  assert (H2 : w_disk w2 = w_disk w1) by (by destruct Hm).
  split; [|rewrite H2; eauto|destruct Hm; auto|destruct Hm; congruence].
  eapply during_moves; [done..|]. rewrite Hdi. by apply holds_audio_insert.
Qed.

Lemma only_header_write path payload w w1 new stored dirty w2 :
  only_header path payload w w1 -> header_shape new -> stored `prefix_of` new ->
  moves w1 (<[path := NFile (write_at 0 stored (file_content (w_disk w1 !! path)))]>
              (w_disk w1)) dirty w2 ->
  only_header path payload w w2.
Proof.
  intros [Hdu (hd & Hh & Hdi) Hf Hov] Hn [rest Hst] Hm.
  destruct (write_at_header (length stored) new hd payload Hn Hh) as (hd' & Hh' & Hw).
  rewrite Hst, take_app_length in Hw. rewrite Hdi, lookup_insert_eq in Hm. cbn in Hm.
  rewrite Hw, insert_insert_eq in Hm. split; [|destruct Hm; eauto|destruct Hm; auto|destruct Hm; congruence].
  eapply during_moves; [done..|]. by apply holds_audio_insert.
Qed.

#[local] Hint Resolve only_header_keeps only_header_sync only_header_write
  recorder_header_shape : m5.

(** Deduce from a call that reported success. *)
Ltac learn_ok :=
  repeat match goal with H : true = true -> _ |- _ => specialize (H eq_refl) end.

Lemma rewrite_header_spec path body p h w :
  part_live path body p w -> h_path h = path ->
  wp (wav_part_rewrite_header p h) (fun '(ok, h') w' =>
    only_header path body w w' /\ h_path h' = path /\ (faultless w -> ok = true) /\
    (ok = true ->
       w_disk w' !! path = Some (NFile (recorder_header (pcm_bytes p) ++ body)%list) /\
       (path ∉ w_dirty w') /\
       h' = Handle path (Z.to_nat (u32 (RECORDER_WAV_HEADER_SIZE + pcm_bytes p))))) w.
Proof.
  intros Hinv <-. pose proof (only_header_refl _ _ _ _ Hinv) as H0.
  destruct Hinv as [Ho _ Hr Hc Hbi (h0 & Hh0 & Hd)].
  unfold wav_part_rewrite_header, wav_part_sync_media. rewrite Hr, Hc, Hbi.
  fold (recorder_header (pcm_bytes p)).
  wp_auto; cbn [h_path h_pos] in *; (split; [by eauto 10 with m5|]);
    (split; [done|]); (split; [naive_solver eauto using keeps_faultless, moves_faultless|]); try done.
  intros _. learn_ok. subst stored. worlds. cbn [h_path h_pos] in *. worlds.
  cbn [file_content].
  rewrite write_at_header_full by auto with m5. split_and!; [done|apply not_in_synced|done].
Qed.

Lemma tail_position payload :
  payload_fits payload ->
  Z.to_nat (u32 (RECORDER_WAV_HEADER_SIZE + zlen payload)) = (44 + length payload)%nat.
Proof.
  unfold RECORDER_WAV_HEADER_SIZE, payload_fits, zlen. intros.
  rewrite u32_small by lia. lia.
Qed.

(** ** The operations keep the invariant *)

(** A part is open on [path] and the card holds the audio from [w] on. *)
Lemma part_write_spec path payload pcm p w :
  part_inv path payload p w -> payload_fits (payload ++ pcm)%list -> zlen pcm mod 2 = 0 ->
  wp (wav_part_write p pcm) (fun '(ok, p') w' =>
    during (holds_audio path payload) w w' /\ (faultless w -> ok = true /\ faultless w') /\
    (forall q, q <> path -> w_disk w' !! q = w_disk w !! q) /\
    (exists junk, part_live path (payload ++ junk)%list p' w') /\
    (ok = true -> part_inv path (payload ++ pcm)%list p' w')) w.
Proof.
  intros Hinv Hfit Heven. pose proof (inv_holds _ _ _ _ Hinv) as Hh.
  unfold wav_part_write. rewrite (inv_open _ _ _ _ Hinv), (inv_fp _ _ _ _ Hinv), (inv_bits _ _ _ _ Hinv).
  change (RECORDER_BITS_PER_SAMPLE / 8) with 2. rewrite Heven, Z.sub_0_r.
  destruct (Z.eqb_spec (zlen pcm) 0) as [Hz|Hz].
  { apply wp_ret. split; [by apply during_refl|]. split_and!; try done.
    { exists []. rewrite app_nil_r. by apply inv_live. }
    intros _. destruct pcm; [by rewrite app_nil_r|]. rewrite zlen_cons in Hz. pose proof (zlen_nonneg pcm). lia. }
  replace (take (Z.to_nat (zlen pcm)) pcm) with pcm
    by (symmetry; apply take_ge; unfold zlen; lia).
  destruct Hinv as [Ho Hfp Hb Hr Hc Hbi (h & Hhs & Hd)].
  assert (Hw : forall stored, write_at (44 + length payload) stored (h ++ payload) =
                 (h ++ payload ++ stored)%list).
  { intros stored. rewrite <- (header_shape_length h Hhs), <- length_app, write_at_end.
    by rewrite app_assoc. }
  wp_auto; cbn [h_path h_pos] in *;
    match goal with H : moves _ _ _ _ |- _ =>
      rewrite Hd in H; cbn [file_content] in H; rewrite Hw in H end;
    (split; [eapply during_moves; [by apply during_refl|eassumption|];
             exists h, stored; by rewrite lookup_insert_eq|]);
    (split; [destruct H; naive_solver|]);
    (split; [intros q Hq; destruct H as [-> ? ? ? ?]; by rewrite lookup_insert_ne|]);
    (split; [exists stored; split; cbn; eauto; exists h; destruct H as [-> ? ? ? ?];
             by rewrite lookup_insert_eq|]);
    try done.
  intros _. learn_ok. subst stored.
  unfold payload_fits in Hfit. rewrite zlen_app in Hfit.
  pose proof (zlen_nonneg payload). pose proof (zlen_nonneg pcm).
  split; cbn; try done.
  - f_equal. f_equal. rewrite length_app. lia.
  - rewrite Hb, u32_add_r, zlen_app. apply u32_small. lia.
  - exists h. destruct H as [-> ? ? ? ?]. by rewrite lookup_insert_eq.
Qed.

Lemma part_flush_spec path payload p w :
  part_inv path payload p w -> payload_fits payload ->
  wp (wav_part_flush p) (fun '(ok, p') w' =>
    only_header path payload w w' /\ (faultless w -> ok = true) /\
    (ok = true -> part_inv path payload p' w' /\
       w_disk w' !! path = Some (NFile (recorder_header (zlen payload) ++ payload)%list) /\
       (path ∉ w_dirty w'))) w.
Proof.
  intros Hinv Hfit. unfold wav_part_flush.
  rewrite (inv_open _ _ _ _ Hinv), (inv_fp _ _ _ _ Hinv). wp_prim.
  eapply wp_mono; [by eapply rewrite_header_spec; [apply inv_live|]|]. cbn.
  intros [ok h'] w' (Ho & Hp & Hf & Hok). wp_prim. split_and!; [done..|].
  intros ->. destruct (Hok eq_refl) as (Hd & Hs & ->). destruct Hinv as [? ? Hb ? ? ? _].
  rewrite Hb, tail_position in * by done.
  split_and!; [|done..]. split; cbn; try done. eauto using recorder_header_shape.
Qed.

(** Closing also rewrites the header, whatever follows the payload. *)
Lemma part_close_spec path body p w :
  part_live path body p w ->
  wp (wav_part_close p) (fun '(ok, p') w' =>
    only_header path body w w' /\ (faultless w -> ok = true) /\
    open p' = false /\ fp p' = None /\
    (ok = true ->
       w_disk w' !! path = Some (NFile (recorder_header (pcm_bytes p) ++ body)%list) /\
       (path ∉ w_dirty w'))) w.
Proof.
  intros Hinv. unfold wav_part_close. destruct (live_fp _ _ _ _ Hinv) as (h & Hfp & Hp).
  rewrite (live_open _ _ _ _ Hinv), Hfp. cbn [negb]. wp_prim.
  eapply wp_mono; [by apply rewrite_header_spec|]. cbn.
  intros [ok h'] w1 (Ho & Hp' & Hf & Hok). wp_prim. wp_call. intros w' ok' Hk Hf'. wp_prim.
  pose proof (only_header_keeps _ _ _ _ _ Ho Hk). destruct Ho as [_ _ Hfl _].
  split_and!; try done; [naive_solver|].
  intros [-> ->]%andb_prop. rewrite (keeps_disk _ _ Hk), (keeps_dirty _ _ Hk). naive_solver.
Qed.

Lemma part_open_spec path p w :
  has_part_suffix path = true ->
  wp (wav_part_open p path RECORDER_SAMPLE_RATE_HZ RECORDER_CHANNELS RECORDER_BITS_PER_SAMPLE)
    (fun '(ok, p') w' =>
       (ok = true -> part_inv path [] p' w' /\ (path ∉ w_dirty w')) /\
       (ok = false -> open p' = open p \/ open p' = false) /\
       (faultless w -> w_disk w !! path <> Some NDir -> ok = true /\ faultless w') /\
       (forall q, q <> path -> w_disk w' !! q = w_disk w !! q)) w.
Proof.
  intros Hs. unfold wav_part_open, wav_part_sync_media. rewrite Hs. cbn [negb].
  change ((RECORDER_CHANNELS =? 0) || _ || _) with false. cbv iota.
  fold (recorder_header 0).
  wp_auto; cbn [h_path h_pos open set_fp] in *; worlds; cbn [file_content] in *.
  all: rewrite ?write_at_nil in *.
  all: split; [intros; try done|split; [by auto|split; [naive_solver|]]].
  all: try (intros q Hq; by rewrite ?lookup_insert_ne).
  learn_ok. subst stored. split; [|apply not_in_synced].
  split; cbn; try done.
  exists (recorder_header 0). split; [apply recorder_header_shape|].
  rewrite app_nil_r. worlds. by rewrite ?write_at_nil.
Qed.

(** ** The sink over a whole segment *)

(** The writer task's loop over the buffers it drains, with the clock reads
    around each write; it stops at the first failure. *)
Fixpoint write_chunks (s : sd_pcm_sink_t) (chunks : list (bytes * Z * Z))
    : io (bool * sd_pcm_sink_t) :=
  match chunks with
  | [] => ret (true, s)
  | (d, t0, t1) :: rest =>
      let* (ok, s) := sd_pcm_sink_write_chunk s d t0 t1 in
      if ok then write_chunks s rest else ret (false, s)
  end.

Definition chunk_bytes (chunks : list (bytes * Z * Z)) : bytes :=
  concat (map (fun c => fst (fst c)) chunks).

Definition sink_inv (path payload : bytes) (s : sd_pcm_sink_t) (w : world) : Prop :=
  sink_open s = true /\ part_inv path payload (wav s) w.

Definition sink_live (path body : bytes) (s : sd_pcm_sink_t) (w : world) : Prop :=
  sink_open s = true /\ part_live path body (wav s) w.

Lemma chunk_bytes_cons d t0 t1 rest :
  chunk_bytes ((d, t0, t1) :: rest) = (d ++ chunk_bytes rest)%list.
Proof. done. Qed.

Lemma write_chunks_spec path chunks : forall payload s w,
  sink_inv path payload s w ->
  Forall (fun c => zlen (fst (fst c)) = RECORDER_BUFFER_BYTES) chunks ->
  payload_fits (payload ++ chunk_bytes chunks)%list ->
  wp (write_chunks s chunks) (fun '(ok, s') w' =>
    during (holds_audio path payload) w w' /\ (faultless w -> ok = true /\ faultless w') /\
    (forall q, q <> path -> w_disk w' !! q = w_disk w !! q) /\
    (exists junk, sink_live path (payload ++ junk)%list s' w') /\
    (ok = true -> sink_inv path (payload ++ chunk_bytes chunks)%list s' w')) w.
Proof.
  induction chunks as [|[[d t0] t1] rest IH]; intros payload s w [Hso Hinv] Hall Hfit; cbn.
  { wp_prim. split; [apply during_refl; eauto using inv_holds|]. split_and!; try done.
    { exists []. rewrite app_nil_r. split; [done|by apply inv_live]. }
    unfold chunk_bytes. cbn. rewrite app_nil_r. done. }
  apply Forall_cons in Hall as [Hd Hall]. cbn in Hd. rewrite chunk_bytes_cons in *.
  unfold payload_fits in *. rewrite !zlen_app in Hfit.
  pose proof (zlen_nonneg (chunk_bytes rest)).
  unfold sd_pcm_sink_write_chunk. rewrite Hso, Hd, Z.eqb_refl. cbn [negb].
  wp_prim. eapply wp_mono.
  { apply (part_write_spec path payload); [done| |by rewrite Hd].
    unfold payload_fits. rewrite zlen_app. lia. }
  intros [ok p'] w1 (Hdu & Hf & Hq & (junk0 & Hl) & Hok). destruct ok; cbn [negb]; wp_prim.
  2: { split_and!; try done. exists junk0. by split. }
  eapply wp_mono; [apply (IH (payload ++ d)%list)|].
  - split; cbn; auto.
  - done.
  - rewrite !zlen_app. lia.
  - intros [ok s'] w' (Hdu' & Hf' & Hq' & (junk' & Hl') & Hok'). rewrite <- app_assoc in Hok', Hl'.
    split; [|split_and!; [naive_solver|intros q Hq1; by rewrite Hq', Hq|eauto|done]].
    eapply during_trans; [done|]. eapply during_mono; [apply holds_audio_app|done].
Qed.

Lemma write_chunks_closed s chunks w Q :
  sink_open s = false -> (forall ok, Q (ok, s) w) -> wp (write_chunks s chunks) Q w.
Proof.
  intros Hs HQ. destruct chunks as [|[[d t0] t1] rest]; cbn; wp_prim; [apply HQ|].
  unfold sd_pcm_sink_write_chunk. rewrite Hs. cbn [negb]. wp_prim. apply HQ.
Qed.

Lemma only_header_frame path payload w w' q :
  only_header path payload w w' -> q <> path -> w_disk w' !! q = w_disk w !! q.
Proof. intros [_ (hd & _ & ->) _ _] Hq. by rewrite lookup_insert_ne. Qed.

Lemma sink_flush_live path body s w :
  sink_live path body s w ->
  wp (sd_pcm_sink_flush s)
    (fun '(_, s') w' => only_header path body w w' /\ sink_live path body s' w') w.
Proof.
  intros [Hs Hl]. unfold sd_pcm_sink_flush. rewrite Hs. cbn [negb]. wp_prim.
  unfold wav_part_flush. destruct (live_fp _ _ _ _ Hl) as (h & Hfp & Hp).
  rewrite (live_open _ _ _ _ Hl), Hfp. wp_prim.
  eapply wp_mono; [by apply rewrite_header_spec|].
  intros [ok h'] w' (Ho & Hp' & _). wp_prim. split; [done|]. split; [done|].
  destruct Ho as [_ (hd & Hhd & Hd) _ _], Hl as [? _ ? ? ? _]. split; cbn; eauto.
  exists hd. by rewrite Hd, lookup_insert_eq.
Qed.

Lemma sink_close_live path body s w :
  sink_live path body s w ->
  wp (sd_pcm_sink_close s) (fun '(ok, s') w' =>
    only_header path body w w' /\ sink_open s' = false /\ (faultless w -> ok = true) /\
    (ok = true ->
       w_disk w' !! path = Some (NFile (recorder_header (pcm_bytes (wav s)) ++ body)%list) /\
       (path ∉ w_dirty w'))) w.
Proof.
  intros [Hs Hl]. unfold sd_pcm_sink_close. rewrite Hs. cbn [negb]. wp_prim.
  eapply wp_mono; [by apply part_close_spec|].
  intros [ok p'] w' (Ho & Hf & _ & _ & Hok). by wp_prim.
Qed.

Lemma sink_flush_spec path payload s w :
  sink_inv path payload s w -> payload_fits payload ->
  wp (sd_pcm_sink_flush s) (fun '(ok, s') w' =>
    only_header path payload w w' /\ (faultless w -> ok = true) /\
    (ok = true -> sink_inv path payload s' w' /\
       w_disk w' !! path = Some (NFile (recorder_header (zlen payload) ++ payload)%list) /\
       (path ∉ w_dirty w'))) w.
Proof.
  intros [Hs Hl] Hfit. unfold sd_pcm_sink_flush. rewrite Hs. cbn [negb]. wp_prim.
  eapply wp_mono; [by apply part_flush_spec|].
  intros [ok p'] w' (Ho & Hf & Hok). wp_prim. split_and!; [done..|].
  intros ->. destruct (Hok eq_refl) as (Hi & ?). by split.
Qed.

(** One buffer: stored, or a part of it behind the payload. *)
Lemma sink_write_spec path payload d t0 t1 s w :
  sink_inv path payload s w -> zlen d = RECORDER_BUFFER_BYTES -> payload_fits (payload ++ d)%list ->
  wp (sd_pcm_sink_write_chunk s d t0 t1) (fun '(ok, s') w' =>
    (forall q, q <> path -> w_disk w' !! q = w_disk w !! q) /\
    if ok then sink_inv path (payload ++ d)%list s' w'
    else (exists junk, sink_live path (payload ++ junk)%list s' w') /\
         pcm_bytes (wav s') = zlen payload) w.
Proof.
  intros [Hso Hinv] Hd Hfit. unfold sd_pcm_sink_write_chunk. rewrite Hso, Hd, Z.eqb_refl. cbn [negb].
  wp_prim. eapply wp_mono.
  { apply wp_and; [by apply (part_write_spec path payload); [..|rewrite Hd]|].
    instantiate (1 := fun r _ => r.1 = false -> pcm_bytes r.2 = pcm_bytes (wav s)).
    unfold wav_part_write. wp_auto; done. }
  intros [[] p'] w' ((_ & _ & Hq & (junk & Hl) & Hok) & Hn); cbn [negb]; wp_prim; (split; [done|]).
  - split; [done|by apply Hok].
  - cbn in Hn |- *. rewrite Hn, (inv_bytes _ _ _ _ Hinv) by done. split; [|done]. by exists junk.
Qed.

Lemma sink_flush_count s w : pcm_bytes (wav (sd_pcm_sink_flush s w).1.2) = pcm_bytes (wav s).
Proof.
  enough (Hwp : wp (sd_pcm_sink_flush s) (fun r _ => pcm_bytes (wav r.2) = pcm_bytes (wav s)) w) by exact Hwp.
  unfold sd_pcm_sink_flush, wav_part_flush. destruct (sink_open s); cbn [negb]; wp_prim; [|done].
  destruct (open (wav s)), (fp (wav s)) as [h|]; wp_prim; try done.
  unfold wp. by destruct (wav_part_rewrite_header (wav s) h w) as [[ok h'] w'].
Qed.

(** A recorded segment holds exactly the captured audio: opening the sink
    on a fresh part path, writing any number of whole 32 KiB buffers and
    flushing leaves, when each call reports success, the file equal to the
    final header for that payload followed by the payload, on the medium (not
    only in a cache), all other files untouched; without card faults every
    call succeeds. *)
Theorem sink_stores_exactly path chunks s w :
  has_part_suffix path = true -> w_disk w !! path = None ->
  Forall (fun c => zlen (fst (fst c)) = RECORDER_BUFFER_BYTES) chunks ->
  payload_fits (chunk_bytes chunks) ->
  wp (let* (ok1, s) := sd_pcm_sink_open s path in
      let* (ok2, s) := write_chunks s chunks in
      let* (ok3, s) := sd_pcm_sink_flush s in
      ret (ok1 && ok2 && ok3, s))
    (fun '(ok, s') w' =>
       (faultless w -> ok = true) /\
       (forall q, q <> path -> w_disk w' !! q = w_disk w !! q) /\
       (ok = true ->
        w_disk w' !! path =
          Some (NFile (recorder_header (zlen (chunk_bytes chunks)) ++ chunk_bytes chunks)%list) /\
        (path ∉ w_dirty w'))) w.
Proof.
  intros Hs Hnone Hall Hfit. unfold sd_pcm_sink_open. wp_prim.
  eapply wp_mono; [by apply part_open_spec|].
  intros [ok1 p1] w1 (Hok1 & _ & Hf1 & Hq1). wp_prim. destruct ok1.
  2: { apply write_chunks_closed; [done|]. intros ok2. wp_prim.
       unfold sd_pcm_sink_flush. cbn [sink_open negb]. wp_prim.
       split_and!; [naive_solver congruence|done|done]. }
  destruct (Hok1 eq_refl) as [Hinv _].
  eapply wp_mono; [apply (write_chunks_spec path chunks []); [by split|done|done]|].
  intros [ok2 s2] w2 (_ & Hf2 & Hq2 & (junk & Hl) & Hok2). wp_prim. destruct ok2.
  - eapply wp_mono; [apply sink_flush_spec; [by apply Hok2|done]|].
    intros [ok3 s3] w3 (Ho & Hf3 & Hok3). wp_prim. split_and!.
    + intros Hfl. destruct Hf1 as [_ Hfl1]; [done|by rewrite Hnone|].
      cbn. apply Hf3. by apply Hf2.
    + intros q Hq. rewrite (only_header_frame _ _ _ _ q Ho Hq), Hq2, Hq1; done.
    + cbn. intros ->. by destruct (Hok3 eq_refl).
  - eapply wp_mono; [by eapply sink_flush_live|].
    intros [ok3 s3] w3 [Ho _]. wp_prim. split_and!; [|intros q Hq|done].
    + intros Hfl. destruct Hf1 as [_ Hfl1]; [done|by rewrite Hnone|].
      by destruct (Hf2 Hfl1).
    + rewrite (only_header_frame _ _ _ _ q Ho Hq), Hq2, Hq1; done.
Qed.

(** C18: once the part file is open, every state the card goes through while
    buffers are written, the header is flushed and the sink is closed,
    whatever calls fail on the way and however short a failing write falls,
    shows a well-formed header followed by all the audio accepted before:
    a recording that is cut off at any point is recoverable. *)
Theorem recording_always_recoverable path payload s w chunks :
  sink_inv path payload s w ->
  Forall (fun c => zlen (fst (fst c)) = RECORDER_BUFFER_BYTES) chunks ->
  payload_fits (payload ++ chunk_bytes chunks)%list ->
  wp (let* (_, s) := write_chunks s chunks in
      let* (_, s) := sd_pcm_sink_flush s in
      sd_pcm_sink_close s)
    (fun _ w' => during (holds_audio path payload) w w') w.
Proof.
  intros Hinv Hall Hfit. wp_prim.
  eapply wp_mono; [by apply write_chunks_spec|].
  intros [ok2 s2] w2 (Hdu & _ & _ & (junk & Hl) & _). wp_prim.
  eapply wp_mono; [by eapply sink_flush_live|].
  intros [ok3 s3] w3 ([Hdu3 _ _ _] & Hl3). wp_prim.
  eapply wp_mono; [by eapply sink_close_live|]. intros [ok4 s4] w4 ([Hdu4 _ _ _] & _).
  eapply during_trans; [done|].
  eapply during_trans; (eapply during_mono; [apply holds_audio_app|done]).
Qed.

Definition sample_part : bytes := txt "/r/a.wav.part".
Definition closed_sink : sd_pcm_sink_t := Sink (WavPart None 0 0 0 0 false) false 0 0 0.
Definition sample_chunk : bytes := replicate (Z.to_nat RECORDER_BUFFER_BYTES) 7.

Lemma sink_stores_exactly_witness :
  wp (let* (ok1, s) := sd_pcm_sink_open closed_sink sample_part in
      let* (ok2, s) := write_chunks s [(sample_chunk, 0, 5)] in
      let* (ok3, s) := sd_pcm_sink_flush s in
      ret (ok1 && ok2 && ok3, s))
    (fun '(ok, _) _ => ok = true) (clean_world ∅).
Proof.
  eapply wp_mono.
  - apply (sink_stores_exactly sample_part [(sample_chunk, 0, 5)] closed_sink (clean_world ∅));
      [by vm_compute|by vm_compute|by constructor; [vm_compute|]|by vm_compute].
  - intros [ok s'] w' (Hf & _). by apply Hf.
Defined.

Lemma recording_always_recoverable_witness :
  let w := clean_world {[sample_part := NFile (recorder_header 0)]} in
  let s := Sink (WavPart (Some (Handle sample_part 44)) 0 16000 1 16 true) true 0 0 0 in
  wp (let* (_, s) := write_chunks s [(sample_chunk, 0, 5)] in
      let* (_, s) := sd_pcm_sink_flush s in
      sd_pcm_sink_close s)
    (fun _ w' => during (holds_audio sample_part []) w w') w.
Proof.
  cbv zeta. apply recording_always_recoverable.
  - split; [done|]. split; try done. exists (recorder_header 0).
    split; [apply recorder_header_shape|by vm_compute].
  - by constructor; [vm_compute|].
  - by vm_compute.
Defined.
