(* ===== verification/WavRotation.v ===== *)
(** * WavRotation: rotation decision, segment paths, idempotent finalize

    Models [wav_rotation.c]. *)

From S2P Require Import Prelude Monad Stdio RecorderConfig WavPart.

(** [date[i] is a digit for every index but those of [dashes], where it is '-'. *)
Definition valid_date (date : bytes) : bool :=
  (zlen date =? 10) &&
  forallb (fun i => let c := nth i date 0 in
                    if Nat.eqb i 4 || Nat.eqb i 7 then c =? 45 else is_digit c)
          (seq 0 10).

Definition valid_time6 (time6 : bytes) : bool :=
  (zlen time6 =? 6) && forallb is_digit time6.

Definition valid_recording_id (id : bytes) : bool :=
  negb (zlen id =? 0) && (zlen id <=? 64) &&
  forallb (fun c => negb ((c =? 47) || (c =? 92) || (c =? 0))) id.

Definition has_part_suffix_local (path : bytes) : bool := has_suffix RECORDER_PART_SUFFIX path.
Definition has_wav_suffix_local (path : bytes) : bool := has_suffix RECORDER_WAV_SUFFIX path.

(** [path_exists]: the file opens for reading. *)
Definition path_exists (path : bytes) : io bool :=
  let* f := fopen_existing path in
  match f with
  | None => ret false
  | Some h => let* _ := fclose h in ret true
  end.

Inductive wav_rotate_reason_t :=
  | WAV_ROTATE_NONE
  | WAV_ROTATE_TIME_30MIN
  | WAV_ROTATE_MIDNIGHT
  | WAV_ROTATE_USB
  | WAV_ROTATE_LOW_BATTERY
  | WAV_ROTATE_STOP_REQUEST.

#[export] Instance wav_rotate_reason_eq_dec : EqDecision wav_rotate_reason_t.
Proof. solve_decision. Defined.

Record wav_rotate_events_t := RotateEvents {
  usb_connected : bool;
  low_battery : bool;
  stop_requested : bool;
}.

(** [events] may be NULL. *)
Definition wav_rotation_should_rotate (elapsed_sec segment_bytes : Z)
    (date_changed : bool) (events : option wav_rotate_events_t) : wav_rotate_reason_t :=
  let periodic :=
    if date_changed then WAV_ROTATE_MIDNIGHT
    else if (RECORDER_ROTATION_INTERVAL_SEC <=? elapsed_sec) ||
            (RECORDER_ROTATION_PAYLOAD_BYTES <=? segment_bytes)
         then WAV_ROTATE_TIME_30MIN else WAV_ROTATE_NONE in
  match events with
  | None => periodic
  | Some ev =>
      if usb_connected ev then WAV_ROTATE_USB
      else if low_battery ev then WAV_ROTATE_LOW_BATTERY
      else if stop_requested ev then WAV_ROTATE_STOP_REQUEST
      else periodic
  end.

Definition segment_path (date time6 id suffix : bytes) : bytes :=
  (RECORDER_RECORDINGS_DIR ++ txt "/" ++ date ++ txt "/" ++ time6 ++ txt "_" ++
   id ++ suffix)%list.

Definition wav_rotation_build_part_path (out_size : Z) (date time6 id : bytes)
    : option bytes :=
  if out_size =? 0 then None else
  if negb (valid_date date) || negb (valid_time6 time6) || negb (valid_recording_id id)
  then None
  else snprintf_fit out_size (segment_path date time6 id RECORDER_PART_SUFFIX).

Definition wav_rotation_build_wav_path (out_size : Z) (date time6 id : bytes)
    : option bytes :=
  if out_size =? 0 then None else
  if negb (valid_date date) || negb (valid_time6 time6) || negb (valid_recording_id id)
  then None
  else snprintf_fit out_size (segment_path date time6 id RECORDER_WAV_SUFFIX).

Definition wav_rotation_part_to_wav (part_path : bytes) (wav_size : Z) : option bytes :=
  if wav_size =? 0 then None else
  if negb (has_part_suffix_local part_path) then None else
  let base := (length part_path - length (txt ".part"))%nat in
  if wav_size <? Z.of_nat base + 1 then None else
  let out := take base part_path in
  if negb (has_wav_suffix_local out) then None else Some out.

Definition wav_rotation_finalize_paths (part_path wav_path : bytes) : io bool :=
  if negb (has_part_suffix_local part_path) || negb (has_wav_suffix_local wav_path)
  then ret false else
  match wav_rotation_part_to_wav part_path RECORDER_MAX_PATH_LEN with
  | None => ret false
  | Some expect =>
      if negb (bool_decide (expect = wav_path)) then ret false else
      let* part_present := path_exists part_path in
      let* wav_present := path_exists wav_path in
      if part_present then
        if wav_present then ret false else
        let* r := rename part_path wav_path in
        ret (bool_decide (r = None))
      else ret wav_present
  end.

(** [wav_rotation_state_t]. *)
Record wav_rotation_state_t := RotState {
  part_path : bytes;
  wav_path : bytes;
  finalize_called : bool;
  finalized_ok : bool;
}.

Definition wav_rotation_state_init (p w : bytes) : wav_rotation_state_t :=
  if negb (has_part_suffix_local p) || negb (has_wav_suffix_local w)
  then RotState [] [] false false
  else if (RECORDER_MAX_PATH_LEN <=? zlen p) || (RECORDER_MAX_PATH_LEN <=? zlen w)
  then RotState [] [] false false
  else RotState p w false false.

Definition wav_rotation_finalize_once (st : wav_rotation_state_t) (sink : sd_pcm_sink_t)
    : io (bool * wav_rotation_state_t * sd_pcm_sink_t) :=
  if finalize_called st then ret (finalized_ok st, st, sink) else
  let st := RotState (part_path st) (wav_path st) true false in
  if bool_decide (part_path st = []) || bool_decide (wav_path st = [])
  then ret (false, st, sink) else
  let* (close_ok, sink) := sd_pcm_sink_close sink in
  if negb close_ok then ret (false, st, sink) else
  let* rename_ok := wav_rotation_finalize_paths (part_path st) (wav_path st) in
  ret (rename_ok, RotState (part_path st) (wav_path st) true rename_ok, sink).

(** ** The rotation decision *)

(** The priority of rotation triggers: an event always beats the clock,
    in the order USB, low battery, stop; midnight beats the half-hour and size
    limits; and a segment is left running exactly when no event is pending,
    the date is the same, and both limits are unreached. *)
Theorem should_rotate_priority elapsed size date_changed ev :
  let r := wav_rotation_should_rotate elapsed size date_changed (Some ev) in
  let due := RECORDER_ROTATION_INTERVAL_SEC <= elapsed \/
             RECORDER_ROTATION_PAYLOAD_BYTES <= size in
  (r = WAV_ROTATE_USB <-> usb_connected ev = true) /\
  (r = WAV_ROTATE_LOW_BATTERY <-> usb_connected ev = false /\ low_battery ev = true) /\
  (r = WAV_ROTATE_STOP_REQUEST <->
     usb_connected ev = false /\ low_battery ev = false /\ stop_requested ev = true) /\
  (r = WAV_ROTATE_MIDNIGHT <->
     ev = RotateEvents false false false /\ date_changed = true) /\
  (r = WAV_ROTATE_TIME_30MIN <->
     ev = RotateEvents false false false /\ date_changed = false /\ due) /\
  (r = WAV_ROTATE_NONE <->
     ev = RotateEvents false false false /\ date_changed = false /\ ~ due).
Proof.
  cbn. unfold wav_rotation_should_rotate.
  destruct ev as [[] [] []]; cbn; destruct date_changed;
    destruct (Z.leb_spec RECORDER_ROTATION_INTERVAL_SEC elapsed),
      (Z.leb_spec RECORDER_ROTATION_PAYLOAD_BYTES size); cbn;
    repeat split; intros; try discriminate; try lia;
    repeat match goal with H : _ /\ _ |- _ => destruct H end; try discriminate; try lia.
Qed.

(** ** Segment paths *)

Lemma part_suffix_split p :
  has_part_suffix_local p = true -> exists stem, p = (stem ++ txt ".wav" ++ txt ".part")%list.
Proof. intros H. by apply has_suffix_spec in H. Qed.

Lemma part_to_wav_spec stem n :
  zlen (stem ++ txt ".wav")%list < n ->
  wav_rotation_part_to_wav (stem ++ txt ".wav.part")%list n = Some (stem ++ txt ".wav")%list.
Proof.
  intros Hn. pose proof (zlen_nonneg (stem ++ txt ".wav")%list).
  change (txt ".wav.part") with (txt ".wav" ++ txt ".part")%list. rewrite app_assoc.
  unfold wav_rotation_part_to_wav.
  assert (Hp : has_part_suffix_local ((stem ++ txt ".wav") ++ txt ".part")%list = true).
  { rewrite <- app_assoc. apply has_suffix_spec. by exists stem. }
  assert (Hw : has_wav_suffix_local (stem ++ txt ".wav")%list = true).
  { apply has_suffix_spec. by exists stem. }
  rewrite Hp, length_app. cbn [negb].
  replace (length (stem ++ txt ".wav") + length (txt ".part") - length (txt ".part"))%nat
    with (length (stem ++ txt ".wav")) by lia.
  rewrite take_app_length, Hw. cbn [negb]. unfold zlen in Hn.
  destruct (Z.eqb_spec n 0); [unfold zlen in *; lia|].
  destruct (Z.ltb_spec n (Z.of_nat (length (stem ++ txt ".wav")) + 1)); [lia|done].
Qed.

Lemma part_to_wav_Some p n w :
  wav_rotation_part_to_wav p n = Some w ->
  has_wav_suffix_local w = true /\ p = (w ++ txt ".part")%list /\ zlen w < n.
Proof.
  unfold wav_rotation_part_to_wav. destruct (Z.eqb_spec n 0); [done|].
  destruct (has_part_suffix_local p) eqn:Hp; [|done]. cbn [negb].
  destruct (part_suffix_split p Hp) as (stem & ->). rewrite app_assoc, length_app.
  replace (length (stem ++ txt ".wav") + length (txt ".part") - length (txt ".part"))%nat
    with (length (stem ++ txt ".wav")) by lia.
  rewrite take_app_length. destruct (Z.ltb_spec n (Z.of_nat (length (stem ++ txt ".wav")) + 1)); [done|].
  destruct (has_wav_suffix_local _) eqn:Hw; [|done]. cbn. intros [= <-].
  split_and!; [done..|]. unfold zlen. lia.
Qed.

(** The segment a rotation opens is always one it can finalize: when the
    part path builds, the final path builds too, it is what [part_to_wav]
    gives, and the rotation state accepts both. *)
Theorem segment_paths_consistent date time6 id p :
  wav_rotation_build_part_path RECORDER_MAX_PATH_LEN date time6 id = Some p ->
  exists w, wav_rotation_build_wav_path RECORDER_MAX_PATH_LEN date time6 id = Some w /\
    wav_rotation_part_to_wav p RECORDER_MAX_PATH_LEN = Some w /\
    wav_rotation_state_init p w = RotState p w false false.
Proof.
  unfold wav_rotation_build_part_path, wav_rotation_build_wav_path.
  destruct (RECORDER_MAX_PATH_LEN =? 0); [done|].
  destruct (negb (valid_date date) || negb (valid_time6 time6) || negb (valid_recording_id id)); [done|].
  intros [-> Hl]%snprintf_fit_Some. unfold segment_path in *.
  rewrite !app_assoc in *. set (stem := (((((_ ++ _) ++ _) ++ _) ++ _) ++ _) ++ id) in *.
  change RECORDER_PART_SUFFIX with (txt ".wav.part") in *.
  change RECORDER_WAV_SUFFIX with (txt ".wav") in *.
  assert (Hl' : zlen (stem ++ txt ".wav")%list < RECORDER_MAX_PATH_LEN).
  { autorewrite with m5 in Hl |- *. cbn in Hl |- *. lia. }
  exists (stem ++ txt ".wav")%list. split_and!.
  - by apply snprintf_fit_ok.
  - by apply part_to_wav_spec.
  - unfold wav_rotation_state_init, has_part_suffix_local, has_wav_suffix_local.
    rewrite (proj2 (has_suffix_spec _ _)) by eauto. rewrite (proj2 (has_suffix_spec _ _)) by eauto.
    cbn [negb orb]. rewrite (proj2 (Z.leb_gt _ _) Hl), (proj2 (Z.leb_gt _ _) Hl'). done.
Qed.

Lemma app_inj_length {A} (a b c d : list A) :
  length a = length c -> (a ++ b = c ++ d)%list -> a = c /\ b = d.
Proof. intros. by apply app_inj_1. Qed.

(** Two segments share a part path only when date, time and recording id
    are the same: no rotation reuses another segment's file. *)
Theorem segment_path_injective n d1 t1 i1 d2 t2 i2 p :
  wav_rotation_build_part_path n d1 t1 i1 = Some p ->
  wav_rotation_build_part_path n d2 t2 i2 = Some p ->
  d1 = d2 /\ t1 = t2 /\ i1 = i2.
Proof.
  unfold wav_rotation_build_part_path. destruct (n =? 0); [done|].
  destruct (valid_date d1) eqn:Hd1; [|done]. destruct (valid_date d2) eqn:Hd2; [|by cbn].
  destruct (valid_time6 t1) eqn:Ht1; [|done]. destruct (valid_time6 t2) eqn:Ht2; [|by cbn].
  cbn. repeat (step_match; [done|]).
  intros [-> _]%snprintf_fit_Some [Heq _]%snprintf_fit_Some. revert Heq.
  unfold valid_date, valid_time6 in *. split_bools. unfold segment_path, zlen in *.
  intros Heq. apply app_inv_head in Heq. apply app_inv_head in Heq.
  apply app_inj_length in Heq as [-> Heq]; [|lia]. apply app_inv_head in Heq.
  apply app_inj_length in Heq as [-> Heq]; [|lia]. apply app_inv_head in Heq.
  by apply app_inv_tail in Heq as ->.
Qed.

(** ** Finalization *)

Lemma wp_path_exists path w (Q : bool -> world -> Prop) :
  (forall w' b, keeps w w' -> (b = true -> exists c, w_disk w !! path = Some (NFile c)) ->
     (faultless w -> b = is_file (w_disk w !! path)) -> Q b w') ->
  wp (path_exists path) Q w.
Proof.
  intros H. unfold path_exists. wp_auto; apply H; try done;
    eauto using keeps_trans; intros; by rewrite H1.
Qed.

(** On a card whose [rename] does not replace files (FAT), finalizing a part
    changes the card in one way only. *)
Definition finalized (part wav : bytes) (d d' : disk) : Prop :=
  exists n, d !! part = Some n /\ d !! wav = None /\
    d' = <[wav := n]> (delete part d).

(** One step of the card: none, or the final rename. *)
Record finalize_post (part wav : bytes) (w : world) (ok : bool) (w' : world) : Prop := {
  fin_disk : if ok then finalized part wav (w_disk w) (w_disk w') \/
                        (w_disk w' = w_disk w /\ exists c, w_disk w !! wav = Some (NFile c))
             else w_disk w' = w_disk w;
  fin_during : forall P w0, during P w0 w -> P (w_disk w') -> during P w0 w';
  fin_over : w_rename_over w' = w_rename_over w;
}.

Lemma finalize_post_keeps part wav w w' : keeps w w' -> finalize_post part wav w false w'.
Proof. intros Hk. split; eauto using during_keeps; by destruct Hk. Qed.

Lemma finalize_paths_spec part wav w :
  w_rename_over w = false ->
  wp (wav_rotation_finalize_paths part wav) (finalize_post part wav w) w.
Proof.
  intros Hfat. unfold wav_rotation_finalize_paths.
  destruct (_ || _); [wp_prim; auto using finalize_post_keeps, keeps_refl|].
  destruct (wav_rotation_part_to_wav part _) as [e|];
    [|wp_prim; auto using finalize_post_keeps, keeps_refl].
  case_bool_decide; cbn [negb]; [subst e|wp_prim; auto using finalize_post_keeps, keeps_refl].
  wp_prim. apply wp_path_exists. intros w1 pp Hk1 _ _. wp_prim.
  apply wp_path_exists. intros w2 wp2 Hk2 Hp2 _. pose proof (keeps_trans _ _ _ Hk1 Hk2) as Hk.
  rewrite (keeps_disk _ _ Hk1) in Hp2. destruct pp; [destruct wp2|]; wp_prim.
  - by apply finalize_post_keeps.
  - apply wp_rename; [intros w' e Hr _|intros w' n Hn H Hm]; wp_prim.
    + rewrite bool_decide_eq_false_2 by done. eauto using finalize_post_keeps, keeps_trans.
    + destruct H as [H|H]; [|destruct Hk; congruence]. rewrite bool_decide_eq_true_2 by done.
      rewrite (keeps_disk _ _ Hk) in *. split.
      * left. exists n. destruct Hm. eauto.
      * intros P w0 Hd HP. eapply during_moves; [by eapply during_keeps|done|by destruct Hm; congruence].
      * destruct Hm, Hk. congruence.
  - destruct wp2; [|by apply finalize_post_keeps]. split; [|eauto using during_keeps|by destruct Hk].
    right. split; [by destruct Hk|auto].
    all: try (intros; eapply during_keeps; done).
Qed.

(** The audio is under the part's or the final name. *)
Definition audio_somewhere (part wav payload : bytes) (d : disk) : Prop :=
  holds_audio part payload d \/ holds_audio wav payload d.

Lemma state_init_cases part wav :
  wav_rotation_state_init part wav = RotState part wav false false \/
  wav_rotation_state_init part wav = RotState [] [] false false.
Proof. unfold wav_rotation_state_init. repeat step_match; auto. Qed.

Lemma finalize_paths_moves part wav w :
  wp (wav_rotation_finalize_paths part wav) (fun ok w' =>
    ok = true -> w_disk w !! wav = None -> part <> wav ->
    w_disk w' !! wav = w_disk w !! part /\ (part ∉ w_dirty w -> wav ∉ w_dirty w')) w.
Proof.
  unfold wav_rotation_finalize_paths. destruct (_ || _); [by wp_prim|].
  destruct (wav_rotation_part_to_wav part _) as [e|]; [|by wp_prim].
  destruct (negb _); [by wp_prim|]. wp_prim.
  apply wp_path_exists. intros w1 pp Hk1 _ _. wp_prim.
  apply wp_path_exists. intros w2 wp2 Hk2 Hp2 _. pose proof (keeps_trans _ _ _ Hk1 Hk2) as Hk.
  rewrite (keeps_disk _ _ Hk1) in Hp2. destruct pp; [destruct wp2|]; wp_prim.
  - done.
  - apply wp_rename; [intros w' e' Hr _|intros w' n Hn _ Hm]; wp_prim.
    + by rewrite bool_decide_eq_false_2.
    + intros _ _ Hne. destruct Hm as [-> -> _ _ _]. rewrite (keeps_disk _ _ Hk), (keeps_dirty _ _ Hk) in *.
      rewrite lookup_insert_eq, Hn. split; [done|]. unfold renamed_dirty. intros Hd.
      rewrite bool_decide_eq_false_2 by done. set_solver.
  - intros -> Hnone. destruct (Hp2 eq_refl). congruence.
Qed.

(** One attempt to finalize decides every later one. *)
Lemma finalize_once_state part wav_ k w :
  wp (wav_rotation_finalize_once (RotState part wav_ false false) k)
    (fun '(ok, t, _) _ => t = RotState part wav_ true ok) w.
Proof.
  unfold wav_rotation_finalize_once. cbn [finalize_called part_path wav_path].
  destruct (_ || _); [by wp_prim|]. wp_prim. unfold wp. destruct (sd_pcm_sink_close k w) as [[[] k1] w1]; cbn; [|done].
  unfold bind. by destruct (wav_rotation_finalize_paths part wav_ w1) as [[] w2].
Qed.

(** Whatever follows the payload in the part, the finalized file has it. *)
Lemma finalize_once_stores part wav_ body k w :
  sink_live part body k w -> part <> wav_ ->
  wp (wav_rotation_finalize_once (RotState part wav_ false false) k) (fun '(ok, _, _) w' =>
    ok = true -> w_disk w !! wav_ = None ->
    w_disk w' !! wav_ = Some (NFile (recorder_header (pcm_bytes (wav k)) ++ body)%list)) w.
Proof.
  intros Hl Hne. unfold wav_rotation_finalize_once. cbn [finalize_called part_path wav_path].
  destruct (_ || _); [by wp_prim|]. wp_prim. eapply wp_mono; [by apply sink_close_live|].
  intros [ok1 k1] w1 (Ho & _ & _ & Hd). destruct ok1; cbn [negb]; wp_prim; [|done].
  destruct (Hd eq_refl) as [Hpart _].
  eapply wp_mono; [apply finalize_paths_moves|]. intros ok2 w2 Hok. wp_prim.
  intros -> Hnone. destruct Hok as [-> _]; [done| |done|done].
  by rewrite (only_header_frame _ _ _ _ wav_ Ho).
Qed.

(** C13: finalization is atomic, exact, never overwrites and happens once.
    For an open sink holding [payload] on a FAT card, under every fault plan:
    at every state of the card the audio is under the part's name or the
    final name; success leaves the final header and the payload under the
    final name, on the medium, and no part file; an existing final file is never touched;
    and calling it again, as simultaneous USB, low-battery and stop events
    do, returns the same answer and changes nothing. *)
Theorem finalize_once_atomic part wav payload sink w :
  w_rename_over w = false -> sink_inv part payload sink w -> payload_fits payload ->
  part <> wav ->
  wp (wav_rotation_finalize_once (wav_rotation_state_init part wav) sink)
    (fun '(ok, st, sink') w' =>
       during (audio_somewhere part wav payload) w w' /\
       (ok = true -> w_disk w !! wav = None -> w_disk w' !! part = None /\
          w_disk w' !! wav = Some (NFile (recorder_header (zlen payload) ++ payload)%list) /\
          (wav ∉ w_dirty w')) /\
       (forall n, w_disk w !! wav = Some n -> w_disk w' !! wav = Some n) /\
       (forall q, q <> part -> q <> wav -> w_disk w' !! q = w_disk w !! q) /\
       (forall sink2, wav_rotation_finalize_once st sink2 w' = ((ok, st, sink2), w'))) w.
Proof.
  intros Hfat [Hso Hinv] Hfit Hne. unfold wav_rotation_finalize_once.
  assert (Hh : audio_somewhere part wav payload (w_disk w)) by (left; by eapply inv_holds).
  destruct (state_init_cases part wav) as [-> | ->]; cbn;
    [|wp_prim; split_and!; eauto using during_refl; done].
  destruct (_ || _); [wp_prim; split_and!; eauto using during_refl; done|]. wp_prim.
  eapply wp_mono; [apply (sink_close_live part payload); by split; [|apply inv_live]|].
  intros [ok1 s1] w1 (Ho & _ & _ & Hok1). 
  assert (Hdu1 : during (audio_somewhere part wav payload) w w1).
  { eapply during_mono; [|apply Ho]. by left. }
  assert (Hfr : forall q, q <> part -> w_disk w1 !! q = w_disk w !! q)
    by (intros; by eapply only_header_frame).
  destruct ok1; cbn [negb]; wp_prim; [|split_and!; eauto; intros; by rewrite Hfr].
  destruct (Hok1 eq_refl) as [Hd1 Hx1]. rewrite (inv_bytes _ _ _ _ Hinv) in Hd1.
  eapply wp_mono; [apply wp_and; [apply finalize_paths_spec; by rewrite (oh_over _ _ _ _ Ho)|apply finalize_paths_moves]|].
  intros ok2 w2 [[Hfd Hfdu Hfo] Hmoved]. wp_prim.
  destruct ok2; [destruct Hfd as [(n & Hn & Hw & Hd2)|[Hd2 Hw]]|rename Hfd into Hd2];
    rewrite ?Hd2.
  - rewrite Hn in Hd1. injection Hd1 as ->.
    split_and!; [apply Hfdu; [done|]| | | |done].
    + rewrite Hd2. right. exists (recorder_header (zlen payload)), [].
      rewrite app_nil_r, lookup_insert_eq. auto using recorder_header_shape.
    + intros _ Hnone. rewrite lookup_insert_ne, lookup_delete_eq, lookup_insert_eq by done.
      split_and!; [done..|]. by apply Hmoved.
    + intros n Hn'. rewrite Hfr in Hw by done. congruence.
    + intros q Hq1 Hq2. by rewrite lookup_insert_ne, lookup_delete_ne, Hfr by done.
  - destruct Hw as [c Hw]. rewrite Hfr in Hw by done.
    split_and!; [apply Hfdu; [done|rewrite Hd2; apply Hdu1]|congruence| | |done];
      intros; by rewrite Hfr.
  - split_and!; [apply Hfdu; [done|rewrite Hd2; apply Hdu1]|done| | |done];
      intros; by rewrite Hfr.
Qed.

Definition sample_date : bytes := txt "2026-07-04".
Definition sample_time : bytes := txt "093000".
Definition sample_id : bytes := txt "r1".

Lemma segment_paths_consistent_witness :
  exists p w, wav_rotation_build_part_path RECORDER_MAX_PATH_LEN sample_date sample_time sample_id = Some p /\
    wav_rotation_part_to_wav p RECORDER_MAX_PATH_LEN = Some w.
Proof.
  destruct (segment_paths_consistent sample_date sample_time sample_id
              (segment_path sample_date sample_time sample_id RECORDER_PART_SUFFIX))
    as (w & _ & Hw & _); [by vm_compute|].
  exists (segment_path sample_date sample_time sample_id RECORDER_PART_SUFFIX), w.
  split; [by vm_compute|exact Hw].
Defined.

Lemma segment_path_injective_witness :
  exists p, wav_rotation_build_part_path 256 sample_date sample_time sample_id = Some p /\
    sample_date = sample_date /\ sample_time = sample_time /\ sample_id = sample_id.
Proof.
  exists (segment_path sample_date sample_time sample_id RECORDER_PART_SUFFIX).
  split; [by vm_compute|].
  apply (segment_path_injective 256 sample_date sample_time sample_id
           sample_date sample_time sample_id
           (segment_path sample_date sample_time sample_id RECORDER_PART_SUFFIX));
    by vm_compute.
Defined.

Lemma finalize_once_atomic_witness :
  let w := clean_world {[sample_part := NFile (recorder_header 0)]} in
  let s := Sink (WavPart (Some (Handle sample_part 44)) 0 16000 1 16 true) true 0 0 0 in
  wp (wav_rotation_finalize_once (wav_rotation_state_init sample_part (txt "/r/a.wav")) s)
    (fun _ w' => during (audio_somewhere sample_part (txt "/r/a.wav") []) w w') w.
Proof.
  cbv zeta. eapply wp_mono.
  - apply (finalize_once_atomic sample_part (txt "/r/a.wav") []
             (Sink (WavPart (Some (Handle sample_part 44)) 0 16000 1 16 true) true 0 0 0)
             (clean_world {[sample_part := NFile (recorder_header 0)]})).
    + done.
    + split; [done|]. split; try done. exists (recorder_header 0).
      split; [apply recorder_header_shape|by vm_compute].
    + done.
    + by vm_compute.
  - intros [[ok st] s'] w' (H & _). exact H.
Defined.
