(* ===== verification/WavRecovery.v ===== *)
(** * WavRecovery: boot recovery and quarantine of residual part files

    Models [wav_recovery.c]. *)

From S2P Require Import Prelude Monad Stdio RecorderConfig WavPart WavRotation.

(** [path_exists_local], [path_is_dir_local], [file_size_local]: by [stat]. *)
Definition path_exists_local (path : bytes) : io bool :=
  let* r := stat path in ret (match r with inr _ => true | inl _ => false end).

Definition path_is_dir_local (path : bytes) : io bool :=
  let* r := stat path in ret (match r with inr NDir => true | _ => false end).

Definition file_size_local (path : bytes) : io (option Z) :=
  let* r := stat path in
  ret (match r with
       | inr (NFile c) => Some (zlen c)
       | inr NDir => Some 0
       | inl _ => None
       end).

(** The part after the last '/' or '\'. *)
Fixpoint basename_aux (base path : bytes) : bytes :=
  match path with
  | [] => base
  | c :: t => if (c =? 47) || (c =? 92) then basename_aux t t else basename_aux base t
  end.

Definition basename_local (path : bytes) : bytes := basename_aux path path.

Definition get_u16le (p : bytes) : Z :=
  Z.lor (nth 0 p 0) (Z.shiftl (nth 1 p 0) 8).

Definition get_u32le (p : bytes) : Z :=
  Z.lor (Z.lor (Z.lor (nth 0 p 0) (Z.shiftl (nth 1 p 0) 8))
               (Z.shiftl (nth 2 p 0) 16)) (Z.shiftl (nth 3 p 0) 24).

(** [memcmp(header + off, tag, strlen(tag)) == 0]. *)
Definition tag_at (header : bytes) (off : nat) (tag : bytes) : bool :=
  bool_decide (slice off (length tag) header = tag).

Definition wav_recovery_validate_header (h : bytes) : bool :=
  tag_at h 0 (txt "RIFF") && tag_at h 8 (txt "WAVE") && tag_at h 12 (txt "fmt ") &&
  (get_u32le (drop 16 h) =? 16) && (get_u16le (drop 20 h) =? 1) &&
  (get_u16le (drop 22 h) =? RECORDER_CHANNELS) &&
  (get_u32le (drop 24 h) =? RECORDER_SAMPLE_RATE_HZ) &&
  (get_u32le (drop 28 h) =? RECORDER_BYTE_RATE) &&
  (get_u16le (drop 32 h) =? RECORDER_BLOCK_ALIGN) &&
  (get_u16le (drop 34 h) =? RECORDER_BITS_PER_SAMPLE) &&
  tag_at h 36 (txt "data").

Definition wav_recovery_build_quarantine_path (part dir : bytes) (out_size : Z)
    : option bytes :=
  if out_size =? 0 then None else
  if negb (has_part_suffix_local part) || bool_decide (dir = []) then None else
  let base := basename_local part in
  if bool_decide (base = []) || (128 <? zlen base) then None else
  if bool_decide (47 ∈ base) || bool_decide (92 ∈ base) then None else
  snprintf_fit out_size (dir ++ txt "/" ++ base)%list.

Definition wav_recovery_ensure_dir (dir : bytes) : io bool :=
  if bool_decide (dir = []) then ret false else
  let* r := mkdir dir in
  match r with
  | None => ret true
  | Some EEXIST => path_is_dir_local dir
  | Some _ => ret false
  end.

(** [rename(part, candidate) == 0]. *)
Definition rename_ok (old new : bytes) : io bool :=
  let* r := rename old new in ret (bool_decide (r = None)).

(** The numbered candidates [_1] .. [_99]: [n] of them left, the next is [i]. *)
Fixpoint quarantine_numbered (n : nat) (i : Z) (part dir : bytes) : io bool :=
  match n with
  | O => ret false
  | S k =>
      let base := basename_local part in
      if zlen base <? zlen RECORDER_PART_SUFFIX + 1 then ret false else
      let stem_len := zlen base - zlen RECORDER_PART_SUFFIX in
      if 160 <=? stem_len then ret false else
      let stem := take (Z.to_nat stem_len) base in
      match snprintf_fit RECORDER_MAX_PATH_LEN
              (dir ++ txt "/" ++ stem ++ txt "_" ++ dec_u i ++ RECORDER_PART_SUFFIX)%list with
      | None => ret false
      | Some candidate =>
          let* ex := path_exists_local candidate in
          if negb ex then rename_ok part candidate
          else quarantine_numbered k (i + 1) part dir
      end
  end.

Definition quarantine_move (part dir : bytes) : io bool :=
  if negb (has_part_suffix_local part) || bool_decide (dir = []) then ret false else
  let* ok := wav_recovery_ensure_dir dir in
  if negb ok then ret false else
  match wav_recovery_build_quarantine_path part dir RECORDER_MAX_PATH_LEN with
  | None => ret false
  | Some candidate =>
      let* ex := path_exists_local candidate in
      if negb ex then rename_ok part candidate
      else quarantine_numbered 99 1 part dir
  end.

Definition rewrite_header_with_sync (part : bytes) (recovered_pcm : Z) : io bool :=
  let header := wav_part_build_header recovered_pcm RECORDER_SAMPLE_RATE_HZ
                  RECORDER_CHANNELS RECORDER_BITS_PER_SAMPLE in
  let* f := fopen_existing part in
  match f with
  | None => ret false
  | Some h =>
      let* s := fseek h 0 in
      match s with
      | None => let* _ := fclose h in ret false
      | Some h =>
          let* (ok, h) := fwrite h header in
          if negb ok then (let* _ := fclose h in ret false) else
          let* flushed := fflush h in
          if negb flushed then (let* _ := fclose h in ret false) else
          let* synced := fsync h in
          if negb synced then (let* _ := fclose h in ret false) else
          let* closed := fclose h in
          if negb closed then ret false else
          let* size := file_size_local part in
          let want := u32 (RECORDER_WAV_HEADER_SIZE + recovered_pcm) in
          match size with
          | Some size =>
              if want <? size
              then (let* _ := truncate part (Z.to_nat want) in ret true)
              else ret true
          | None => ret true
          end
      end
  end.

Inductive wav_recovery_outcome_t :=
  | WAV_RECOVERY_RECOVERED
  | WAV_RECOVERY_QUARANTINED
  | WAV_RECOVERY_ERROR.

#[export] Instance wav_recovery_outcome_eq_dec : EqDecision wav_recovery_outcome_t.
Proof. solve_decision. Defined.

(** Quarantine, as every unrecoverable branch ends. *)
Definition quarantine_or_error (part dir : bytes) : io (wav_recovery_outcome_t * Z) :=
  let* moved := quarantine_move part dir in
  ret (if moved then WAV_RECOVERY_QUARANTINED else WAV_RECOVERY_ERROR, 0).

(** The outcome, with [*out_pcm_bytes]. *)
Definition wav_recovery_recover_file (part wav dir : bytes)
    : io (wav_recovery_outcome_t * Z) :=
  if negb (has_part_suffix_local part) || bool_decide (wav = []) ||
     bool_decide (dir = []) then ret (WAV_RECOVERY_ERROR, 0) else
  match wav_rotation_part_to_wav part RECORDER_MAX_PATH_LEN with
  | None => ret (WAV_RECOVERY_ERROR, 0)
  | Some expect =>
  if negb (bool_decide (expect = wav)) then ret (WAV_RECOVERY_ERROR, 0) else
  let* part_there := path_exists_local part in
  if negb part_there then
    let* wav_there := path_exists_local wav in
    ret (if wav_there then WAV_RECOVERY_RECOVERED else WAV_RECOVERY_ERROR, 0)
  else
  let* wav_there := path_exists_local wav in
  if wav_there then quarantine_or_error part dir else
  let* size := file_size_local part in
  match size with
  | None => quarantine_or_error part dir
  | Some size =>
  if size <? RECORDER_WAV_HEADER_SIZE then quarantine_or_error part dir else
  let* probe := fopen_existing part in
  match probe with
  | None => ret (WAV_RECOVERY_ERROR, 0)
  | Some h =>
  let* (header, _, h) := fread h 44 in
  let* _ := fclose h in
  if negb (zlen header =? RECORDER_WAV_HEADER_SIZE) ||
     negb (wav_recovery_validate_header header) then quarantine_or_error part dir else
  let payload := u32 (size - RECORDER_WAV_HEADER_SIZE) in
  let recovered := payload - payload mod RECORDER_BYTES_PER_SAMPLE in
  let* ok := rewrite_header_with_sync part recovered in
  if negb ok then ret (WAV_RECOVERY_ERROR, 0) else
  let* r := rename part wav in
  match r with
  | None => ret (WAV_RECOVERY_RECOVERED, recovered)
  | Some EEXIST => quarantine_or_error part dir
  | Some _ => ret (WAV_RECOVERY_ERROR, 0)
  end end end end.

(** [wav_recovery_stats_t]. *)
Record wav_recovery_stats_t := Stats {
  scanned : Z;
  recovered : Z;
  quarantined : Z;
  errors : Z;
  recovered_pcm_bytes : Z;
  quarantined_files : Z;
}.

Definition stats_zero : wav_recovery_stats_t := Stats 0 0 0 0 0 0.

Definition count_error (s : wav_recovery_stats_t) : wav_recovery_stats_t :=
  Stats (scanned s) (recovered s) (quarantined s) (u32 (errors s + 1))
        (recovered_pcm_bytes s) (quarantined_files s).

(** Append one line: the stream writes' results are not looked at. *)
Definition append_line (path line : bytes) : io bool :=
  if bool_decide (path = []) then ret false else
  let* f := fopen_append path in
  match f with
  | None => ret false
  | Some h =>
      let* (_, h) := fwrite h line in
      let* flushed := fflush h in
      if negb flushed then (let* _ := fclose h in ret false) else
      let* _ := fsync h in
      fclose h
  end.

Definition quoted (s : string) : bytes := ([34] ++ txt s ++ [34])%list.

Definition wav_recovery_append_summary_event (events : bytes) (s : wav_recovery_stats_t)
    : io bool :=
  append_line events
    (txt "{" ++ quoted "event" ++ txt ":" ++ quoted "recovery" ++
     txt "," ++ quoted "scanned" ++ txt ":" ++ dec_u (scanned s) ++
     txt "," ++ quoted "recovered" ++ txt ":" ++ dec_u (recovered s) ++
     txt "," ++ quoted "quarantined" ++ txt ":" ++ dec_u (quarantined s) ++
     txt "," ++ quoted "errors" ++ txt ":" ++ dec_u (errors s) ++
     txt "," ++ quoted "recovered_pcm_bytes" ++ txt ":" ++
     dec_u (recovered_pcm_bytes s) ++ txt "}" ++ [10])%list.

Definition sanitize (c : Z) : Z :=
  if ((65 <=? c) && (c <=? 90)) || ((97 <=? c) && (c <=? 122)) || is_digit c ||
     (c =? 46) || (c =? 95) || (c =? 45) then c else 95.

Definition append_file_event (events part : bytes) (result : string) (pcm : Z) : io bool :=
  append_line events
    (txt "{" ++ quoted "event" ++ txt ":" ++ quoted "recovery_file" ++
     txt "," ++ quoted "file" ++ txt ":" ++ [34] ++
     map sanitize (take 128 (basename_local part)) ++ [34] ++
     txt "," ++ quoted "result" ++ txt ":" ++ quoted result ++
     txt "," ++ quoted "pcm_bytes" ++ txt ":" ++ dec_u pcm ++ txt "}" ++ [10])%list.

(** [events_path] may be NULL. *)
Definition note_file (events : option bytes) (part : bytes) (result : string) (pcm : Z)
    : io unit :=
  match events with
  | None => ret tt
  | Some e => let* _ := append_file_event e part result pcm in ret tt
  end.

Definition handle_one_part (part dir : bytes) (events : option bytes)
    (s : wav_recovery_stats_t) : io wav_recovery_stats_t :=
  let scanned' := u32 (scanned s + 1) in
  match wav_rotation_part_to_wav part RECORDER_MAX_PATH_LEN with
  | None => ret (Stats scanned' (recovered s) (quarantined s) (u32 (errors s + 1))
                   (recovered_pcm_bytes s) (quarantined_files s))
  | Some wav =>
      let* (outcome, pcm) := wav_recovery_recover_file part wav dir in
      match outcome with
      | WAV_RECOVERY_RECOVERED =>
          note_file events part "recovered" pcm ;;;
          ret (Stats scanned' (u32 (recovered s + 1)) (quarantined s) (errors s)
                 (u32 (recovered_pcm_bytes s + pcm)) (quarantined_files s))
      | WAV_RECOVERY_QUARANTINED =>
          note_file events part "quarantined" 0 ;;;
          ret (Stats scanned' (recovered s) (u32 (quarantined s + 1)) (errors s)
                 (recovered_pcm_bytes s) (u32 (quarantined_files s + 1)))
      | WAV_RECOVERY_ERROR =>
          note_file events part "error" 0 ;;;
          ret (Stats scanned' (recovered s) (quarantined s) (u32 (errors s + 1))
                 (recovered_pcm_bytes s) (quarantined_files s))
      end
  end.

Definition is_dot (name : bytes) : bool :=
  bool_decide (name = txt ".") || bool_decide (name = txt "..").

(** The inner loop over a date directory. *)
Fixpoint scan_sub (child : bytes) (names : list bytes) (dir : bytes)
    (events : option bytes) (s : wav_recovery_stats_t) : io wav_recovery_stats_t :=
  match names with
  | [] => ret s
  | name :: rest =>
      if is_dot name then scan_sub child rest dir events s else
      match snprintf_fit RECORDER_MAX_PATH_LEN (child ++ txt "/" ++ name)%list with
      | None => scan_sub child rest dir events (count_error s)
      | Some part =>
          if negb (has_part_suffix_local part) then scan_sub child rest dir events s else
          let* isdir := path_is_dir_local part in
          if isdir then scan_sub child rest dir events s else
          let* s := handle_one_part part dir events s in
          scan_sub child rest dir events s
      end
  end.

(** The outer loop over the recordings directory. *)
Fixpoint scan_top (rec_dir : bytes) (names : list bytes) (dir : bytes)
    (events : option bytes) (s : wav_recovery_stats_t) : io wav_recovery_stats_t :=
  match names with
  | [] => ret s
  | name :: rest =>
      if is_dot name then scan_top rec_dir rest dir events s else
      match snprintf_fit RECORDER_MAX_PATH_LEN (rec_dir ++ txt "/" ++ name)%list with
      | None => scan_top rec_dir rest dir events (count_error s)
      | Some child =>
          let* isdir := path_is_dir_local child in
          if isdir then
            let* sub := list_dir child in
            match sub with
            | None => scan_top rec_dir rest dir events (count_error s)
            | Some (subnames, _) =>
                let* s := scan_sub child subnames dir events s in
                scan_top rec_dir rest dir events s
            end
          else if negb (has_part_suffix_local child)
          then scan_top rec_dir rest dir events s
          else let* s := handle_one_part child dir events s in
               scan_top rec_dir rest dir events s
      end
  end.

Definition wav_recovery_scan_recordings (rec_dir dir : bytes) (events : option bytes)
    : io (bool * wav_recovery_stats_t) :=
  if bool_decide (rec_dir = []) || bool_decide (dir = []) then ret (false, stats_zero) else
  let* ok := wav_recovery_ensure_dir dir in
  if negb ok then ret (false, stats_zero) else
  let* top := list_dir rec_dir in
  match top with
  | None => ret (false, stats_zero)
  | Some (names, _) =>
      let* s := scan_top rec_dir names dir events stats_zero in
      match events with
      | None => ret (true, s)
      | Some e => let* _ := wav_recovery_append_summary_event e s in ret (true, s)
      end
  end.

(** ** Reading a header back *)

Lemma put_u32le_eq v : put_u32le v =
  [v mod 256; v / 256 mod 256; v / 65536 mod 256; v / 16777216 mod 256].
Proof. unfold put_u32le. by rewrite !land255, !Z.shiftr_div_pow2 by done. Qed.


Lemma get_u32le_bytes a b c d rest :
  byte_ok a -> byte_ok b -> byte_ok c -> byte_ok d ->
  get_u32le (a :: b :: c :: d :: rest) = a + b * 256 + c * 65536 + d * 16777216.
Proof.
  unfold byte_ok, get_u32le. intros Ha Hb Hc Hd. cbn [nth].
  rewrite (lor_shiftl a b 8) by (change (2 ^ 8) with 256; lia).
  rewrite (lor_shiftl _ c 16) by (change (2 ^ 8) with 256; change (2 ^ 16) with 65536; lia).
  rewrite (lor_shiftl _ d 24)
    by (change (2 ^ 8) with 256; change (2 ^ 16) with 65536; change (2 ^ 24) with 16777216; lia).
  reflexivity.
Qed.

(** The two sizes of a header come back: for every payload size that
    leaves the file within 4 GiB, the header the recorder writes validates,
    its data-size field reads as the payload size and its RIFF size as the
    file size less 8. *)
Theorem header_roundtrip n :
  0 <= n < 4294967296 - 36 ->
  wav_recovery_validate_header (recorder_header n) = true /\
  get_u32le (drop 40 (recorder_header n)) = n /\
  get_u32le (drop 4 (recorder_header n)) = zlen (recorder_header n) + n - 8.
Proof.
  intros Hn. rewrite recorder_header_eq. unfold zlen.
  rewrite (header_shape_length (wav_header _ _)) by (rewrite <- recorder_header_eq; apply recorder_header_shape).
  rewrite u32_small, !put_u32le_eq by lia. split; [|split].
  - reflexivity.
  - change (get_u32le [n mod 256; n / 256 mod 256; n / 65536 mod 256; n / 16777216 mod 256] = n).
    rewrite get_u32le_bytes by (unfold byte_ok; zlia). zlia.
  - set (m := 36 + n).
    change (get_u32le (m mod 256 :: m / 256 mod 256 :: m / 65536 mod 256 ::
              m / 16777216 mod 256 :: drop 8 (wav_header [0;0;0;0] [n mod 256; n / 256 mod 256; n / 65536 mod 256; n / 16777216 mod 256])) = 44 + n - 8).
    rewrite get_u32le_bytes by (unfold byte_ok; zlia). unfold m. zlia.
Qed.

Lemma header_shape_valid h : header_shape h -> wav_recovery_validate_header h = true.
Proof.
  intros (s1 & s2 & H1 & H2 & ->).
  destruct s1 as [|a0 [|a1 [|a2 [|a3 [|]]]]]; try discriminate. reflexivity.
Qed.

(** ** Nothing is lost *)

(** Whole samples behind the header. *)
Definition even_payload (c : bytes) : nat :=
  Z.to_nat ((zlen c - 44) - (zlen c - 44) mod 2).

(** [c'] still has the audio of [c]: every whole sample of it. *)
Definition kept (c c' : bytes) : Prop :=
  take (even_payload c) (drop 44 c) `prefix_of` drop 44 c'.

Lemma kept_same_tail c c' : drop 44 c' = drop 44 c -> kept c c'.
Proof. unfold kept. intros ->. eexists. symmetry. apply take_drop. Qed.

Lemma kept_refl c : kept c c.
Proof. by apply kept_same_tail. Qed.

#[export] Hint Resolve kept_refl : m5.

Section recovery.
  (** The quarantine directory. *)
  Context (dir : bytes).

(** The card [d] on the way of recovering [part] from [d0], where it held
    [c]: the audio is now at [p], nothing that existed was touched, and only
    the quarantine directory was added. *)
Record recovering (d0 : disk) (part c p : bytes) (d : disk) : Prop := Recovering {
  rc_audio : exists c', d !! p = Some (NFile c') /\ kept c c' /\ (length c' <= length c)%nat;
  rc_moved : p = part \/ (d0 !! p = None /\ d !! part = None);
  rc_frame : forall q n, q <> part -> d0 !! q = Some n -> d !! q = Some n;
  rc_fresh : forall q, q <> part -> q <> p -> d0 !! q = None ->
    d !! q = None \/ (q = dir /\ d !! q = Some NDir);
}.

Record recovering_world (w0 : world) (part c p : bytes) (w : world) : Prop := RecoveringWorld {
  rw_at : recovering (w_disk w0) part c p (w_disk w);
  rw_during : during (fun d => exists p, recovering (w_disk w0) part c p d) w0 w;
  rw_over : w_rename_over w = false;
}.

Lemma recovering_keeps w0 part c p w w' :
  recovering_world w0 part c p w -> keeps w w' -> recovering_world w0 part c p w'.
Proof.
  intros [Ha Hd Ho] Hk. split; [by rewrite (keeps_disk _ _ Hk)|eauto with m5|].
  by rewrite (keeps_over _ _ Hk).
Qed.

Lemma recovering_moves w0 part c p p' w d dirty w' :
  recovering_world w0 part c p w -> moves w d dirty w' ->
  recovering (w_disk w0) part c p' d -> recovering_world w0 part c p' w'.
Proof.
  intros [Ha Hd Ho] Hm Hr. split; [by rewrite (moves_disk _ _ _ _ Hm)| |].
  - eapply during_moves; eauto.
  - by rewrite (moves_over _ _ _ _ Hm).
Qed.

(** The part file is rewritten with its audio kept. *)
Lemma recovering_update d0 part c d c' :
  recovering d0 part c part d -> kept c c' -> (length c' <= length c)%nat ->
  recovering d0 part c part (<[part := NFile c']> d).
Proof.
  intros [Ha Hm Hf Hn] Hk Hl. split.
  - exists c'. by rewrite lookup_insert_eq.
  - by left.
  - intros q n Hq Hd. rewrite lookup_insert_ne by done. eauto.
  - intros q Hq Hq' Hd. rewrite lookup_insert_ne by done. eauto.
Qed.

Lemma recovering_mkdir d0 part c d :
  recovering d0 part c part d -> d !! dir = None -> recovering d0 part c part (<[dir := NDir]> d).
Proof.
  intros [(c' & Ha & Hk & Hl) Hm Hf Hn] Hd. assert (dir <> part) by congruence. split.
  - exists c'. by rewrite lookup_insert_ne.
  - by left.
  - intros q n Hq Hd0. rewrite lookup_insert_ne; eauto. intros ->.
    rewrite (Hf _ _ Hq Hd0) in Hd. done.
  - intros q Hq Hq' Hd0. destruct (decide (q = dir)) as [->|].
    + rewrite lookup_insert_eq. auto.
    + rewrite lookup_insert_ne by done. eauto.
Qed.

Lemma recovering_rename d0 part c d new n :
  recovering d0 part c part d -> d !! new = None -> d !! part = Some n ->
  recovering d0 part c new (<[new := n]> (delete part d)).
Proof.
  intros [(c' & Ha & Hk & Hl) Hm Hf Hn] Hd Hp. assert (new <> part) by congruence.
  assert (n = NFile c') as -> by congruence. split.
  - exists c'. by rewrite lookup_insert_eq.
  - right. split; [|by rewrite lookup_insert_ne, lookup_delete_eq].
    destruct (d0 !! new) as [n|] eqn:He; [|done]. by rewrite (Hf _ _ H He) in Hd.
  - intros q n Hq Hd0. destruct (decide (q = new)) as [->|].
    + rewrite (Hf _ _ Hq Hd0) in Hd. done.
    + rewrite lookup_insert_ne, lookup_delete_ne by done. eauto.
  - intros q Hq Hq' Hd0. rewrite lookup_insert_ne, lookup_delete_ne by done. eauto.
Qed.

#[local] Hint Resolve recovering_keeps : m5.

(** The result of a sub-step that moves the part or leaves it. *)
Definition moved_to (w0 : world) (part c : bytes) (ok : bool) (where_ : bytes -> Prop)
    (w : world) : Prop :=
  if ok then exists p, where_ p /\ recovering_world w0 part c p w
  else recovering_world w0 part c part w.

Lemma wp_stat_keeps path w (Q : errno + node -> world -> Prop) :
  (forall w' r, keeps w w' -> (forall n, r = inr n -> w_disk w !! path = Some n) ->
     (faultless w -> r = match w_disk w !! path with Some n => inr n | None => inl ENOENT end) ->
     Q r w') -> wp (stat path) Q w.
Proof.
  intros H. apply wp_stat; intros; apply H; auto; intros; try done;
    repeat match goal with H : w_disk _ !! _ = _ |- _ => rewrite H end; naive_solver.
Qed.

Lemma rename_ok_spec w0 part c new w (where_ : bytes -> Prop) :
  recovering_world w0 part c part w -> where_ new ->
  wp (rename_ok part new) (fun ok w' => moved_to w0 part c ok where_ w') w.
Proof.
  intros Hr Hw. unfold rename_ok. wp_prim.
  apply wp_rename; [intros w' e Hk _|intros w' n Hn Ho Hm]; wp_prim.
  - rewrite bool_decide_eq_false_2 by done. cbn. eauto with m5.
  - rewrite bool_decide_eq_true_2 by done. cbn. exists new. split; [done|].
    destruct Ho as [Ho|Ho]; [|destruct Hr; congruence].
    eapply recovering_moves; [done..|]. apply recovering_rename; [apply Hr|done..].
Qed.

#[global] Arguments quarantine_numbered : simpl never.

Lemma quarantine_numbered_spec w0 part c n : forall i w,
  recovering_world w0 part c part w ->
  wp (quarantine_numbered n i part dir)
     (fun ok w' => moved_to w0 part c ok (fun p => (dir ++ txt "/")%list `prefix_of` p) w') w.
Proof.
  induction n as [|n IH]; intros i w Hr; unfold quarantine_numbered;
    fold quarantine_numbered; [by wp_prim|]. cbv zeta.
  repeat (step_match; [by wp_prim|]). destruct (snprintf_fit _ _) eqn:Hs; [|by wp_prim].
  apply snprintf_fit_Some in Hs as [-> _]. unfold path_exists_local. wp_prim.
  apply wp_stat_keeps. intros w1 r Hk _ _. wp_prim. destruct r; cbn [negb].
  - apply rename_ok_spec; [eauto with m5|]. eexists. rewrite <- !app_assoc. reflexivity.
  - apply IH. eauto with m5.
Qed.

Lemma ensure_dir_spec w0 part c w :
  recovering_world w0 part c part w ->
  wp (wav_recovery_ensure_dir dir) (fun _ w' => recovering_world w0 part c part w') w.
Proof.
  intros Hr. unfold wav_recovery_ensure_dir. case_bool_decide; [by wp_prim|]. wp_prim.
  apply wp_mkdir; [intros w' e Hk _|intros w' Hn Hm]; [destruct e|]; wp_prim; eauto with m5.
  - unfold path_is_dir_local. wp_prim. apply wp_stat_keeps. intros w2 r Hk2 _ _. wp_prim. eauto with m5.
  - eapply recovering_moves; [done..|]. apply recovering_mkdir; [apply Hr|done].
Qed.

Lemma quarantine_move_spec w0 part c w :
  recovering_world w0 part c part w ->
  wp (quarantine_move part dir)
     (fun ok w' => moved_to w0 part c ok (fun p => (dir ++ txt "/")%list `prefix_of` p) w') w.
Proof.
  intros Hr. unfold quarantine_move. step_match; [by wp_prim|]. wp_prim.
  eapply wp_mono; [by eapply ensure_dir_spec|]. intros ok w1 Hr1. cbn beta.
  destruct ok; cbn [negb]; [|by wp_prim].
  destruct (wav_recovery_build_quarantine_path part dir RECORDER_MAX_PATH_LEN) as [cand|] eqn:Hb; [|by wp_prim].
  unfold path_exists_local. wp_prim. apply wp_stat_keeps. intros w2 r Hk _ _. wp_prim.
  destruct r; cbn [negb]; [|apply quarantine_numbered_spec; eauto with m5].
  apply rename_ok_spec; [eauto with m5|]. revert Hb.
  unfold wav_recovery_build_quarantine_path. repeat (step_match; [done|]).
  intros [-> _]%snprintf_fit_Some. eexists. by rewrite <- app_assoc.
Qed.

Lemma drop_write_header stored new c :
  stored `prefix_of` new -> length new = 44%nat -> drop 44 (write_at 0 stored c) = drop 44 c.
Proof.
  intros [rest ->] Hl. rewrite length_app in Hl. unfold write_at.
  rewrite take_0, Nat.sub_0_l. cbn [replicate app]. rewrite Nat.add_0_l.
  rewrite drop_app, (drop_ge stored) by lia. cbn. rewrite drop_drop. f_equal. lia.
Qed.

Lemma recovering_sync w0 part c w dirty w' :
  recovering_world w0 part c part w -> moves w (w_disk w) dirty w' ->
  recovering_world w0 part c part w'.
Proof. intros Hr Hm. eapply recovering_moves; [done..|]. apply Hr. Qed.

Lemma length_write_at pos stored c :
  (pos + length stored <= length c)%nat -> length (write_at pos stored c) = length c.
Proof.
  intros H. unfold write_at.
  rewrite !length_app, length_take, length_replicate, length_drop. lia.
Qed.

(** [path] holds the recovered file for the audio of [c]. *)
Definition recovered_file (c c' : bytes) (tail : bytes) : Prop :=
  c' = (recorder_header (Z.of_nat (even_payload c)) ++
        take (even_payload c) (drop 44 c) ++ tail)%list /\ (length tail <= 1)%nat.

Lemma recovered_kept c c' tail : recovered_file c c' tail -> kept c c'.
Proof.
  intros [-> _]. unfold kept. rewrite (drop_app_length' (recorder_header _))
    by (by rewrite recorder_header_length). by eexists.
Qed.

Lemma even_payload_spec c :
  (44 <= length c)%nat ->
  Z.of_nat (even_payload c) = (zlen c - 44) - (zlen c - 44) mod 2 /\
  (even_payload c <= length c - 44)%nat /\ (length c - 44 <= even_payload c + 1)%nat.
Proof. intros H. unfold even_payload, zlen. split_and!; zlia. Qed.

Section rewrite.
  Context (w0 : world) (part c : bytes) (w : world).
  Context (Hr : recovering_world w0 part c part w).
  Context (Hc : w_disk w !! part = Some (NFile c)).
  Context (Hlen : (44 <= length c)%nat) (Hmax : zlen c < 2147483648).

Let n := Z.of_nat (even_payload c).

  (** Recovery is under way and only the part has been touched since [w]. *)
Definition mine (w' : world) : Prop :=
    recovering_world w0 part c part w' /\
    forall q, q <> part -> w_disk w' !! q = w_disk w !! q.

Lemma mine_start : mine w.
Proof. done. Qed.

Lemma mine_keeps w1 w2 : mine w1 -> keeps w1 w2 -> mine w2.
Proof.
    intros [H Hq] Hk. split; [eauto with m5|]. intros q Hne.
    rewrite (keeps_disk _ _ Hk). auto.
Qed.

Lemma mine_sync w1 dirty w2 : mine w1 -> moves w1 (w_disk w1) dirty w2 -> mine w2.
Proof.
    intros [H Hq] Hm. split; [by eapply recovering_sync|]. intros q Hne.
    rewrite (moves_disk _ _ _ _ Hm). auto.
Qed.

Lemma mine_update w1 c' dirty w2 :
    mine w1 -> moves w1 (<[part := NFile c']> (w_disk w1)) dirty w2 ->
    kept c c' -> (length c' <= length c)%nat -> mine w2.
Proof.
    intros [H Hq] Hm Hk Hl. split.
    - eapply recovering_moves; [done..|]. apply recovering_update; [apply H|done..].
    - intros q Hne. rewrite (moves_disk _ _ _ _ Hm), lookup_insert_ne by done. auto.
Qed.

#[local] Hint Resolve mine_start mine_keeps mine_sync : m5.

  (** A written header is followed by the old payload. *)
Lemma full_header_written stored :
    stored = recorder_header n ->
    write_at 0 stored c = (recorder_header n ++ drop 44 c)%list.
Proof.
    intros ->. unfold write_at. rewrite take_0. cbn [replicate app].
    by rewrite Nat.add_0_l, recorder_header_length.
Qed.

Lemma full_header_recovered :
    recovered_file c (recorder_header n ++ drop 44 c)%list
      (drop (even_payload c) (drop 44 c)).
Proof.
    split; [by rewrite take_drop|]. rewrite !length_drop.
    destruct (even_payload_spec c Hlen). lia.
Qed.

Lemma truncated_recovered :
    recovered_file c (take (Z.to_nat (u32 (44 + n))) (recorder_header n ++ drop 44 c)) [].
Proof.
    destruct (even_payload_spec c Hlen) as (He & Hle & _). split; [|cbn; lia].
    rewrite app_nil_r. unfold n, zlen in *. rewrite u32_small by lia.
    replace (Z.to_nat (44 + Z.of_nat (even_payload c)))
      with (length (recorder_header (Z.of_nat (even_payload c))) + even_payload c)%nat
      by (rewrite recorder_header_length; lia).
    by rewrite take_app_add.
Qed.

Definition header_rewritten (ok : bool) (w' : world) : Prop :=
    mine w' /\
    (ok = true -> exists c' tail, w_disk w' !! part = Some (NFile c') /\
       recovered_file c c' tail /\ (faultless w -> tail = [])) /\
    (faultless w -> ok = true /\ faultless w').

  (** The last step: shrink the file to the length the header declares. *)
Lemma shrink_spec w5 :
    mine w5 ->
    w_disk w5 !! part = Some (NFile (recorder_header n ++ drop 44 c)%list) ->
    (faultless w -> faultless w5) ->
    wp (let* size := file_size_local part in
        let want := u32 (RECORDER_WAV_HEADER_SIZE + n) in
        match size with
        | Some size =>
            if want <? size
            then (let* _ := truncate part (Z.to_nat want) in ret true)
            else ret true
        | None => ret true
        end) header_rewritten w5.
Proof.
    intros Hr5 Hd5 Hf5. unfold file_size_local, header_rewritten. cbv zeta. wp_prim.
    apply wp_stat_keeps. intros w6 r Hk6 Hsize Hsf. wp_prim.
    rewrite Hd5 in Hsf, Hsize. pose proof full_header_recovered as Hfull.
    assert (Hkeep : mine w6) by eauto with m5.
    assert (Hd6 : w_disk w6 !! part = Some (NFile (recorder_header n ++ drop 44 c)%list))
      by (by rewrite (keeps_disk _ _ Hk6)).
    assert (Hf6 : faultless w -> faultless w6) by (destruct Hk6; auto).
    destruct r as [e|nd].
    { wp_prim. split_and!; [done| |auto]. intros _. eexists _, _. split; [done|].
      split; [done|]. intros Hf. by specialize (Hsf (Hf5 Hf)). }
    assert (nd = NFile (recorder_header n ++ drop 44 c)%list) as ->
      by (specialize (Hsize nd eq_refl); congruence).
    cbv beta iota zeta.
    destruct (even_payload_spec c Hlen) as (He & Hle & Hge).
    assert (Hsz : zlen (recorder_header n ++ drop 44 c)%list = zlen c).
    { unfold zlen in *. rewrite length_app, recorder_header_length, length_drop. lia. }
    rewrite Hsz. change RECORDER_WAV_HEADER_SIZE with 44. 
    destruct (Z.ltb_spec (u32 (44 + n)) (zlen c)) as [Hlt|Hge']; wp_prim.
    - apply wp_truncate; [intros w7 Hk7 Hf7|intros w7 c7 Hc7 Hm7]; wp_prim.
      + split_and!; [eauto with m5| |destruct Hk7; auto].
        intros _. eexists _, _. split; [by rewrite (keeps_disk _ _ Hk7)|].
        split; [done|]. intros Hf. rewrite Hd6 in Hf7. by specialize (Hf7 (Hf6 Hf)).
      + assert (c7 = recorder_header n ++ drop 44 c)%list as -> by congruence. pose proof truncated_recovered as Ht.
        split_and!; [| |destruct Hm7; auto].
        * eapply mine_update; [exact Hkeep|exact Hm7| |].
          -- by eapply recovered_kept.
          -- rewrite length_take, length_app, recorder_header_length, length_drop. lia.
        * intros _. eexists _, _. split; [|split; [exact Ht|done]].
          by rewrite (moves_disk _ _ _ _ Hm7), lookup_insert_eq.
    - split_and!; [done| |auto]. intros _. eexists _, _. split; [done|].
      split; [done|]. intros _. apply drop_ge. rewrite length_drop. unfold n, zlen in *.
      rewrite u32_small in Hge' by lia. lia.
Qed.

Lemma rewrite_header_with_sync_spec :
    wp (rewrite_header_with_sync part n) header_rewritten w.
Proof.
    unfold rewrite_header_with_sync. fold (recorder_header n). wp_prim.
    apply wp_fopen_existing.
    { intros w1 Hk Hf. wp_prim. rewrite Hc in Hf. cbn in Hf.
      split_and!; [eauto with m5|done|naive_solver]. }
    intros w1 c1 Hk1 Hc1. rewrite Hc in Hc1. injection Hc1 as <-.
    assert (Hr1 : mine w1) by eauto with m5. wp_prim.
    apply wp_fseek; intros w2 Hk2; [intros Hnf; wp_prim; wp_auto; 
       split_and!; [eauto 7 with m5|done|destruct Hk1; naive_solver]|]. wp_prim.
    assert (Hr2 : mine w2) by eauto with m5.
    apply wp_fwrite. intros w3 ok stored Hm Hpre Hok Hfok. cbn [h_path h_pos] in *.
    rewrite (keeps_disk _ _ Hk2), (keeps_disk _ _ Hk1), Hc in Hm. cbn [file_content] in Hm.
    assert (Hr3 : mine w3).
    { eapply mine_update; [exact Hr2|rewrite (keeps_disk _ _ Hk2), (keeps_disk _ _ Hk1); exact Hm| |].
      - apply kept_same_tail. eapply drop_write_header; [done|apply recorder_header_length].
      - rewrite length_write_at; [done|]. apply prefix_length in Hpre.
        rewrite recorder_header_length in Hpre. lia. }
    assert (Hf3 : faultless w -> ok = true /\ faultless w3) by (destruct Hk1, Hk2, Hm; naive_solver).
    wp_prim. destruct ok; cbn [negb].
    2: { wp_auto; split_and!; [eauto with m5|done|naive_solver]. }
    assert (Hd3 : w_disk w3 !! part = Some (NFile (recorder_header n ++ drop 44 c)%list)).
    { rewrite (moves_disk _ _ _ _ Hm), lookup_insert_eq. f_equal. f_equal.
      apply full_header_written. auto. }
    clear Hk1 Hk2 Hr1 Hr2 Hm Hok Hfok. wp_prim.
    apply wp_fflush. intros w4 ok4 Hk4 Hf4. wp_prim.
    destruct ok4; cbn [negb]; [|wp_auto; split_and!; [eauto with m5|done|destruct Hk4; naive_solver]].
    apply wp_bind, wp_fsync; [intros w5 Hk5 Hnf|intros w5 Hm5]; cbn [negb].
    { wp_auto; split_and!; [eauto 7 with m5|done|destruct Hk4; naive_solver]. }
    assert (Hr5 : mine w5).
    { eapply mine_sync; [eapply mine_keeps; [exact Hr3|exact Hk4]|done]. }
    assert (Hd5 : w_disk w5 !! part = Some (NFile (recorder_header n ++ drop 44 c)%list)).
    { by rewrite (moves_disk _ _ _ _ Hm5), (keeps_disk _ _ Hk4). }
    assert (Hf5 : faultless w -> faultless w5) by (destruct Hk4, Hm5; naive_solver).
    clear Hm5 Hk4 Hf4 Hr3 Hd3 Hf3 w3 w4. wp_prim.
    apply wp_fclose. intros w6 ok6 Hk6 Hf6. wp_prim.
    destruct ok6; cbn [negb]; wp_prim; [|split_and!; [eauto with m5|done|destruct Hk6; naive_solver]].
    apply wp_unbind, shrink_spec; [eauto with m5|by rewrite (keeps_disk _ _ Hk6)|destruct Hk6; auto].
Qed.
End rewrite.

(** What the caller learns of a recovery. *)
Definition recover_result (w : world) (part wav c : bytes)
    (o : wav_recovery_outcome_t) (pcm : Z) (w' : world) : Prop :=
  match o with
  | WAV_RECOVERY_RECOVERED =>
      (recovering_world w part c wav w' /\ w_disk w !! wav = None /\
       pcm = Z.of_nat (even_payload c) /\
       exists c' tail, w_disk w' !! wav = Some (NFile c') /\ recovered_file c c' tail /\
         (faultless w -> tail = [])) \/
      (* the part could not be looked up and a finalized file is there *)
      (recovering_world w part c part w' /\ w_disk w' = w_disk w /\ pcm = 0 /\
       is_Some (w_disk w !! wav) /\ ~ faultless w)
  | WAV_RECOVERY_QUARANTINED =>
      exists p, (dir ++ txt "/")%list `prefix_of` p /\ recovering_world w part c p w'
  | WAV_RECOVERY_ERROR => recovering_world w part c part w'
  end.

Lemma recovering_start w part c :
  w_rename_over w = false -> w_disk w !! part = Some (NFile c) ->
  recovering_world w part c part w.
Proof.
  intros Ho Hc. assert (H : recovering (w_disk w) part c part (w_disk w)).
  { split; [eauto 6 with m5|by left|done|auto]. }
  split; [done| |done]. apply during_refl. eauto.
Qed.

Lemma quarantine_or_error_spec w part wav c w1 :
  recovering_world w part c part w1 ->
  wp (quarantine_or_error part dir) (fun '(o, pcm) w' => recover_result w part wav c o pcm w') w1.
Proof.
  intros Hr. unfold quarantine_or_error. wp_prim.
  eapply wp_mono; [by eapply quarantine_move_spec|]. intros [|] w' Hm; by wp_prim.
Qed.

Lemma quarantine_or_error_result w part wav c w1 :
  recovering_world w part c part w1 ->
  wp (quarantine_or_error part dir) (fun r w' => recover_result w part wav c r.1 r.2 w') w1.
Proof.
  intros Hr. eapply wp_mono; [by apply quarantine_or_error_spec|]. by intros [].
Qed.

(** From the header probe on, for a part of at least a header's size. *)
Lemma recover_valid_spec w part wav c w3 :
  recovering_world w part c part w3 -> w_disk w3 !! part = Some (NFile c) ->
  zlen c < 2147483648 -> (44 <= length c)%nat -> (faultless w -> faultless w3) ->
  wp (let* probe := fopen_existing part in
      match probe with
      | None => ret (WAV_RECOVERY_ERROR, 0)
      | Some h =>
      let* (header, _, h) := fread h 44 in
      let* _ := fclose h in
      if negb (zlen header =? RECORDER_WAV_HEADER_SIZE) ||
         negb (wav_recovery_validate_header header) then quarantine_or_error part dir else
      let payload := u32 (zlen c - RECORDER_WAV_HEADER_SIZE) in
      let recovered := payload - payload mod RECORDER_BYTES_PER_SAMPLE in
      let* ok := rewrite_header_with_sync part recovered in
      if negb ok then ret (WAV_RECOVERY_ERROR, 0) else
      let* r := rename part wav in
      match r with
      | None => ret (WAV_RECOVERY_RECOVERED, recovered)
      | Some EEXIST => quarantine_or_error part dir
      | Some _ => ret (WAV_RECOVERY_ERROR, 0)
      end end)
    (fun r => recover_result w part wav c r.1 r.2) w3.
Proof.
  intros Hrw3 Hd3 Hmax Hlen Hf3. wp_prim.
  apply wp_fopen_existing; [intros w4 Hk4 _; wp_prim; cbn; eauto with m5|].
  intros w4 c4 Hk4 _. wp_prim. apply wp_fread. intros w5 got err Hk5 _ _ _. wp_prim.
  apply wp_fclose. intros w6 ok6 Hk6 _. wp_prim.
  assert (Hrw6 : recovering_world w part c part w6) by eauto 6 with m5.
  step_match; [by apply quarantine_or_error_result|].
  destruct (even_payload_spec c Hlen) as (He & _). cbv zeta.
  replace (u32 (zlen c - RECORDER_WAV_HEADER_SIZE) - _) with (Z.of_nat (even_payload c)).
  2: { change RECORDER_WAV_HEADER_SIZE with 44. change RECORDER_BYTES_PER_SAMPLE with 2.
       rewrite He, u32_small; [done|]. unfold zlen in *. lia. }
  wp_prim. eapply wp_mono.
  { apply (rewrite_header_with_sync_spec w part c w6); try done.
    by rewrite (keeps_disk _ _ Hk6), (keeps_disk _ _ Hk5), (keeps_disk _ _ Hk4). }
  intros ok7 w7 ([Hrw7 _] & Hok7 & _). destruct ok7; cbn [negb]; wp_prim; [|done].
  destruct (Hok7 eq_refl) as (c' & tail & Hd7 & Hrec & Htail).
  apply wp_rename; [intros w8 e Hk8 _|intros w8 n Hn Ho Hm8].
  - destruct e; wp_prim; try (apply quarantine_or_error_result); cbn; eauto with m5.
  - assert (n = NFile c') as -> by congruence. wp_prim. left.
    destruct Ho as [Ho|Ho]; [|destruct Hrw7; congruence].
    assert (Hat : recovering (w_disk w) part c wav (<[wav := NFile c']> (delete part (w_disk w7))))
      by (apply recovering_rename; [apply Hrw7|done..]).
    split_and!; [by eapply recovering_moves| |done|].
    + destruct (rc_moved _ _ _ _ _ Hat) as [->|[H _]]; [congruence|done].
    + exists c', tail. rewrite (moves_disk _ _ _ _ Hm8), lookup_insert_eq. split_and!; try done.
      intros Hf. apply Htail. destruct Hk4, Hk5, Hk6. auto.
Qed.

Lemma recover_file_result part wav c w :
  w_rename_over w = false -> w_disk w !! part = Some (NFile c) -> zlen c < 2147483648 ->
  wp (wav_recovery_recover_file part wav dir)
    (fun r w' => recover_result w part wav c r.1 r.2 w') w.
Proof.
  intros Hover Hc Hmax.
  pose proof (recovering_start w part c Hover Hc) as Hr.
  unfold wav_recovery_recover_file. step_match; [by wp_prim|].
  destruct (wav_rotation_part_to_wav part _) as [e|]; [|by wp_prim].
  step_match; [by wp_prim|]. split_bools. subst e.
  unfold path_exists_local, file_size_local. wp_prim.
  apply wp_stat_keeps. intros w1 r1 Hk1 _ Hf1. wp_prim. rewrite Hc in Hf1.
  destruct r1 as [e1|n1]; cbn [negb].
  { wp_prim. apply wp_stat_keeps. intros w2 r2 Hk2 Hr2 _. wp_prim.
    assert (Hrw : recovering_world w part c part w2) by eauto with m5.
    destruct r2 as [|n2]; [done|]. right. rewrite (keeps_disk _ _ Hk2), (keeps_disk _ _ Hk1).
    rewrite (keeps_disk _ _ Hk1) in Hr2. split_and!; eauto. intros Hf. by specialize (Hf1 Hf). }
  wp_prim. apply wp_stat_keeps. intros w2 r2 Hk2 _ _. wp_prim.
  assert (Hrw2 : recovering_world w part c part w2) by eauto with m5.
  destruct r2 as [e2|n2]; [|by apply quarantine_or_error_result].
  wp_prim. apply wp_stat_keeps. intros w3 r3 Hk3 Hr3 _. wp_prim.
  assert (Hrw3 : recovering_world w part c part w3) by eauto with m5.
  assert (Hd3 : w_disk w3 !! part = Some (NFile c))
    by (by rewrite (keeps_disk _ _ Hk3), (keeps_disk _ _ Hk2), (keeps_disk _ _ Hk1)).
  rewrite <- (keeps_disk _ _ Hk3), Hd3 in Hr3.
  destruct r3 as [e3|n3]; [by apply quarantine_or_error_result|].
  assert (n3 = NFile c) as -> by (specialize (Hr3 n3 eq_refl); congruence).
  cbv beta iota. step_match; [by apply quarantine_or_error_result|].
  apply wp_mono with (Q := fun r => recover_result w part wav c r.1 r.2); [|done].
  apply recover_valid_spec; [done..| |].
  - split_bools. unfold RECORDER_WAV_HEADER_SIZE, zlen in *. lia.
  - destruct Hk1, Hk2, Hk3. auto.
Qed.

End recovery.

#[export] Hint Resolve recovering_keeps : m5.

(** C12: recovering a part file never loses audio and never overwrites.  On a
    FAT card, under every fault plan, a part file of any content (within the
    32-bit file size): at every state of the card all whole samples of its
    payload are in one file, every other existing file and directory is
    unchanged and nothing but the quarantine directory was added.  RECOVERED means the
    finalized name was free and now holds the exact header for the even
    payload and that payload (an odd byte may stay behind it only if a card
    call failed); QUARANTINED means the part moved, whole, under the
    quarantine directory; ERROR means the part is still there for a retry. *)
Theorem recover_file_safe part wav dir c w :
  w_rename_over w = false -> w_disk w !! part = Some (NFile c) -> zlen c < 2147483648 ->
  wp (wav_recovery_recover_file part wav dir)
    (fun '(o, pcm) w' =>
       during (fun d => exists p, recovering dir (w_disk w) part c p d) w w' /\
       recover_result dir w part wav c o pcm w') w.
Proof.
  intros Hover Hc Hmax. eapply wp_mono; [by apply recover_file_result|].
  intros [o pcm] w' H. split; [|done].
  destruct o; cbn in H; [destruct H as [[H _]|[H _]]|destruct H as (p & _ & H)|];
    apply (rw_during _ _ _ _ _ _ H).
Qed.

Definition cut_part : bytes := (recorder_header 0 ++ [1; 2; 3; 4; 5])%list.
Definition cut_world : world :=
  clean_world {[txt "/r" := NDir; sample_part := NFile cut_part]}.

Lemma recover_file_safe_witness :
  wp (wav_recovery_recover_file sample_part (txt "/r/a.wav") (txt "/q"))
    (fun '(o, pcm) w' => recover_result (txt "/q") cut_world sample_part (txt "/r/a.wav") cut_part o pcm w')
    cut_world.
Proof.
  eapply wp_mono.
  - apply (recover_file_safe sample_part (txt "/r/a.wav") (txt "/q") cut_part cut_world);
      by vm_compute.
  - intros [o pcm] w' [_ H]. exact H.
Defined.

(** Faultless lookups and reads. *)
Lemma wp_stat_ok path w (Q : errno + node -> world -> Prop) :
  faultless w ->
  (forall w', keeps w w' -> faultless w' ->
     Q (match w_disk w !! path with Some n => inr n | None => inl ENOENT end) w') ->
  wp (stat path) Q w.
Proof.
  intros Hf H. apply wp_stat_keeps. intros w' r Hk _ Hr. rewrite Hr by done.
  destruct Hk. by apply H; auto.
Qed.

Section success.
  Context (part wav dir : bytes) (w : world) (h payload : bytes).
  Context (Hf : faultless w) (Hover : w_rename_over w = false).
  Context (Hpw : wav_rotation_part_to_wav part RECORDER_MAX_PATH_LEN = Some wav).
  Context (Hdir : dir <> []).
  Context (Hc : w_disk w !! part = Some (NFile (h ++ payload)%list)).
  Context (Hw : w_disk w !! wav = None) (Hh : header_shape h).
  Context (Hmax : zlen (h ++ payload)%list < 2147483648).

Lemma recover_outcome :
    wp (wav_recovery_recover_file part wav dir) (fun r _ => r.1 = WAV_RECOVERY_RECOVERED) w.
Proof.
    pose proof (header_shape_length _ Hh) as Hlh.
    pose proof (part_to_wav_Some _ _ _ Hpw) as (Hws & Hpart & _).
    assert (Hs : has_part_suffix_local part = true).
    { apply has_suffix_spec in Hws as [stem ->]. apply has_suffix_spec. exists stem.
      by rewrite Hpart, <- app_assoc. }
    assert (Hwn : wav <> []) by (intros ->; done).
    unfold wav_recovery_recover_file. rewrite Hs, Hpw, !bool_decide_eq_false_2 by done.
    cbn [negb orb]. rewrite bool_decide_eq_true_2 by done. cbn [negb].
    unfold path_exists_local, file_size_local. wp_prim.
    apply wp_stat_ok; [done|]. intros w1 Hk1 Hf1. rewrite Hc. wp_prim. cbn [negb]. wp_prim.
    apply wp_stat_ok; [done|]. intros w2 Hk2 Hf2. rewrite (keeps_disk _ _ Hk1), Hw. wp_prim.
    apply wp_stat_ok; [done|]. intros w3 Hk3 Hf3. pose proof (keeps_trans _ _ _ Hk1 Hk2) as Hk12.
    pose proof (keeps_trans _ _ _ Hk12 Hk3) as Hk13. rewrite (keeps_disk _ _ Hk12), Hc. wp_prim.
    cbv beta iota. unfold zlen at 1. rewrite length_app, Hlh, (proj2 (Z.ltb_ge _ _))
      by (unfold RECORDER_WAV_HEADER_SIZE; lia). wp_prim.
    apply wp_fopen_existing; rewrite (keeps_disk _ _ Hk13), Hc; [naive_solver|].
    intros w4 c4 Hk4 _. wp_prim. apply wp_fread. cbn [h_path h_pos].
    rewrite (keeps_disk _ _ Hk4), (keeps_disk _ _ Hk13), Hc. cbn [file_content].
    rewrite drop_0, (take_app_length' h) by done.
    intros w5 got err Hk5 _ Hg He. rewrite Hg by (apply He; destruct Hk4; auto). clear Hg He.
    wp_prim. apply wp_fclose. intros w6 ok6 Hk6 _. wp_prim.
    unfold zlen at 1. rewrite Hlh, header_shape_valid by done.
    change (Z.of_nat 44 =? RECORDER_WAV_HEADER_SIZE) with true. cbn [negb orb]. cbv zeta.
    replace (u32 (zlen (h ++ payload)%list - RECORDER_WAV_HEADER_SIZE) - _)
      with (Z.of_nat (even_payload (h ++ payload)%list)).
    2: { destruct (even_payload_spec (h ++ payload)%list) as (He & _); [rewrite length_app; lia|].
         change RECORDER_WAV_HEADER_SIZE with 44. change RECORDER_BYTES_PER_SAMPLE with 2.
         rewrite He, u32_small; [done|]. unfold zlen in *. rewrite length_app in *. lia. }
    wp_prim. assert (Hk : keeps w w6) by eauto using keeps_trans.
    eapply wp_mono.
    { apply (rewrite_header_with_sync_spec dir w part (h ++ payload)%list w6); try done.
      - eapply recovering_keeps; [by apply recovering_start|done].
      - by rewrite (keeps_disk _ _ Hk).
      - rewrite length_app. lia. }
    intros ok7 w7 ([Hrw7 Hfr7] & Hok7 & Hf7). destruct Hf7 as [-> Hf7]; [by destruct Hk; auto|].
    cbn [negb]. wp_prim. destruct (Hok7 eq_refl) as (c' & tail & Hd7 & _).
    apply wp_rename; [|intros; by wp_prim]. intros w8 e _ Hbad. exfalso.
    destruct (Hbad Hf7) as [Hn|(_ & [n Hn] & _)]; [congruence|].
    rewrite Hfr7, (keeps_disk _ _ Hk), Hw in Hn by congruence. done.
Qed.
End success.

(** Without card faults a power-cut recording comes back: a part file
    with a recorder header and a free finalized name is recovered, with the
    byte count of its whole samples. *)
Theorem recover_file_succeeds part wav dir c w h payload :
  faultless w -> w_rename_over w = false ->
  wav_rotation_part_to_wav part RECORDER_MAX_PATH_LEN = Some wav -> dir <> [] ->
  w_disk w !! part = Some (NFile c) -> w_disk w !! wav = None ->
  c = (h ++ payload)%list -> header_shape h -> zlen c < 2147483648 ->
  wp (wav_recovery_recover_file part wav dir)
    (fun '(o, pcm) w' => o = WAV_RECOVERY_RECOVERED /\
       pcm = zlen payload - zlen payload mod 2 /\ w_disk w' !! part = None /\
       w_disk w' !! wav = Some (NFile (recorder_header pcm ++ take (Z.to_nat pcm) payload)%list)) w.
Proof.
  intros Hf Hover Hpw Hdir Hc Hw -> Hh Hmax.
  eapply wp_mono.
  { apply wp_and; [by apply recover_file_result|by eapply recover_outcome]. }
  intros [o pcm] w' [H Ho]. cbn in H, Ho. subst o.
  destruct H as [([Hat _ _] & _ & -> & c' & tail & Hd & [-> Hl] & Ht)|(_ & _ & _ & _ & Hnf)]; [|done].
  destruct Hat as [_ [->|[_ Hgone]] _ _]; [congruence|].
  pose proof (header_shape_length _ Hh) as Hlh.
  assert (Hlen : (44 <= length (h ++ payload))%nat) by (rewrite length_app; lia).
  destruct (even_payload_spec _ Hlen) as (He & _).
  assert (Hz : zlen (h ++ payload)%list - 44 = zlen payload).
  { unfold zlen. rewrite length_app. lia. }
  rewrite Hz in He. split_and!; [done|done|done|].
  rewrite Hd, (Ht Hf), app_nil_r, Nat2Z.id, (drop_app_length' h) by done. done.
Qed.

Lemma recover_file_succeeds_witness :
  wp (wav_recovery_recover_file sample_part (txt "/r/a.wav") (txt "/q"))
    (fun '(o, pcm) _ => o = WAV_RECOVERY_RECOVERED /\ pcm = 4) cut_world.
Proof.
  eapply wp_mono.
  - apply (recover_file_succeeds sample_part (txt "/r/a.wav") (txt "/q") cut_part cut_world
             (recorder_header 0) [1; 2; 3; 4; 5]); try by vm_compute.
    apply recorder_header_shape.
  - cbn. intros [o pcm] w' (-> & -> & _). split; [done|by vm_compute].
Defined.

Lemma header_roundtrip_witness : get_u32le (drop 40 (recorder_header 57600000)) = 57600000.
Proof. exact (proj1 (proj2 (header_roundtrip 57600000 ltac:(split; [discriminate|reflexivity])))). Defined.
