(* ===== verification/RecoveryScan.v ===== *)
(** * RecoveryScan: the boot scan loses nothing

    The theorem about [wav_recovery_scan_recordings] as a whole: over every
    fault plan, at every state of the card, each file that existed when the
    scan began still has a file of its own with its audio. *)

From S2P Require Import Prelude Monad Stdio RecorderConfig WavPart WavRotation WavRecovery.

(** What is named as a part is a file within the 32-bit file size. *)
Definition small (d : disk) : Prop :=
  forall p n, has_part_suffix_local p = true -> d !! p = Some n ->
    exists c, n = NFile c /\ zlen c < 2147483648.

(** [d'] still has every file of [d]: under a name of its own, with all the
    whole samples, and in place and intact unless it is a part file or the
    event log. *)
Record preserved (events : option bytes) (d d' : disk) : Prop := Preserved {
  pv_audio : exists f : bytes -> bytes,
    (forall p c, d !! p = Some (NFile c) -> exists c', d' !! f p = Some (NFile c') /\ kept c c') /\
    (forall p q, is_file (d !! p) = true -> is_file (d !! q) = true -> f p = f q -> p = q);
  pv_fixed : forall p n, has_part_suffix_local p = false -> Some p <> events ->
    d !! p = Some n -> d' !! p = Some n;
  pv_small : small d -> small d';
}.

Lemma kept_trans c c' c'' : kept c c' -> kept c' c'' -> kept c c''.
Proof.
  unfold kept. intros H1 H2. etrans; [|exact H2].
  pose proof (prefix_length _ _ H1) as Hl. destruct H1 as [k Hk].
  set (a := take (even_payload c) (drop 44 c)) in *.
  assert (Ha : (length a <= even_payload c')%nat).
  { assert (He : Z.of_nat (length a) mod 2 = 0).
    { unfold a. rewrite length_take, length_drop. unfold even_payload, zlen in *. zlia. }
    rewrite length_drop in Hl. unfold even_payload, zlen. zlia. }
  rewrite Hk. rewrite take_app_ge by done. by eexists.
Qed.

Lemma preserved_refl events d : preserved events d d.
Proof. split; [|done..]. exists (fun q => q). split; [eauto with m5|done]. Qed.

Lemma preserved_trans events d d1 d2 :
  preserved events d d1 -> preserved events d1 d2 -> preserved events d d2.
Proof.
  intros [(f & Hf & Hfi) Hx Hs] [(g & Hg & Hgi) Hx' Hs']. split; [|eauto..].
  exists (g ∘ f). split.
  - intros p c Hp. destruct (Hf p c Hp) as (c1 & Hc1 & Hk1).
    destruct (Hg _ _ Hc1) as (c2 & Hc2 & Hk2). eauto using kept_trans.
  - intros p q Hp Hq Heq. unfold is_file in Hp, Hq.
    destruct (d !! p) as [[c|]|] eqn:Hdp; try done. destruct (d !! q) as [[c'|]|] eqn:Hdq; try done.
    destruct (Hf p c Hdp) as (c1 & Hc1 & _). destruct (Hf q c' Hdq) as (c2 & Hc2 & _).
    apply Hfi; [by rewrite Hdp|by rewrite Hdq|]. apply Hgi; [by rewrite Hc1|by rewrite Hc2|done].
Qed.

(** One file changes in place, keeping its audio. *)
Lemma preserved_update events d p c c' :
  d !! p = Some (NFile c) -> kept c c' -> Some p = events -> has_part_suffix_local p = false ->
  preserved events d (<[p := NFile c']> d).
Proof.
  intros Hp Hk He Hs. split.
  - exists (fun q => q). split; [|done]. intros q cq Hq. destruct (decide (q = p)) as [->|Hne].
    + exists c'. rewrite Hp in Hq. injection Hq as <-. by rewrite lookup_insert_eq.
    + exists cq. rewrite lookup_insert_ne by done. auto with m5.
  - intros q n _ Hne Hq. rewrite lookup_insert_ne; [done|congruence].
  - intros Hsm q n Hqs Hq. destruct (decide (q = p)) as [->|Hne]; [congruence|].
    rewrite lookup_insert_ne in Hq by done. eauto.
Qed.

(** A new entry where there was none. *)
Lemma preserved_new events d p n :
  d !! p = None -> has_part_suffix_local p = false ->
  preserved events d (<[p := n]> d).
Proof.
  intros Hp Hn. split.
  - exists (fun q => q). split; [|done]. intros q cq Hq. exists cq.
    rewrite lookup_insert_ne by congruence. auto with m5.
  - intros q n' _ _ Hq. rewrite lookup_insert_ne; [done|congruence].
  - intros Hsm q nq Hqs Hq. destruct (decide (q = p)) as [->|Hne]; [congruence|].
    rewrite lookup_insert_ne in Hq by done. eauto.
Qed.

(** Every state of a recovery preserves the card. *)
Lemma recovering_preserved events dir d part c p d' :
  d !! part = Some (NFile c) -> has_part_suffix_local part = true -> small d ->
  has_part_suffix_local dir = false ->
  recovering dir d part c p d' -> preserved events d d'.
Proof.
  intros Hc Hs Hsm Hdir [(c' & Hc' & Hk & Hl) Hm Hf Hn]. split.
  - exists (fun q => if decide (q = part) then p else q). split.
    + intros q cq Hq. destruct (decide (q = part)) as [->|Hne].
      * rewrite Hc in Hq. injection Hq as <-. eauto.
      * exists cq. eauto with m5.
    + intros q q' Hq Hq'. destruct (decide (q = part)) as [->|], (decide (q' = part)) as [->|];
        try done; intros Heq; subst; destruct Hm as [?|[Hnone _]]; try congruence;
        by rewrite Hnone in *.
  - intros q n Hqs _ Hq. apply Hf; [congruence|done].
  - intros _ q n Hqs Hq. destruct (decide (q = p)) as [->|Hqp].
    + exists c'. split; [congruence|]. destruct (Hsm part _ Hs Hc) as (c0 & Hc0 & Hl0).
      simplify_eq. unfold zlen in *. lia.
    + destruct (decide (q = part)) as [->|Hne]; [destruct Hm as [->|[_ Hgone]]; congruence|].
      destruct (d !! q) as [n'|] eqn:Hdq.
      * rewrite (Hf _ _ Hne Hdq) in Hq. simplify_eq. eauto.
      * destruct (Hn _ Hne Hqp Hdq) as [?|[-> _]]; congruence.
Qed.

Record preserving (events : option bytes) (w0 w : world) : Prop := Preserving {
  ps_at : preserved events (w_disk w0) (w_disk w);
  ps_during : during (preserved events (w_disk w0)) w0 w;
  ps_over : w_rename_over w = false;
}.

Lemma preserving_start events w : w_rename_over w = false -> preserving events w w.
Proof. intros H. split; [|apply during_refl|done]; apply preserved_refl. Qed.

Lemma preserving_keeps events w0 w w' :
  preserving events w0 w -> keeps w w' -> preserving events w0 w'.
Proof.
  intros [Ha Hd Ho] Hk. split; [by rewrite (keeps_disk _ _ Hk)|eauto with m5|].
  by rewrite (keeps_over _ _ Hk).
Qed.

Lemma preserving_moves events w0 w d dirty w' :
  preserving events w0 w -> moves w d dirty w' -> preserved events (w_disk w) d ->
  preserving events w0 w'.
Proof.
  intros [Ha Hd Ho] Hm Hp.
  assert (H : preserved events (w_disk w0) d) by (eapply preserved_trans; eauto).
  split; [by rewrite (moves_disk _ _ _ _ Hm)|by eapply during_moves|].
  by rewrite (moves_over _ _ _ _ Hm).
Qed.

#[local] Hint Resolve preserving_keeps preserving_start : m5.

(** The event log: absent or a file whose name is no part's. *)
Definition log_ok (events : option bytes) : Prop :=
  match events with Some e => has_part_suffix_local e = false | None => True end.

Lemma kept_append c x : kept c (c ++ x)%list.
Proof.
  unfold kept. rewrite drop_app. exists (drop (even_payload c) (drop 44 c) ++ drop (44 - length c) x)%list.
  by rewrite app_assoc, take_drop.
Qed.

Lemma preserving_sync events w0 w dirty w' :
  preserving events w0 w -> moves w (w_disk w) dirty w' -> preserving events w0 w'.
Proof. intros Hp Hm. eapply preserving_moves; [done..|]. apply preserved_refl. Qed.

#[local] Hint Resolve preserving_sync : m5.

(** The last calls of an append. *)
Lemma append_tail_preserves events h w0 w :
  preserving events w0 w ->
  wp (let* flushed := fflush h in
      if negb flushed then (let* _ := fclose h in ret false) else
      let* _ := fsync h in
      fclose h) (fun _ w' => preserving events w0 w') w.
Proof. intros Hp. wp_auto; eauto 6 with m5. Qed.

Lemma append_line_preserves events e line w0 w :
  log_ok events -> events = Some e -> preserving events w0 w ->
  wp (append_line e line) (fun _ w' => preserving events w0 w') w.
Proof.
  intros He -> Hp. cbn in He. unfold append_line. case_bool_decide; [by wp_prim|].
  wp_prim. apply wp_fopen_append.
  - intros w1 Hk _. wp_prim. eauto with m5.
  - intros w1 c Hk Hc. wp_prim. apply wp_fwrite. intros w2 ok stored Hm _ _ _. cbn [h_path h_pos] in *.
    rewrite (keeps_disk _ _ Hk), Hc in Hm. cbn [file_content] in Hm. rewrite write_at_end in Hm.
    wp_prim. apply wp_unbind, append_tail_preserves.
    eapply preserving_moves; [by eapply preserving_keeps|exact Hm|].
    rewrite (keeps_disk _ _ Hk). eapply preserved_update; eauto using kept_append.
  - intros w1 Hnone Hm1. wp_prim. apply wp_fwrite. intros w2 ok stored Hm _ _ _. cbn [h_path h_pos] in *.
    rewrite (moves_disk _ _ _ _ Hm1), lookup_insert_eq in Hm. cbn [file_content] in Hm.
    wp_prim. apply wp_unbind, append_tail_preserves.
    eapply preserving_moves; [|exact Hm|].
    + eapply preserving_moves; [exact Hp|exact Hm1|]. by apply preserved_new.
    + rewrite (moves_disk _ _ _ _ Hm1). eapply preserved_update; eauto.
      * by rewrite lookup_insert_eq.
      * rewrite write_at_nil. apply (kept_append []).
Qed.

Lemma note_file_preserves events part result pcm w0 w :
  log_ok events -> preserving events w0 w ->
  wp (note_file events part result pcm) (fun _ w' => preserving events w0 w') w.
Proof.
  intros He Hp. unfold note_file, append_file_event. destruct events as [e|]; [|by wp_prim].
  wp_prim. eapply wp_mono; [by eapply append_line_preserves|]. intros. by wp_prim.
Qed.

Section scan.
  Context (dir : bytes) (events : option bytes) (w0 : world).
  Context (Hdir : has_part_suffix_local dir = false) (Hlog : log_ok events).
  Context (Hsmall : small (w_disk w0)).

Let P := preserving events w0.

  (** A recovery that starts from a preserved card. *)
Lemma recover_world_preserves part c p w w' :
    P w -> w_disk w !! part = Some (NFile c) -> has_part_suffix_local part = true ->
    recovering_world dir w part c p w' -> P w'.
Proof.
    intros [Ha Hd Ho] Hc Hs [Hr Hdu Hov].
    assert (Hstep : forall p d, recovering dir (w_disk w) part c p d ->
              preserved events (w_disk w0) d).
    { intros p' d Hrd. eapply preserved_trans; [done|].
      eapply recovering_preserved; eauto using pv_small. }
    split; [eauto| |done]. eapply during_trans; [done|].
    eapply during_mono; [|done]. intros d [p' Hp']. eauto.
Qed.

Lemma recover_file_preserves part wav w :
    P w -> has_part_suffix_local part = true ->
    wp (wav_recovery_recover_file part wav dir) (fun _ w' => P w') w.
Proof.
    intros HP Hs. destruct (w_disk w !! part) as [n|] eqn:Hn.
    - destruct (pv_small _ _ _ (ps_at _ _ _ HP) Hsmall _ _ Hs Hn) as (c & -> & Hl).
      eapply wp_mono; [apply (recover_file_result dir part wav c); [by destruct HP|done..]|].
      intros [o pcm] w' H. cbn in H. destruct o; cbn in H;
        [destruct H as [[H _]|[H _]]|destruct H as (p & _ & H)|];
        eauto using recover_world_preserves.
    - unfold wav_recovery_recover_file, path_exists_local.
      step_match; [by wp_prim|]. step_match; [|by wp_prim]. step_match; [by wp_prim|].
      wp_prim. apply wp_stat_keeps. intros w1 r Hk Hr _. wp_prim.
      destruct r as [e|n]; [|specialize (Hr n eq_refl); congruence]. cbn [negb]. wp_prim.
      apply wp_stat_keeps. intros w2 r Hk2 _ _. wp_prim. unfold P in *. eauto with m5.
Qed.

Lemma handle_one_part_preserves part s w :
    P w -> has_part_suffix_local part = true ->
    wp (handle_one_part part dir events s) (fun _ w' => P w') w.
Proof.
    intros HP Hs. unfold handle_one_part. cbv zeta. step_match; [|by wp_prim].
    wp_prim. eapply wp_mono; [by apply recover_file_preserves|].
    intros [o pcm] w1 H1. cbn. destruct o; wp_prim;
      (eapply wp_mono; [by apply note_file_preserves|]); intros; by wp_prim.
Qed.

Lemma scan_sub_preserves child names : forall s w,
    P w -> wp (scan_sub child names dir events s) (fun _ w' => P w') w.
Proof.
    induction names as [|name rest IH]; intros s w HP; cbn; [by wp_prim|].
    step_match; [auto|]. destruct (snprintf_fit _ _) as [part|]; [|auto].
    destruct (has_part_suffix_local part) eqn:Hs; cbn [negb]; [|auto]. unfold path_is_dir_local. wp_prim.
    apply wp_stat_keeps. intros w1 r Hk _ _. wp_prim.
    assert (HP1 : P w1) by (unfold P in *; eauto with m5).
    destruct r as [|[]]; wp_prim; auto;
      (eapply wp_mono; [by apply handle_one_part_preserves|]); intros; by apply IH.
Qed.

Lemma wp_list_dir path (Q : option (list bytes * bool) -> world -> Prop) w :
    P w -> (forall r w', P w' -> Q r w') -> wp (list_dir path) Q w.
Proof.
    intros HP HQ. unfold list_dir, P in *. wp_prim. step_match; wp_prim; [eauto with m5|].
    repeat step_match; wp_prim; eauto with m5.
Qed.

Lemma scan_top_preserves rec_dir names : forall s w,
    P w -> wp (scan_top rec_dir names dir events s) (fun _ w' => P w') w.
Proof.
    induction names as [|name rest IH]; intros s w HP; cbn; [by wp_prim|].
    step_match; [auto|]. destruct (snprintf_fit _ _) as [b|]; [|auto].
    unfold path_is_dir_local. wp_prim.
    apply wp_stat_keeps. intros w1 r Hk _ _. wp_prim.
    assert (HP1 : P w1) by (unfold P in *; eauto with m5).
    assert (Hpart : wp (if negb (has_part_suffix_local b) then scan_top rec_dir rest dir events s
                        else let* s := handle_one_part b dir events s in
                             scan_top rec_dir rest dir events s) (fun _ w' => P w') w1).
    { destruct (has_part_suffix_local b) eqn:Hs; cbn [negb]; wp_prim; [|auto].
      eapply wp_mono; [by apply handle_one_part_preserves|]. intros; by apply IH. }
    destruct r as [|[]]; try done. wp_prim. apply wp_list_dir; [done|].
    intros [[subnames err]|] w2 HP2; wp_prim; [|auto].
    eapply wp_mono; [by apply scan_sub_preserves|]. intros; by apply IH.
Qed.
End scan.

(** C11: the boot scan over the whole recordings tree loses nothing.  On a FAT
    card, under every fault plan, for every directory listing order and every
    content of the part files: at every state of the card during the scan and
    after it, each file there was at the start has a file of its own (no two
    share one) with all whole samples of its audio, and every file and
    directory other than the part files and the event log is in place,
    unchanged. *)
Theorem scan_preserves rec_dir dir events w :
  w_rename_over w = false -> small (w_disk w) ->
  has_part_suffix_local dir = false -> log_ok events ->
  wp (wav_recovery_scan_recordings rec_dir dir events)
    (fun _ w' => preserved events (w_disk w) (w_disk w') /\
                 during (preserved events (w_disk w)) w w') w.
Proof.
  intros Hover Hsmall Hdir Hlog.
  apply (wp_mono _ (fun _ w' => preserving events w w')); [|by intros _ w' []].
  pose proof (preserving_start events w Hover) as H0.
  unfold wav_recovery_scan_recordings. step_match; [by wp_prim|].
  unfold wav_recovery_ensure_dir, path_is_dir_local. step_match; [by wp_prim|]. wp_prim.
  assert (Hrest : forall w1, preserving events w w1 ->
    wp (let* top := list_dir rec_dir in
        match top with
        | None => ret (false, stats_zero)
        | Some (names, _) =>
            let* s := scan_top rec_dir names dir events stats_zero in
            match events with
            | None => ret (true, s)
            | Some e => let* _ := wav_recovery_append_summary_event e s in ret (true, s)
            end
        end) (fun _ w' => preserving events w w') w1).
  { intros w1 HP. wp_prim. eapply wp_list_dir; [exact HP|].
    intros [[names err]|] w2 HP2; wp_prim; [|done].
    eapply wp_mono; [by apply scan_top_preserves|]. intros s w3 HP3. cbn beta.
    destruct events as [e|]; wp_prim; [|done].
    eapply wp_mono; [by eapply append_line_preserves|]. intros. by wp_prim. }
  apply wp_mkdir.
  - intros w1 e Hk _. destruct e; wp_prim; cbn [negb]; wp_prim; eauto with m5.
    apply wp_stat_keeps. intros w2 r Hk2 _ _. wp_prim.
    assert (HP2 : preserving events w w2) by eauto with m5.
    destruct r as [|[]]; wp_prim; cbn [negb]; wp_prim; try done. apply wp_unbind. auto.
  - intros w1 Hn Hm. wp_prim. cbn [negb]. wp_prim. apply wp_unbind, Hrest.
    eapply preserving_moves; [done..|]. by apply preserved_new.
Qed.

Lemma scan_preserves_witness :
  wp (wav_recovery_scan_recordings (txt "/r") (txt "/q") (Some (txt "/e.jsonl")))
    (fun _ w' => preserved (Some (txt "/e.jsonl")) (w_disk cut_world) (w_disk w')) cut_world.
Proof.
  eapply wp_mono.
  - apply (scan_preserves (txt "/r") (txt "/q") (Some (txt "/e.jsonl")) cut_world);
      [done| |by vm_compute|by vm_compute].
    intros p n Hs Hp. cbn in Hp. rewrite lookup_insert_Some, lookup_singleton_Some in Hp.
    destruct Hp as [[<- <-]|[_ [<- <-]]]; [by vm_compute in Hs|].
    exists cut_part. split; [done|by vm_compute].
  - by intros r w' [H _].
Defined.
