(* ===== verification/Sha256.v ===== *)
(** * Sha256: the portable incremental SHA-256

    Models [sha256.c]: the compression function on 32-bit words, the
    byte-at-a-time update with its 64-byte buffer, the padding of
    [sha256_final], hex rendering and checking, and the file hash that reads
    1 KiB chunks.  The theorems compare the incremental code with a one-shot
    reference that pads the whole message first. *)

From S2P Require Import Prelude Monad Stdio.

(** ** The compression function *)

Definition ROTRIGHT (a b : Z) : Z := Z.lor (Z.shiftr a b) (u32 (Z.shiftl a (32 - b))).
Definition not32 (x : Z) : Z := Z.lxor x 4294967295.
Definition CH (x y z : Z) : Z := Z.lxor (Z.land x y) (Z.land (not32 x) z).
Definition MAJ (x y z : Z) : Z :=
  Z.lxor (Z.lxor (Z.land x y) (Z.land x z)) (Z.land y z).
Definition EP0 (x : Z) : Z := Z.lxor (Z.lxor (ROTRIGHT x 2) (ROTRIGHT x 13)) (ROTRIGHT x 22).
Definition EP1 (x : Z) : Z := Z.lxor (Z.lxor (ROTRIGHT x 6) (ROTRIGHT x 11)) (ROTRIGHT x 25).
Definition SIG0 (x : Z) : Z := Z.lxor (Z.lxor (ROTRIGHT x 7) (ROTRIGHT x 18)) (Z.shiftr x 3).
Definition SIG1 (x : Z) : Z := Z.lxor (Z.lxor (ROTRIGHT x 17) (ROTRIGHT x 19)) (Z.shiftr x 10).

Definition k : list Z :=
  0x428a2f98 :: 0x71374491 :: 0xb5c0fbcf :: 0xe9b5dba5 ::
  0x3956c25b :: 0x59f111f1 :: 0x923f82a4 :: 0xab1c5ed5 ::
  0xd807aa98 :: 0x12835b01 :: 0x243185be :: 0x550c7dc3 ::
  0x72be5d74 :: 0x80deb1fe :: 0x9bdc06a7 :: 0xc19bf174 ::
  0xe49b69c1 :: 0xefbe4786 :: 0x0fc19dc6 :: 0x240ca1cc ::
  0x2de92c6f :: 0x4a7484aa :: 0x5cb0a9dc :: 0x76f988da ::
  0x983e5152 :: 0xa831c66d :: 0xb00327c8 :: 0xbf597fc7 ::
  0xc6e00bf3 :: 0xd5a79147 :: 0x06ca6351 :: 0x14292967 ::
  0x27b70a85 :: 0x2e1b2138 :: 0x4d2c6dfc :: 0x53380d13 ::
  0x650a7354 :: 0x766a0abb :: 0x81c2c92e :: 0x92722c85 ::
  0xa2bfe8a1 :: 0xa81a664b :: 0xc24b8b70 :: 0xc76c51a3 ::
  0xd192e819 :: 0xd6990624 :: 0xf40e3585 :: 0x106aa070 ::
  0x19a4c116 :: 0x1e376c08 :: 0x2748774c :: 0x34b0bcb5 ::
  0x391c0cb3 :: 0x4ed8aa4a :: 0x5b9cca4f :: 0x682e6ff3 ::
  0x748f82ee :: 0x78a5636f :: 0x84c87814 :: 0x8cc70208 ::
  0x90befffa :: 0xa4506ceb :: 0xbef9a3f7 :: 0xc67178f2 :: [].

Definition word_be (b0 b1 b2 b3 : Z) : Z :=
  Z.lor (Z.lor (Z.lor (Z.shiftl b0 24) (Z.shiftl b1 16)) (Z.shiftl b2 8)) b3.

(** [m[0..15]] of a block. *)
Fixpoint words_be (l : bytes) : list Z :=
  match l with
  | b0 :: b1 :: b2 :: b3 :: t => word_be b0 b1 b2 b3 :: words_be t
  | _ => []
  end.

(** [m[i]] for [n] further indices: [SIG1(m[i-2]) + m[i-7] + SIG0(m[i-15]) + m[i-16]]. *)
Fixpoint schedule (n : nat) (m : list Z) : list Z :=
  match n with
  | O => m
  | S n =>
      let i := length m in
      let at_ j := nth (i - j) m 0 in
      schedule n (m ++ [u32 (SIG1 (at_ 2%nat) + at_ 7%nat + SIG0 (at_ 15%nat) + at_ 16%nat)])%list
  end.

Record vars := Vars { va : Z; vb : Z; vc : Z; vd : Z; ve : Z; vf : Z; vg : Z; vh : Z }.

Definition round (v : vars) (km : Z * Z) : vars :=
  let t1 := u32 (vh v + EP1 (ve v) + CH (ve v) (vf v) (vg v) + fst km + snd km) in
  let t2 := u32 (EP0 (va v) + MAJ (va v) (vb v) (vc v)) in
  Vars (u32 (t1 + t2)) (va v) (vb v) (vc v) (u32 (vd v + t1)) (ve v) (vf v) (vg v).

Definition add_state (s v : vars) : vars :=
  Vars (u32 (va s + va v)) (u32 (vb s + vb v)) (u32 (vc s + vc v)) (u32 (vd s + vd v))
       (u32 (ve s + ve v)) (u32 (vf s + vf v)) (u32 (vg s + vg v)) (u32 (vh s + vh v)).

Definition sha256_transform (s : vars) (block : bytes) : vars :=
  add_state s (fold_left round (zip k (schedule 48 (words_be block))) s).

(** ** The incremental interface *)

(** [sha256_ctx_t]. *)
Record sha256_ctx_t := Ctx {
  data : bytes;
  datalen : nat;
  bitlen : Z;
  state : vars;
}.

Definition initial_state : vars :=
  Vars 0x6a09e667 0xbb67ae85 0x3c6ef372 0xa54ff53a 0x510e527f 0x9b05688c 0x1f83d9ab 0x5be0cd19.

(** The buffer is left as it was. *)
Definition sha256_init (d : bytes) : sha256_ctx_t := Ctx d 0 0 initial_state.

Definition update_byte (c : sha256_ctx_t) (b : Z) : sha256_ctx_t :=
  let d := splice (datalen c) [b] (data c) in
  let n := S (datalen c) in
  if Nat.eqb n 64
  then Ctx d 0 (u64 (bitlen c + 512)) (sha256_transform (state c) d)
  else Ctx d n (bitlen c) (state c).

Definition sha256_update (c : sha256_ctx_t) (d : bytes) : sha256_ctx_t :=
  fold_left update_byte d c.

Definition be64 (z : Z) : bytes :=
  [u8 (Z.shiftr z 56); u8 (Z.shiftr z 48); u8 (Z.shiftr z 40); u8 (Z.shiftr z 32);
   u8 (Z.shiftr z 24); u8 (Z.shiftr z 16); u8 (Z.shiftr z 8); u8 z].

Definition be32 (z : Z) : bytes :=
  [u8 (Z.shiftr z 24); u8 (Z.shiftr z 16); u8 (Z.shiftr z 8); u8 z].

Definition digest (s : vars) : bytes :=
  (be32 (va s) ++ be32 (vb s) ++ be32 (vc s) ++ be32 (vd s) ++
   be32 (ve s) ++ be32 (vf s) ++ be32 (vg s) ++ be32 (vh s))%list.

Definition sha256_final (c : sha256_ctx_t) : bytes :=
  let i := datalen c in
  let '(d, s) :=
    if Nat.ltb i 56
    then (splice i (128 :: replicate (55 - i) 0) (data c), state c)
    else let d := splice i (128 :: replicate (63 - i) 0) (data c) in
         (splice 0 (replicate 56 0) d, sha256_transform (state c) d) in
  let bits := u64 (bitlen c + u64 (Z.of_nat (datalen c) * 8)) in
  digest (sha256_transform s (splice 56 (be64 bits) d)).

Definition nibble_to_lower_hex (v : Z) : Z :=
  let v := Z.land v 15 in if v <? 10 then 48 + v else 97 + (v - 10).

Definition sha256_to_hex (hash : bytes) : bytes :=
  flat_map (fun b => [nibble_to_lower_hex (Z.shiftr b 4); nibble_to_lower_hex b]) hash.

Definition sha256_is_valid_hex (s : bytes) : bool :=
  (zlen s =? 64) && forallb (fun c => is_digit c || is_lower_hex_letter c) s.

(** The [do ... while (true)] of [sha256_file_hex]; [None] is a read error. *)
Fixpoint hash_loop (fuel : nat) (h : handle) (c : sha256_ctx_t)
    : io (option sha256_ctx_t) :=
  match fuel with
  | O => ret None
  | S fuel =>
      let* (got, err, h) := fread h 1024 in
      let c := if bool_decide (got = []) then c else sha256_update c got in
      if zlen got <? 1024
      then if (err : bool) then ret None else ret (Some c)
      else hash_loop fuel h c
  end.

(** One pass per 1024 bytes of the file, and the last. *)
Definition file_fuel (d : disk) (path : bytes) : nat :=
  S (length (file_content (d !! path)) / 1024).

Definition sha256_file_hex (path : bytes) : io (option bytes) :=
  if bool_decide (path = []) then ret None else
  let* f := fopen_existing path in
  match f with
  | None => ret None
  | Some h =>
      let* d := get_disk in
      let* r := hash_loop (file_fuel d path) h (sha256_init (replicate 64 0)) in
      let* _ := fclose h in
      ret (match r with
           | None => None
           | Some c => Some (sha256_to_hex (sha256_final c))
           end)
  end.

(** ** The one-shot reference *)

Fixpoint absorb (fuel : nat) (s : vars) (l : bytes) : vars :=
  match fuel with
  | O => s
  | S fuel => if Nat.ltb (length l) 64 then s
              else absorb fuel (sha256_transform s (take 64 l)) (drop 64 l)
  end.

(** FIPS 180-4, 5.1.1: a one bit, zeros, the bit length in 64 bits. *)
Definition sha256_pad (m : bytes) : bytes :=
  (m ++ [128] ++ replicate ((119 - length m mod 64) mod 64) 0 ++ be64 (u64 (8 * zlen m)))%list.

Definition sha256_spec (m : bytes) : bytes :=
  let p := sha256_pad m in digest (absorb (length p) initial_state p).

Example sha256_abc :
  sha256_to_hex (sha256_spec (txt "abc")) =
  txt "ba7816bf8f01cfea414140de5dae2223b00361a396177a9cb410ff61f20015ad".
Proof. vm_compute. reflexivity. Qed.

Example sha256_empty :
  sha256_to_hex (sha256_final (sha256_init (replicate 64 7))) =
  txt "e3b0c44298fc1c149afbf4c8996fb92427ae41e4649b934ca495991b7852b855".
Proof. vm_compute. reflexivity. Qed.

(** ** Absorbing whole blocks *)

Definition absorb_all (s : vars) (l : bytes) : vars := absorb (S (length l)) s l.

Lemma absorb_enough f1 f2 s l :
  (length l < 64 * f1)%nat -> (length l < 64 * f2)%nat -> absorb f1 s l = absorb f2 s l.
Proof.
  revert f2 s l. induction f1 as [|f1 IH]; intros [|f2] s l H1 H2; try lia. cbn [absorb].
  destruct (Nat.ltb_spec (length l) 64); [done|].
  apply IH; rewrite length_drop; lia.
Qed.

Lemma absorb_short s l : (length l < 64)%nat -> absorb_all s l = s.
Proof. intros H. unfold absorb_all. cbn [absorb]. by rewrite (proj2 (Nat.ltb_lt _ _) H). Qed.

Lemma absorb_block s a b :
  length a = 64%nat -> absorb_all s (a ++ b)%list = absorb_all (sha256_transform s a) b.
Proof.
  intros H. unfold absorb_all at 1. cbn [absorb].
  rewrite (proj2 (Nat.ltb_ge (length (a ++ b)) 64)) by (rewrite length_app; lia).
  rewrite take_app_length', drop_app_length' by done.
  apply absorb_enough; rewrite ?length_app; lia.
Qed.

(** Whole blocks first, whatever follows. *)
Lemma absorb_app n : forall s a b,
  length a = (64 * n)%nat -> absorb_all s (a ++ b)%list = absorb_all (absorb_all s a) b.
Proof.
  induction n as [|n IH]; intros s a b Ha.
  - destruct a; [|cbn in Ha; lia]. rewrite (absorb_short s []); [done|cbn; lia].
  - assert (Hl : length (take 64 a) = 64%nat) by (rewrite length_take; lia).
    assert (Hr : length (drop 64 a) = (64 * n)%nat) by (rewrite length_drop; lia).
    rewrite <- (take_drop 64 a). clear Ha. revert Hl Hr.
    generalize (take 64 a) (drop 64 a). intros x y Hx Hy.
    rewrite <- app_assoc, (absorb_block s x y), (absorb_block s x (y ++ b)) by done. by apply IH.
Qed.

Lemma absorb_one s a : length a = 64%nat -> absorb_all s a = sha256_transform s a.
Proof.
  intros H. rewrite <- (app_nil_r a), absorb_block by done.
  rewrite app_nil_r. by apply absorb_short; cbn; lia.
Qed.

Lemma absorb_all_enough f s l : (length l < 64 * f)%nat -> absorb f s l = absorb_all s l.
Proof. intros H. apply absorb_enough; lia. Qed.

#[local] Opaque sha256_transform absorb_all.

(** ** The context after a message *)

(** Splitting a message into whole blocks and the buffered rest. *)
Record ctx_inv (m : bytes) (c : sha256_ctx_t) : Prop := CtxInv {
  ci_data : length (data c) = 64%nat;
  ci_split : exists full part, m = (full ++ part)%list /\
    length full = (64 * (length full / 64))%nat /\ (length part < 64)%nat /\
    datalen c = length part /\ take (datalen c) (data c) = part /\
    state c = absorb_all initial_state full /\
    bitlen c = u64 (8 * zlen full);
}.

Lemma init_inv d : length d = 64%nat -> ctx_inv [] (sha256_init d).
Proof. intros H. split; [done|]. exists [], []. repeat split; cbn; lia. Qed.

Lemma update_byte_inv m c b : ctx_inv m c -> ctx_inv (m ++ [b])%list (update_byte c b).
Proof.
  intros [Hd (full & part & -> & Hf & Hp & Hl & Ht & Hs & Hb)]. unfold update_byte.
  assert (Hfit : (datalen c + length [b] <= length (data c))%nat) by (cbn; lia).
  assert (Htake : take (S (datalen c)) (splice (datalen c) [b] (data c)) = (part ++ [b])%list).
  { rewrite <- Ht, <- take_splice by done. f_equal. cbn. lia. }
  destruct (Nat.eqb_spec (S (datalen c)) 64) as [Hn|Hn].
  - assert (Hblock : splice (datalen c) [b] (data c) = (part ++ [b])%list).
    { rewrite <- Htake, take_ge; [done|]. rewrite length_splice by done. lia. }
    split; cbn [data datalen bitlen state]; [by rewrite length_splice|].
    exists (full ++ part ++ [b])%list, [].
    assert (Hlen : length (part ++ [b]) = 64%nat) by (rewrite length_app; cbn; lia).
    rewrite (length_app full), Hlen.
    split_and!; try done.
    + by rewrite app_nil_r, app_assoc.
    + replace (length full + 64)%nat with (length full + 1 * 64)%nat by lia.
      rewrite Nat.div_add by done. lia.
    + cbn. lia.
    + rewrite Hs, Hblock, (absorb_app (length full / 64)) by done. symmetry. by apply absorb_one.
    + rewrite Hb. unfold u64. rewrite Zplus_mod_idemp_l. f_equal.
      unfold zlen. rewrite (length_app full), Hlen. lia.
  - split; cbn [data datalen bitlen state]; [by rewrite length_splice|].
    exists full, (part ++ [b])%list. rewrite length_app. cbn [length].
    split_and!; try done; try lia. by rewrite app_assoc.
Qed.

Lemma update_inv d : forall m c, ctx_inv m c -> ctx_inv (m ++ d)%list (sha256_update c d).
Proof.
  induction d as [|b d IH]; intros m c H; cbn; [by rewrite app_nil_r|].
  replace (m ++ b :: d)%list with ((m ++ [b]) ++ d)%list by (by rewrite <- app_assoc).
  apply IH. by apply update_byte_inv.
Qed.

(** ** The padding *)

Lemma length_be64 z : length (be64 z) = 8%nat.
Proof. done. Qed.

Lemma take_splice_over {A} n off (d l : list A) :
  (off + length d <= length l)%nat -> n = (off + length d)%nat ->
  take n (splice off d l) = (take off l ++ d)%list.
Proof. intros ? ->. by apply take_splice. Qed.

(** The last block: data up to 56, then the length. *)
Lemma last_block (d x L : bytes) :
  length d = 64%nat -> take 56 d = x -> length L = 8%nat ->
  splice 56 L d = (x ++ L)%list.
Proof.
  intros Hd Hx HL. unfold splice. rewrite HL, (drop_ge d), app_nil_r by lia.
  by rewrite Hx.
Qed.

Lemma pad_zeros (m full part : bytes) :
  m = (full ++ part)%list -> length full = (64 * (length full / 64))%nat ->
  (length part < 64)%nat ->
  ((119 - length m mod 64) mod 64 =
     if Nat.ltb (length part) 56 then 55 - length part else 119 - length part)%nat.
Proof.
  intros -> Hf Hp. rewrite length_app, Hf, Nat.add_comm, Nat.mul_comm, Nat.Div0.mod_add.
  rewrite (Nat.mod_small (length part)) by done.
  destruct (Nat.ltb_spec (length part) 56).
  - replace (119 - length part)%nat with ((55 - length part) + 1 * 64)%nat by lia.
    rewrite Nat.Div0.mod_add. apply Nat.mod_small. lia.
  - apply Nat.mod_small. lia.
Qed.

Lemma final_spec m c : ctx_inv m c -> sha256_final c = sha256_spec m.
Proof.
  intros [Hd (full & part & Hm & Hf & Hp & Hl & Ht & Hs & Hb)].
  assert (Hbits : u64 (bitlen c + u64 (Z.of_nat (datalen c) * 8)) = u64 (8 * zlen m)).
  { rewrite Hb. unfold u64. rewrite <- Zplus_mod. f_equal. subst m. unfold zlen.
    rewrite length_app. lia. }
  unfold sha256_final, sha256_spec. cbv zeta. rewrite Hbits.
  rewrite absorb_all_enough by (unfold sha256_pad; rewrite !length_app, length_be64; cbn; lia).
  unfold sha256_pad. rewrite (pad_zeros m full part Hm Hf Hp). set (L := be64 _).
  assert (HL : length L = 8%nat) by done.
  rewrite Hm, <- app_assoc, (absorb_app (length full / 64)), <- Hs, Hl by done. clear Hs Hb Hbits.
  rewrite <- Hl in Hp |- *. destruct (Nat.ltb_spec (datalen c) 56) as [Hlt|Hge].
  - f_equal. rewrite (last_block _ (part ++ [128] ++ replicate (55 - datalen c) 0)%list L); [| | |done].
    + rewrite absorb_one, <- !app_assoc; [done|].
      rewrite !length_app, length_replicate, HL. cbn. lia.
    + rewrite length_splice; [done|]. cbn. rewrite length_replicate. lia.
    + rewrite take_splice_over; [by rewrite Ht|cbn; rewrite length_replicate; lia..].
  - f_equal. rewrite (last_block _ (replicate 56 0) L); [| | |done].
    + replace (119 - datalen c)%nat with ((63 - datalen c) + 56)%nat by lia.
      rewrite replicate_add.
      replace (part ++ [128] ++ (replicate (63 - datalen c) 0 ++ replicate 56 0) ++ L)%list
        with ((part ++ [128] ++ replicate (63 - datalen c) 0) ++ (replicate 56 0 ++ L))%list
        by (by rewrite <- !app_assoc).
      assert (H64 : length (part ++ [128] ++ replicate (63 - datalen c) 0) = 64%nat).
      { rewrite !length_app, length_replicate. cbn. lia. }
      rewrite absorb_block, absorb_one by done.
      replace (splice (datalen c) (128 :: replicate (63 - datalen c) 0) (data c))
        with (part ++ [128] ++ replicate (63 - datalen c) 0)%list; [done|].
      rewrite <- (take_ge (splice _ _ _) 64) by
        (rewrite length_splice; [lia|cbn; rewrite length_replicate; lia]).
      rewrite take_splice_over; [by rewrite Ht|cbn; rewrite length_replicate; lia..].
    + rewrite !length_splice; [done|cbn; rewrite length_replicate; lia|].
      rewrite length_splice; cbn; rewrite ?length_replicate; lia.
    + rewrite take_splice_over; [done|..|done].
      rewrite length_splice; cbn; rewrite ?length_replicate; lia.
Qed.



(** ** Hex *)

Lemma nibble_hex v : let c := nibble_to_lower_hex v in
  is_digit c || is_lower_hex_letter c = true.
Proof.
  cbn zeta. unfold nibble_to_lower_hex, is_digit, is_lower_hex_letter.
  change 15 with (Z.ones 4). rewrite Z.land_ones by done.
  pose proof (Z.mod_pos_bound v (2 ^ 4) ltac:(done)). change (2 ^ 4) with 16 in *.
  destruct (Z.ltb_spec (v mod 16) 10);
    repeat match goal with |- context [?a <=? ?b] => destruct (Z.leb_spec a b) end; cbn; lia.
Qed.

Lemma hex_chars h : forallb (fun c => is_digit c || is_lower_hex_letter c) (sha256_to_hex h) = true.
Proof.
  induction h as [|b h IH]; [done|]. cbn [sha256_to_hex flat_map app forallb].
  rewrite !nibble_hex. exact IH.
Qed.

Lemma hex_length h : length (sha256_to_hex h) = (2 * length h)%nat.
Proof. induction h as [|b h IH]; [done|]. cbn. unfold sha256_to_hex in IH. lia. Qed.

Lemma digest_length s : length (digest s) = 32%nat.
Proof. done. Qed.

Lemma spec_valid_hex m : sha256_is_valid_hex (sha256_to_hex (sha256_spec m)) = true.
Proof.
  unfold sha256_is_valid_hex. rewrite hex_chars, andb_true_r. unfold zlen.
  rewrite hex_length. unfold sha256_spec. by rewrite digest_length.
Qed.

(** ** The file hash *)

Lemma hash_loop_spec path c fuel : forall h ctx w,
  h_path h = path -> w_disk w !! path = Some (NFile c) -> (h_pos h <= length c)%nat ->
  ctx_inv (take (h_pos h) c) ctx -> (length c - h_pos h < 1024 * fuel)%nat ->
  wp (hash_loop fuel h ctx) (fun r w' => keeps w w' /\
    (faultless w -> r <> None) /\ (forall ctx', r = Some ctx' -> ctx_inv c ctx')) w.
Proof.
  induction fuel as [|fuel IH]; intros h ctx w Hp Hc Hpos Hinv Hfuel; [lia|].
  cbn [hash_loop]. wp_prim. apply wp_fread. rewrite Hp, Hc. cbn [file_content].
  intros w1 got err Hk Hpre Hgot Hf. wp_prim.
  assert (Hinv1 : ctx_inv (take (h_pos h) c ++ got)%list
                    (if bool_decide (got = []) then ctx else sha256_update ctx got)).
  { case_bool_decide as Hg; [by rewrite Hg, app_nil_r|by apply update_inv]. }
  assert (Hl : (length got <= 1024 /\ length got <= length c - h_pos h)%nat).
  { apply prefix_length in Hpre. rewrite length_take, length_drop in Hpre. lia. }
  assert (Hfull : got = take 1024 (drop (h_pos h) c) ->
            (take (h_pos h) c ++ got)%list = take (h_pos h + 1024) c).
  { intros ->. by rewrite take_take_drop. }
  destruct (Z.ltb_spec (zlen got) 1024) as [Hlt|Hge].
  - destruct err; wp_prim; split_and!; try done; [intros Hfl; by specialize (Hf Hfl)|].
    intros ctx' [= <-]. rewrite Hgot in Hlt by done. rewrite Hfull in Hinv1 by auto.
    unfold zlen in Hlt. rewrite length_take, length_drop in Hlt.
    by rewrite take_ge in Hinv1 by lia.
  - assert (Hg : got = take 1024 (drop (h_pos h) c)).
    { apply prefix_length_eq; [done|]. rewrite length_take. unfold zlen in Hge. lia. }
    assert (Hlen : length got = 1024%nat) by (unfold zlen in Hge; lia).
    rewrite (Hfull Hg) in Hinv1. eapply wp_mono.
    + apply IH; cbn [h_path h_pos]; rewrite ?Hlen; try done; try lia.
      by rewrite (keeps_disk _ _ Hk).
    + intros r w2 (Hk2 & Hfl & Hr). split_and!; [by eapply keeps_trans| |done].
      intros Hw. apply Hfl. by destruct Hk; auto.
Qed.

(** The file hash, call by call. *)
Lemma wp_sha256_file_hex path w :
  wp (sha256_file_hex path) (fun r w' =>
    keeps w w' /\
    (forall hex, r = Some hex -> sha256_is_valid_hex hex = true /\
       exists c, w_disk w !! path = Some (NFile c) /\ hex = sha256_to_hex (sha256_spec c)) /\
    (faultless w -> path <> [] -> is_file (w_disk w !! path) = true -> r <> None)) w.
Proof.
  unfold sha256_file_hex. case_bool_decide; [wp_prim; split_and!; done|]. wp_prim.
  apply wp_fopen_existing.
  { intros w1 Hk Hn. wp_prim. split_and!; try done.
    intros Hf _ Hfile. rewrite Hn in Hfile by done. done. }
  intros w1 c Hk Hc. wp_prim.
  assert (Hc1 : w_disk w1 !! path = Some (NFile c)) by (by rewrite (keeps_disk _ _ Hk)).
  eapply wp_mono.
  { apply (hash_loop_spec path c); cbn [h_path h_pos]; [done|done|lia|apply init_inv; done|].
    unfold file_fuel. rewrite Hc1. cbn [file_content].
    pose proof (Nat.div_mod (length c) 1024 ltac:(done)).
    pose proof (Nat.mod_upper_bound (length c) 1024 ltac:(done)). lia. }
  intros r w2 (Hk2 & Hf2 & Hr). wp_prim. apply wp_fclose. intros w3 ok Hk3 _. wp_prim.
  pose proof (keeps_trans _ _ _ Hk (keeps_trans _ _ _ Hk2 Hk3)) as Hk'.
  split_and!; [done| |].
  - destruct r as [ctx|]; [|done]. intros hex [= <-].
    rewrite (final_spec c) by auto. split; [apply spec_valid_hex|eauto].
  - intros Hf _ _. destruct r; [done|]. exfalso. by apply Hf2; [apply Hk|].
Qed.

(** The file hash is the SHA-256 of the file as it is on the card, in 64
    lower-case hex characters that the validity check accepts; it changes
    nothing on the card, never loops forever, and fails only for a missing
    file, an empty name or a failed card call. *)
Theorem file_hex_is_sha256 path w :
  wp (sha256_file_hex path) (fun r w' =>
    w_disk w' = w_disk w /\ w_hist w' = w_hist w /\
    (forall hex, r = Some hex -> sha256_is_valid_hex hex = true /\
       exists c, w_disk w !! path = Some (NFile c) /\ hex = sha256_to_hex (sha256_spec c)) /\
    (faultless w -> path <> [] -> is_file (w_disk w !! path) = true -> r <> None)) w.
Proof.
  eapply wp_mono; [apply wp_sha256_file_hex|]. intros r w' (Hk & Hr & Hf).
  by destruct Hk.
Qed.
