(* ===== verification/Nvs.v ===== *)
(** * Nvs: the platform interface of durable settings, and [recorder_nvs.c]

    The ESP-IDF key-value store and the FreeRTOS mutex are not part of the
    repository: they enter as a type class of operations, with the documented
    behaviour the firmware relies on as a class of laws.  [recorder_nvs.c],
    which creates the shared mutex, initializes the partition once and
    serializes the transactions, is modelled on top, with the state of the
    mutex explicit: taking a mutex its holder already has is a deadlock, which
    the lemmas rule out.  A reference instance with a fault plan closes the
    file: it satisfies the laws, and witnesses elsewhere run on it. *)

From S2P Require Import Prelude Monad.

(** [esp_err_t], as far as the firmware tells the codes apart. *)
Inductive esp_err_t :=
  | ESP_OK
  | ESP_FAIL
  | ESP_ERR_NO_MEM
  | ESP_ERR_INVALID_ARG
  | ESP_ERR_INVALID_STATE
  | ESP_ERR_NVS_NOT_FOUND
  | ESP_ERR_OTHER.

#[export] Instance esp_err_eq_dec : EqDecision esp_err_t.
Proof. solve_decision. Defined.

Definition is_ok (e : esp_err_t) : bool := match e with ESP_OK => true | _ => false end.

(** A stored value: a byte, or a blob of the client's type. *)
Inductive nvs_value (B : Type) :=
  | NvsU8 (v : Z)
  | NvsBlob (b : B).

Arguments NvsU8 {B}.
Arguments NvsBlob {B}.

Abbreviation nvs_key := (bytes * bytes)%type.

(** ** The platform's operations

    [N] is the platform's state.  [nvs_view] is what a read returns,
    [nvs_durable] what a reboot will find. *)
Class NvsOps (N B : Type) := {
  mutex_create : st N bool;
  mutex_take : st N bool;
  nvs_flash_init : st N esp_err_t;
  (** [nvs_open] with its namespace and whether it may write *)
  nvs_open : bytes -> bool -> st N esp_err_t;
  nvs_get_u8 : nvs_key -> st N (esp_err_t * Z);
  nvs_get_blob : nvs_key -> st N (esp_err_t * option B);
  nvs_set : nvs_key -> nvs_value B -> st N esp_err_t;
  nvs_erase_key : nvs_key -> st N esp_err_t;
  nvs_commit : bytes -> st N esp_err_t;
  nvs_view : N -> nvs_key -> option (nvs_value B);
  nvs_durable : N -> nvs_key -> option (nvs_value B);
  (** power loss or reset, and the next boot *)
  nvs_reboot : N -> N;
}.

(** Only [key] may differ, and only to become [v]. *)
Definition at_most {B} (key : nvs_key) (v : option (nvs_value B))
    (f f' : nvs_key -> option (nvs_value B)) : Prop :=
  forall k, f' k = f k \/ (k = key /\ f' k = v).

(** The operation changes no setting. *)
Definition harmless {N B A} `{NvsOps N B} (m : st N A) : Prop :=
  forall n, nvs_view (m n).2 = nvs_view n /\ nvs_durable (m n).2 = nvs_durable n.

(** ** The documented behaviour *)
Class NvsLaws (N B : Type) `{NvsOps N B} := {
  mutex_create_harmless : harmless mutex_create;
  mutex_take_harmless : harmless mutex_take;
  flash_init_harmless : harmless nvs_flash_init;
  open_harmless : forall ns rw, harmless (nvs_open ns rw);
  get_u8_harmless : forall k, harmless (nvs_get_u8 k);
  get_blob_harmless : forall k, harmless (nvs_get_blob k);
  (** a successful read returns the setting; "not found" means there is none *)
  get_u8_ok : forall k n v, (nvs_get_u8 k n).1 = (ESP_OK, v) ->
    nvs_view n k = Some (NvsU8 v) /\ 0 <= v < 256;
  get_u8_missing : forall k n v, (nvs_get_u8 k n).1 = (ESP_ERR_NVS_NOT_FOUND, v) ->
    forall x, nvs_view n k <> Some (NvsU8 x);
  get_blob_ok : forall k n b, (nvs_get_blob k n).1 = (ESP_OK, b) ->
    exists x, b = Some x /\ nvs_view n k = Some (NvsBlob x);
  get_blob_missing : forall k n b, (nvs_get_blob k n).1 = (ESP_ERR_NVS_NOT_FOUND, b) ->
    forall x, nvs_view n k <> Some (NvsBlob x);
  (** a namespace that is not there has no settings *)
  open_missing : forall ns rw n, (nvs_open ns rw n).1 = ESP_ERR_NVS_NOT_FOUND ->
    forall k, nvs_view n (ns, k) = None;
  (** a write takes effect or not; reported as done, it is visible *)
  set_effect : forall k v n,
    at_most k (Some v) (nvs_view n) (nvs_view (nvs_set k v n).2) /\
    at_most k (Some v) (nvs_durable n) (nvs_durable (nvs_set k v n).2);
  set_ok : forall k v n, (nvs_set k v n).1 = ESP_OK ->
    nvs_view (nvs_set k v n).2 k = Some v;
  erase_effect : forall k n,
    at_most k None (nvs_view n) (nvs_view (nvs_erase_key k n).2) /\
    at_most k None (nvs_durable n) (nvs_durable (nvs_erase_key k n).2);
  erase_ok : forall k n,
    ((nvs_erase_key k n).1 = ESP_OK \/ (nvs_erase_key k n).1 = ESP_ERR_NVS_NOT_FOUND) ->
    nvs_view (nvs_erase_key k n).2 k = None;
  (** a commit makes visible settings durable, and only that *)
  commit_view : forall ns n, nvs_view (nvs_commit ns n).2 = nvs_view n;
  commit_effect : forall ns n k,
    nvs_durable (nvs_commit ns n).2 k = nvs_durable n k \/
    nvs_durable (nvs_commit ns n).2 k = nvs_view n k;
  commit_ok : forall ns n, (nvs_commit ns n).1 = ESP_OK ->
    forall k, nvs_durable (nvs_commit ns n).2 (ns, k) = nvs_view n (ns, k);
  (** a reboot loses what was not durable, and nothing else *)
  reboot_view : forall n, nvs_view (nvs_reboot n) = nvs_durable n;
  reboot_durable : forall n, nvs_durable (nvs_reboot n) = nvs_durable n;
}.

(** ** [recorder_nvs.c] *)

(** A FreeRTOS mutex as its one task sees it.  A second take by the holder
    waits forever. *)
Inductive mutex := MutexNull | MutexFree | MutexHeld | MutexDeadlock.

Definition mutex_null (l : mutex) : bool := match l with MutexNull => true | _ => false end.

Definition mutex_after_take (l : mutex) : mutex :=
  match l with MutexFree => MutexHeld | _ => MutexDeadlock end.

Definition mutex_after_give (l : mutex) : mutex :=
  match l with MutexHeld => MutexFree | l => l end.

(** [s_nvs_lock], [s_nvs_initialized], and the platform. *)
Record nvs_env (N : Type) := NvsEnv {
  nvs_lock : mutex;
  nvs_initialized : bool;
  platform : N;
}.

Arguments NvsEnv {N}.
Arguments nvs_lock {N}.
Arguments nvs_initialized {N}.
Arguments platform {N}.

(** A world of threads that holds the settings. *)
Class NvsHost (W N : Type) := {
  on_nvs : forall {X}, st (nvs_env N) X -> st W X;
}.

Section recorder_nvs.
Context {N B : Type} `{NvsOps N B}.

(** Run a platform operation. *)
Definition on_platform {A} (m : st N A) : st (nvs_env N) A := fun e =>
  let '(x, n) := m (platform e) in
  (x, NvsEnv (nvs_lock e) (nvs_initialized e) n).

Definition set_nvs_lock (f : mutex -> mutex) (e : nvs_env N) : nvs_env N :=
  NvsEnv (f (nvs_lock e)) (nvs_initialized e) (platform e).
Definition set_initialized (e : nvs_env N) : nvs_env N :=
  NvsEnv (nvs_lock e) true (platform e).

(** [xSemaphoreTake (s_nvs_lock, portMAX_DELAY) == pdTRUE] *)
Definition take_nvs_lock : st (nvs_env N) bool :=
  let* taken := on_platform mutex_take in
  if (taken : bool) then (modify (set_nvs_lock mutex_after_take) ;;; ret true) else ret false.

(** [recorder_nvs_init] once the mutex exists: take it, initialize once, give
    it back. *)
Definition nvs_init_locked : st (nvs_env N) esp_err_t :=
  let* taken := take_nvs_lock in
  if negb taken then ret ESP_FAIL else
  let* inited := get nvs_initialized in
  if (inited : bool) then (modify (set_nvs_lock mutex_after_give) ;;; ret ESP_OK) else
  let* err := on_platform nvs_flash_init in
  (if is_ok err then modify set_initialized else ret tt) ;;;
  modify (set_nvs_lock mutex_after_give) ;;;
  ret err.

Definition recorder_nvs_init : st (nvs_env N) esp_err_t :=
  let* lock := get nvs_lock in
  if negb (mutex_null lock) then nvs_init_locked else
  let* created := on_platform mutex_create in
  if negb created then ret ESP_ERR_NO_MEM else
  modify (set_nvs_lock (fun _ => MutexFree)) ;;; nvs_init_locked.

Definition recorder_nvs_lock : st (nvs_env N) esp_err_t :=
  let* err := recorder_nvs_init in
  if negb (is_ok err) then ret err else
  let* taken := take_nvs_lock in
  if negb taken then ret ESP_FAIL else
  let* inited := get nvs_initialized in
  if negb inited then (modify (set_nvs_lock mutex_after_give) ;;; ret ESP_ERR_INVALID_STATE)
  else ret ESP_OK.

Definition recorder_nvs_unlock : st (nvs_env N) unit :=
  let* lock := get nvs_lock in
  if negb (mutex_null lock) then modify (set_nvs_lock mutex_after_give) else ret tt.

(** The transaction every writer of the firmware spells out: lock, open, one
    write, commit, close, unlock.  The first failure decides the result. *)
Definition nvs_transaction (ns : bytes) (write : st N esp_err_t) : st (nvs_env N) esp_err_t :=
  let* err := recorder_nvs_lock in
  if negb (is_ok err) then ret err else
  let* err := on_platform (nvs_open ns true) in
  let* err := if is_ok err then on_platform write else ret err in
  let* err := if is_ok err then on_platform (nvs_commit ns) else ret err in
  recorder_nvs_unlock ;;;
  ret err.

(** The transaction every reader spells out: lock, open read-only, one read,
    close, unlock; a namespace that is not there reads as [absent]. *)
Definition nvs_reading {A} (ns : bytes) (absent : A) (fail : esp_err_t -> A) (read : st N A) :
    st (nvs_env N) A :=
  let* err := recorder_nvs_lock in
  if negb (is_ok err) then ret (fail err) else
  let* err := on_platform (nvs_open ns false) in
  let* x := match err with
            | ESP_OK => on_platform read
            | ESP_ERR_NVS_NOT_FOUND => ret absent
            | _ => ret (fail err)
            end in
  recorder_nvs_unlock ;;;
  ret x.

(** A reset: the memory of the process is gone, the flash is not. *)
Definition reboot (e : nvs_env N) : nvs_env N :=
  NvsEnv MutexNull false (nvs_reboot (platform e)).

(** ** Consequences of the laws *)

Definition view (e : nvs_env N) : nvs_key -> option (nvs_value B) := nvs_view (platform e).
Definition durable (e : nvs_env N) : nvs_key -> option (nvs_value B) := nvs_durable (platform e).

(** Nobody holds the mutex. *)
Definition unlocked (e : nvs_env N) : Prop := nvs_lock e = MutexNull \/ nvs_lock e = MutexFree.

(** The same settings. *)
Record same_settings (e e' : nvs_env N) : Prop := SameSettings {
  same_view : view e' = view e;
  same_durable : durable e' = durable e;
}.

Lemma same_settings_refl e : same_settings e e.
Proof. done. Qed.

Lemma same_settings_trans e1 e2 e3 :
  same_settings e1 e2 -> same_settings e2 e3 -> same_settings e1 e3.
Proof. intros [V1 D1] [V2 D2]. split; congruence. Qed.

Context `{!NvsLaws N B}.

Lemma wp_on_platform {A} (m : st N A) e (Q : A -> nvs_env N -> Prop) x n :
  m (platform e) = (x, n) -> Q x (NvsEnv (nvs_lock e) (nvs_initialized e) n) ->
  wp (on_platform m) Q e.
Proof. intros Hm HQ. unfold wp, on_platform. by rewrite Hm. Qed.

Lemma wp_harmless {A} (m : st N A) e (Q : A -> nvs_env N -> Prop) :
  harmless m ->
  (forall e', same_settings e e' -> nvs_lock e' = nvs_lock e -> Q (m (platform e)).1 e') ->
  wp (on_platform m) Q e.
Proof.
  intros Hm HQ. unfold wp, on_platform. destruct (Hm (platform e)) as [Hv Hd].
  destruct (m (platform e)) as [x n]. cbn in *. by apply HQ.
Qed.

Lemma wp_take_nvs_lock e (Q : bool -> nvs_env N -> Prop) :
  nvs_lock e = MutexFree ->
  (forall (b : bool) e', same_settings e e' ->
     nvs_lock e' = (if b then MutexHeld else MutexFree) -> Q b e') ->
  wp take_nvs_lock Q e.
Proof.
  intros Hl HQ. unfold take_nvs_lock. st_prim.
  apply wp_harmless; [apply mutex_take_harmless|]. intros e1 [Hv1 Hd1] Hl1.
  destruct (mutex_take _).1; st_prim; apply HQ; try done; cbn; by rewrite Hl1, Hl.
Qed.

Lemma wp_nvs_init_locked e (Q : esp_err_t -> nvs_env N -> Prop) :
  nvs_lock e = MutexFree ->
  (forall r e', same_settings e e' -> nvs_lock e' = MutexFree -> Q r e') ->
  wp nvs_init_locked Q e.
Proof.
  intros Hl HQ. unfold nvs_init_locked. st_prim.
  apply wp_take_nvs_lock; [done|]. intros b e1 H1 Hl1.
  destruct b; cbn [negb]; st_prim; [|by apply HQ].
  destruct (nvs_initialized e1); st_prim.
  { destruct H1. apply HQ; [done|]. cbn. by rewrite Hl1. }
  apply wp_harmless; [apply flash_init_harmless|]. intros e2 H2 Hl2. st_prim.
  pose proof (same_settings_trans _ _ _ H1 H2) as [].
  destruct (is_ok _); st_prim; apply HQ; try done; cbn; by rewrite Hl2, Hl1.
Qed.

Lemma wp_recorder_nvs_init e (Q : esp_err_t -> nvs_env N -> Prop) :
  unlocked e ->
  (forall r e', same_settings e e' -> unlocked e' ->
     (r = ESP_OK -> nvs_lock e' = MutexFree) -> Q r e') ->
  wp recorder_nvs_init Q e.
Proof.
  intros [Hl|Hl] HQ; unfold recorder_nvs_init; st_prim; rewrite Hl; cbn [mutex_null negb].
  - st_prim. apply wp_harmless; [apply mutex_create_harmless|]. intros e1 H1 Hl1.
    destruct (mutex_create _).1; cbn [negb]; st_prim.
    + apply wp_nvs_init_locked; [done|]. intros r e2 H2 Hl2. apply HQ; [|by right|done].
      eapply same_settings_trans; [exact H1|]. destruct H2; by split.
    + apply HQ; [done| |done]. left. by rewrite Hl1.
  - apply wp_nvs_init_locked; [done|]. intros r e2 H2 Hl2. apply HQ; [done|by right|done].
Qed.

Lemma wp_recorder_nvs_lock e (Q : esp_err_t -> nvs_env N -> Prop) :
  unlocked e ->
  (forall r e', same_settings e e' ->
     (if is_ok r then nvs_lock e' = MutexHeld else unlocked e') -> Q r e') ->
  wp recorder_nvs_lock Q e.
Proof.
  intros Hl HQ. unfold recorder_nvs_lock. st_prim.
  apply wp_recorder_nvs_init; [done|]. intros r e1 H1 Hu Hf.
  destruct r; cbn [is_ok negb]; st_prim; try (by apply HQ).
  apply wp_take_nvs_lock; [by apply Hf|]. intros b e2 H2 Hl2.
  pose proof (same_settings_trans _ _ _ H1 H2) as [].
  destruct b; cbn [negb]; st_prim; [|apply HQ; [done|by right]].
  destruct (nvs_initialized e2); cbn [negb]; st_prim; [by apply HQ|].
  apply HQ; [done|]. right. cbn. by rewrite Hl2.
Qed.

Lemma wp_recorder_nvs_unlock e (Q : unit -> nvs_env N -> Prop) :
  nvs_lock e = MutexHeld ->
  (forall e', same_settings e e' -> unlocked e' -> Q tt e') ->
  wp recorder_nvs_unlock Q e.
Proof.
  intros Hl HQ. unfold recorder_nvs_unlock. st_prim. rewrite Hl. cbn [mutex_null negb]. st_prim.
  apply HQ; [done|]. right. cbn. by rewrite Hl.
Qed.

(** [v] is what [k] may become: visible settings change at most there; a
    durable setting keeps, or becomes what was visible, or [v]. *)
Definition transition (k : nvs_key) (v : option (nvs_value B)) (e e' : nvs_env N) : Prop :=
  at_most k v (view e) (view e') /\
  (forall k', durable e' k' = durable e k' \/ durable e' k' = view e k' \/
              (k' = k /\ durable e' k' = v)).

Lemma same_transition k v e e' : same_settings e e' -> transition k v e e'.
Proof. intros [Hv Hd]. split; intros ?; left; congruence. Qed.

(** A transaction that sets [k] to [v] (or erases it): whatever happens only
    [k] may change, to that; on success it is visible and durable; the mutex
    is free again. *)
Lemma wp_nvs_transaction ns k w v e :
  (forall n, at_most (ns, k) v (nvs_view n) (nvs_view (w n).2) /\
             at_most (ns, k) v (nvs_durable n) (nvs_durable (w n).2)) ->
  (forall n, (w n).1 = ESP_OK -> nvs_view (w n).2 (ns, k) = v) ->
  unlocked e ->
  wp (nvs_transaction ns w) (fun r e' =>
    unlocked e' /\ transition (ns, k) v e e' /\
    (r = ESP_OK -> view e' (ns, k) = v /\ durable e' (ns, k) = v)) e.
Proof.
  intros Heff Hok Hl. unfold nvs_transaction. st_prim.
  apply wp_recorder_nvs_lock; [done|]. intros r e1 H1 Hl1.
  destruct r; cbn [is_ok negb] in *; st_prim;
    try (split_and!; [done|by apply same_transition|done]).
  apply wp_harmless; [apply open_harmless|]. intros e2 H2 Hl2.
  pose proof (same_settings_trans _ _ _ H1 H2) as H02. clear H1 H2.
  rewrite Hl1 in Hl2. clear Hl1.
  destruct (nvs_open _ _ _).1; cbn [is_ok]; st_prim; cbn [is_ok]; st_prim;
    try (apply wp_recorder_nvs_unlock; [done|]; intros e3 H3 Hu; st_prim;
         split_and!; [done|by eapply same_transition, same_settings_trans|done]).
  destruct H02 as [Hv Hd]. unfold view, durable in *.
  pose proof (Heff (platform e2)) as [Hv3 Hd3]. pose proof (Hok (platform e2)) as Hok3.
  destruct (w (platform e2)) as [r3 n3] eqn:Hw. cbn in Hv3, Hd3, Hok3.
  eapply wp_on_platform; [exact Hw|]. st_prim.
  rewrite Hv in Hv3. rewrite Hd in Hd3.
  destruct r3; cbn [is_ok]; st_prim;
    try (apply wp_recorder_nvs_unlock; [done|]; intros e4 [Hv4 Hd4] Hu; st_prim;
         unfold view, durable in *; cbn in *; rewrite Hv4, Hd4; split_and!; [done| |done];
         split; unfold view, durable; rewrite ?Hv4, ?Hd4;
         [exact Hv3|intros k'; destruct (Hd3 k') as [?|[? ?]]; auto]).
  pose proof (commit_view ns n3) as Hv4.
  pose proof (commit_effect ns n3) as Hd4. pose proof (commit_ok ns n3) as Hok4.
  destruct (nvs_commit ns n3) as [r4 n4] eqn:Hc. cbn in Hv4, Hd4, Hok4.
  eapply wp_on_platform; [exact Hc|]. st_prim.
  apply wp_recorder_nvs_unlock; [done|]. intros e5 [Hv5 Hd5] Hu. st_prim.
  unfold view, durable in *. cbn in *. rewrite Hv5, Hd5, Hv4.
  split_and!; [done| |].
  - split; unfold view, durable; rewrite ?Hv5, ?Hd5, ?Hv4; [exact Hv3|]. intros k'.
    destruct (Hd4 k') as [->| ->].
    + destruct (Hd3 k') as [?|[? ?]]; auto.
    + destruct (Hv3 k') as [?|[? ?]]; auto.
  - intros ->. rewrite Hok4 by done. split; by apply Hok3.
Qed.

(** A read changes no setting, and gives the mutex back. *)
Lemma wp_nvs_reading {A} ns (absent : A) fail read e (Q : A -> nvs_env N -> Prop) :
  harmless read -> unlocked e ->
  (forall e', same_settings e e' -> unlocked e' ->
     (forall err, err <> ESP_OK -> Q (fail err) e') /\
     ((forall k, view e (ns, k) = None) -> Q absent e') /\
     (forall n, nvs_view n = view e -> Q (read n).1 e')) ->
  wp (nvs_reading ns absent fail read) Q e.
Proof.
  intros Hr Hl HQ. unfold nvs_reading. st_prim.
  apply wp_recorder_nvs_lock; [done|]. intros r e1 H1 Hl1.
  destruct r; cbn [is_ok negb] in *; st_prim; try (by apply (HQ e1)).
  apply wp_harmless; [apply open_harmless|]. intros e2 H2 Hl2. st_prim.
  pose proof (same_settings_trans _ _ _ H1 H2) as H02. rewrite Hl1 in Hl2.
  pose proof (open_missing ns false (platform e1)) as Hmiss.
  assert (Hend : forall x e3, same_settings e e3 -> nvs_lock e3 = MutexHeld ->
    (forall e4, same_settings e3 e4 -> unlocked e4 -> Q x e4) ->
    wp (recorder_nvs_unlock ;;; ret x) Q e3).
  { intros x e3 H3 Hl3 Hx. st_prim. apply wp_recorder_nvs_unlock; [done|].
    intros e4 H4 Hu. st_prim. by apply Hx. }
  destruct (nvs_open _ _ _).1; st_prim;
    try (apply wp_unbind, Hend; [done..|]; intros e3 H3 Hu;
         by apply (HQ e3 (same_settings_trans _ _ _ H02 H3) Hu)).
  - apply wp_harmless; [done|]. intros e3 H3 Hl3. st_prim. apply wp_unbind, Hend;
      [by eapply same_settings_trans|by rewrite Hl3|].
    intros e4 H4 Hu. apply (HQ e4); [|done|apply H02].
    eapply same_settings_trans, H4. by eapply same_settings_trans.
  - apply wp_unbind, Hend; [done..|]. intros e3 H3 Hu.
    apply (HQ e3 (same_settings_trans _ _ _ H02 H3) Hu). intros k.
    rewrite <- (same_view _ _ H1). by apply Hmiss.
Qed.
End recorder_nvs.

(** ** The reference instance

    A store whose writes become durable at the commit, and whose operations
    fail, without effect, as a fault plan says. *)
Module ReferenceNvs.

Record store (B : Type) := Store {
  visible : nvs_key -> option (nvs_value B);
  flash : nvs_key -> option (nvs_value B);
  faults : list bool;
}.

Arguments Store {B}.
Arguments visible {B}.
Arguments flash {B}.
Arguments faults {B}.

Section store.
Context {B : Type}.

Definition next_fault (n : store B) : bool := default false (head (faults n)).
Definition popped (n : store B) : store B := Store (visible n) (flash n) (tail (faults n)).

(** An operation that fails with [bad], or has an effect and a result. *)
Definition faulty {A} (bad : A) (f : store B -> A) (eff : store B -> store B) : st (store B) A :=
  fun n => if next_fault n then (bad, popped n) else (f n, eff (popped n)).

Definition update (k : nvs_key) (v : option (nvs_value B)) (f : nvs_key -> option (nvs_value B)) :
    nvs_key -> option (nvs_value B) := fun k' => if decide (k' = k) then v else f k'.

Definition written (k : nvs_key) (v : option (nvs_value B)) (n : store B) : store B :=
  Store (update k v (visible n)) (flash n) (faults n).

Definition read_u8 (o : option (nvs_value B)) : esp_err_t * Z :=
  match o with
  | None => (ESP_ERR_NVS_NOT_FOUND, 0)
  | Some (NvsU8 v) => if (0 <=? v) && (v <? 256) then (ESP_OK, v) else (ESP_ERR_OTHER, 0)
  | Some (NvsBlob _) => (ESP_ERR_OTHER, 0)
  end.

Definition read_blob (o : option (nvs_value B)) : esp_err_t * option B :=
  match o with
  | None => (ESP_ERR_NVS_NOT_FOUND, None)
  | Some (NvsU8 _) => (ESP_ERR_OTHER, None)
  | Some (NvsBlob b) => (ESP_OK, Some b)
  end.

Definition committed (ns : bytes) (n : store B) : store B :=
  Store (visible n) (fun k => if decide (k.1 = ns) then visible n k else flash n k) (faults n).

#[global] Instance store_ops : NvsOps (store B) B := {
  mutex_create := faulty false (fun _ => true) id;
  mutex_take := faulty false (fun _ => true) id;
  nvs_flash_init := faulty ESP_FAIL (fun _ => ESP_OK) id;
  nvs_open := fun _ _ => faulty ESP_ERR_OTHER (fun _ => ESP_OK) id;
  nvs_get_u8 := fun k => faulty (ESP_ERR_OTHER, 0) (fun n => read_u8 (visible n k)) id;
  nvs_get_blob := fun k => faulty (ESP_ERR_OTHER, None) (fun n => read_blob (visible n k)) id;
  nvs_set := fun k v => faulty ESP_ERR_OTHER (fun _ => ESP_OK) (written k (Some v));
  nvs_erase_key := fun k => faulty ESP_ERR_OTHER (fun _ => ESP_OK) (written k None);
  nvs_commit := fun ns => faulty ESP_ERR_OTHER (fun _ => ESP_OK) (committed ns);
  nvs_view := visible;
  nvs_durable := flash;
  nvs_reboot := fun n => Store (flash n) (flash n) (faults n);
}.

Lemma faulty_harmless {A} (bad : A) f : harmless (faulty bad f id).
Proof. intros n. unfold faulty. by destruct (next_fault n). Qed.

Lemma faulty_at_most k v n :
  at_most k v (visible n) (visible (faulty ESP_ERR_OTHER (fun _ => ESP_OK) (written k v) n).2) /\
  at_most k v (flash n) (flash (faulty ESP_ERR_OTHER (fun _ => ESP_OK) (written k v) n).2).
Proof.
  unfold faulty. destruct (next_fault n); split; intros k'; cbn; auto.
  unfold update. case_decide; auto.
Qed.

#[global] Instance store_laws : NvsLaws (store B) B.
Proof.
  split; try (intros; apply faulty_harmless); try (intros; apply faulty_at_most);
    intros *; cbn; unfold faulty, next_fault; cbn;
    destruct (default false (head (faults n))); cbn; unfold update; try done.
  all: rewrite ?decide_True by done; try done.
  all: try (intros; case_decide; naive_solver).
  all: destruct (visible n k) as [[x|x]|]; cbn; try naive_solver.
  all: destruct ((0 <=? x) && (x <? 256)) eqn:E; naive_solver lia.
Qed.

End store.

End ReferenceNvs.
