(* ===== verification/Power.v ===== *)
(** * Power: the battery hold, the battery voltage and the shutdown ([recorder_power.c])

    The functions over the variables and the platform.  [power_log] records,
    newest first, what was done to the hold pin and to the sleep controller. *)

From S2P Require Import Prelude Monad Nvs.

Definition RECORDER_BATTERY_DIVIDER_NUM : Z := 2.

(** The GPIO, ADC and sleep drivers of ESP-IDF.  The level of a pin; a raw
    sample; a calibrated voltage. *)
Class PowerDrivers (D : Type) := {
  hold_gpio_config : st D esp_err_t;
  hold_gpio_set_level : Z -> st D esp_err_t;
  gpio_deep_sleep_hold_dis : st D unit;
  gpio_hold_dis : st D esp_err_t;
  gpio_hold_en : st D esp_err_t;
  gpio_deep_sleep_hold_en : st D unit;
  wake_gpio_config : st D esp_err_t;
  wake_gpio_get_level : st D Z;
  adc_oneshot_new_unit : st D esp_err_t;
  adc_oneshot_del_unit : st D esp_err_t;
  adc_oneshot_config_channel : st D esp_err_t;
  adc_oneshot_read : st D (esp_err_t * Z);
  adc_cali_create_scheme_curve_fitting : st D esp_err_t;
  adc_cali_delete_scheme_curve_fitting : st D esp_err_t;
  adc_cali_raw_to_voltage : Z -> st D (esp_err_t * Z);
  esp_sleep_disable_wakeup_source : st D esp_err_t;
  esp_deep_sleep_start : st D unit;
}.

Inductive power_event :=
  | HoldDriven (level : Z)
  | DeepSleepHoldOff
  | HoldUnlatched
  | HoldLatched
  | DeepSleepHoldOn
  | WakeSourcesOff
  | DeepSleep.

(** A handle is there or NULL. *)
Record power_vars := PowerVars {
  s_adc_unit : bool;
  s_adc_cali : bool;
  s_power_ready : bool;
  power_log : list power_event;
}.

Definition power_initial : power_vars := PowerVars false false false [].

Definition set_unit (b : bool) (v : power_vars) : power_vars :=
  PowerVars b (s_adc_cali v) (s_power_ready v) (power_log v).
Definition set_cali (b : bool) (v : power_vars) : power_vars :=
  PowerVars (s_adc_unit v) b (s_power_ready v) (power_log v).
Definition set_power_ready (b : bool) (v : power_vars) : power_vars :=
  PowerVars (s_adc_unit v) (s_adc_cali v) b (power_log v).
Definition add_event (e : power_event) (v : power_vars) : power_vars :=
  PowerVars (s_adc_unit v) (s_adc_cali v) (s_power_ready v) (e :: power_log v).

Section power.
Context {D : Type} `{PowerDrivers D}.

Abbreviation world := (power_vars * D)%type.

Definition driver {X} (m : st D X) : st world X := fun w => let (x, d) := m w.2 in (x, (w.1, d)).
Definition power_var {X} (f : power_vars -> X) : st world X := fun w => (f w.1, w).
Definition power_set (f : power_vars -> power_vars) : st world unit := fun w => (tt, (f w.1, w.2)).

(** A call that did what the log then says. *)
Definition logged (e : power_event) (m : st D esp_err_t) : st world esp_err_t :=
  let* err := driver m in
  (if is_ok err then power_set (add_event e) else ret tt) ;;; ret err.

(** ** The functions *)

Definition recorder_power_cleanup : st world unit :=
  let* cali := power_var s_adc_cali in
  (if (cali : bool) then driver adc_cali_delete_scheme_curve_fitting ;;; power_set (set_cali false) else ret tt) ;;;
  let* unit_ := power_var s_adc_unit in
  (if (unit_ : bool) then driver adc_oneshot_del_unit ;;; power_set (set_unit false) else ret tt) ;;;
  power_set (set_power_ready false).

Definition recorder_power_config_hold_output : st world esp_err_t := driver hold_gpio_config.

Definition recorder_power_enable_hold : st world esp_err_t :=
  let* err := recorder_power_config_hold_output in
  if negb (is_ok err) then ret err else
  let* err := logged (HoldDriven 1) (hold_gpio_set_level 1) in
  if negb (is_ok err) then ret err else
  driver gpio_deep_sleep_hold_dis ;;; power_set (add_event DeepSleepHoldOff) ;;;
  let* err := logged HoldUnlatched gpio_hold_dis in
  if negb (is_ok err) then ret err else
  logged (HoldDriven 1) (hold_gpio_set_level 1).

Definition recorder_power_release_hold : st world esp_err_t :=
  let* err := recorder_power_config_hold_output in
  if negb (is_ok err) then ret err else
  let* err := logged (HoldDriven 0) (hold_gpio_set_level 0) in
  if negb (is_ok err) then ret err else
  let* err := logged HoldLatched gpio_hold_en in
  if negb (is_ok err) then ret err else
  driver gpio_deep_sleep_hold_en ;;; power_set (add_event DeepSleepHoldOn) ;;;
  ret ESP_OK.

(** [asserted] is not NULL: the result, and what it is left at. *)
Definition recorder_power_manual_wake_asserted : st world (esp_err_t * bool) :=
  let* err := driver wake_gpio_config in
  if negb (is_ok err) then ret (err, false) else
  let* level := driver wake_gpio_get_level in
  ret (ESP_OK, level =? 0).

Definition recorder_power_init : st world esp_err_t :=
  let* err := recorder_power_enable_hold in
  if negb (is_ok err) then ret err else
  let* ready := power_var s_power_ready in
  if (ready : bool) then ret ESP_OK else
  recorder_power_cleanup ;;;
  let* err := driver adc_oneshot_new_unit in
  if negb (is_ok err) then recorder_power_cleanup ;;; ret err else
  power_set (set_unit true) ;;;
  power_set (set_power_ready true) ;;;
  let* err := driver adc_oneshot_config_channel in
  if negb (is_ok err) then recorder_power_cleanup ;;; ret err else
  let* err := driver adc_cali_create_scheme_curve_fitting in
  if negb (is_ok err) then recorder_power_cleanup ;;; ret err else
  power_set (set_cali true) ;;;
  ret ESP_OK.

(** [battery_mv] is not NULL: the result, and what it is left at ([None]:
    untouched). *)
Definition recorder_power_read_battery_mv : st world (esp_err_t * option Z) :=
  let* v := power_var (fun v => v) in
  if negb (s_power_ready v) || negb (s_adc_unit v) || negb (s_adc_cali v)
  then ret (ESP_ERR_INVALID_STATE, None) else
  let* raw := driver adc_oneshot_read in
  if negb (is_ok raw.1) then ret (raw.1, Some 0) else
  let* pin_mv := driver (adc_cali_raw_to_voltage raw.2) in
  if negb (is_ok pin_mv.1) then ret (pin_mv.1, Some 0) else
  if (pin_mv.2 <=? 0) || (2500 <? pin_mv.2) then ret (ESP_ERR_OTHER, Some 0) else
  ret (ESP_OK, Some (pin_mv.2 * RECORDER_BATTERY_DIVIDER_NUM)).

Definition recorder_power_deinit : st world unit := recorder_power_cleanup.

Definition recorder_power_shutdown : st world esp_err_t :=
  recorder_power_cleanup ;;;
  let* err := logged WakeSourcesOff esp_sleep_disable_wakeup_source in
  if negb (is_ok err) then ret err else
  let* err := recorder_power_release_hold in
  if negb (is_ok err) then ret err else
  driver esp_deep_sleep_start ;;; power_set (add_event DeepSleep) ;;;
  ret ESP_OK.

(** ** Rules *)

Lemma wp_driver {X} (m : st D X) Q w : (forall x d, Q x (w.1, d)) -> wp (driver m) Q w.
Proof. intros HQ. unfold wp, driver. destruct (m w.2) as [x d]. apply HQ. Qed.
Lemma wp_power_var {X} (f : power_vars -> X) Q w : Q (f w.1) w -> wp (power_var f) Q w.
Proof. done. Qed.
Lemma wp_power_set f Q w : Q tt (f w.1, w.2) -> wp (power_set f) Q w.
Proof. done. Qed.
Lemma wp_logged e m Q w :
  (forall d, Q ESP_OK (add_event e w.1, d)) -> (forall err d, err <> ESP_OK -> Q err (w.1, d)) ->
  wp (logged e m) Q w.
Proof.
  intros Hok Hno. unfold logged. apply wp_bind, wp_driver. intros err d. apply wp_bind.
  destruct err; cbn [is_ok]; [apply wp_power_set, Hok|..]; by apply Hno.
Qed.

Ltac power_step :=
  cbn beta; cbn [fst snd negb is_ok s_adc_unit s_adc_cali s_power_ready set_unit set_cali set_power_ready];
  lazymatch goal with
  | |- wp (bind _ _) _ _ => apply wp_bind
  | |- wp (ret _) _ _ => apply wp_ret
  | |- wp (driver _) _ _ => apply wp_driver; intros ? ?
  | |- wp (power_var _) _ _ => apply wp_power_var
  | |- wp (power_set _) _ _ => apply wp_power_set
  | |- wp (recorder_power_config_hold_output) _ _ => unfold recorder_power_config_hold_output
  end.

Definition released (v : power_vars) : power_vars := PowerVars false false false (power_log v).

Lemma wp_power_cleanup Q w : (forall d, Q tt (released w.1, d)) -> wp recorder_power_cleanup Q w.
Proof.
  intros HQ. destruct w as [[u c r l] d]. unfold recorder_power_cleanup, released in *. repeat power_step.
  destruct c, u; repeat power_step; apply HQ.
Qed.

(** ** The shutdown *)

(** Everything a shutdown does to the board, newest first. *)
Definition shutdown_steps : list power_event :=
  [DeepSleep; DeepSleepHoldOn; HoldLatched; HoldDriven 0; WakeSourcesOff].

(** C33: the board sleeps only behind a complete shutdown.  Whatever the drivers
    answer: the ADC is given back first; then the wake sources are disabled,
    the hold is driven low, latched, and latched for deep sleep, and only then
    the chip sleeps; a step that fails is reported, and none behind it
    happens, so the chip stays awake. *)
Theorem shutdown_in_order w :
  wp recorder_power_shutdown (fun err w' => exists k,
    power_log w'.1 = (drop k shutdown_steps ++ power_log w.1)%list /\ (err = ESP_OK <-> k = 0%nat) /\
    s_adc_unit w'.1 = false /\ s_adc_cali w'.1 = false /\ s_power_ready w'.1 = false) w.
Proof.
  unfold recorder_power_shutdown. power_step. apply wp_power_cleanup. intros d.
  power_step. apply wp_logged.
  2: { intros err d' He. destruct err; [done|..]; power_step; by exists 5%nat. }
  intros d1. unfold recorder_power_release_hold. repeat power_step.
  destruct x; repeat power_step; try by exists 4%nat.
  apply wp_logged.
  2: { intros err d' He. destruct err; [done|..]; repeat power_step; by exists 4%nat. }
  intros d2. repeat power_step. apply wp_logged.
  2: { intros err d' He. destruct err; [done|..]; repeat power_step; by exists 3%nat. }
  intros d3. repeat power_step. by exists 0%nat.
Qed.

(** ** The hold, the battery and the ADC *)

Definition enable_steps : list power_event :=
  [HoldDriven 1; HoldUnlatched; DeepSleepHoldOff; HoldDriven 1].

(** The hold pin is driven high before its latch is released, and again behind
    it; a step that fails is the last. *)
Lemma wp_enable_hold w :
  wp recorder_power_enable_hold (fun err w' => exists k,
    power_log w'.1 = (drop k enable_steps ++ power_log w.1)%list /\ (err = ESP_OK <-> k = 0%nat) /\
    s_adc_unit w'.1 = s_adc_unit w.1 /\ s_adc_cali w'.1 = s_adc_cali w.1 /\
    s_power_ready w'.1 = s_power_ready w.1) w.
Proof.
  unfold recorder_power_enable_hold. repeat power_step. destruct x; repeat power_step; try by exists 4%nat.
  apply wp_logged.
  2: { intros err d' He. destruct err; [done|..]; repeat power_step; by exists 4%nat. }
  intros d1. repeat power_step. apply wp_logged.
  2: { intros err d' He. destruct err; [done|..]; repeat power_step; by exists 2%nat. }
  intros d2. repeat power_step. apply wp_logged; [|intros err d' He; by exists 1%nat].
  intros d3. by exists 0%nat.
Qed.

(** The converter: all there, or nothing held. *)
Definition adc_ready (v : power_vars) : Prop :=
  s_adc_unit v = true /\ s_adc_cali v = true /\ s_power_ready v = true.
Definition adc_free (v : power_vars) : Prop :=
  s_adc_unit v = false /\ s_adc_cali v = false /\ s_power_ready v = false.

(** Whatever the drivers answer, the initialisation keeps a converter that is
    there, and otherwise brings it up in full or gives everything back; it
    succeeds only with the converter there. *)
Theorem power_init_all_or_nothing w :
  adc_ready w.1 \/ adc_free w.1 ->
  wp recorder_power_init (fun err w' =>
    (adc_ready w'.1 \/ adc_free w'.1) /\ (err = ESP_OK -> adc_ready w'.1) /\
    (adc_ready w.1 -> adc_ready w'.1)) w.
Proof.
  intros Hw. unfold recorder_power_init. power_step. eapply wp_mono; [apply wp_enable_hold|].
  intros err w1 (k & _ & _ & Eu & Ec & Er).
  assert (Hr : adc_ready w1.1 <-> adc_ready w.1) by (unfold adc_ready; rewrite Eu, Ec, Er; done).
  assert (Hf : adc_free w1.1 <-> adc_free w.1) by (unfold adc_free; rewrite Eu, Ec, Er; done).
  rewrite <- Hr, <- Hf in Hw.
  apply wp_mono with (fun err w' => (adc_ready w'.1 \/ adc_free w'.1) /\ (err = ESP_OK -> adc_ready w'.1) /\
    (adc_ready w1.1 -> adc_ready w'.1)); [|intros ? ? (? & ? & ?); split_and!; [done..|by rewrite <- Hr]].
  clear Eu Ec Er Hr Hf k w. destruct w1 as [v d]. cbn [fst] in Hw |- *.
  destruct (is_ok err) eqn:Eo; cbn [negb]; [|power_step; by destruct err].
  repeat power_step. cbn [fst snd]. destruct (s_power_ready v) eqn:Eready.
  { power_step. destruct Hw as [Hw|(_ & _ & ?)]; [|congruence]. by split_and!; [left|..]. }
  assert (Hfree : adc_free v) by (destruct Hw as [(_ & _ & ?)|]; [congruence|done]).
  assert (Hno : adc_ready v -> False) by (intros (_ & _ & ?); congruence).
  power_step. apply wp_power_cleanup. intros d1.
  assert (Hfail : forall (err : esp_err_t) u d2, err <> ESP_OK -> wp (recorder_power_cleanup ;;; ret err) (fun err w' =>
    (adc_ready w'.1 \/ adc_free w'.1) /\ (err = ESP_OK -> adc_ready w'.1) /\ (adc_ready v -> adc_ready w'.1)) (u, d2)).
  { intros e u d2 He. power_step. apply wp_power_cleanup. intros d3. power_step. split_and!; [by right|done|done]. }
  repeat power_step. destruct (is_ok x) eqn:E1; cbn [negb]; [|apply Hfail; by destruct x].
  repeat power_step. destruct (is_ok x0) eqn:E2; cbn [negb]; [|apply Hfail; by destruct x0].
  repeat power_step. destruct (is_ok x1) eqn:E3; cbn [negb]; [|apply Hfail; by destruct x1].
  repeat power_step. split_and!; [by left|done|done].
Qed.

(** A voltage that is reported is even and between 2 and 5000 millivolts, and
    was measured with the converter there; anything else is an error, and
    leaves 0 or nothing. *)
Theorem battery_in_range w :
  wp recorder_power_read_battery_mv (fun r w' => w'.1 = w.1 /\
    match r with
    | (ESP_OK, out) => adc_ready w.1 /\ exists pin_mv, out = Some (2 * pin_mv) /\ 0 < pin_mv <= 2500
    | (_, out) => out = None \/ out = Some 0
    end) w.
Proof.
  unfold recorder_power_read_battery_mv. repeat power_step.
  destruct (negb (s_power_ready w.1) || negb (s_adc_unit w.1) || negb (s_adc_cali w.1)) eqn:E.
  { power_step. by split; [|left]. }
  assert (Hready : adc_ready w.1).
  { apply orb_false_iff in E as [[E1%negb_false_iff E2%negb_false_iff]%orb_false_iff E3%negb_false_iff]. done. }
  repeat power_step. destruct (is_ok x.1) eqn:Ea; cbn [negb]; [|power_step; destruct x.1; [done|..]; by split; [|right]].
  repeat power_step. destruct (is_ok x0.1) eqn:Eb; cbn [negb]; [|power_step; destruct x0.1; [done|..]; by split; [|right]].
  destruct ((x0.2 <=? 0) || (2500 <? x0.2)) eqn:Ec; power_step; [by split; [|right]|].
  apply orb_false_iff in Ec as [Ec1%Z.leb_gt Ec2%Z.ltb_ge].
  split; [done|]. split; [done|]. exists x0.2. unfold RECORDER_BATTERY_DIVIDER_NUM. split; [f_equal; lia|lia].
Qed.
End power.
