(* ===== verification/StatusLed.v ===== *)
(** * StatusLed: the terminal indication ([recorder_status_led.c])

    One RGB pixel behind an RMT channel.  Every function holds [s_led_lock]
    from its first access to its last, so the calls of all tasks are one
    sequence of runs over the variables and the platform.  The pixel keeps the
    last frame it was sent; [last_frame] is that frame. *)

From S2P Require Import Prelude Monad Nvs RecorderState.

(** The semaphore, the GPIO, the RMT driver and the delay of the ROM. *)
Class LedPlatform (L : Type) := {
  led_mutex_create : st L bool;
  led_mutex_take : st L bool;
  led_mutex_give : st L unit;
  led_gpio_config : st L esp_err_t;
  (** [RECORDER_STATUS_LED_POWER_PIN] *)
  led_gpio_set_level : Z -> st L esp_err_t;
  rmt_new_tx_channel : st L esp_err_t;
  rmt_new_bytes_encoder : st L esp_err_t;
  rmt_enable : st L esp_err_t;
  rmt_disable : st L esp_err_t;
  rmt_del_encoder : st L esp_err_t;
  rmt_del_channel : st L esp_err_t;
  rmt_transmit : bytes -> st L esp_err_t;
  rmt_tx_wait_all_done : Z -> st L esp_err_t;
  esp_rom_delay_us : Z -> st L unit;
}.

Definition RECORDER_LED_RESET_US : Z := 80.

(** A handle is there or NULL. *)
Record led_vars := LedVars {
  s_led_channel : bool;
  s_led_encoder : bool;
  s_led_lock : bool;
  s_led_ready : bool;
  s_led_state : recorder_state_t;
  last_frame : option bytes;
}.

Definition led_initial : led_vars := LedVars false false false false RECORDER_STATE_BOOT None.

Definition set_channel (b : bool) (v : led_vars) : led_vars :=
  LedVars b (s_led_encoder v) (s_led_lock v) (s_led_ready v) (s_led_state v) (last_frame v).
Definition set_encoder (b : bool) (v : led_vars) : led_vars :=
  LedVars (s_led_channel v) b (s_led_lock v) (s_led_ready v) (s_led_state v) (last_frame v).
Definition set_lock (b : bool) (v : led_vars) : led_vars :=
  LedVars (s_led_channel v) (s_led_encoder v) b (s_led_ready v) (s_led_state v) (last_frame v).
Definition set_ready (b : bool) (v : led_vars) : led_vars :=
  LedVars (s_led_channel v) (s_led_encoder v) (s_led_lock v) b (s_led_state v) (last_frame v).
Definition set_shown (s : recorder_state_t) (v : led_vars) : led_vars :=
  LedVars (s_led_channel v) (s_led_encoder v) (s_led_lock v) (s_led_ready v) s (last_frame v).
Definition set_frame (f : bytes) (v : led_vars) : led_vars :=
  LedVars (s_led_channel v) (s_led_encoder v) (s_led_lock v) (s_led_ready v) (s_led_state v) (Some f).

Section led.
Context {L : Type} `{LedPlatform L}.

Abbreviation world := (led_vars * L)%type.

Definition led_call {X} (m : st L X) : st world X := fun w =>
  let (x, l) := m w.2 in (x, (w.1, l)).
Definition led_var {X} (f : led_vars -> X) : st world X := fun w => (f w.1, w).
Definition led_set (f : led_vars -> led_vars) : st world unit := fun w => (tt, (f w.1, w.2)).

(** ** The functions *)

Definition recorder_status_led_cleanup : st world unit :=
  let* channel := led_var s_led_channel in
  (if (channel : bool) then led_call rmt_disable else ret ESP_OK) ;;;
  let* encoder := led_var s_led_encoder in
  (if (encoder : bool) then led_call rmt_del_encoder ;;; led_set (set_encoder false) else ret tt) ;;;
  let* channel := led_var s_led_channel in
  (if (channel : bool) then led_call rmt_del_channel ;;; led_set (set_channel false) else ret tt) ;;;
  led_call (led_gpio_set_level 0) ;;;
  led_set (set_ready false) ;;;
  led_set (set_shown RECORDER_STATE_BOOT).

Definition recorder_status_led_write (red green blue : Z) (keep_powered : bool) : st world esp_err_t :=
  let grb := [green; red; blue] in
  let* v := led_var (fun v => v) in
  if negb (s_led_ready v) || negb (s_led_channel v) || negb (s_led_encoder v)
  then ret ESP_ERR_INVALID_STATE else
  let* err := led_call (led_gpio_set_level 1) in
  if negb (is_ok err) then ret err else
  led_call (esp_rom_delay_us 1000) ;;;
  let* err := led_call (rmt_transmit grb) in
  if negb (is_ok err) then ret err else
  led_set (set_frame grb) ;;;
  let* err := led_call (rmt_tx_wait_all_done 20) in
  if negb (is_ok err) then ret err else
  led_call (esp_rom_delay_us RECORDER_LED_RESET_US) ;;;
  if negb keep_powered then led_call (led_gpio_set_level 0) else ret err.

(** From the power pin to the first frame. *)
Definition led_bring_up : st world esp_err_t :=
  recorder_status_led_cleanup ;;;
  let* err := led_call led_gpio_config in
  if negb (is_ok err) then ret err else
  let* err := led_call (led_gpio_set_level 0) in
  if negb (is_ok err) then ret err else
  let* err := led_call rmt_new_tx_channel in
  if negb (is_ok err) then recorder_status_led_cleanup ;;; ret err else
  led_set (set_channel true) ;;;
  let* err := led_call rmt_new_bytes_encoder in
  if negb (is_ok err) then recorder_status_led_cleanup ;;; ret err else
  led_set (set_encoder true) ;;;
  let* err := led_call rmt_enable in
  if negb (is_ok err) then recorder_status_led_cleanup ;;; ret err else
  led_set (set_ready true) ;;;
  led_set (set_shown RECORDER_STATE_BOOT) ;;;
  let* err := recorder_status_led_write 0 0 0 false in
  (if negb (is_ok err) then recorder_status_led_cleanup else ret tt) ;;;
  ret err.

Definition recorder_status_led_init : st world esp_err_t :=
  let* lock := led_var s_led_lock in
  let* there := (if (lock : bool) then ret true else
                 let* created := led_call led_mutex_create in
                 led_set (set_lock created) ;;; ret created) in
  if negb there then ret ESP_ERR_NO_MEM else
  let* taken := led_call led_mutex_take in
  if negb taken then ret ESP_FAIL else
  let* ready := led_var s_led_ready in
  let* err := (if (ready : bool) then ret ESP_OK else led_bring_up) in
  led_call led_mutex_give ;;;
  ret err.

(** The frame of a state, under the lock. *)
Definition led_indicate (next : recorder_state_t) : st world esp_err_t :=
  let* shown := led_var s_led_state in
  if bool_decide (shown = RECORDER_STATE_ERROR) && negb (bool_decide (next = RECORDER_STATE_ERROR))
  then ret ESP_OK else
  if bool_decide (shown = RECORDER_STATE_LOW_BATTERY_STOP) && negb (bool_decide (next = RECORDER_STATE_ERROR)) &&
     negb (bool_decide (next = RECORDER_STATE_LOW_BATTERY_STOP))
  then ret ESP_OK else
  let* err := match next with
              | RECORDER_STATE_ERROR => recorder_status_led_write 32 0 0 true
              | RECORDER_STATE_LOW_BATTERY_STOP => recorder_status_led_write 24 8 0 true
              | _ => recorder_status_led_write 0 0 0 false
              end in
  (if is_ok err then led_set (set_shown next) else ret tt) ;;;
  ret err.

Definition recorder_status_led_set_state (next : recorder_state_t) : st world esp_err_t :=
  let* lock := led_var s_led_lock in
  if negb lock then ret ESP_ERR_INVALID_STATE else
  let* taken := led_call led_mutex_take in
  if negb taken then ret ESP_FAIL else
  let* err := led_indicate next in
  led_call led_mutex_give ;;;
  ret err.

Definition recorder_status_led_deinit : st world unit :=
  let* lock := led_var s_led_lock in
  let* taken := (if (lock : bool) then led_call led_mutex_take else ret false) in
  if negb taken then ret tt else
  let* ready := led_var s_led_ready in
  (if (ready : bool) then recorder_status_led_write 0 0 0 false else ret ESP_OK) ;;;
  recorder_status_led_cleanup ;;;
  led_call led_mutex_give.

(** ** The indication is terminal *)

Definition red_frame : bytes := [0; 32; 0].
Definition amber_frame : bytes := [8; 24; 0].

Definition severity (s : recorder_state_t) : Z :=
  match s with RECORDER_STATE_ERROR => 2 | RECORDER_STATE_LOW_BATTERY_STOP => 1 | _ => 0 end.

(** The pixel shows red, or red or amber, for what the variable says; without a
    ready channel it says nothing. *)
Definition shows (n : Z) (frame : option bytes) : Prop :=
  (2 <= n -> frame = Some red_frame) /\ (1 <= n -> frame = Some amber_frame \/ frame = Some red_frame).

Record led_inv (v : led_vars) : Prop := LedInv {
  inv_shows : shows (severity (s_led_state v)) (last_frame v);
  inv_idle : s_led_ready v = false -> s_led_state v = RECORDER_STATE_BOOT;
}.

Lemma wp_led_call {X} (m : st L X) Q w : (forall x l, Q x (w.1, l)) -> wp (led_call m) Q w.
Proof. intros HQ. unfold wp, led_call. destruct (m w.2) as [x l]. apply HQ. Qed.
Lemma wp_led_var {X} (f : led_vars -> X) Q w : Q (f w.1) w -> wp (led_var f) Q w.
Proof. done. Qed.
Lemma wp_led_set f Q w : Q tt (f w.1, w.2) -> wp (led_set f) Q w.
Proof. done. Qed.

Ltac led_step :=
  cbn beta; cbn [fst snd];
  lazymatch goal with
  | |- wp (bind _ _) _ _ => apply wp_bind
  | |- wp (ret _) _ _ => apply wp_ret
  | |- wp (led_call _) _ _ => apply wp_led_call; intros ? ?
  | |- wp (led_var _) _ _ => apply wp_led_var
  | |- wp (led_set _) _ _ => apply wp_led_set
  end.

Lemma wp_cleanup (Q : unit -> world -> Prop) w :
  (forall v l, s_led_ready v = false -> s_led_state v = RECORDER_STATE_BOOT -> s_led_lock v = s_led_lock w.1 ->
     Q tt (v, l)) ->
  wp recorder_status_led_cleanup Q w.
Proof.
  intros HQ. unfold recorder_status_led_cleanup. do 2 led_step.
  destruct (s_led_channel w.1) eqn:E1; repeat led_step; destruct (s_led_encoder w.1); repeat led_step; cbn; rewrite E1;
    repeat led_step; by apply HQ.
Qed.

(** What a write leaves: the old frame, or its own; its own when it succeeds. *)
Lemma wp_led_write r g b keep (Q : esp_err_t -> world -> Prop) w :
  (forall err v l, v = w.1 \/ v = set_frame [g; r; b] w.1 -> (err = ESP_OK -> v = set_frame [g; r; b] w.1) ->
     (err = ESP_OK -> s_led_ready w.1 = true) -> Q err (v, l)) ->
  wp (recorder_status_led_write r g b keep) Q w.
Proof.
  intros HQ. destruct w as [v l]. unfold recorder_status_led_write. repeat led_step. cbn in HQ. cbn [fst snd].
  destruct (negb (s_led_ready v) || negb (s_led_channel v) || negb (s_led_encoder v)) eqn:E; [led_step; apply HQ; [by left|done..]|].
  assert (Hready : s_led_ready v = true) by (by destruct (s_led_ready v)).
  repeat led_step. destruct (is_ok x) eqn:E1; cbn [negb]; [|led_step; apply HQ; [by left|by destruct x|done]].
  repeat led_step. destruct (is_ok x1) eqn:E2; cbn [negb]; [|led_step; apply HQ; [by left|by destruct x1|done]].
  repeat led_step. destruct (is_ok x2) eqn:E3; cbn [negb]; [|led_step; apply HQ; [by right|done..]].
  repeat led_step. destruct keep; cbn [negb]; repeat led_step; by apply HQ; [right|..].
Qed.

(** Every step of the indication keeps what is shown, and what it reports shown
    is shown. *)
Lemma wp_indicate next w :
  led_inv w.1 ->
  wp (led_indicate next) (fun err w' => led_inv w'.1 /\ severity (s_led_state w.1) <= severity (s_led_state w'.1) /\
    (err = ESP_OK -> severity next <= severity (s_led_state w'.1))) w.
Proof.
  intros [[H2 H1] Hi]. destruct w as [v l]. unfold led_indicate. repeat led_step. cbn in H1, H2, Hi. cbn [fst snd].
  destruct (_ && negb (bool_decide (next = RECORDER_STATE_ERROR))) eqn:E1.
  { apply andb_true_iff in E1 as [E1%bool_decide_eq_true _]. led_step. cbn [fst snd]. split_and!; [by split|lia|].
    rewrite E1. intros _. by destruct next. }
  destruct (_ && _ && _) eqn:E2.
  { apply andb_true_iff in E2 as [[E2%bool_decide_eq_true E3]%andb_true_iff _]. led_step. cbn [fst snd]. split_and!; [by split|lia|].
    rewrite E2. intros _. by destruct next. }
  assert (Hw : forall r g b keep, severity next = 0 \/ (next = RECORDER_STATE_ERROR /\ [g; r; b] = red_frame) \/
      (next = RECORDER_STATE_LOW_BATTERY_STOP /\ [g; r; b] = amber_frame) ->
    wp (recorder_status_led_write r g b keep) (fun err w' =>
      wp ((if is_ok err then led_set (set_shown next) else ret tt) ;;; ret err) (fun err w' => led_inv w'.1 /\
        severity (s_led_state v) <= severity (s_led_state w'.1) /\
        (err = ESP_OK -> severity next <= severity (s_led_state w'.1))) w') (v, l)).
  { intros r g b keep Hframe. apply wp_led_write. intros err v' l' Hv Hok Hready. cbn in Hv, Hok, Hready.
    assert (Hle : severity (s_led_state v) <= severity next).
    { apply andb_false_iff in E1. destruct (s_led_state v), next; try done; cbn in E1, E2; lia || (destruct E1; done). }
    destruct (is_ok err) eqn:Eok; repeat led_step; cbn.
    - assert (err = ESP_OK) as -> by (by destruct err). rewrite (Hok eq_refl). cbn. split_and!; [|done|done].
      split; cbn; [|by rewrite Hready]. destruct Hframe as [Hz|[[-> Hf]|[-> Hf]]]; split; cbn; try lia; intros; rewrite ?Hf; auto.
    - split_and!; [|destruct Hv as [-> | ->]; cbn; lia|by destruct err].
      destruct Hv as [-> | ->]; [done|]. split; [|done]. cbn.
      destruct Hframe as [Hz|[[-> Hf]|[-> Hf]]]; rewrite ?Hf; split; cbn; auto; intros; try lia.
      cbn in Hle. destruct (s_led_state v); cbn in *; lia. }
  led_step. destruct next; apply Hw; try (by left); right; by auto.
Qed.

Lemma wp_bring_up w :
  led_inv w.1 -> s_led_ready w.1 = false ->
  wp led_bring_up (fun err w' => led_inv w'.1 /\ severity (s_led_state w'.1) = 0) w.
Proof.
  intros _ _. unfold led_bring_up. led_step. apply wp_cleanup. intros v l Hr Hs _.
  assert (Hboot : forall u, s_led_state u = RECORDER_STATE_BOOT -> led_inv u /\ severity (s_led_state u) = 0).
  { intros u Hu. split; [|by rewrite Hu]. split; [rewrite Hu; split; cbn; lia|done]. }
  assert (Hfail : forall u l' (err : esp_err_t), wp (recorder_status_led_cleanup ;;; ret err)
    (fun err w' => led_inv w'.1 /\ severity (s_led_state w'.1) = 0) (u, l')).
  { intros u l' err. led_step. apply wp_cleanup. intros v' l2 _ Hs' _. led_step. by apply Hboot. }
  led_step. led_step. destruct (is_ok x); cbn [negb]; [|led_step; by apply Hboot].
  led_step. led_step. destruct (is_ok x0); cbn [negb]; [|led_step; by apply Hboot].
  led_step. led_step. destruct (is_ok x1); cbn [negb]; [|apply Hfail].
  repeat led_step. destruct (is_ok x2); cbn [negb]; [|apply Hfail].
  repeat led_step. destruct (is_ok x3); cbn [negb]; [|apply Hfail].
  repeat led_step. apply wp_led_write. intros err v' l' Hv _ _. cbn [fst snd] in Hv |- *.
  destruct (is_ok err); cbn [negb]; [|apply Hfail].
  repeat led_step. apply Hboot. destruct Hv as [-> | ->]; done.
Qed.

(** The calls of the firmware: the initialisation and the requests of its
    tasks, in the order they get the lock. *)
Inductive led_op := LedInit | LedSet (next : recorder_state_t).

Definition run_led_op (op : led_op) : st world esp_err_t :=
  match op with
  | LedInit => recorder_status_led_init
  | LedSet next => recorder_status_led_set_state next
  end.

Fixpoint run_led_ops (ops : list led_op) : st world (list esp_err_t) :=
  match ops with
  | [] => ret []
  | op :: ops => let* err := run_led_op op in let* errs := run_led_ops ops in ret (err :: errs)
  end.

Definition asked_for (op : led_op) : Z := match op with LedInit => 0 | LedSet next => severity next end.

Lemma wp_led_op op w :
  led_inv w.1 ->
  wp (run_led_op op) (fun err w' => led_inv w'.1 /\ severity (s_led_state w.1) <= severity (s_led_state w'.1) /\
    (err = ESP_OK -> asked_for op <= severity (s_led_state w'.1))) w.
Proof.
  intros Hinv. destruct op as [|next]; cbn [run_led_op asked_for].
  - assert (Hpos : forall s, 0 <= severity s) by (by intros []; cbn; lia).
    unfold recorder_status_led_init. do 2 led_step.
    assert (Hrest : forall u, led_inv u.1 -> s_led_state u.1 = s_led_state w.1 ->
      wp (let* taken := led_call led_mutex_take in
          if negb taken then ret ESP_FAIL else
          let* ready := led_var s_led_ready in
          let* err := (if (ready : bool) then ret ESP_OK else led_bring_up) in
          led_call led_mutex_give ;;; ret err)
        (fun err w' => led_inv w'.1 /\ severity (s_led_state w.1) <= severity (s_led_state w'.1) /\
          (err = ESP_OK -> 0 <= severity (s_led_state w'.1))) u).
    { intros u Hu Hst. repeat led_step. destruct x; cbn [negb]; [|led_step; cbn [fst snd]; by rewrite Hst].
      repeat led_step. destruct (s_led_ready u.1) eqn:Er; repeat led_step; [cbn [fst snd]; by rewrite Hst|].
      eapply wp_mono; [by apply wp_bring_up|]. intros err w' [Hi Hz]. repeat led_step. cbn. split_and!; [done| |done].
      rewrite <- Hst, (inv_idle _ Hu Er). cbn. lia. }
    destruct (s_led_lock w.1); repeat led_step; cbn [negb].
    + by apply Hrest.
    + assert (Hl : led_inv (set_lock x w.1)) by (destruct Hinv; by split).
      destruct x; cbn [negb]; [by apply Hrest|]. led_step. by split_and!.
  - unfold recorder_status_led_set_state. repeat led_step.
    destruct (s_led_lock w.1); cbn [negb]; [|led_step; by split_and!].
    repeat led_step. destruct x; cbn [negb]; [|led_step; by split_and!].
    led_step. eapply wp_mono; [by apply wp_indicate|]. intros err w' Hw. by repeat led_step.
Qed.

Lemma led_ops_kept ops : forall w,
  led_inv w.1 ->
  wp (run_led_ops ops) (fun errs w' =>
    led_inv w'.1 /\ severity (s_led_state w.1) <= severity (s_led_state w'.1) /\
    forall i op, ops !! i = Some op -> errs !! i = Some ESP_OK ->
      asked_for op <= severity (s_led_state w'.1)) w.
Proof.
  induction ops as [|op ops IH]; intros w Hinv; cbn [run_led_ops].
  { led_step. split_and!; [done|lia|]. intros i op Hi. by destruct i. }
  led_step. eapply wp_mono; [by apply wp_led_op|]. intros err w1 (H1 & Hle & Hok).
  led_step. eapply wp_mono; [by apply IH|]. intros errs w2 (H2 & Hle2 & Hall). led_step.
  split_and!; [done|lia|]. intros [|i] op' Hi He; cbn in Hi, He; simplify_eq; [|by eapply Hall].
  specialize (Hok eq_refl). lia.
Qed.

End led.

(** ** Witness: a pixel whose driver never fails *)

#[local] Instance calm_led : LedPlatform unit := {
  led_mutex_create := ret true;
  led_mutex_take := ret true;
  led_mutex_give := ret tt;
  led_gpio_config := ret ESP_OK;
  led_gpio_set_level _ := ret ESP_OK;
  rmt_new_tx_channel := ret ESP_OK;
  rmt_new_bytes_encoder := ret ESP_OK;
  rmt_enable := ret ESP_OK;
  rmt_disable := ret ESP_OK;
  rmt_del_encoder := ret ESP_OK;
  rmt_del_channel := ret ESP_OK;
  rmt_transmit _ := ret ESP_OK;
  rmt_tx_wait_all_done _ := ret ESP_OK;
  esp_rom_delay_us _ := ret tt;
}.

Lemma led_initial_inv : led_inv led_initial.
Proof. split; [|done]. split; cbn; lia. Qed.

