(* ===== verification/ShutdownArmed.v ===== *)
(** * ShutdownArmed: the durable shutdown lifecycle ([shutdown_armed.c])

    One byte of durable storage says whether the next boot is a normal one.
    The section models every operation on it over the platform interface of
    Nvs; [lifecycle_step] is the abstract machine the operations implement,
    and the theorems show that faults and resets at any point never open the
    gate the byte closes. *)

From S2P Require Import Prelude Monad Nvs.

Inductive shutdown_lifecycle_state_t :=
  | SHUTDOWN_LIFECYCLE_NORMAL
  | SHUTDOWN_LIFECYCLE_ARMED
  | SHUTDOWN_LIFECYCLE_HOST_UNRESOLVED
  | SHUTDOWN_LIFECYCLE_WAKE_RECOVERY_PENDING.

#[export] Instance lifecycle_eq_dec : EqDecision shutdown_lifecycle_state_t.
Proof. solve_decision. Defined.

Definition lifecycle_byte (s : shutdown_lifecycle_state_t) : Z :=
  match s with
  | SHUTDOWN_LIFECYCLE_NORMAL => 0
  | SHUTDOWN_LIFECYCLE_ARMED => 1
  | SHUTDOWN_LIFECYCLE_HOST_UNRESOLVED => 2
  | SHUTDOWN_LIFECYCLE_WAKE_RECOVERY_PENDING => 3
  end.

(** The cast of a byte that passed the range check. *)
Definition lifecycle_of_byte (v : Z) : option shutdown_lifecycle_state_t :=
  match v with
  | 0 => Some SHUTDOWN_LIFECYCLE_NORMAL
  | 1 => Some SHUTDOWN_LIFECYCLE_ARMED
  | 2 => Some SHUTDOWN_LIFECYCLE_HOST_UNRESOLVED
  | 3 => Some SHUTDOWN_LIFECYCLE_WAKE_RECOVERY_PENDING
  | _ => None
  end.

Inductive shutdown_armed_boot_action_t :=
  | SHUTDOWN_ARMED_BOOT_NORMAL
  | SHUTDOWN_ARMED_BOOT_STAY_SHUTDOWN
  | SHUTDOWN_ARMED_BOOT_MANUAL_RESUME.

Definition k_namespace : bytes := txt "m5daylog".
Definition k_key : bytes := txt "shutdown_armed".
Definition armed_key : nvs_key := (k_namespace, k_key).

Section shutdown_armed.
Context {N B : Type} `{NvsOps N B}.

(** ** The operations *)

Definition shutdown_armed_write (value : Z) : st (nvs_env N) esp_err_t :=
  nvs_transaction k_namespace (nvs_set armed_key (NvsU8 value)).

(** Between the open and the [done] label. *)
Definition read_state_byte : st N (esp_err_t * shutdown_lifecycle_state_t) :=
  let* r := nvs_get_u8 armed_key in
  ret match r.1 with
      | ESP_OK =>
        match lifecycle_of_byte r.2 with
        | Some state => (ESP_OK, state)
        | None => (ESP_FAIL, SHUTDOWN_LIFECYCLE_NORMAL)
        end
      | ESP_ERR_NVS_NOT_FOUND => (ESP_OK, SHUTDOWN_LIFECYCLE_NORMAL)
      | err => (err, SHUTDOWN_LIFECYCLE_NORMAL)
      end.

(** The result and [*state]. *)
Definition shutdown_armed_read_state : st (nvs_env N) (esp_err_t * shutdown_lifecycle_state_t) :=
  nvs_reading k_namespace (ESP_OK, SHUTDOWN_LIFECYCLE_NORMAL)
    (fun err => (err, SHUTDOWN_LIFECYCLE_NORMAL)) read_state_byte.

Definition shutdown_armed_read : st (nvs_env N) (esp_err_t * bool) :=
  let* r := shutdown_armed_read_state in
  ret (if negb (is_ok r.1) then (r.1, false) else
       match r.2 with
       | SHUTDOWN_LIFECYCLE_HOST_UNRESOLVED => (ESP_ERR_INVALID_STATE, false)
       | SHUTDOWN_LIFECYCLE_ARMED | SHUTDOWN_LIFECYCLE_WAKE_RECOVERY_PENDING => (ESP_OK, true)
       | SHUTDOWN_LIFECYCLE_NORMAL => (ESP_OK, false)
       end).

Definition shutdown_armed_mark_host_unresolved : st (nvs_env N) esp_err_t :=
  shutdown_armed_write (lifecycle_byte SHUTDOWN_LIFECYCLE_HOST_UNRESOLVED).

Definition shutdown_armed_commit : st (nvs_env N) esp_err_t :=
  shutdown_armed_write (lifecycle_byte SHUTDOWN_LIFECYCLE_ARMED).

Definition shutdown_armed_mark_wake_recovery_pending : st (nvs_env N) esp_err_t :=
  let* r := shutdown_armed_read_state in
  if negb (is_ok r.1) then ret r.1 else
  if decide (r.2 = SHUTDOWN_LIFECYCLE_WAKE_RECOVERY_PENDING) then ret ESP_OK else
  if decide (r.2 <> SHUTDOWN_LIFECYCLE_ARMED) then ret ESP_ERR_INVALID_STATE else
  shutdown_armed_write (lifecycle_byte SHUTDOWN_LIFECYCLE_WAKE_RECOVERY_PENDING).

Definition shutdown_armed_complete_wake_recovery : st (nvs_env N) esp_err_t :=
  let* r := shutdown_armed_read_state in
  if negb (is_ok r.1) then ret r.1 else
  if decide (r.2 <> SHUTDOWN_LIFECYCLE_WAKE_RECOVERY_PENDING) then ret ESP_ERR_INVALID_STATE else
  shutdown_armed_write (lifecycle_byte SHUTDOWN_LIFECYCLE_NORMAL).

Definition shutdown_armed_clear : st (nvs_env N) esp_err_t :=
  let* r := shutdown_armed_read_state in
  if negb (is_ok r.1) then ret r.1 else
  if decide (r.2 <> SHUTDOWN_LIFECYCLE_ARMED) then ret ESP_ERR_INVALID_STATE else
  shutdown_armed_write (lifecycle_byte SHUTDOWN_LIFECYCLE_NORMAL).

(** The result and [*action]. *)
Definition shutdown_armed_boot_action (manual_wake : bool) :
    st (nvs_env N) (esp_err_t * shutdown_armed_boot_action_t) :=
  let* r := shutdown_armed_read_state in
  ret (if negb (is_ok r.1) then (r.1, SHUTDOWN_ARMED_BOOT_STAY_SHUTDOWN) else
       (ESP_OK,
        if decide (r.2 = SHUTDOWN_LIFECYCLE_NORMAL) then SHUTDOWN_ARMED_BOOT_NORMAL else
        if (bool_decide (r.2 = SHUTDOWN_LIFECYCLE_ARMED) ||
            bool_decide (r.2 = SHUTDOWN_LIFECYCLE_WAKE_RECOVERY_PENDING)) && manual_wake
        then SHUTDOWN_ARMED_BOOT_MANUAL_RESUME
        else SHUTDOWN_ARMED_BOOT_STAY_SHUTDOWN)).

(** ** The abstract machine *)

(** What a setting means: a missing key is a normal boot, a foreign byte has
    no meaning. *)
Definition lifecycle_of (o : option (nvs_value B)) : option shutdown_lifecycle_state_t :=
  match o with
  | None => Some SHUTDOWN_LIFECYCLE_NORMAL
  | Some (NvsU8 v) => lifecycle_of_byte v
  | Some (NvsBlob _) => Some SHUTDOWN_LIFECYCLE_NORMAL
  end.

Inductive lifecycle_op :=
  | MarkHostUnresolved | Commit | MarkWakeRecoveryPending | CompleteWakeRecovery | Clear.

Definition run_op (o : lifecycle_op) : st (nvs_env N) esp_err_t :=
  match o with
  | MarkHostUnresolved => shutdown_armed_mark_host_unresolved
  | Commit => shutdown_armed_commit
  | MarkWakeRecoveryPending => shutdown_armed_mark_wake_recovery_pending
  | CompleteWakeRecovery => shutdown_armed_complete_wake_recovery
  | Clear => shutdown_armed_clear
  end.

(** Where [o] may take the lifecycle from a state, as [shutdown_armed.h]
    describes it. *)
Inductive lifecycle_step :
    lifecycle_op -> option shutdown_lifecycle_state_t -> shutdown_lifecycle_state_t -> Prop :=
  | StepUnresolved s : lifecycle_step MarkHostUnresolved s SHUTDOWN_LIFECYCLE_HOST_UNRESOLVED
  | StepCommit s : lifecycle_step Commit s SHUTDOWN_LIFECYCLE_ARMED
  | StepMark : lifecycle_step MarkWakeRecoveryPending (Some SHUTDOWN_LIFECYCLE_ARMED)
      SHUTDOWN_LIFECYCLE_WAKE_RECOVERY_PENDING
  | StepMarkAgain :
      lifecycle_step MarkWakeRecoveryPending (Some SHUTDOWN_LIFECYCLE_WAKE_RECOVERY_PENDING)
        SHUTDOWN_LIFECYCLE_WAKE_RECOVERY_PENDING
  | StepComplete :
      lifecycle_step CompleteWakeRecovery (Some SHUTDOWN_LIFECYCLE_WAKE_RECOVERY_PENDING)
        SHUTDOWN_LIFECYCLE_NORMAL
  | StepClear : lifecycle_step Clear (Some SHUTDOWN_LIFECYCLE_ARMED) SHUTDOWN_LIFECYCLE_NORMAL.

(** The lifecycle as the running process and as the next boot see it. *)
Definition current (e : nvs_env N) : option shutdown_lifecycle_state_t :=
  lifecycle_of (view e armed_key).
Definition next_boot (e : nvs_env N) : option shutdown_lifecycle_state_t :=
  lifecycle_of (durable e armed_key).

(** [o] ran: the lifecycle kept, or took a step of the machine. *)
Definition op_effect (o : lifecycle_op) (e e' : nvs_env N) : Prop :=
  (current e' = current e \/
   exists s, lifecycle_step o (current e) s /\ current e' = Some s) /\
  (next_boot e' = next_boot e \/ next_boot e' = current e \/
   exists s, lifecycle_step o (current e) s /\ next_boot e' = Some s).

(** ** Lemmas *)
Context `{!NvsLaws N B}.

#[local] Arguments lifecycle_of_byte : simpl never.
#[local] Arguments lifecycle_byte : simpl never.

Lemma lifecycle_of_byte_byte s : lifecycle_of_byte (lifecycle_byte s) = Some s.
Proof. by destruct s. Qed.

Lemma same_current e e' : same_settings e e' -> current e' = current e.
Proof. intros [Hv _]. unfold current. by rewrite Hv. Qed.

Lemma same_next_boot e e' : same_settings e e' -> next_boot e' = next_boot e.
Proof. intros [_ Hd]. unfold next_boot. by rewrite Hd. Qed.

Lemma read_state_byte_harmless : harmless read_state_byte.
Proof.
  intros n. unfold read_state_byte, bind. pose proof (get_u8_harmless armed_key n) as Hh.
  by destruct (nvs_get_u8 armed_key n).
Qed.

Lemma read_state_byte_ok n :
  (read_state_byte n).1.1 = ESP_OK ->
  lifecycle_of (nvs_view n armed_key) = Some (read_state_byte n).1.2.
Proof.
  unfold read_state_byte, bind. pose proof (get_u8_ok armed_key n) as Hok.
  pose proof (get_u8_missing armed_key n) as Hmiss.
  destruct (nvs_get_u8 armed_key n) as [[[] v] n']; cbn in *; try done.
  - destruct (Hok v eq_refl) as [-> _]. simpl.
    destruct (lifecycle_of_byte v); [done|]. by intros [=].
  - intros _. specialize (Hmiss v eq_refl). destruct (nvs_view n armed_key) as [[x|]|];
      [by destruct (Hmiss x)|done..].
Qed.

Lemma wp_read_state e (Q : _ -> nvs_env N -> Prop) :
  unlocked e ->
  (forall r e', same_settings e e' -> unlocked e' ->
     (r.1 = ESP_OK -> current e = Some r.2) -> Q r e') ->
  wp shutdown_armed_read_state Q e.
Proof.
  intros Hl HQ. apply wp_nvs_reading; [apply read_state_byte_harmless|done|].
  intros e' H' Hu. split_and!.
  - intros err Herr. by apply HQ.
  - intros Hnone. apply HQ; [done..|]. intros _. unfold current, armed_key. by rewrite Hnone.
  - intros n Hn. apply HQ; [done..|]. intros Hok. unfold current. rewrite <- Hn.
    by apply read_state_byte_ok.
Qed.

Lemma same_op_effect o e e' : same_settings e e' -> op_effect o e e'.
Proof.
  intros H'. split; [left; by apply same_current|left; by apply same_next_boot].
Qed.

(** A write of [s], allowed from the lifecycle of [e]. *)
Lemma wp_write o s e e0 :
  unlocked e -> same_settings e0 e -> lifecycle_step o (current e0) s ->
  wp (shutdown_armed_write (lifecycle_byte s)) (fun r e' =>
    unlocked e' /\ op_effect o e0 e' /\
    (r = ESP_OK -> current e' = Some s /\ next_boot e' = Some s)) e.
Proof.
  intros Hl [Hv Hd] Hs. unfold shutdown_armed_write.
  eapply wp_mono; [apply (wp_nvs_transaction k_namespace k_key _ (Some (NvsU8 (lifecycle_byte s))))|].
  - intros n. apply set_effect.
  - intros n. apply set_ok.
  - done.
  - intros r e' (Hu & [Hview Hdur] & Hok). split_and!; [done| |].
    + unfold op_effect, current, next_boot in *. rewrite <- Hv, <- Hd. split.
      * destruct (Hview armed_key) as [->|[_ ->]]; [by left|right].
        exists s. rewrite Hv. split; [done|]. apply lifecycle_of_byte_byte.
      * destruct (Hdur armed_key) as [->|[->|[_ ->]]]; [by left|by right; left|right; right].
        exists s. rewrite Hv. split; [done|]. apply lifecycle_of_byte_byte.
    + intros Hr. destruct (Hok Hr) as [Hv' Hd']. unfold current, next_boot, armed_key.
      rewrite Hv', Hd'. cbn. by rewrite lifecycle_of_byte_byte.
Qed.

(** What every operation guarantees. *)
Definition op_post (o : lifecycle_op) (e : nvs_env N) (r : esp_err_t) (e' : nvs_env N) : Prop :=
  unlocked e' /\ op_effect o e e' /\
  (r = ESP_OK -> exists s, lifecycle_step o (current e) s /\ current e' = Some s /\
     (next_boot e' = Some s \/ same_settings e e')).

Lemma wp_write_post o s e e0 :
  unlocked e -> same_settings e0 e -> lifecycle_step o (current e0) s ->
  wp (shutdown_armed_write (lifecycle_byte s)) (op_post o e0) e.
Proof.
  intros Hl He Hs. eapply wp_mono; [by apply (wp_write o s e e0)|].
  intros r e' (Hu & Heff & Hok). split_and!; [done..|]. intros Hr. destruct (Hok Hr). eauto 6.
Qed.

Lemma same_op_post o r e e' :
  unlocked e' -> same_settings e e' -> r <> ESP_OK -> op_post o e r e'.
Proof. intros Hu He Hr. split_and!; [done|by apply same_op_effect|done]. Qed.

Lemma wp_run_op o e : unlocked e -> wp (run_op o) (op_post o e) e.
Proof.
  intros Hl. destruct o; cbn [run_op].
  - apply wp_write_post; [done..|constructor].
  - apply wp_write_post; [done..|constructor].
  - unfold shutdown_armed_mark_wake_recovery_pending. st_prim. apply wp_read_state; [done|].
    intros [r s] e1 H1 Hu Hcur. cbn in *.
    destruct r; cbn; st_prim; try (by apply same_op_post). specialize (Hcur eq_refl).
    destruct (decide _) as [->|Hp]; st_prim.
    { split_and!; [done|by apply same_op_effect|]. intros _. eexists.
      rewrite Hcur, (same_current _ _ H1), Hcur. split_and!; [constructor|done|by right]. }
    destruct (decide _) as [Ha|Ha]; st_prim; [by apply same_op_post|].
    apply dec_stable in Ha as ->. apply wp_write_post; [done..|]. rewrite Hcur. constructor.
  - unfold shutdown_armed_complete_wake_recovery. st_prim. apply wp_read_state; [done|].
    intros [r s] e1 H1 Hu Hcur. cbn in *.
    destruct r; cbn; st_prim; try (by apply same_op_post). specialize (Hcur eq_refl).
    destruct (decide _) as [Ha|Ha]; st_prim; [by apply same_op_post|].
    apply dec_stable in Ha as ->. apply wp_write_post; [done..|]. rewrite Hcur. constructor.
  - unfold shutdown_armed_clear. st_prim. apply wp_read_state; [done|].
    intros [r s] e1 H1 Hu Hcur. cbn in *.
    destruct r; cbn; st_prim; try (by apply same_op_post). specialize (Hcur eq_refl).
    destruct (decide _) as [Ha|Ha]; st_prim; [by apply same_op_post|].
    apply dec_stable in Ha as ->. apply wp_write_post; [done..|]. rewrite Hcur. constructor.
Qed.

Lemma wp_complete_gate e :
  unlocked e ->
  wp shutdown_armed_complete_wake_recovery (fun r e' => r = ESP_OK ->
    current e' = Some SHUTDOWN_LIFECYCLE_NORMAL /\
    next_boot e' = Some SHUTDOWN_LIFECYCLE_NORMAL) e.
Proof.
  intros Hl. unfold shutdown_armed_complete_wake_recovery. st_prim. apply wp_read_state; [done|].
  intros [r s] e1 H1 Hu Hcur. cbn in *.
  destruct r; cbn; st_prim; try done. specialize (Hcur eq_refl).
  destruct (decide _) as [Ha|Ha]; st_prim; [done|]. apply dec_stable in Ha as ->.
  eapply wp_mono; [apply (wp_write CompleteWakeRecovery _ e1 e); [done..|rewrite Hcur; constructor]|].
  by intros r e' (_ & _ & Hok).
Qed.

(** What the boot decides, as a table of the lifecycle and the wake button. *)
Definition boot_table (s : shutdown_lifecycle_state_t) (manual_wake : bool) :
    shutdown_armed_boot_action_t :=
  match s, manual_wake with
  | SHUTDOWN_LIFECYCLE_NORMAL, _ => SHUTDOWN_ARMED_BOOT_NORMAL
  | SHUTDOWN_LIFECYCLE_ARMED, true
  | SHUTDOWN_LIFECYCLE_WAKE_RECOVERY_PENDING, true => SHUTDOWN_ARMED_BOOT_MANUAL_RESUME
  | _, _ => SHUTDOWN_ARMED_BOOT_STAY_SHUTDOWN
  end.

Lemma wp_boot_action m e (Q : _ -> nvs_env N -> Prop) :
  unlocked e ->
  (forall err a e', same_settings e e' -> unlocked e' ->
     (a = SHUTDOWN_ARMED_BOOT_STAY_SHUTDOWN \/
      exists s, current e = Some s /\ a = boot_table s m) -> Q (err, a) e') ->
  wp (shutdown_armed_boot_action m) Q e.
Proof.
  intros Hl HQ. unfold shutdown_armed_boot_action. st_prim. apply wp_read_state; [done|].
  intros [r s] e1 H1 Hu Hcur. st_prim. cbn in *.
  destruct r; cbn; try (apply HQ; [done..|by left]).
  apply HQ; [done..|]. right. exists s. split; [auto|]. by destruct s, m.
Qed.

(** ** Boots, operations and resets in any order *)

Inductive lifecycle_event := Op (o : lifecycle_op) | Reset.

Definition run_event (ev : lifecycle_event) (e : nvs_env N) : nvs_env N :=
  match ev with Op o => (run_op o e).2 | Reset => reboot e end.

Definition run_events (evs : list lifecycle_event) (e : nvs_env N) : nvs_env N :=
  fold_left (fun e ev => run_event ev e) evs e.

(** Both what is visible and what the next boot finds are among [P]. *)
Definition within (P : shutdown_lifecycle_state_t -> Prop) (e : nvs_env N) : Prop :=
  unlocked e /\ (exists s, current e = Some s /\ P s) /\ (exists s, next_boot e = Some s /\ P s).

Lemma run_events_within P evs e :
  (forall o s t, Op o ∈ evs -> P s -> lifecycle_step o (Some s) t -> P t) ->
  within P e -> within P (run_events evs e).
Proof.
  revert e. induction evs as [|ev evs IH]; intros e Hstep He; [done|]. cbn.
  apply IH; [intros o s t Ho; apply (Hstep o s t); set_solver|]. clear IH.
  destruct He as (Hu & (s & Hs & Ps) & (t & Ht & Pt)). destruct ev as [o|]; cbn.
  - pose proof (wp_run_op o e Hu) as (Hu' & [Hcur Hnext] & _). unfold within. split_and!; [done| |].
    + destruct Hcur as [->|(u & Hstep' & ->)]; [eauto|]. exists u. split; [done|].
      rewrite Hs in Hstep'. apply (Hstep o s u); [set_solver|done..].
    + destruct Hnext as [->|[->|(u & Hstep' & ->)]]; [eauto..|]. exists u. split; [done|].
      rewrite Hs in Hstep'. apply (Hstep o s u); [set_solver|done..].
  - unfold within. split_and!; [by left| |]; unfold current, next_boot, view, durable in *; cbn;
      rewrite ?reboot_view, ?reboot_durable; eauto.
Qed.

(** ** Theorems *)

(** C24: every operation of [shutdown_armed.c] refines the lifecycle machine:
    under any faults of the store, what the process sees afterwards is the
    lifecycle it saw or a step of the machine from it, what the next boot
    finds is one of the old two or that step, success means the step was
    taken and is durable (or the marker was already the one asked for), and
    the store's mutex is never left taken. *)
Theorem operations_refine_lifecycle o e :
  unlocked e ->
  let '(r, e') := run_op o e in
  unlocked e' /\ op_effect o e e' /\
  (r = ESP_OK -> exists s, lifecycle_step o (current e) s /\ current e' = Some s /\
     (next_boot e' = Some s \/ same_settings e e')).
Proof.
  intros Hu. pose proof (wp_run_op o e Hu) as Hw. unfold wp, op_post in Hw.
  by destruct (run_op o e).
Qed.

Definition gated (s : shutdown_lifecycle_state_t) : Prop := s <> SHUTDOWN_LIFECYCLE_NORMAL.
Definition unresolved (s : shutdown_lifecycle_state_t) : Prop :=
  s = SHUTDOWN_LIFECYCLE_HOST_UNRESOLVED.

(** C22: once the durable lifecycle is gated, no interleaving of resets and
    operations other than the two that clear the gate, under any faults, makes
    a boot normal: the boot action is never NORMAL, without the wake button it
    is STAY_SHUTDOWN, and a host ownership that was left unresolved is
    STAY_SHUTDOWN even with the button until a release is committed. *)
Theorem boot_gate_fail_closed evs e m :
  within gated e -> Op CompleteWakeRecovery ∉ evs -> Op Clear ∉ evs ->
  let '(_, a) := (shutdown_armed_boot_action m (run_events evs e)).1 in
  a <> SHUTDOWN_ARMED_BOOT_NORMAL /\
  (m = false -> a = SHUTDOWN_ARMED_BOOT_STAY_SHUTDOWN) /\
  (within unresolved e -> Op Commit ∉ evs -> a = SHUTDOWN_ARMED_BOOT_STAY_SHUTDOWN).
Proof.
  intros He Hn1 Hn2.
  assert (Hg : within gated (run_events evs e)).
  { apply run_events_within; [|done]. intros o s t Ho Hs Hstep. unfold gated.
    inversion Hstep; subst; done. }
  assert (Hr : within unresolved e -> Op Commit ∉ evs -> within unresolved (run_events evs e)).
  { intros Hun Hn3. apply run_events_within; [|done]. intros o s t Ho Hs Hstep.
    unfold unresolved in *. subst s. inversion Hstep; subst; done. }
  destruct Hg as (Hu & (s & Hs & Ps) & _).
  eapply (wp_boot_action m _ (fun r _ => let '(_, a) := r in
    a <> SHUTDOWN_ARMED_BOOT_NORMAL /\ (m = false -> a = SHUTDOWN_ARMED_BOOT_STAY_SHUTDOWN) /\
    (within unresolved e -> Op Commit ∉ evs -> a = SHUTDOWN_ARMED_BOOT_STAY_SHUTDOWN))) in Hu.
  { unfold wp in Hu. by destruct (shutdown_armed_boot_action m (run_events evs e)).1. }
  intros err a e' H' Hu' [->|(s' & Hs' & ->)]; [done|].
  rewrite Hs in Hs'. injection Hs' as <-.
  split_and!; [by destruct s, m|intros ->; by destruct s|].
  intros Hun Hn3. destruct (Hr Hun Hn3) as (_ & (u & Hs2 & Pu) & _).
  rewrite Hs in Hs2. injection Hs2 as <-. rewrite Pu. by destruct m.
Qed.

(** The boot action is the table of [shutdown_armed.h] applied to the
    stored byte, or STAY_SHUTDOWN; deciding it changes no setting; and a
    stored byte outside the four states is never taken for one. *)
Theorem boot_action_is_table m e :
  unlocked e ->
  let '((err, a), e') := shutdown_armed_boot_action m e in
  same_settings e e' /\ unlocked e' /\
  (a = SHUTDOWN_ARMED_BOOT_STAY_SHUTDOWN \/
   exists s, current e = Some s /\ a = boot_table s m).
Proof.
  intros Hu. pose proof (wp_boot_action m e (fun r e' => same_settings e e' /\ unlocked e' /\
    (r.2 = SHUTDOWN_ARMED_BOOT_STAY_SHUTDOWN \/
     exists s, current e = Some s /\ r.2 = boot_table s m)) Hu) as Hw.
  unfold wp in Hw. destruct (shutdown_armed_boot_action m e) as [[err a] e'].
  apply Hw. by intros.
Qed.
End shutdown_armed.

(** ** Witnesses *)

Definition stored (b : Z) : ReferenceNvs.store unit :=
  let f := ReferenceNvs.update armed_key (Some (NvsU8 b)) (fun _ => None) in
  ReferenceNvs.Store f f [].

Example complete_reaches_normal :
  current (run_op CompleteWakeRecovery (NvsEnv MutexNull false (stored 3))).2 =
  Some SHUTDOWN_LIFECYCLE_NORMAL.
Proof. vm_compute. reflexivity. Qed.

Lemma operations_refine_lifecycle_witness :
  unlocked (NvsEnv MutexNull false (stored 3)) /\
  op_effect CompleteWakeRecovery (NvsEnv MutexNull false (stored 3))
    (run_op CompleteWakeRecovery (NvsEnv MutexNull false (stored 3))).2.
Proof.
  assert (Hu : unlocked (NvsEnv MutexNull false (stored 3))) by (left; reflexivity).
  split; [exact Hu|].
  pose proof (operations_refine_lifecycle CompleteWakeRecovery _ Hu) as H.
  destruct (run_op _ _) as [r e']. apply H.
Defined.

Lemma within_stored (P : shutdown_lifecycle_state_t -> Prop) s :
  P s -> within P (NvsEnv MutexNull false (stored (lifecycle_byte s))).
Proof. intros Ps. split; [by left|]. destruct s; split; eexists; (split; [reflexivity|exact Ps]). Qed.

Lemma boot_gate_fail_closed_witness :
  within gated (NvsEnv MutexNull false (stored 2)) /\
  (shutdown_armed_boot_action true (run_events [Op MarkWakeRecoveryPending; Reset]
     (NvsEnv MutexNull false (stored 2)))).1.2 = SHUTDOWN_ARMED_BOOT_STAY_SHUTDOWN.
Proof.
  assert (Hg : within gated (NvsEnv MutexNull false (stored 2)))
    by exact (within_stored gated SHUTDOWN_LIFECYCLE_HOST_UNRESOLVED ltac:(discriminate)).
  split; [exact Hg|].
  assert (Hn1 : Op CompleteWakeRecovery ∉ [Op MarkWakeRecoveryPending; Reset]) by set_solver.
  assert (Hn2 : Op Clear ∉ [Op MarkWakeRecoveryPending; Reset]) by set_solver.
  pose proof (boot_gate_fail_closed _ _ true Hg Hn1 Hn2) as H.
  destruct (shutdown_armed_boot_action true _) as [[err a] e']. apply H; [|set_solver].
  exact (within_stored unresolved SHUTDOWN_LIFECYCLE_HOST_UNRESOLVED eq_refl).
Defined.

Lemma boot_action_is_table_witness :
  unlocked (NvsEnv MutexNull false (stored 1)) /\
  unlocked (shutdown_armed_boot_action true (NvsEnv MutexNull false (stored 1))).2.
Proof.
  assert (Hu : unlocked (NvsEnv MutexNull false (stored 1))) by (left; reflexivity).
  split; [exact Hu|]. pose proof (boot_action_is_table true _ Hu) as H.
  destruct (shutdown_armed_boot_action _ _) as [[err a] e']. apply H.
Defined.
