(* ===== verification/WakeRecovery.v ===== *)
(** * WakeRecovery: the proof a manual wake owes ([task87_wake_recovery.c])

    A boot by the wake button resumes a gated lifecycle.  The context of this
    component is volatile: per boot it records that the device recovered and
    that a fresh recording started, in this order, before the gate is cleared.
    The flush of a pending clock correction is the weak symbol of the source:
    an interface here, with what its client relies on as its law; Rtc
    discharges it. *)

From S2P Require Import Prelude Monad Nvs ShutdownArmed.

(** [rtc_correction_flush_pending_event]: absent, or an operation on its own
    state [R] and the settings. *)
Class RtcFlush (R N : Type) := {
  flush_pending_event : option (bytes -> st (R * nvs_env N) esp_err_t);
}.

(** It gives the mutex back and has no say in the lifecycle. *)
Class RtcFlushLaws (R N B : Type) `{NvsOps N B, RtcFlush R N} := {
  flush_keeps_lifecycle : forall f path r e,
    flush_pending_event = Some f -> unlocked e ->
    unlocked (f path (r, e)).2.2 /\
    current (f path (r, e)).2.2 = current e /\
    (next_boot (f path (r, e)).2.2 = next_boot e \/
     next_boot (f path (r, e)).2.2 = current e);
}.

Record task87_wake_recovery_t := WakeContext {
  manual_resume_pending : bool;
  device_recovery_complete : bool;
  fresh_recording_started : bool;
}.

(** The context, the flush's state, the settings. *)
Record wake_world (R N : Type) := WakeWorld {
  recovery : task87_wake_recovery_t;
  rtc_part : R;
  settings : nvs_env N;
}.

Arguments WakeWorld {R N}.
Arguments recovery {R N}.
Arguments rtc_part {R N}.
Arguments settings {R N}.

Section wake_recovery.
Context {R N B : Type} `{NvsOps N B, RtcFlush R N}.

Definition set_recovery (c : task87_wake_recovery_t) (w : wake_world R N) : wake_world R N :=
  WakeWorld c (rtc_part w) (settings w).

Definition on_settings {A} (m : st (nvs_env N) A) : st (wake_world R N) A := fun w =>
  let '(x, e) := m (settings w) in (x, WakeWorld (recovery w) (rtc_part w) e).

Definition on_rtc {A} (m : st (R * nvs_env N) A) : st (wake_world R N) A := fun w =>
  let '(x, (r, e)) := m (rtc_part w, settings w) in (x, WakeWorld (recovery w) r e).

(** ** The operations

    The pointer arguments are the context of this boot and a path, never
    NULL in a call of the firmware. *)

Definition task87_wake_recovery_init (manual_resume : bool) : st (wake_world R N) unit :=
  modify (set_recovery (WakeContext manual_resume false false)).

Definition task87_wake_recovery_pending : st (wake_world R N) bool :=
  get (fun w => manual_resume_pending (recovery w)).

Definition task87_wake_recovery_complete_device_recovery (events_path : bytes) :
    st (wake_world R N) esp_err_t :=
  let* c := get recovery in
  if negb (manual_resume_pending c) || device_recovery_complete c
  then ret ESP_ERR_INVALID_STATE else
  let* err := match flush_pending_event with
              | Some flush => on_rtc (flush events_path)
              | None => ret ESP_OK
              end in
  if negb (is_ok err) then ret err else
  let* err := on_settings shutdown_armed_mark_wake_recovery_pending in
  if negb (is_ok err) then ret err else
  modify (set_recovery (WakeContext (manual_resume_pending c) true (fresh_recording_started c))) ;;;
  ret ESP_OK.

Definition task87_wake_recovery_note_recording_started (fresh_recording_id_present : bool) :
    st (wake_world R N) esp_err_t :=
  let* c := get recovery in
  if negb (manual_resume_pending c) then ret ESP_OK else
  if negb (device_recovery_complete c) || negb fresh_recording_id_present
  then ret ESP_ERR_INVALID_STATE else
  let* err := on_settings shutdown_armed_complete_wake_recovery in
  if negb (is_ok err) then ret err else
  modify (set_recovery (WakeContext false (device_recovery_complete c) true)) ;;;
  ret ESP_OK.

Definition task87_wake_recovery_requires_shutdown : st (wake_world R N) bool :=
  get (fun w => manual_resume_pending (recovery w)).

Definition task87_wake_recovery_usb_rearm_allowed : st (wake_world R N) bool :=
  get (fun w => negb (manual_resume_pending (recovery w))).

(** ** A boot as a sequence of calls *)

Inductive wake_call :=
  | CompleteDeviceRecovery (events_path : bytes)
  | NoteRecordingStarted (fresh_recording_id_present : bool).

Definition run_call (c : wake_call) : st (wake_world R N) esp_err_t :=
  match c with
  | CompleteDeviceRecovery p => task87_wake_recovery_complete_device_recovery p
  | NoteRecordingStarted b => task87_wake_recovery_note_recording_started b
  end.

(** How far the evidence has come: nothing yet; the device recovered; and
    then a fresh recording was reported. *)
Inductive evidence := NoEvidence | DeviceRecovered | FreshRecording.

Definition observe (ev : evidence) (c : wake_call) (r : esp_err_t) : evidence :=
  match ev, c, r with
  | NoEvidence, CompleteDeviceRecovery _, ESP_OK => DeviceRecovered
  | DeviceRecovered, NoteRecordingStarted true, _ => FreshRecording
  | _, _, _ => ev
  end.

Definition observed_call (s : evidence * wake_world R N) (c : wake_call) :
    evidence * wake_world R N :=
  let '(r, w) := run_call c s.2 in (observe s.1 c r, w).

Definition run_boot (calls : list wake_call) (w : wake_world R N) : evidence * wake_world R N :=
  fold_left observed_call calls (NoEvidence, w).

(** ** The invariant of a resuming boot *)

Definition boot_inv (ev : evidence) (w : wake_world R N) : Prop :=
  unlocked (settings w) /\
  match ev with
  | FreshRecording => True
  | _ =>
    within gated (settings w) /\ manual_resume_pending (recovery w) = true /\
    device_recovery_complete (recovery w) = (match ev with NoEvidence => false | _ => true end)
  end.

Context `{!NvsLaws N B, !RtcFlushLaws R N B}.

Lemma wp_on_settings {A} (m : st (nvs_env N) A) (Q : A -> wake_world R N -> Prop) w :
  wp m (fun x e => Q x (WakeWorld (recovery w) (rtc_part w) e)) (settings w) ->
  wp (on_settings m) Q w.
Proof. unfold wp, on_settings. by destruct (m (settings w)). Qed.

(** A step that gives the mutex back and leaves a closed gate closed. *)
Definition harmless_step (e e' : nvs_env N) : Prop :=
  unlocked e' /\ (within gated e -> within gated e').

Lemma wp_mark o e :
  o <> CompleteWakeRecovery -> o <> Clear -> unlocked e ->
  wp (run_op o) (fun _ e' => harmless_step e e') e.
Proof.
  intros Hn1 Hn2 Hu. split; [apply (wp_run_op o e Hu)|].
  intros He. change (within gated (run_events [Op o] e)).
  apply run_events_within; [|done]. intros o' s t Ho Hs Hstep.
  assert (o' = o) as -> by set_solver. unfold gated. by inversion Hstep; subst.
Qed.

Lemma wp_flush path w (Q : esp_err_t -> wake_world R N -> Prop) :
  unlocked (settings w) ->
  (forall r w', recovery w' = recovery w -> harmless_step (settings w) (settings w') -> Q r w') ->
  wp (match flush_pending_event with
      | Some flush => on_rtc (flush path)
      | None => ret ESP_OK
      end) Q w.
Proof.
  intros Hu HQ. destruct flush_pending_event as [f|] eqn:Hf; [|by apply HQ].
  unfold wp, on_rtc.
  destruct (flush_keeps_lifecycle f path (rtc_part w) (settings w) Hf Hu) as (Hu' & Hc' & Hd').
  destruct (f path (rtc_part w, settings w)) as [r [rt e]]. cbn in *. apply HQ; [done|].
  split; cbn; [done|]. intros (_ & Hc & Hd). split_and!; [done|by rewrite Hc'|].
  by destruct Hd' as [-> | ->].
Qed.

(** What the recovery of the device may change. *)
Lemma wp_complete path w :
  unlocked (settings w) ->
  wp (task87_wake_recovery_complete_device_recovery path) (fun r w' =>
    harmless_step (settings w) (settings w') /\
    recovery w' =
      if is_ok r then
        WakeContext (manual_resume_pending (recovery w)) true (fresh_recording_started (recovery w))
      else recovery w) w.
Proof.
  intros Hu. unfold task87_wake_recovery_complete_device_recovery. st_prim.
  destruct (_ || _); st_prim; [by split|].
  apply wp_flush; [done|]. intros r w1 Hrec [Hu1 Hg1]. st_prim.
  destruct r; cbn; st_prim; try done.
  apply wp_on_settings. eapply wp_mono; [by apply (wp_mark MarkWakeRecoveryPending)|].
  intros r e [Hu2 Hg2]. cbn.
  destruct r; cbn; st_prim; cbn; rewrite ?Hrec; split; try done; split; auto.
Qed.

Lemma wp_note b w :
  unlocked (settings w) ->
  wp (task87_wake_recovery_note_recording_started b) (fun r w' =>
    unlocked (settings w') /\
    (manual_resume_pending (recovery w) = true ->
     device_recovery_complete (recovery w) = false \/ b = false -> w' = w)) w.
Proof.
  intros Hu. unfold task87_wake_recovery_note_recording_started. st_prim.
  destruct (manual_resume_pending (recovery w)); cbn; st_prim; [|done].
  destruct (device_recovery_complete (recovery w)), b; cbn; st_prim; try done.
  apply wp_on_settings. eapply wp_mono; [by apply (wp_run_op CompleteWakeRecovery)|].
  intros r e (Hu2 & _). destruct r; cbn; st_prim; cbn; split; try done; naive_solver.
Qed.

Lemma call_keeps ev c w :
  boot_inv ev w -> wp (run_call c) (fun r w' => boot_inv (observe ev c r) w') w.
Proof.
  intros [Hu Hev]. destruct c as [path|b]; cbn [run_call].
  - eapply wp_mono; [by apply wp_complete|]. intros r w' [[Hu' Hg'] Hrec].
    assert (Hi : ev <> FreshRecording ->
      within gated (settings w') /\ manual_resume_pending (recovery w') = true).
    { rewrite Hrec. destruct ev; [..|done]; intros _; destruct Hev as (Hg & Hm & _);
        destruct (is_ok r); auto. }
    split; [done|]. rewrite Hrec in *.
    destruct ev; cbn [observe]; [| |done]; destruct Hev as (_ & _ & Hd);
      destruct (Hi ltac:(done)) as [? ?]; destruct r; by split_and!.
  - eapply wp_mono; [by apply wp_note|]. intros r w' [Hu' Hsame].
    split; [done|]. destruct ev; cbn [observe]; [| |done]; destruct Hev as (Hg & Hm & Hd).
    + rewrite (Hsame Hm (or_introl Hd)). by destruct b.
    + destruct b; [done|]. by rewrite (Hsame Hm (or_intror eq_refl)).
Qed.

Lemma run_boot_inv calls w :
  within gated (settings w) ->
  let '(ev, w') := run_boot calls (task87_wake_recovery_init true w).2 in boot_inv ev w'.
Proof.
  intros Hg.
  assert (Hi : boot_inv NoEvidence (task87_wake_recovery_init true w).2)
    by (split; [apply Hg|by split_and!]).
  unfold run_boot. revert Hi. generalize NoEvidence, (task87_wake_recovery_init true w).2.
  clear Hg w. induction calls as [|c calls IH]; intros ev w Hi; [done|]. cbn [fold_left].
  unfold observed_call at 2. cbn [fst snd]. pose proof (call_keeps ev c w Hi) as Hw. unfold wp in Hw.
  destruct (run_call c w) as [r w']. by apply IH.
Qed.

(** ** Theorems *)

(** C23: on a boot that resumes a gated lifecycle, under any faults and for
    every sequence of calls, the gate opens — the lifecycle reads NORMAL now
    or at the next boot, USB may be armed again, or a failed start no longer
    shuts the device down — only after the device recovery succeeded in this
    boot and, after that, a fresh recording was reported. *)
Theorem gate_opens_after_proof calls w :
  within gated (settings w) ->
  let '(ev, w') := run_boot calls (task87_wake_recovery_init true w).2 in
  (current (settings w') = Some SHUTDOWN_LIFECYCLE_NORMAL \/
   next_boot (settings w') = Some SHUTDOWN_LIFECYCLE_NORMAL \/
   (task87_wake_recovery_usb_rearm_allowed w').1 = true \/
   (task87_wake_recovery_requires_shutdown w').1 = false) ->
  ev = FreshRecording.
Proof.
  intros Hg. pose proof (run_boot_inv calls w Hg) as Hi.
  destruct (run_boot calls _) as [ev w']. destruct Hi as [_ Hi].
  destruct ev; [| |done]; destruct Hi as ((_ & (s & Hs & Ps) & (t & Ht & Pt)) & Hm & _);
    unfold gated, task87_wake_recovery_usb_rearm_allowed,
      task87_wake_recovery_requires_shutdown, get; cbn; rewrite Hs, Ht, Hm;
    intros [[= ->]|[[= ->]|[?|?]]]; done.
Qed.

(** Reporting the fresh recording of a recovered boot closes the wake
    recovery: when it succeeds, the lifecycle is durably NORMAL and USB may be
    armed; before the device recovered, or without a fresh recording, it is
    refused and changes nothing. *)
Theorem note_recording_completes b w :
  unlocked (settings w) -> manual_resume_pending (recovery w) = true ->
  let '(r, w') := task87_wake_recovery_note_recording_started b w in
  (r = ESP_OK -> device_recovery_complete (recovery w) = true /\ b = true /\
     current (settings w') = Some SHUTDOWN_LIFECYCLE_NORMAL /\
     next_boot (settings w') = Some SHUTDOWN_LIFECYCLE_NORMAL /\
     (task87_wake_recovery_usb_rearm_allowed w').1 = true) /\
  (device_recovery_complete (recovery w) = false \/ b = false ->
     r = ESP_ERR_INVALID_STATE /\ w' = w) /\
  (r <> ESP_OK -> recovery w' = recovery w).
Proof.
  intros Hu Hm.
  apply wp_run.
  unfold task87_wake_recovery_note_recording_started. st_prim. rewrite Hm. cbn [negb].
  destruct (device_recovery_complete (recovery w)), b; cbn; st_prim; try done.
  apply wp_on_settings. eapply wp_mono; [by apply wp_complete_gate|].
  intros r e Hok. destruct r; cbn; st_prim; cbn; split_and!; try done; try (by intros [?|?]).
  intros _. destruct (Hok eq_refl). by split_and!.
Qed.
End wake_recovery.

(** ** Witness: a complete resume on the reference store *)

#[local] Instance no_flush : RtcFlush unit (ReferenceNvs.store unit) :=
  {| flush_pending_event := None |}.

#[local] Instance no_flush_laws : RtcFlushLaws unit (ReferenceNvs.store unit) unit.
Proof. by split. Qed.

Definition armed_boot : wake_world unit (ReferenceNvs.store unit) :=
  WakeWorld (WakeContext false false false) tt (NvsEnv MutexNull false (stored 1)).

Lemma gate_opens_after_proof_witness :
  within gated (settings armed_boot) /\
  (run_boot [CompleteDeviceRecovery (txt "/events"); NoteRecordingStarted true]
     (task87_wake_recovery_init true armed_boot).2).1 = FreshRecording.
Proof.
  assert (Hg : within gated (settings armed_boot))
    by exact (within_stored gated SHUTDOWN_LIFECYCLE_ARMED ltac:(discriminate)).
  split; [exact Hg|].
  pose proof (gate_opens_after_proof
    [CompleteDeviceRecovery (txt "/events"); NoteRecordingStarted true] armed_boot Hg) as H.
  revert H. destruct (run_boot _ _) as [ev w'] eqn:E. vm_compute in E.
  injection E as <- <-. intros H. apply H. left. reflexivity.
Defined.

Definition recovered_boot : wake_world unit (ReferenceNvs.store unit) :=
  WakeWorld (WakeContext true true false) tt (NvsEnv MutexNull false (stored 3)).

Lemma note_recording_completes_witness :
  unlocked (settings recovered_boot) /\
  current (settings (task87_wake_recovery_note_recording_started true recovered_boot).2) =
    Some SHUTDOWN_LIFECYCLE_NORMAL.
Proof.
  assert (Hu : unlocked (settings recovered_boot)) by (left; reflexivity).
  split; [exact Hu|].
  pose proof (note_recording_completes true recovered_boot Hu eq_refl) as H.
  assert (Hr : (task87_wake_recovery_note_recording_started true recovered_boot).1 = ESP_OK)
    by (vm_compute; reflexivity).
  destruct (task87_wake_recovery_note_recording_started true recovered_boot) as [r w'].
  apply H. exact Hr.
Defined.
