(* ===== verification/DeviceIdentity.v ===== *)
(** * DeviceIdentity: UUIDs, [device.json] and the durable device id
    ([device_identity.c])

    The UUID text and the [device.json] document are pure functions; the file
    is ensured over the card model of Stdio, and the first-boot identity over
    the platform interface of Nvs.  The parsers read a document inside a C
    buffer, so they take the memory from the document's first byte on and the
    document's length, and reading outside that memory is a value of the
    model. *)

From S2P Require Import Prelude Monad Stdio RecorderConfig Nvs.

(** ** UUID text *)

Definition is_hex (c : Z) : bool :=
  ((48 <=? c) && (c <=? 57)) || ((97 <=? c) && (c <=? 102)) || ((65 <=? c) && (c <=? 70)).

(** The positions of the hyphens. *)
Definition is_hyphen_index (i : nat) : bool :=
  (i =? 8)%nat || (i =? 13)%nat || (i =? 18)%nat || (i =? 23)%nat.

Definition uuid_char_ok (s : bytes) (i : nat) : bool :=
  if is_hyphen_index i then nth i s 0 =? 45 else is_hex (nth i s 0).

Definition device_identity_is_valid_uuid (s : bytes) : bool :=
  (length s =? 36)%nat && forallb (uuid_char_ok s) (seq 0 36).

Definition hexd (v : Z) : Z := nth (Z.to_nat v) (txt "0123456789abcdef") 0.

(** Version 4 and variant 10xx. *)
Definition stamp_v4 (b : bytes) : bytes :=
  <[8%nat := u8 (Z.lor (Z.land (nth 8 b 0) 63) 128)]>
    (<[6%nat := u8 (Z.lor (Z.land (nth 6 b 0) 15) 64)]> b).

(** The characters of byte [i]. *)
Definition uuid_digits (b : bytes) (i : nat) : bytes :=
  ((if (i =? 4)%nat || (i =? 6)%nat || (i =? 8)%nat || (i =? 10)%nat then [45] else []) ++
   [hexd (Z.land (Z.shiftr (nth i b 0) 4) 15); hexd (Z.land (nth i b 0) 15)])%list.

Definition device_identity_format_uuid_v4 (rand16 : bytes) : option bytes :=
  let b := stamp_v4 rand16 in
  let out := (List.concat (map (uuid_digits b) (seq 0 16)))%list in
  if (length out =? 36)%nat && device_identity_is_valid_uuid out then Some out else None.

(** ** [device.json] *)

Definition safe_token (s : bytes) : bool :=
  negb (bool_decide (s = [])) && (zlen s <=? 64) &&
  forallb (fun c => negb ((c =? 34) || (c =? 92) || (c <? 32))) s.

(** The document of the canonical [device.json]. *)
Definition device_json_text (device_id model firmware_version : bytes) : bytes :=
  (jtxt "{'schemaVersion':" ++ dec_u RECORDER_METADATA_SCHEMA_VERSION ++
   jtxt ",'deviceId':'" ++ device_id ++
   jtxt "','model':'" ++ model ++ jtxt "','firmwareVersion':'" ++ firmware_version ++
   jtxt "','audioCapabilities':{'sampleRate':" ++ dec_u RECORDER_SAMPLE_RATE_HZ ++
   jtxt ",'bitDepth':" ++ dec_u RECORDER_BITS_PER_SAMPLE ++
   jtxt ",'channels':" ++ dec_u RECORDER_CHANNELS ++ jtxt ",'format':'pcm'}}")%list.

(** NULL texts take the defaults. *)
Definition device_identity_build_device_json (device_id : bytes)
    (model firmware_version : option bytes) (out_size : Z) : option bytes :=
  let model := default RECORDER_MODEL model in
  let firmware_version := default RECORDER_FIRMWARE_VERSION firmware_version in
  if out_size =? 0 then None else
  if negb (device_identity_is_valid_uuid device_id) then None else
  if negb (safe_token model) || negb (safe_token firmware_version) then None else
  snprintf_fit out_size (device_json_text device_id model firmware_version).

(** ** The parsers *)

(** A computation that may read outside the memory it was given. *)
Inductive checked (A : Type) := Outside | Value (x : A).

Arguments Outside {A}.
Arguments Value {A}.

Definition checked_bind {A B} (m : checked A) (k : A -> checked B) : checked B :=
  match m with Outside => Outside | Value x => k x end.

(** [strchr]: the offset of [c] before the terminating NUL. *)
Fixpoint strchr (c : Z) (mem : bytes) : checked (option nat) :=
  match mem with
  | [] => Outside
  | x :: mem =>
      if x =? c then Value (Some O) else
      if x =? 0 then Value None else
      checked_bind (strchr c mem) (fun r => Value (S <$> r))
  end.

(** Offset behind the key, its colon and the blanks, within [json_len]. *)
Fixpoint skip_blanks (l : bytes) : nat :=
  match l with
  | c :: l => if (c =? 32) || (c =? 9) then S (skip_blanks l) else O
  | [] => O
  end.

(** [at], the colon, and the first byte that is not blank behind it: where the
    value of [key] starts, possibly [json_len] itself. *)
Definition value_offset (key mem : bytes) (json_len : nat) : checked (option nat) :=
  if (json_len =? 0)%nat || (json_len <? length key)%nat then Value None else
  match find_sub key (take json_len mem) with
  | None => Value None
  | Some at_ =>
      checked_bind (strchr 58 (drop at_ mem)) (fun colon =>
      match colon with
      | None => Value None
      | Some c =>
          if (json_len <=? at_ + c)%nat then Value None else
          let p := (at_ + c + 1)%nat in
          Value (Some (p + skip_blanks (drop p (take json_len mem)))%nat)
      end)
  end.

(** The digit loop; [None] above one million. *)
Fixpoint read_unsigned (l : bytes) (value : Z) (any : bool) : option (Z * bool) :=
  match l with
  | c :: l' =>
      if is_digit c then
        let value := value * 10 + (c - 48) in
        if 1000000 <? value then None else read_unsigned l' value true
      else Some (value, any)
  | [] => Some (value, any)
  end.

Definition device_identity_parse_schema_version (mem : bytes) (json_len : nat) :
    checked (option Z) :=
  checked_bind (value_offset (jtxt "'schemaVersion'") mem json_len) (fun p =>
  Value (match p with
         | None => None
         | Some p =>
             match read_unsigned (drop p (take json_len mem)) 0 false with
             | Some (value, true) => Some value
             | _ => None
             end
         end)).

Definition device_identity_parse_device_id (mem : bytes) (json_len : nat) :
    checked (option bytes) :=
  checked_bind (value_offset (jtxt "'deviceId'") mem json_len) (fun p =>
  match p with
  | None => Value None
  | Some p =>
      if (json_len <=? p)%nat || negb (nth p mem 0 =? 34) then Value None else
      let p := S p in
      if (json_len <? p + 36)%nat then Value None else
      let out := slice p 36 mem in
      match mem !! (p + 36)%nat with
      | None => Outside
      | Some c =>
          if negb (c =? 34) then Value None else
          if negb (device_identity_is_valid_uuid out) then Value None else Value (Some out)
      end
  end).

(** The verdict of [device_identity_ensure_device_json] on a document read
    into memory. *)
Definition identity_matches (device_id mem : bytes) (json_len : nat) : checked bool :=
  checked_bind (device_identity_parse_schema_version mem json_len) (fun version =>
  if negb (bool_decide (version = Some RECORDER_METADATA_SCHEMA_VERSION)) then Value false else
  checked_bind (device_identity_parse_device_id mem json_len) (fun existing =>
  Value (bool_decide (existing = Some device_id)))).

(** ** The file *)

Definition write_all_synced (h : handle) (doc : bytes) : io bool :=
  let* (ok, h) := fwrite h doc in
  if negb ok then ret false else
  let* flushed := fflush h in
  if negb flushed then ret false else fsync h.

(** [sizeof(local)] *)
Definition LOCAL_SIZE : Z := 2048.

(** The branch of an existing file: [local] is the static buffer, whose
    contents outlive the call. *)
Definition check_existing (device_id local : bytes) (h : handle) :
    io (checked bool * bytes) :=
  let refuse h := let* _ := fclose h in ret (Value false, local) in
  let* s := fseek_end h in
  match s with
  | None => refuse h
  | Some h =>
  let* size := ftell h in
  match size with
  | None => refuse h
  | Some size =>
  if 8192 <? Z.of_nat size then refuse h else
  let* s := fseek h 0 in
  match s with
  | None => refuse h
  | Some h =>
  if LOCAL_SIZE <? Z.of_nat size then refuse h else
  let* (got, _, h) := fread h size in
  let* _ := fclose h in
  let local := splice 0 got local in
  if negb (length got =? size)%nat then ret (Value false, local) else
  ret (identity_matches device_id local (length got), local)
  end end end.

Definition device_identity_ensure_device_json (path device_id : bytes)
    (model firmware_version : option bytes) (local : bytes) : io (checked bool * bytes) :=
  if bool_decide (path = []) then ret (Value false, local) else
  if negb (device_identity_is_valid_uuid device_id) then ret (Value false, local) else
  match device_identity_build_device_json device_id model firmware_version 512 with
  | None => ret (Value false, local)
  | Some doc =>
  let* fp := fopen_existing path in
  match fp with
  | Some h => check_existing device_id local h
  | None =>
      let* out := fopen_wb path in
      match out with
      | None => ret (Value false, local)
      | Some h =>
          let* ok := write_all_synced h doc in
          let* closed := fclose h in
          ret (Value (if negb closed then false else ok), local)
      end
  end
  end.

(** ** The durable device id *)

(** The four bytes [(uint8_t)(w >> 24)] to [(uint8_t)w]. *)
Definition word_bytes (w : Z) : bytes :=
  [u8 (Z.shiftr w 24); u8 (Z.shiftr w 16); u8 (Z.shiftr w 8); u8 w].

Definition device_id_namespace : bytes := txt "m5daylog".
Definition device_id_key : nvs_key := (device_id_namespace, txt "device_id").

Section device_id.
Context {N : Type} `{NvsOps N bytes}.

(** The hardware random number generator. *)
Context (esp_random : st N Z).

Definition random16 : st N bytes :=
  let* w0 := esp_random in
  let* w1 := esp_random in
  let* w2 := esp_random in
  let* w3 := esp_random in
  ret (word_bytes w0 ++ word_bytes w1 ++ word_bytes w2 ++ word_bytes w3)%list.

(** The first boot: a fresh UUID, stored and committed before it is used. *)
Definition create_device_id : st N (esp_err_t * bytes) :=
  let* rand16 := random16 in
  match device_identity_format_uuid_v4 rand16 with
  | None => ret (ESP_FAIL, [])
  | Some fresh =>
      let* err := nvs_set device_id_key (NvsBlob fresh) in
      if negb (is_ok err) then ret (ESP_FAIL, []) else
      let* err := nvs_commit device_id_namespace in
      if negb (is_ok err) then ret (err, []) else ret (ESP_OK, fresh)
  end.

(** The result and [out].  A string is read in two calls, its length first. *)
Definition device_identity_ensure_device_id : st N (esp_err_t * bytes) :=
  let* err := nvs_flash_init in
  if negb (is_ok err) then ret (err, []) else
  let* err := nvs_open device_id_namespace true in
  if negb (is_ok err) then ret (err, []) else
  let* r := nvs_get_blob device_id_key in
  match r.1 with
  | ESP_OK =>
      let* r := nvs_get_blob device_id_key in
      match r with
      | (ESP_OK, Some stored) =>
          if negb (device_identity_is_valid_uuid stored) then ret (ESP_FAIL, [])
          else ret (ESP_OK, stored)
      | _ => ret (ESP_FAIL, [])
      end
  | ESP_ERR_NVS_NOT_FOUND => create_device_id
  | err => ret (err, [])
  end.
End device_id.

(** ** Lemmas: UUIDs *)

Lemma hexd_is_hex v : 0 <= v < 16 -> is_hex (hexd v) = true.
Proof.
  intros. assert (Hv : v ∈ seqZ 0 16) by (apply elem_of_seqZ; lia).
  revert v Hv H. rewrite <- Forall_forall. repeat constructor.
Qed.

(** The value of a lower-case hex digit. *)
Definition unhex (c : Z) : Z := if c <? 58 then c - 48 else c - 87.

Lemma unhex_hexd v : 0 <= v < 16 -> unhex (hexd v) = v.
Proof.
  intros. assert (Hv : v ∈ seqZ 0 16) by (apply elem_of_seqZ; lia).
  revert v Hv H. rewrite <- Forall_forall. repeat constructor.
Qed.

Lemma hi_nibble b : byte_ok b -> 0 <= Z.land (Z.shiftr b 4) 15 < 16.
Proof. intros. change 15 with (Z.ones 4). rewrite Z.land_ones by lia. apply Z.mod_pos_bound. lia. Qed.

Lemma lo_nibble b : 0 <= Z.land b 15 < 16.
Proof. change 15 with (Z.ones 4). rewrite Z.land_ones by lia. apply Z.mod_pos_bound. lia. Qed.

Lemma nibbles b : byte_ok b -> Z.land (Z.shiftr b 4) 15 * 16 + Z.land b 15 = b.
Proof.
  intros [H1 H2]. change 15 with (Z.ones 4). rewrite !Z.land_ones by lia.
  rewrite Z.shiftr_div_pow2 by lia. change (2 ^ 4) with 16.
  rewrite (Z.mod_small (b / 16)); [|split; [apply Z.div_pos|apply Z.div_lt_upper_bound]; lia].
  pose proof (Z.div_mod b 16). lia.
Qed.

Definition uuid_text (b : bytes) : bytes := List.concat (map (uuid_digits b) (seq 0 16)).

(** Where the digits of byte [i] are. *)
Definition digit_pos (i : nat) : nat :=
  (2 * i + (if 4 <=? i then 1 else 0) + (if 6 <=? i then 1 else 0) +
   (if 8 <=? i then 1 else 0) + (if 10 <=? i then 1 else 0))%nat.

(** The sixteen bytes a UUID text stands for. *)
Definition uuid_bytes (s : bytes) : bytes :=
  map (fun i => unhex (nth (digit_pos i) s 0) * 16 + unhex (nth (S (digit_pos i)) s 0)) (seq 0 16).

Ltac explode l :=
  repeat (let a := fresh "a" in destruct l as [|a l]; [discriminate|]);
  destruct l; [|discriminate].

#[local] Arguments hexd : simpl never.
#[local] Arguments is_hex : simpl never.
#[local] Arguments unhex : simpl never.
#[local] Arguments Z.land : simpl never.
#[local] Arguments Z.lor : simpl never.
#[local] Arguments Z.shiftr : simpl never.

Lemma uuid_text_valid b :
  length b = 16%nat -> bytes_ok b ->
  length (uuid_text b) = 36%nat /\ device_identity_is_valid_uuid (uuid_text b) = true.
Proof.
  intros Hl Hb. explode b. split; [reflexivity|].
  unfold bytes_ok in Hb. rewrite !Forall_cons in Hb. destruct_and! Hb.
  unfold device_identity_is_valid_uuid, uuid_char_ok, uuid_text, uuid_digits. cbn.
  rewrite !hexd_is_hex by (by apply lo_nibble || by apply hi_nibble). reflexivity.
Qed.

Lemma uuid_bytes_text b : length b = 16%nat -> bytes_ok b -> uuid_bytes (uuid_text b) = b.
Proof.
  intros Hl Hb. explode b.
  unfold bytes_ok in Hb. rewrite !Forall_cons in Hb. destruct_and! Hb.
  unfold uuid_bytes, uuid_text, uuid_digits, digit_pos. cbn.
  rewrite !unhex_hexd by (by apply lo_nibble || by apply hi_nibble).
  by rewrite !nibbles.
Qed.

Lemma length_stamp_v4 b : length (stamp_v4 b) = length b.
Proof. unfold stamp_v4. by rewrite !length_insert. Qed.

Lemma stamp_v4_ok b : bytes_ok b -> bytes_ok (stamp_v4 b).
Proof. intros. unfold stamp_v4. by repeat apply Forall_insert; try apply u8_range. Qed.

Lemma format_uuid_text b :
  length b = 16%nat -> bytes_ok b ->
  device_identity_format_uuid_v4 b = Some (uuid_text (stamp_v4 b)).
Proof.
  intros Hl Hb. unfold device_identity_format_uuid_v4.
  destruct (uuid_text_valid (stamp_v4 b)) as [Hlen Hv];
    [by rewrite length_stamp_v4|by apply stamp_v4_ok|].
  fold (uuid_text (stamp_v4 b)). by rewrite Hlen, Hv.
Qed.

Lemma version_nibble b :
  byte_ok b -> hexd (Z.land (Z.shiftr (u8 (Z.lor (Z.land b 15) 64)) 4) 15) = ch "4".
Proof.
  intros Hb. apply Z.eqb_eq.
  apply (every_byte (fun b => hexd (Z.land (Z.shiftr (u8 (Z.lor (Z.land b 15) 64)) 4) 15) =? ch "4"));
    [vm_compute; reflexivity|done].
Qed.

Lemma variant_nibble b :
  byte_ok b -> hexd (Z.land (Z.shiftr (u8 (Z.lor (Z.land b 63) 128)) 4) 15) ∈ txt "89ab".
Proof.
  intros Hb. pose proof (every_byte (fun b => existsb
    (fun c => c =? hexd (Z.land (Z.shiftr (u8 (Z.lor (Z.land b 63) 128)) 4) 15)) (txt "89ab")) b
    ltac:(vm_compute; reflexivity) Hb) as H.
  apply existsb_exists in H as (c & Hc & He). apply Z.eqb_eq in He as <-.
  by apply list_elem_of_In.
Qed.

(** ** Theorems: UUIDs *)

(** Sixteen random bytes always format to a valid UUID, with version digit
    4 and a variant digit of 8, 9, a or b; and the text decodes to the bytes
    with exactly the six version and variant bits stamped, so two devices
    share a UUID only when all other 122 random bits agree. *)
Theorem format_uuid_v4_roundtrip rand16 :
  length rand16 = 16%nat -> bytes_ok rand16 ->
  exists s, device_identity_format_uuid_v4 rand16 = Some s /\
    device_identity_is_valid_uuid s = true /\
    nth 14 s 0 = ch "4" /\ nth 19 s 0 ∈ txt "89ab" /\
    uuid_bytes s = stamp_v4 rand16.
Proof.
  intros Hl Hb. exists (uuid_text (stamp_v4 rand16)).
  split; [by apply format_uuid_text|].
  split; [apply uuid_text_valid; [by rewrite length_stamp_v4|by apply stamp_v4_ok]|].
  split_and!; [| |apply uuid_bytes_text; [by rewrite length_stamp_v4|by apply stamp_v4_ok]].
  - explode rand16. unfold bytes_ok in Hb. rewrite !Forall_cons in Hb. destruct_and! Hb.
    unfold stamp_v4, uuid_text, uuid_digits. cbn. by apply version_nibble.
  - explode rand16. unfold bytes_ok in Hb. rewrite !Forall_cons in Hb. destruct_and! Hb.
    unfold stamp_v4, uuid_text, uuid_digits. cbn. by apply variant_nibble.
Qed.

Definition zero16 : bytes := replicate 16 0.

Lemma format_uuid_v4_roundtrip_witness :
  length zero16 = 16%nat /\
  exists s, device_identity_format_uuid_v4 zero16 = Some s /\ device_identity_is_valid_uuid s = true.
Proof.
  split; [reflexivity|].
  destruct (format_uuid_v4_roundtrip zero16 eq_refl) as (s & Hs & Hv & _).
  { by apply Forall_replicate. }
  by exists s.
Defined.

(** ** Lemmas: documents *)

Lemma valid_uuid_length s : device_identity_is_valid_uuid s = true -> length s = 36%nat.
Proof. unfold device_identity_is_valid_uuid. intros. split_bools. by apply Nat.eqb_eq. Qed.

(** The document, split where the parsers look. *)
Lemma device_json_split id model fw :
  exists tail, device_json_text id model fw =
    (jtxt "{'schemaVersion':1,'deviceId':'" ++ id ++ 34 :: tail)%list.
Proof. eexists. reflexivity. Qed.

Lemma drop_app_exact {A} (l k : list A) n : length l = n -> drop n (l ++ k) = k.
Proof. intros <-. apply drop_app_length. Qed.

(** What the parsers find in a document of that shape. *)
Lemma parse_document id tail rest :
  device_identity_is_valid_uuid id = true ->
  let doc := (jtxt "{'schemaVersion':1,'deviceId':'" ++ id ++ 34 :: tail)%list in
  device_identity_parse_schema_version (doc ++ rest) (length doc) =
    Value (Some RECORDER_METADATA_SCHEMA_VERSION) /\
  device_identity_parse_device_id (doc ++ rest) (length doc) = Value (Some id).
Proof.
  intros Hid doc. pose proof (valid_uuid_length _ Hid) as Hlen.
  assert (Hdoc : length doc = (68 + length tail)%nat)
    by (unfold doc; rewrite !length_app, Hlen;
        change (length (jtxt "{'schemaVersion':1,'deviceId':'")) with 31%nat; cbn [length]; lia).
  assert (Happ : (doc ++ rest)%list =
    (jtxt "{'schemaVersion':1,'deviceId':'" ++ id ++ 34 :: tail ++ rest)%list)
    by (unfold doc; by rewrite <- !app_assoc).
  assert (Hv1 : value_offset (jtxt "'schemaVersion'") (doc ++ rest) (length doc) =
    Value (Some 17%nat)).
  { unfold value_offset. rewrite take_app_length, Hdoc.
    change (find_sub (jtxt "'schemaVersion'") doc) with (Some 1%nat). rewrite Happ. reflexivity. }
  assert (Hv2 : value_offset (jtxt "'deviceId'") (doc ++ rest) (length doc) =
    Value (Some 30%nat)).
  { unfold value_offset. rewrite take_app_length, Hdoc.
    change (find_sub (jtxt "'deviceId'") doc) with (Some 19%nat). rewrite Happ. reflexivity. }
  unfold device_identity_parse_schema_version,
    device_identity_parse_device_id. rewrite Hv1, Hv2. cbn [checked_bind].
  rewrite take_app_length. split; [reflexivity|].
  rewrite Hdoc. replace (nth 30 (doc ++ rest) 0) with 34 by (rewrite Happ; reflexivity). cbn.
  assert (Hs : slice 31 36 (doc ++ rest) = id).
  { rewrite Happ. unfold slice. rewrite drop_app_exact by done. rewrite <- Hlen. apply take_app_length. }
  assert (Hq : (doc ++ rest)%list !! 67%nat = Some 34).
  { rewrite Happ. rewrite !lookup_app_r; rewrite ?Hlen; [reflexivity|vm_compute; lia..]. }
  rewrite Hs, Hq. cbn. by rewrite Hid.
Qed.

(** A canonical document, read back with anything behind it. *)
Lemma parse_json id model fw size doc rest :
  device_identity_build_device_json id model fw size = Some doc ->
  device_identity_parse_schema_version (doc ++ rest) (length doc) =
    Value (Some RECORDER_METADATA_SCHEMA_VERSION) /\
  device_identity_parse_device_id (doc ++ rest) (length doc) = Value (Some id).
Proof.
  unfold device_identity_build_device_json. intros H.
  destruct (size =? 0); [done|].
  destruct (device_identity_is_valid_uuid id) eqn:Hid; cbn [negb] in H; [|done].
  destruct (_ || _); [done|]. apply snprintf_fit_Some in H as [-> _].
  destruct (device_json_split id (default RECORDER_MODEL model)
    (default RECORDER_FIRMWARE_VERSION fw)) as [tail ->].
  by apply parse_document.
Qed.

(** It is accepted for its own id and for no other. *)
Lemma identity_matches_json id id' model fw size doc rest :
  device_identity_build_device_json id model fw size = Some doc ->
  identity_matches id' (doc ++ rest) (length doc) = Value (bool_decide (id = id')).
Proof.
  intros H. unfold identity_matches. destruct (parse_json _ _ _ _ _ rest H) as [-> ->].
  cbn. f_equal. apply bool_decide_ext. naive_solver.
Qed.

Lemma build_valid id model fw size doc :
  device_identity_build_device_json id model fw size = Some doc ->
  device_identity_is_valid_uuid id = true.
Proof.
  unfold device_identity_build_device_json. intros H.
  destruct (size =? 0); [done|]. by destruct (device_identity_is_valid_uuid id).
Qed.

Lemma build_device_json_length id model fw size doc :
  device_identity_build_device_json id model fw size = Some doc -> zlen doc < size.
Proof.
  unfold device_identity_build_device_json. intros H.
  destruct (size =? 0); [done|]. destruct (negb _); [done|]. destruct (_ || _); [done|].
  by apply snprintf_fit_Some in H as [-> H].
Qed.

(** The card after an ensure that could tell whether the file exists. *)
Record ensured (path id doc : bytes) (w w' : world) (accepted : bool) : Prop := Ensured {
  (** nothing else changes *)
  ensured_others : forall p, p <> path -> w_disk w' !! p = w_disk w !! p;
  (** an existing file or directory is preserved *)
  ensured_present : w_disk w !! path <> None -> w_disk w' = w_disk w;
  (** a missing file stays missing, or holds a prefix of the document *)
  ensured_missing : w_disk w !! path = None ->
    w_disk w' !! path = None \/
    exists c, w_disk w' !! path = Some (NFile c) /\ c `prefix_of` doc;
  (** acceptance means the file is there, on the medium if it was created,
      and holds this identity *)
  ensured_accepted : accepted = true ->
    exists c, w_disk w' !! path = Some (NFile c) /\
      (w_disk w !! path = None -> c = doc /\ path ∉ w_dirty w') /\
      exists rest, identity_matches id (c ++ rest) (length c) = Value true;
}.

(** No fault is planned for the next call. *)
Definition next_call_works (w : world) : Prop := hit (default None (head (w_faults w))) = false.

Lemma wp_fopen_existing_works path w Q :
  next_call_works w ->
  (forall w', keeps w w' -> is_file (w_disk w !! path) = false -> Q None w') ->
  (forall w' c, keeps w w' -> w_disk w !! path = Some (NFile c) ->
     Q (Some (Handle path 0)) w') ->
  wp (fopen_existing path) Q w.
Proof.
  intros Hw H1 H2. unfold wp, fopen_existing, bind, next_fault, get_disk, ret.
  unfold next_call_works in Hw. destruct w as [d dirty [|f fs] over hist]; cbn in *.
  - destruct (d !! path) as [[c|]|] eqn:Hp; cbn; [eapply H2|apply H1..]; done.
  - destruct f; [done|]. cbn.
    destruct (d !! path) as [[c|]|] eqn:Hp; cbn; [eapply H2|apply H1..]; try done;
      apply keeps_pop.
Qed.


(** The buffer holds what was read, then what it held before. *)
Lemma splice_0 {A} (d l : list A) : splice 0 d l = (d ++ drop (length d) l)%list.
Proof. reflexivity. Qed.

Definition verdict (id c local : bytes) : checked bool :=
  if LOCAL_SIZE <? zlen c then Value false
  else identity_matches id (c ++ drop (length c) local) (length c).

Lemma wp_check_existing id local path c w :
  w_disk w !! path = Some (NFile c) ->
  wp (check_existing id local (Handle path 0)) (fun r w' =>
    keeps w w' /\ (r.1 = Value false \/ r.1 = verdict id c local) /\
    (faultless w -> r.1 = verdict id c local)) w.
Proof.
  intros Hc. unfold check_existing, verdict, zlen.
  wp_auto; worlds; cbn [fst snd h_pos h_path] in *; rewrite ?Hc, ?splice_0 in *;
    cbn [file_content] in *; rewrite ?drop_0 in *; split_bools; split_and!;
    try (split; [congruence..|auto 10|auto 10]); try (by left); try (intros Hf; exfalso; auto 10; fail).
  all: destruct (Z.ltb_spec LOCAL_SIZE (Z.of_nat (length c))); unfold LOCAL_SIZE in *;
    try done; try lia; rewrite ?(take_ge c) in * by lia.
  - match goal with H : (_ =? _)%nat = false |- _ => apply Nat.eqb_neq in H end.
    intros Hf. exfalso. match goal with H : _ = false -> got = c |- _ => rewrite H in * end; auto 10.
  - match goal with H : (_ =? _)%nat = true |- _ => apply Nat.eqb_eq in H end.
    rewrite (prefix_length_eq got c) by (done || lia). by right.
  - match goal with H : (_ =? _)%nat = true |- _ => apply Nat.eqb_eq in H end.
    by rewrite (prefix_length_eq got c) by (done || lia).
Qed.

(** A probe hit by a fault. *)
Lemma wp_fopen_existing_fails path d dirty f fs over hist Q :
  Q None (World d dirty fs over hist) ->
  wp (fopen_existing path) Q (World d dirty (Some f :: fs) over hist).
Proof. done. Qed.

Definition accepted (r : checked bool) : bool :=
  match r with Value true => true | _ => false end.

Lemma wp_write_all_synced path doc w :
  w_disk w !! path = Some (NFile []) ->
  wp (write_all_synced (Handle path 0) doc) (fun ok w' =>
    (exists c, c `prefix_of` doc /\ w_disk w' = <[path := NFile c]> (w_disk w) /\
      (ok = true -> c = doc /\ path ∉ w_dirty w')) /\
    (faultless w -> ok = true /\ faultless w')) w.
Proof.
  intros Hp. unfold write_all_synced. wp_auto; worlds; cbn [h_path h_pos] in *; rewrite ?Hp in *;
    cbn [file_content] in *; rewrite ?write_at_nil in *;
    (split; [eexists; split_and!; [eassumption|done|]|try (intros Hf; exfalso; auto 10; fail)]);
    try done; try (intros; split; auto 10).
  apply not_in_synced.
Qed.

(** ** Theorems: [device.json] *)


Definition sample_id : bytes := txt "00000000-0000-4000-8000-000000000000".
Definition other_id : bytes := txt "11111111-1111-4111-8111-111111111111".
Definition device_json_path : bytes := txt "/sdcard/M5DAYLOG/device.json".
Definition zero_buffer : bytes := replicate (Z.to_nat LOCAL_SIZE) 0.

(** The canonical document of an id, as the firmware builds it. *)
Definition canonical (id : bytes) : bytes :=
  device_json_text id RECORDER_MODEL RECORDER_FIRMWARE_VERSION.


(** The probe of [device_identity_ensure_device_json] takes any failure to
    open the file for a missing file: when the read-open of an existing
    [device.json] of another identity fails once, the file is truncated and
    rewritten with the caller's identity, and the call reports success,
    although the module promises never to overwrite a foreign identity. *)
Theorem probe_failure_overwrites_identity path id model fw local doc old d f :
  path <> [] -> device_identity_build_device_json id model fw 512 = Some doc ->
  d !! path = Some (NFile old) ->
  let '((ok, _), w') := device_identity_ensure_device_json path id model fw local
    (World d ∅ [Some f] false []) in
  ok = Value true /\ w_disk w' !! path = Some (NFile doc).
Proof.
  intros Hpath Hdoc Hd.
  enough (Hwp : wp (device_identity_ensure_device_json path id model fw local) (fun r w' =>
    r.1 = Value true /\ w_disk w' !! path = Some (NFile doc)) (World d ∅ [Some f] false [])).
  { unfold wp in Hwp. by destruct (device_identity_ensure_device_json _ _ _ _ _ _) as [[ok l] w']. }
  unfold device_identity_ensure_device_json.
  rewrite (bool_decide_eq_false_2 _ Hpath), (build_valid _ _ _ _ _ Hdoc), Hdoc. cbn [negb]. st_prim.
  apply wp_fopen_existing_fails. set (w1 := World d ∅ [] false []).
  assert (Hf1 : faultless w1) by done. wp_prim. apply wp_fopen_wb_file.
  { intros w2 Hk Hdir. specialize (Hdir Hf1). cbn in Hdir. congruence. }
  intros w2 _ Hm. wp_prim. eapply wp_mono; [apply wp_write_all_synced; by worlds|].
  intros ok w3 [(c & _ & Hd3 & Hok) Hfl]. destruct Hfl as [-> Hf3]; [by destruct Hm; auto|].
  destruct (Hok eq_refl) as [-> _]. wp_prim. apply wp_fclose. intros w4 closed Hk4 Hcl. wp_prim.
  rewrite (Hcl Hf3). worlds. by rewrite ?lookup_insert_eq.
Qed.

Lemma probe_failure_overwrites_identity_witness :
  let w := World {[device_json_path := NFile (canonical other_id)]} ∅
             [Some (Fault EIO 0)] false [] in
  w_disk (device_identity_ensure_device_json device_json_path sample_id None None zero_buffer w).2
    !! device_json_path = Some (NFile (canonical sample_id)).
Proof.
  intros w.
  pose proof (probe_failure_overwrites_identity device_json_path sample_id None None zero_buffer
    (canonical sample_id) (canonical other_id) _ (Fault EIO 0) ltac:(discriminate)
    ltac:(vm_compute; reflexivity) (lookup_singleton_eq device_json_path (NFile (canonical other_id)))) as H.
  unfold w. destruct (device_identity_ensure_device_json _ _ _ _ _ _) as [[ok l] w']. apply H.
Defined.

(** An id is built into a document that is accepted for it and for no
    other id, with anything behind it in the buffer: the parsers invert the
    builder. *)
Theorem device_json_roundtrip id id' model fw size doc rest :
  device_identity_build_device_json id model fw size = Some doc ->
  device_identity_parse_schema_version (doc ++ rest) (length doc) =
    Value (Some RECORDER_METADATA_SCHEMA_VERSION) /\
  device_identity_parse_device_id (doc ++ rest) (length doc) = Value (Some id) /\
  identity_matches id' (doc ++ rest) (length doc) = Value (bool_decide (id = id')).
Proof.
  intros Hdoc. destruct (parse_json _ _ _ _ _ rest Hdoc).
  split_and!; [done..|by eapply identity_matches_json].
Qed.

Lemma device_json_roundtrip_witness :
  device_identity_build_device_json sample_id None None 512 = Some (canonical sample_id) /\
  device_identity_parse_device_id (canonical sample_id ++ zero_buffer) (length (canonical sample_id)) =
    Value (Some sample_id).
Proof.
  assert (Hb : device_identity_build_device_json sample_id None None 512 = Some (canonical sample_id))
    by (vm_compute; reflexivity).
  split; [exact Hb|].
  apply (device_json_roundtrip sample_id sample_id None None 512 _ zero_buffer Hb).
Defined.

(** A 2048-byte [device.json] fills the static buffer to its last byte,
    with no terminator, and the search for the colon reads past the end of the
    buffer. *)
Theorem full_buffer_read_outside :
  exists c, zlen c = LOCAL_SIZE /\
    let '((ok, _), _) := device_identity_ensure_device_json device_json_path sample_id None None
      zero_buffer (clean_world {[device_json_path := NFile c]}) in
    ok = Outside.
Proof.
  exists (jtxt "{'schemaVersion'" ++ replicate (Z.to_nat 2032) 32)%list. split; [reflexivity|].
  vm_compute. reflexivity.
Qed.

(** ** Lemmas: the durable id *)

Lemma word_bytes_ok w : bytes_ok (word_bytes w).
Proof. unfold word_bytes, bytes_ok, byte_ok. repeat constructor; apply u8_range. Qed.

Lemma wp_harmless_op {N B A} `{NvsOps N B} (m : st N A) (Q : A -> N -> Prop) n :
  harmless m ->
  (forall n', nvs_view n' = nvs_view n -> nvs_durable n' = nvs_durable n -> Q (m n).1 n') ->
  wp m Q n.
Proof. intros Hm HQ. unfold wp. destruct (Hm n). auto. Qed.

Section device_id_lemmas.
Context {N : Type} `{NvsOps N bytes, !NvsLaws N bytes}.
Context (esp_random : st N Z) (random_harmless : harmless esp_random).

Lemma wp_random16 n (Q : bytes -> N -> Prop) :
  (forall r n', length r = 16%nat -> bytes_ok r ->
     nvs_view n' = nvs_view n -> nvs_durable n' = nvs_durable n -> Q r n') ->
  wp (random16 esp_random) Q n.
Proof.
  intros HQ. unfold random16. st_prim.
  do 4 (apply wp_harmless_op; [exact random_harmless|]; intros ? ? ?; st_prim).
  apply HQ; [reflexivity| |congruence..].
  unfold bytes_ok. rewrite !Forall_app. split_and!; apply word_bytes_ok.
Qed.

(** The setting of the id kept, or became a fresh valid UUID. *)
Lemma wp_create_device_id n :
  wp (create_device_id esp_random) (fun r n' =>
    r.1 = ESP_OK -> device_identity_is_valid_uuid r.2 = true /\
      nvs_view n' device_id_key = Some (NvsBlob r.2) /\
      nvs_durable n' device_id_key = Some (NvsBlob r.2)) n.
Proof.
  unfold create_device_id. st_prim. apply wp_random16. intros r n1 Hl Hb Hv1 Hd1. st_prim.
  rewrite (format_uuid_text _ Hl Hb).
  destruct (uuid_text_valid (stamp_v4 r)) as [_ Hvalid];
    [by rewrite length_stamp_v4|by apply stamp_v4_ok|].
  set (fresh := uuid_text (stamp_v4 r)) in *. st_prim.
  unfold wp at 1. pose proof (set_ok device_id_key (NvsBlob fresh) n1) as Hset.
  destruct (nvs_set _ _ n1) as [e1 n2]. cbn in *.
  destruct e1; cbn [is_ok negb]; st_prim; try done. specialize (Hset eq_refl).
  unfold wp at 1. pose proof (commit_ok device_id_namespace n2) as Hc.
  pose proof (commit_view device_id_namespace n2) as Hv.
  destruct (nvs_commit _ n2) as [e2 n3]. cbn in *.
  destruct e2; cbn [is_ok negb]; st_prim; try done. cbn. intros _.
  split_and!; [done|by rewrite Hv|]. unfold device_id_key. by rewrite (Hc eq_refl).
Qed.

Lemma wp_ensure_device_id n :
  wp (device_identity_ensure_device_id esp_random) (fun r n' =>
    (r.1 = ESP_OK -> device_identity_is_valid_uuid r.2 = true /\
      nvs_view n' device_id_key = Some (NvsBlob r.2) /\
      (nvs_durable n' device_id_key = Some (NvsBlob r.2) \/
       nvs_durable n' = nvs_durable n /\ nvs_view n device_id_key = Some (NvsBlob r.2))) /\
    (forall b, nvs_view n device_id_key = Some (NvsBlob b) ->
       nvs_view n' = nvs_view n /\ nvs_durable n' = nvs_durable n /\
       (r.1 = ESP_OK -> r.2 = b))) n.
Proof.
  unfold device_identity_ensure_device_id. st_prim.
  apply wp_harmless_op; [apply flash_init_harmless|]. intros n1 Hv1 Hd1. st_prim.
  destruct (nvs_flash_init n).1; cbn [is_ok negb]; st_prim; try done.
  apply wp_harmless_op; [apply open_harmless|]. intros n2 Hv2 Hd2. st_prim.
  assert (Hv : nvs_view n2 = nvs_view n) by congruence.
  assert (Hd : nvs_durable n2 = nvs_durable n) by congruence. clear Hv1 Hd1 Hv2 Hd2.
  destruct (nvs_open _ _ n1).1; cbn [is_ok negb]; st_prim; try done.
  pose proof (get_blob_missing device_id_key n2) as Hmiss.
  apply wp_harmless_op; [apply get_blob_harmless|]. intros n3 Hv3 Hd3.
  destruct (nvs_get_blob device_id_key n2).1 as [[] o] eqn:Hget; cbn [fst]; st_prim;
    try (cbn; split; [done|]; intros; split_and!; congruence).
  - pose proof (get_blob_ok device_id_key n3) as Hok.
    apply wp_harmless_op; [apply get_blob_harmless|]. intros n4 Hv4 Hd4.
    destruct (nvs_get_blob device_id_key n3).1 as [[] o'] eqn:Hget'; st_prim; cbn;
      try (split; [done|]; intros; split_and!; congruence).
    destruct (Hok o' eq_refl) as (stored & -> & Hs).
    destruct (device_identity_is_valid_uuid stored) eqn:Hval; cbn [negb]; st_prim; cbn;
      split; try done; try (intros; split_and!; congruence).
    + intros _. split_and!; [done|congruence|right; split; congruence].
  - specialize (Hmiss o eq_refl). eapply wp_mono; [apply wp_create_device_id|].
    intros r n5 Hr. split.
    + intros Hok. destruct (Hr Hok) as (? & ? & ?). auto.
    + intros b Hb. exfalso. apply (Hmiss b). congruence.
Qed.

(** One device keeps one identity: the id a boot answers with is a valid
    UUID that was already stored, or was committed to the medium before it was
    answered, and every later successful call, also after a reset, answers
    with the same id and changes no setting, under any faults of the store. *)
Theorem device_id_persistent n :
  nvs_view n = nvs_durable n ->
  let '((err, id), n1) := device_identity_ensure_device_id esp_random n in
  err = ESP_OK ->
  device_identity_is_valid_uuid id = true /\
  nvs_durable n1 device_id_key = Some (NvsBlob id) /\
  forall n2, n2 = n1 \/ n2 = nvs_reboot n1 ->
    let '((err2, id2), n3) := device_identity_ensure_device_id esp_random n2 in
    nvs_view n3 = nvs_view n2 /\ nvs_durable n3 = nvs_durable n2 /\
    (err2 = ESP_OK -> id2 = id).
Proof.
  intros Hset. pose proof (wp_ensure_device_id n) as Hw. unfold wp in Hw.
  destruct (device_identity_ensure_device_id esp_random n) as [[err id] n1]. cbn in Hw.
  destruct Hw as [Hnew Hold]. intros ->. destruct (Hnew eq_refl) as (Hval & Hv & Hd).
  assert (Hdur : nvs_durable n1 device_id_key = Some (NvsBlob id)).
  { destruct Hd as [Hd|[Hd Hn]]; [done|]. by rewrite Hd, <- Hset. }
  split_and!; [done..|]. intros n2 Hn2.
  assert (Hv2 : nvs_view n2 device_id_key = Some (NvsBlob id))
    by (destruct Hn2 as [-> | ->]; [done|by rewrite reboot_view]).
  pose proof (wp_ensure_device_id n2) as Hw2. unfold wp in Hw2.
  destruct (device_identity_ensure_device_id esp_random n2) as [[err2 id2] n3]. cbn in Hw2.
  destruct Hw2 as [_ Hw2]. by destruct (Hw2 id Hv2).
Qed.
End device_id_lemmas.

Definition empty_store : ReferenceNvs.store bytes :=
  ReferenceNvs.Store (fun _ => None) (fun _ => None) [].

Lemma device_id_persistent_witness :
  let '((err, id), n1) := device_identity_ensure_device_id (ret 305419896) empty_store in
  err = ESP_OK /\ nvs_durable n1 device_id_key = Some (NvsBlob id).
Proof.
  assert (Hr : harmless (ret 305419896 : st (ReferenceNvs.store bytes) Z)) by done.
  pose proof (device_id_persistent _ Hr empty_store eq_refl) as H.
  assert (Hok : (device_identity_ensure_device_id (ret 305419896) empty_store).1.1 = ESP_OK)
    by (vm_compute; reflexivity).
  revert H Hok. destruct (device_identity_ensure_device_id _ _) as [[err id] n1].
  cbn. intros H Hok. split; [exact Hok|]. by apply H.
Defined.
