(* ===== verification/Calendar.v ===== *)
(** * Calendar: civil dates and instants ([rtc_correction.c], first part)

    The day count, the ISO-8601 parser and the BCD image of the clock chip are
    pure functions of the source; [gmtime_r] is the C library's.  The theorems
    show that the day count is the calendar's, what the parser accepts, and
    that parsing, normalizing and the chip's registers agree on every instant
    of the supported century. *)

From S2P Require Import Prelude RecorderConfig.

(** ** The calendar *)

Definition rtc_is_leap (year : Z) : bool :=
  (Z.rem year 4 =? 0) && (negb (Z.rem year 100 =? 0) || (Z.rem year 400 =? 0)).

Definition month_days : list Z := [31; 28; 31; 30; 31; 30; 31; 31; 30; 31; 30; 31].

Definition rtc_days_in_month (year month : Z) : Z :=
  if (month <? 1) || (12 <? month) then 0 else
  if (month =? 2) && rtc_is_leap year then 29 else
  nth (Z.to_nat (month - 1)) month_days 0.

(** Days since 1970-01-01, with the unsigned arithmetic of the source. *)
Definition rtc_days_from_civil (year month day : Z) : Z :=
  let year := if month <=? 2 then year - 1 else year in
  let era := Z.quot (if 0 <=? year then year else year - 399) 400 in
  let yoe := u32 (year - era * 400) in
  let doy :=
    u32 (u32 (u32 (153 * u32 (month + (if 2 <? month then u32 (-3) else 9)) + 2) / 5 + day) - 1) in
  let doe := u32 (u32 (u32 (u32 (yoe * 365) + yoe / 4) - yoe / 100) + doy) in
  era * 146097 + doe - 719468.

(** The [struct tm] fields the source reads. *)
Record tm := Tm {
  tm_year : Z; tm_mon : Z; tm_mday : Z; tm_hour : Z; tm_min : Z; tm_sec : Z; tm_wday : Z;
}.

(** The civil date of a day count: the C library's part of [gmtime_r]. *)
Definition civil_of_days (days : Z) : Z * Z * Z :=
  let z := days + 719468 in
  let era := z / 146097 in
  let doe := z - era * 146097 in
  let yoe := (doe - doe / 1460 + doe / 36524 - doe / 146096) / 365 in
  let doy := doe - (365 * yoe + yoe / 4 - yoe / 100) in
  let mp := (5 * doy + 2) / 153 in
  let month := if mp <? 10 then mp + 3 else mp - 9 in
  let year := yoe + era * 400 + (if month <=? 2 then 1 else 0) in
  (year, month, doy - (153 * mp + 2) / 5 + 1).

(** [gmtime_r]: no result when the year does not fit its [int]. *)
Definition gmtime_r (epoch : Z) : option tm :=
  let days := epoch / 86400 in
  let sod := epoch mod 86400 in
  let '(year, month, day) := civil_of_days days in
  if (-2147481748 <=? year) && (year <=? 2147483647) then
    Some (Tm (year - 1900) (month - 1) day (sod / 3600) (sod / 60 mod 60) (sod mod 60)
             ((days + 4) mod 7))
  else None.

(** ** Text *)

Definition lpad (w : nat) (s : bytes) : bytes := (replicate (w - length s) 48 ++ s)%list.

(** [%0wd] *)
Definition dec_0 (w : nat) (z : Z) : bytes :=
  if z <? 0 then 45 :: lpad (w - 1) (dec_u (- z)) else lpad w (dec_u z).

(** ["%04d-%02d-%02dT%02d:%02d:%02d+00:00"] *)
Definition iso_utc (t : tm) : bytes :=
  (dec_0 4 (tm_year t + 1900) ++ txt "-" ++ dec_0 2 (tm_mon t + 1) ++ txt "-" ++
   dec_0 2 (tm_mday t) ++ txt "T" ++ dec_0 2 (tm_hour t) ++ txt ":" ++
   dec_0 2 (tm_min t) ++ txt ":" ++ dec_0 2 (tm_sec t) ++ txt "+00:00")%list.

Definition rtc_format_epoch (epoch : Z) : bytes :=
  let fallback := txt "1970-01-01T00:00:00+00:00" in
  match gmtime_r epoch with
  | None => fallback
  | Some t => if zlen (iso_utc t) =? 25 then iso_utc t else fallback
  end.

(** ** The parser *)

Inductive rtc_correction_result_t :=
  | RTC_CORRECTION_OK
  | RTC_CORRECTION_INVALID_ARGS
  | RTC_CORRECTION_RANGE_ERROR
  | RTC_CORRECTION_BUSY
  | RTC_CORRECTION_INTERNAL_ERROR.

#[export] Instance rtc_correction_result_eq_dec : EqDecision rtc_correction_result_t.
Proof. solve_decision. Defined.

Fixpoint fixed_digits (l : bytes) (value : Z) : option Z :=
  match l with
  | [] => Some value
  | c :: l => if is_digit c then fixed_digits l (value * 10 + (c - 48)) else None
  end.

(** [count] digits of [text] at [off]. *)
Definition rtc_parse_fixed_digits (text : bytes) (off count : nat) : option Z :=
  fixed_digits (slice off count text) 0.

Definition at_ (text : bytes) (i : nat) : Z := nth i text 0.

Fixpoint count_digits (l : bytes) : nat :=
  match l with c :: l => if is_digit c then S (count_digits l) else O | [] => O end.

(** The fraction, if any: the position behind it. *)
Definition skip_fraction (text : bytes) : option nat :=
  if at_ text 19 =? 46 then
    let n := count_digits (drop 20 text) in
    if (n =? 0)%nat then None else Some (20 + n)%nat
  else Some 19%nat.

(** The zone from [pos] to the end of the text: the offset in seconds. *)
Definition parse_zone (text : bytes) (pos : nat) : option Z :=
  if (length text <=? pos)%nat then None else
  if at_ text pos =? 90 then
    (if (pos + 1 =? length text)%nat then Some 0 else None)
  else if (at_ text pos =? 43) || (at_ text pos =? 45) then
    let sign := if at_ text pos =? 43 then 1 else -1 in
    if negb (pos + 6 =? length text)%nat || negb (at_ text (pos + 3) =? 58) then None else
    match rtc_parse_fixed_digits text (pos + 1) 2, rtc_parse_fixed_digits text (pos + 4) 2 with
    | Some oh, Some om =>
        if (14 <? oh) || (59 <? om) || ((oh =? 14) && negb (om =? 0)) then None
        else Some (sign * (oh * 3600 + om * 60))
    | _, _ => None
    end
  else None.

Definition MIN_EPOCH : Z := 946684800.
Definition MAX_EPOCH : Z := 4102444799.

(** From the checked fields on. *)
Definition finish_parse (epoch : Z) : rtc_correction_result_t * option (Z * bytes) :=
  if (epoch <? MIN_EPOCH) || (MAX_EPOCH <? epoch) then (RTC_CORRECTION_RANGE_ERROR, None) else
  match gmtime_r epoch with
  | None => (RTC_CORRECTION_RANGE_ERROR, None)
  | Some t =>
      if negb (zlen (iso_utc t) =? 25) then (RTC_CORRECTION_INTERNAL_ERROR, None)
      else (RTC_CORRECTION_OK, Some (epoch, iso_utc t))
  end.

Definition civil_fields_ok (year month day hour minute second : Z) : bool :=
  negb ((month <? 1) || (12 <? month) || (day <? 1) || (rtc_days_in_month year month <? day) ||
        (hour <? 0) || (23 <? hour) || (minute <? 0) || (59 <? minute) ||
        (second <? 0) || (59 <? second)).

Definition rtc_parse_iso8601 (text : bytes) : rtc_correction_result_t * option (Z * bytes) :=
  let invalid := (RTC_CORRECTION_INVALID_ARGS, None) in
  if (length text <? 20)%nat || (40 <? length text)%nat || negb (at_ text 4 =? 45) ||
     negb (at_ text 7 =? 45) || negb (at_ text 10 =? 84) || negb (at_ text 13 =? 58) ||
     negb (at_ text 16 =? 58)
  then invalid else
  match rtc_parse_fixed_digits text 0 4, rtc_parse_fixed_digits text 5 2,
        rtc_parse_fixed_digits text 8 2, rtc_parse_fixed_digits text 11 2,
        rtc_parse_fixed_digits text 14 2, rtc_parse_fixed_digits text 17 2 with
  | Some year, Some month, Some day, Some hour, Some minute, Some second =>
      if negb (civil_fields_ok year month day hour minute second)
      then (RTC_CORRECTION_RANGE_ERROR, None) else
      match skip_fraction text with
      | None => invalid
      | Some pos =>
          match parse_zone text pos with
          | None => invalid
          | Some offset =>
              finish_parse (rtc_days_from_civil year month day * 86400 +
                hour * 3600 + minute * 60 + second - offset)
          end
      end
  | _, _, _, _, _, _ => invalid
  end.

(** ** Lemmas: the day count *)

Lemma u32_minus_3 m : 2 < m <= 12 -> u32 (m + u32 (-3)) = m - 3.
Proof. intros. rewrite u32_add_r. apply u32_small. lia. Qed.

(** Leap days up to a year, and the days of a March-based year before a month. *)
Definition leaps (y : Z) : Z := y / 4 - y / 100 + y / 400.

Definition march_year (year month : Z) : Z := if month <=? 2 then year - 1 else year.
Definition march_days (month : Z) : Z := (153 * (if 2 <? month then month - 3 else month + 9) + 2) / 5.

Lemma era_days Y : 0 <= Y + 1 ->
  let era := Z.quot (if 0 <=? Y then Y else Y - 399) 400 in
  era = Y / 400 /\ u32 (Y - era * 400) = Y mod 400.
Proof.
  intros HY era. assert (He : era = Y / 400).
  { unfold era. destruct (Z.leb_spec 0 Y).
    - by rewrite Z.quot_div_nonneg by lia.
    - replace Y with (-1) by lia. reflexivity. }
  split; [done|]. rewrite He. rewrite u32_small; zlia.
Qed.

(** Without the unsigned detours. *)
Lemma rtc_days_from_civil_eq year month day :
  0 <= year < 100000 -> 1 <= month <= 12 -> 1 <= day <= 31 ->
  rtc_days_from_civil year month day =
    365 * march_year year month + leaps (march_year year month) + march_days month + day - 719469.
Proof.
  intros Hy Hm Hd. unfold rtc_days_from_civil. fold (march_year year month).
  set (Y := march_year year month).
  assert (HY : 0 <= Y + 1) by (unfold Y, march_year; destruct (month <=? 2); lia).
  assert (HY2 : Y < 100000) by (unfold Y, march_year; destruct (month <=? 2); lia).
  destruct (era_days Y HY) as [He Hr]. cbv zeta. rewrite Hr, He.
  replace (u32 (month + (if 2 <? month then u32 (-3) else 9)))
    with (if 2 <? month then month - 3 else month + 9)
    by (destruct (Z.ltb_spec 2 month); [by rewrite u32_minus_3 by lia|by rewrite u32_small by lia]).
  unfold march_days. set (mp := if 2 <? month then _ else _).
  assert (Hmp : 0 <= mp <= 11) by (unfold mp; destruct (Z.ltb_spec 2 month); lia).
  clearbody mp. clearbody Y. unfold leaps.
  rewrite (u32_small (153 * mp + 2)) by lia.
  assert (Hq : 0 <= (153 * mp + 2) / 5 <= 337) by zlia.
  assert (Hy4 : 0 <= Y mod 400 < 400) by (apply Z.mod_pos_bound; lia).
  rewrite (u32_small ((153 * mp + 2) / 5 + day)) by lia.
  rewrite (u32_small ((153 * mp + 2) / 5 + day - 1)) by lia.
  rewrite (u32_small (Y mod 400 * 365)) by lia.
  rewrite (u32_small (Y mod 400 * 365 + Y mod 400 / 4)) by zlia.
  rewrite (u32_small (Y mod 400 * 365 + Y mod 400 / 4 - Y mod 400 / 100)) by zlia.
  rewrite u32_small by zlia. clear -HY HY2. zlia.
Qed.

Lemma leap_spec year : 0 <= year ->
  rtc_is_leap year = true <-> year mod 4 = 0 /\ (year mod 100 <> 0 \/ year mod 400 = 0).
Proof.
  intros. unfold rtc_is_leap. rewrite !Z.rem_mod_nonneg by lia.
  rewrite andb_true_iff, orb_true_iff, negb_true_iff, !Z.eqb_eq, Z.eqb_neq. done.
Qed.

(** The leap days gained by a year. *)
Lemma leaps_step y : 0 <= y -> leaps y - leaps (y - 1) = if rtc_is_leap y then 1 else 0.
Proof.
  intros Hy. pose proof (leap_spec y Hy) as Hl. unfold leaps.
  destruct (rtc_is_leap y); destruct Hl as [Hl1 Hl2].
  - specialize (Hl1 eq_refl). zlia.
  - assert (Hn : ~ (y mod 4 = 0 /\ (y mod 100 <> 0 \/ y mod 400 = 0))) by (intros H; by apply Hl2 in H).
    clear Hl1 Hl2. zlia.
Qed.

Definition valid_civil_date (year month day : Z) : Prop :=
  0 <= year <= 9999 /\ 1 <= month <= 12 /\ 1 <= day <= rtc_days_in_month year month.

(** The day after. *)
Definition next_day (year month day : Z) : Z * Z * Z :=
  if day <? rtc_days_in_month year month then (year, month, day + 1) else
  if month <? 12 then (year, month + 1, 1) else (year + 1, 1, 1).

(** Case analysis on a month. *)
Ltac month_cases m :=
  let H := fresh "Hmonth" in
  assert (m = 1 \/ m = 2 \/ m = 3 \/ m = 4 \/ m = 5 \/ m = 6 \/ m = 7 \/ m = 8 \/ m = 9 \/
    m = 10 \/ m = 11 \/ m = 12) as H by lia;
  destruct_or! H; subst m.

(** Evaluate the closed table entries of the goal. *)
Ltac month_tables :=
  repeat match goal with
  | |- context [nth ?i month_days 0] =>
      let v := eval vm_compute in (nth i month_days 0) in change (nth i month_days 0) with v
  | |- context [march_days ?m] =>
      let v := eval vm_compute in (march_days m) in change (march_days m) with v
  end.

Lemma days_in_month_bound year m : 1 <= m <= 12 -> 28 <= rtc_days_in_month year m <= 31.
Proof.
  intros Hm. unfold rtc_days_in_month.
  destruct (rtc_is_leap year); month_cases m; month_tables; cbn; lia.
Qed.

Lemma days_step year month day :
  valid_civil_date year month day ->
  let '(y, m, d) := next_day year month day in
  rtc_days_from_civil y m d = rtc_days_from_civil year month day + 1.
Proof.
  intros (Hy & Hm & Hd). pose proof (days_in_month_bound year month Hm) as Hb. unfold next_day.
  destruct (Z.ltb_spec day (rtc_days_in_month year month)) as [Hlt|Hge].
  { rewrite !rtc_days_from_civil_eq by lia. lia. }
  assert (day = rtc_days_in_month year month) as -> by lia.
  assert (Hs : leaps year - leaps (year - 1) = if rtc_is_leap year then 1 else 0)
    by (apply leaps_step; lia).
  destruct (Z.ltb_spec month 12) as [H12|H12]; rewrite !rtc_days_from_civil_eq by lia.
  - clear Hb Hge Hd. unfold march_year, rtc_days_in_month.
    destruct (rtc_is_leap year); month_cases month;
      repeat match goal with |- context [march_days (?a + 1)] =>
        let v := eval vm_compute in (a + 1) in change (a + 1) with v end;
      month_tables; cbn; lia.
  - assert (month = 12) as -> by lia. unfold march_year, rtc_days_in_month. month_tables. cbn.
    replace (year + 1 - 1) with year by lia. lia.
Qed.

(** ** Lemmas: instants of the supported century *)

Definition day_ok (days : Z) : bool :=
  let '(y, m, d) := civil_of_days days in
  (2000 <=? y) && (y <=? 2099) && (1 <=? m) && (m <=? 12) && (1 <=? d) &&
  (d <=? rtc_days_in_month y m) && 
  (365 * march_year y m + leaps (march_year y m) + march_days m + d - 719469 =? days).

(** [P] holds from [z] on for [n] values. *)
Fixpoint all_from (P : Z -> bool) (n : nat) (z : Z) : bool :=
  match n with O => true | S n => P z && all_from P n (z + 1) end.

Lemma all_from_spec P n z x : all_from P n z = true -> z <= x < z + Z.of_nat n -> P x = true.
Proof.
  revert z. induction n as [|n IH]; intros z H Hx; [lia|]. cbn in H. split_bools.
  destruct (decide (x = z)) as [->|]; [done|]. apply (IH (z + 1)); [done|lia].
Qed.

Lemma all_days_ok : all_from day_ok (Z.to_nat 36525) 10957 = true.
Proof. vm_compute. reflexivity. Qed.

Lemma civil_window days y m d :
  10957 <= days <= 47481 -> civil_of_days days = (y, m, d) ->
  2000 <= y <= 2099 /\ 1 <= m <= 12 /\ 1 <= d <= rtc_days_in_month y m /\
  rtc_days_from_civil y m d = days.
Proof.
  intros Hd Hc. pose proof (all_from_spec _ _ _ days all_days_ok ltac:(lia)) as Hall.
  unfold day_ok in Hall. rewrite Hc in Hall. split_bools.
  pose proof (days_in_month_bound y m ltac:(lia)). rewrite rtc_days_from_civil_eq by lia. lia.
Qed.

Definition in_window (epoch : Z) : Prop := MIN_EPOCH <= epoch <= MAX_EPOCH.

(** The fields of an instant of the window. *)
Record fields_of (epoch : Z) (t : tm) (y m d h mi s : Z) : Prop := FieldsOf {
  fo_gmtime : gmtime_r epoch = Some t;
  fo_year : tm_year t + 1900 = y; fo_mon : tm_mon t + 1 = m; fo_mday : tm_mday t = d;
  fo_hour : tm_hour t = h; fo_min : tm_min t = mi; fo_sec : tm_sec t = s;
  fo_wday : 0 <= tm_wday t < 7;
  fo_year_ok : 2000 <= y <= 2099; fo_mon_ok : 1 <= m <= 12;
  fo_day_ok : 1 <= d <= rtc_days_in_month y m;
  fo_hour_ok : 0 <= h <= 23; fo_min_ok : 0 <= mi <= 59; fo_sec_ok : 0 <= s <= 59;
  fo_epoch : rtc_days_from_civil y m d * 86400 + h * 3600 + mi * 60 + s = epoch;
}.

Lemma window_fields epoch :
  in_window epoch -> exists t y m d h mi s, fields_of epoch t y m d h mi s.
Proof.
  intros Hw. unfold in_window, MIN_EPOCH, MAX_EPOCH in Hw.
  assert (Hdays : 10957 <= epoch / 86400 <= 47481) by zlia.
  destruct (civil_of_days (epoch / 86400)) as [[y m] d] eqn:Hc.
  destruct (civil_window _ _ _ _ Hdays Hc) as (Hy & Hm & Hd & He).
  set (sod := epoch mod 86400).
  exists (Tm (y - 1900) (m - 1) d (sod / 3600) (sod / 60 mod 60) (sod mod 60)
            ((epoch / 86400 + 4) mod 7)), y, m, d, (sod / 3600), (sod / 60 mod 60), (sod mod 60).
  assert (Hg : gmtime_r epoch = Some (Tm (y - 1900) (m - 1) d (sod / 3600) (sod / 60 mod 60)
    (sod mod 60) ((epoch / 86400 + 4) mod 7))).
  { unfold gmtime_r; cbv beta zeta; rewrite Hc.
    by rewrite (proj2 (Z.leb_le (-2147481748) y)), (proj2 (Z.leb_le y 2147483647)) by lia. }
  split; [done|cbn..]; unfold sod; clear Hg Hc; try lia; zlia.
Qed.

(** ** Lemmas: digits *)

Definition same_bytes (a b : bytes) : bool := bool_decide (a = b).

Lemma same_bytes_eq a b : same_bytes a b = true -> a = b.
Proof. apply bool_decide_eq_true_1. Qed.

Lemma dec_0_2 z : 0 <= z < 100 -> dec_0 2 z = pad2 z.
Proof.
  intros Hz. apply same_bytes_eq.
  apply (all_from_spec (fun z => same_bytes (dec_0 2 z) (pad2 z)) (Z.to_nat 100) 0);
    [vm_compute; reflexivity|lia].
Qed.

Lemma dec_0_4 z : 0 <= z < 10000 -> dec_0 4 z = pad4 z.
Proof.
  intros Hz. apply same_bytes_eq.
  apply (all_from_spec (fun z => same_bytes (dec_0 4 z) (pad4 z)) (Z.to_nat 10000) 0);
    [vm_compute; reflexivity|lia].
Qed.

Lemma digit_ok z : is_digit (48 + z mod 10) = true.
Proof. unfold is_digit. pose proof (Z.mod_pos_bound z 10). lia. Qed.

Lemma fixed_digits_pad2 z : 0 <= z < 100 -> fixed_digits (pad2 z) 0 = Some z.
Proof.
  intros. unfold pad2, fixed_digits. rewrite !digit_ok. f_equal. zlia.
Qed.

Lemma fixed_digits_pad4 z : 0 <= z < 10000 -> fixed_digits (pad4 z) 0 = Some z.
Proof.
  intros. unfold pad4, fixed_digits. rewrite !digit_ok. f_equal. zlia.
Qed.

(** ** Lemmas: the shape of a timestamp *)

Inductive zone := Utc | Offset (sign : Z) (oh om : Z).

Definition zone_text (z : zone) : bytes :=
  match z with
  | Utc => txt "Z"
  | Offset sign oh om => ((if sign =? 1 then txt "+" else txt "-") ++ pad2 oh ++ txt ":" ++ pad2 om)%list
  end.

(** The offsets ISO-8601 and the source accept: up to fourteen hours. *)
Definition zone_ok (z : zone) : Prop :=
  match z with
  | Utc => True
  | Offset sign oh om =>
      (sign = 1 \/ sign = -1) /\ 0 <= oh <= 14 /\ 0 <= om <= 59 /\ (oh = 14 -> om = 0)
  end.

Definition zone_seconds (z : zone) : Z :=
  match z with Utc => 0 | Offset sign oh om => sign * (oh * 3600 + om * 60) end.

(** An optional fraction: nothing, or a dot and digits. *)
Definition fraction_text (ds : option bytes) : bytes :=
  match ds with None => [] | Some ds => 46 :: ds end.

Definition fraction_ok (ds : option bytes) : Prop :=
  match ds with None => True | Some ds => ds <> [] /\ Forall (fun c => is_digit c = true) ds end.

Definition civil_text (y m d h mi s : Z) : bytes :=
  (pad4 y ++ txt "-" ++ pad2 m ++ txt "-" ++ pad2 d ++ txt "T" ++ pad2 h ++ txt ":" ++
   pad2 mi ++ txt ":" ++ pad2 s)%list.

Definition iso_text (y m d h mi s : Z) (ds : option bytes) (z : zone) : bytes :=
  (civil_text y m d h mi s ++ fraction_text ds ++ zone_text z)%list.

#[local] Arguments is_digit : simpl never.

Lemma count_digits_app ds rest :
  Forall (fun c => is_digit c = true) ds -> is_digit (nth 0 rest 0) = false ->
  count_digits (ds ++ rest) = length ds.
Proof.
  induction 1 as [|c ds Hc _ IH]; intros Hr; cbn.
  - destruct rest as [|c rest]; [done|]. cbn in Hr |- *. by rewrite Hr.
  - rewrite Hc. by rewrite IH.
Qed.

Lemma zone_head z : zone_ok z -> exists c rest, zone_text z = c :: rest /\ is_digit c = false /\ c <> 46.
Proof.
  destruct z as [|sign oh om]; intros Hz; cbn.
  - by exists 90, [].
  - destruct (sign =? 1); [by eexists 43, _|by eexists 45, _].
Qed.

Lemma length_civil y m d h mi s : length (civil_text y m d h mi s) = 19%nat.
Proof. reflexivity. Qed.

Lemma skip_fraction_text y m d h mi s ds z :
  fraction_ok ds -> zone_ok z ->
  skip_fraction (iso_text y m d h mi s ds z) = Some (19 + length (fraction_text ds))%nat.
Proof.
  intros Hds Hz. destruct (zone_head z Hz) as (c & rest & Hc & Hd & H46).
  unfold skip_fraction, iso_text, at_. rewrite Hc.
  rewrite app_nth2 by (rewrite length_civil; lia). rewrite length_civil, Nat.sub_diag.
  destruct ds as [ds|]; cbn [fraction_text app nth].
  - destruct Hds as [Hne Hds]. cbn [Z.eqb].
    replace (drop 20 (civil_text y m d h mi s ++ 46 :: ds ++ c :: rest)) with (ds ++ c :: rest)
      by reflexivity.
    rewrite count_digits_app by done. destruct ds; [done|]. cbn. f_equal. 
  - by rewrite (proj2 (Z.eqb_neq c 46)).
Qed.

Lemma parse_zone_text pre z :
  zone_ok z -> parse_zone (pre ++ zone_text z) (length pre) = Some (zone_seconds z).
Proof.
  intros Hz. unfold parse_zone, at_, rtc_parse_fixed_digits, slice.
  assert (Hn : forall k, nth (length pre + k) (pre ++ zone_text z) 0 = nth k (zone_text z) 0)
    by (intros; rewrite app_nth2_plus; done).
  assert (Hdr : forall k, drop (length pre + k) (pre ++ zone_text z) = drop k (zone_text z))
    by (intros; by rewrite drop_app_add).
  replace (nth (length pre) (pre ++ zone_text z) 0) with (nth 0 (zone_text z) 0)
    by (rewrite <- Hn; f_equal; lia).
  rewrite length_app, !Hn, !Hdr.
  destruct z as [|sign oh om]; cbn [zone_text zone_seconds].
  - change (nth 0 (txt "Z") 0 =? 90) with true. change (length (txt "Z")) with 1%nat.
    rewrite (proj2 (Nat.leb_gt _ _)) by lia. by rewrite Nat.eqb_refl.
  - destruct Hz as (Hs & Ho & Hm & H14).
    set (zt := (_ ++ pad2 oh ++ _)%list).
    assert (Hlen : length zt = 6%nat) by (unfold zt; by destruct (sign =? 1)).
    assert (H0 : nth 0 zt 0 = if sign =? 1 then 43 else 45) by (unfold zt; by destruct (sign =? 1)).
    assert (H3 : nth 3 zt 0 = 58) by (unfold zt; by destruct (sign =? 1)).
    assert (H1 : take 2 (drop 1 zt) = pad2 oh) by (unfold zt; by destruct (sign =? 1)).
    assert (H4 : take 2 (drop 4 zt) = pad2 om) by (unfold zt; by destruct (sign =? 1)).
    rewrite Hlen, H0, H3, H1, H4, !fixed_digits_pad2 by lia.
    rewrite (proj2 (Nat.leb_gt _ _)) by lia. rewrite Nat.eqb_refl. cbn.
    rewrite (proj2 (Z.ltb_ge _ _)), (proj2 (Z.ltb_ge 59 _)) by lia. cbn.
    replace ((oh =? 14) && negb (om =? 0)) with false
      by (destruct (Z.eqb_spec oh 14), (Z.eqb_spec om 0); cbn; lia).
    destruct Hs as [-> | ->]; reflexivity.
Qed.

Lemma civil_fields y m d h mi s rest :
  0 <= y < 10000 -> 0 <= m < 100 -> 0 <= d < 100 -> 0 <= h < 100 -> 0 <= mi < 100 ->
  0 <= s < 100 ->
  let t := (civil_text y m d h mi s ++ rest)%list in
  at_ t 4 = 45 /\ at_ t 7 = 45 /\ at_ t 10 = 84 /\ at_ t 13 = 58 /\ at_ t 16 = 58 /\
  rtc_parse_fixed_digits t 0 4 = Some y /\ rtc_parse_fixed_digits t 5 2 = Some m /\
  rtc_parse_fixed_digits t 8 2 = Some d /\ rtc_parse_fixed_digits t 11 2 = Some h /\
  rtc_parse_fixed_digits t 14 2 = Some mi /\ rtc_parse_fixed_digits t 17 2 = Some s.
Proof.
  intros Hy Hm Hd Hh Hmi Hs t. do 5 (split; [reflexivity|]).
  rewrite <- (fixed_digits_pad4 y), <- (fixed_digits_pad2 m), <- (fixed_digits_pad2 d),
    <- (fixed_digits_pad2 h), <- (fixed_digits_pad2 mi), <- (fixed_digits_pad2 s) by done.
  split_and!; reflexivity.
Qed.

Definition valid_time (h mi s : Z) : Prop := 0 <= h <= 23 /\ 0 <= mi <= 59 /\ 0 <= s <= 59.

Lemma parse_iso_text y m d h mi s ds z :
  valid_civil_date y m d -> valid_time h mi s -> fraction_ok ds -> zone_ok z ->
  (length (iso_text y m d h mi s ds z) <= 40)%nat ->
  rtc_parse_iso8601 (iso_text y m d h mi s ds z) =
    finish_parse (rtc_days_from_civil y m d * 86400 + h * 3600 + mi * 60 + s - zone_seconds z).
Proof.
  intros (Hy & Hm & Hd) (Hh & Hmi & Hs) Hds Hz Hlen.
  pose proof (days_in_month_bound y m Hm).
  unfold rtc_parse_iso8601.
  pose proof (civil_fields y m d h mi s (fraction_text ds ++ zone_text z)
    ltac:(lia) ltac:(lia) ltac:(lia) ltac:(lia) ltac:(lia) ltac:(lia))
    as (H1 & H2 & H3 & H4 & H5 & H6 & H7 & H8 & H9 & H10 & H11).
  fold (iso_text y m d h mi s ds z) in *.
  rewrite H1, H2, H3, H4, H5, H6, H7, H8, H9, H10, H11. clear H1 H2 H3 H4 H5 H6 H7 H8 H9 H10 H11.
  assert (H20 : (20 <= length (iso_text y m d h mi s ds z))%nat).
  { unfold iso_text. rewrite !length_app, length_civil.
    destruct (zone_head z Hz) as (c & rest & -> & _). cbn. lia. }
  rewrite (proj2 (Nat.ltb_ge _ 20)), (proj2 (Nat.ltb_ge 40 _)) by lia. cbn [orb negb Z.eqb Pos.eqb].
  replace (civil_fields_ok y m d h mi s) with true.
  2: { unfold civil_fields_ok. symmetry. apply negb_true_iff.
       repeat (apply orb_false_intro); apply Z.ltb_ge; lia. }
  cbn [negb]. rewrite skip_fraction_text by done.
  assert (Hpos : (19 + length (fraction_text ds))%nat =
    length (civil_text y m d h mi s ++ fraction_text ds))
    by (by rewrite length_app, length_civil).
  unfold iso_text. rewrite Hpos, app_assoc, parse_zone_text by done. done.
Qed.

Lemma iso_utc_text t y m d h mi s epoch :
  fields_of epoch t y m d h mi s ->
  iso_utc t = iso_text y m d h mi s None (Offset 1 0 0) /\ zlen (iso_utc t) = 25.
Proof.
  intros []. pose proof (days_in_month_bound y m ltac:(lia)).
  assert (He : iso_utc t = iso_text y m d h mi s None (Offset 1 0 0)).
  { unfold iso_utc. rewrite fo_year0, fo_mon0, fo_mday0, fo_hour0, fo_min0, fo_sec0.
    rewrite dec_0_4, !dec_0_2 by lia. reflexivity. }
  split; [done|]. rewrite He. reflexivity.
Qed.

(** An instant of the window parses to itself and to its normal form. *)
Lemma finish_parse_window epoch :
  in_window epoch ->
  finish_parse epoch = (RTC_CORRECTION_OK, Some (epoch, rtc_format_epoch epoch)) /\
  zlen (rtc_format_epoch epoch) = 25.
Proof.
  intros Hw. destruct (window_fields epoch Hw) as (t & y & m & d & h & mi & s & Hf).
  destruct (iso_utc_text _ _ _ _ _ _ _ _ Hf) as [He Hl].
  unfold finish_parse, rtc_format_epoch. rewrite (fo_gmtime _ _ _ _ _ _ _ _ Hf), Hl. cbn.
  unfold in_window in Hw. rewrite (proj2 (Z.ltb_ge _ _)), (proj2 (Z.ltb_ge _ _)) by lia. done.
Qed.

Lemma finish_parse_ok epoch e n :
  finish_parse epoch = (RTC_CORRECTION_OK, Some (e, n)) ->
  in_window epoch /\ e = epoch /\ n = rtc_format_epoch epoch.
Proof.
  intros H. assert (Hw : in_window epoch).
  { unfold finish_parse in H. destruct (_ || _) eqn:Hb in H; [done|]. split_bools. done. }
  destruct (finish_parse_window epoch Hw) as [Hf _]. rewrite Hf in H. by simplify_eq.
Qed.

Lemma parse_ok_finish text e n :
  rtc_parse_iso8601 text = (RTC_CORRECTION_OK, Some (e, n)) ->
  exists epoch, finish_parse epoch = (RTC_CORRECTION_OK, Some (e, n)).
Proof.
  unfold rtc_parse_iso8601. intros H. repeat (case_match; try done). eauto.
Qed.

Lemma parse_ok_some text : rtc_parse_iso8601 text = (RTC_CORRECTION_OK, None) -> False.
Proof.
  unfold rtc_parse_iso8601, finish_parse. intros H. repeat (case_match; try done).
Qed.

Lemma parse_format epoch :
  in_window epoch ->
  rtc_parse_iso8601 (rtc_format_epoch epoch) =
    (RTC_CORRECTION_OK, Some (epoch, rtc_format_epoch epoch)).
Proof.
  intros Hw. destruct (window_fields epoch Hw) as (t & y & m & d & h & mi & s & Hf).
  destruct (iso_utc_text _ _ _ _ _ _ _ _ Hf) as [He Hl].
  assert (Hfmt : rtc_format_epoch epoch = iso_text y m d h mi s None (Offset 1 0 0)).
  { unfold rtc_format_epoch. by rewrite (fo_gmtime _ _ _ _ _ _ _ _ Hf), Hl. }
  rewrite <- (proj1 (finish_parse_window epoch Hw)), Hfmt.
  pose proof Hf as []. rewrite parse_iso_text.
  - cbn [zone_seconds]. f_equal. lia.
  - split; [lia|]. split; lia.
  - split; lia.
  - done.
  - cbn. lia.
  - rewrite <- He. unfold zlen in Hl. lia.
Qed.

(** ** Theorems: dates and timestamps *)

(** [rtc_days_from_civil] numbers the days of the Gregorian calendar:
    1970-01-01 is day 0, and the day after any valid date of the years 0 to
    9999, over month ends, leap days and year ends, has the next number. *)
Theorem days_from_civil_is_calendar :
  rtc_days_from_civil 1970 1 1 = 0 /\
  forall year month day, valid_civil_date year month day ->
    let '(y, m, d) := next_day year month day in
    rtc_days_from_civil y m d = rtc_days_from_civil year month day + 1.
Proof. split; [reflexivity|]. apply days_step. Qed.

(** Every timestamp of a valid date and time, with or without a fraction,
    in UTC or with an offset of up to fourteen hours, within forty characters,
    is accepted exactly when its instant is in the years 2000 to 2099 UTC, and
    then yields that instant and its normal form of 25 characters; outside it
    is a range error. *)
Theorem parse_accepts y m d h mi s ds z :
  valid_civil_date y m d -> valid_time h mi s -> fraction_ok ds -> zone_ok z ->
  (length (iso_text y m d h mi s ds z) <= 40)%nat ->
  let epoch := rtc_days_from_civil y m d * 86400 + h * 3600 + mi * 60 + s - zone_seconds z in
  rtc_parse_iso8601 (iso_text y m d h mi s ds z) =
    if bool_decide (in_window epoch)
    then (RTC_CORRECTION_OK, Some (epoch, rtc_format_epoch epoch))
    else (RTC_CORRECTION_RANGE_ERROR, None).
Proof.
  intros Hd Ht Hds Hz Hl epoch. rewrite parse_iso_text by done. fold epoch.
  case_bool_decide as Hw; [by apply finish_parse_window|].
  unfold finish_parse. unfold in_window in Hw.
  by replace ((epoch <? MIN_EPOCH) || (MAX_EPOCH <? epoch)) with true
    by (destruct (Z.ltb_spec epoch MIN_EPOCH), (Z.ltb_spec MAX_EPOCH epoch); cbn; lia).
Qed.

(** Whatever text the parser accepts, the instant is in the years 2000 to
    2099 UTC, the normal form is the 25-character rendering of that instant,
    and parsing the normal form gives the same instant and the same text. *)
Theorem parse_normalizes text epoch n :
  rtc_parse_iso8601 text = (RTC_CORRECTION_OK, Some (epoch, n)) ->
  in_window epoch /\ n = rtc_format_epoch epoch /\ zlen n = 25 /\
  rtc_parse_iso8601 n = (RTC_CORRECTION_OK, Some (epoch, n)).
Proof.
  intros H. destruct (parse_ok_finish _ _ _ H) as [e He].
  destruct (finish_parse_ok _ _ _ He) as (Hw & -> & ->).
  split_and!; [done|done|by apply finish_parse_window|by apply parse_format].
Qed.

Lemma parse_accepts_witness :
  rtc_parse_iso8601 (iso_text 2024 2 29 23 59 59 (Some (txt "250")) (Offset 1 9 0)) =
    (RTC_CORRECTION_OK, Some (1709218799, txt "2024-02-29T14:59:59+00:00")).
Proof.
  rewrite (parse_accepts 2024 2 29 23 59 59 (Some (txt "250")) (Offset 1 9 0)).
  - vm_compute. reflexivity.
  - split; [lia|]. split; [lia|]. vm_compute. split; discriminate.
  - split; [lia|]. split; lia.
  - split; [discriminate|]. repeat constructor.
  - split; [by left|]. lia.
  - vm_compute. lia.
Defined.

Lemma parse_normalizes_witness :
  in_window 1709218799.
Proof.
  eapply (parse_normalizes (txt "2024-02-29T23:59:59.250+09:00")). vm_compute. reflexivity.
Defined.

(** ** The clock chip's registers *)

Definition BM8563_REG_CONTROL1 : Z := 0.
Definition BM8563_REG_SECONDS : Z := 2.
Definition BM8563_CONTROL1_STOP : Z := 32.
Definition BM8563_SECONDS_VL : Z := 128.
Definition BM8563_MONTH_CENTURY : Z := 128.

Definition rtc_to_bcd (value : Z) : Z :=
  u8 (Z.lor (Z.shiftl (value / 10) 4) (value mod 10)).

Definition rtc_bcd_valid (value : Z) : bool :=
  (Z.land value 15 <=? 9) && (Z.land (Z.shiftr value 4) 15 <=? 9).

Definition rtc_from_bcd (value : Z) : Z :=
  Z.land (Z.shiftr value 4) 15 * 10 + Z.land value 15.

(** The payload of [rtc_hw_write_epoch]: the register address and the seven
    registers; [None] is its [ESP_ERR_INVALID_ARG]. *)
Definition rtc_write_payload (epoch : Z) : option bytes :=
  match gmtime_r epoch with
  | None => None
  | Some t =>
      if (tm_year t + 1900 <? 2000) || (2099 <? tm_year t + 1900) then None else
      Some [BM8563_REG_SECONDS; rtc_to_bcd (u32 (tm_sec t)); rtc_to_bcd (u32 (tm_min t));
            rtc_to_bcd (u32 (tm_hour t)); rtc_to_bcd (u32 (tm_mday t));
            rtc_to_bcd (u32 (tm_wday t)); rtc_to_bcd (u32 (tm_mon t + 1));
            rtc_to_bcd (u32 (Z.rem (tm_year t + 1900) 100))]
  end.

(** [rtc_hw_read_epoch] on the seven registers it received; [None] is its
    [ESP_ERR_INVALID_STATE]. *)
Definition rtc_decode_registers (data : bytes) : option Z :=
  if negb (Z.land (nth 0 data 0) BM8563_SECONDS_VL =? 0) ||
     negb (Z.land (nth 5 data 0) BM8563_MONTH_CENTURY =? 0) then None else
  let d0 := Z.land (nth 0 data 0) 127 in
  let d1 := Z.land (nth 1 data 0) 127 in
  let d2 := Z.land (nth 2 data 0) 63 in
  let d3 := Z.land (nth 3 data 0) 63 in
  let d5 := Z.land (nth 5 data 0) 31 in
  let d6 := nth 6 data 0 in
  if negb (rtc_bcd_valid d0) || negb (rtc_bcd_valid d1) || negb (rtc_bcd_valid d2) ||
     negb (rtc_bcd_valid d3) || negb (rtc_bcd_valid d5) || negb (rtc_bcd_valid d6) then None else
  let second := rtc_from_bcd d0 in
  let minute := rtc_from_bcd d1 in
  let hour := rtc_from_bcd d2 in
  let day := rtc_from_bcd d3 in
  let month := rtc_from_bcd d5 in
  let year := 2000 + rtc_from_bcd d6 in
  if (month <? 1) || (12 <? month) || (day <? 1) || (rtc_days_in_month year month <? day) ||
     (23 <? hour) || (59 <? minute) || (59 <? second) then None else
  Some (rtc_days_from_civil year month day * 86400 + hour * 3600 + minute * 60 + second).

(** ** Lemmas: BCD *)

(** The low bits that survive a register's mask hold the whole value. *)
Definition bcd_fits (mask z : Z) : bool :=
  let b := rtc_to_bcd z in
  (Z.land b mask =? b) && rtc_bcd_valid b && (rtc_from_bcd b =? z).

Lemma bcd_roundtrip mask n z :
  all_from (bcd_fits mask) (Z.to_nat n) 0 = true -> 0 <= z < n ->
  Z.land (rtc_to_bcd z) mask = rtc_to_bcd z /\ rtc_bcd_valid (rtc_to_bcd z) = true /\
  rtc_from_bcd (rtc_to_bcd z) = z.
Proof.
  intros Hall Hz. pose proof (all_from_spec _ _ _ z Hall ltac:(lia)) as H.
  unfold bcd_fits in H. split_bools. done.
Qed.

Lemma bcd_no_flag z : 0 <= z < 80 -> Z.land (rtc_to_bcd z) 128 = 0.
Proof.
  intros Hz. apply Z.eqb_eq.
  apply (all_from_spec (fun z => Z.land (rtc_to_bcd z) 128 =? 0) 80 0); [vm_compute; reflexivity|lia].
Qed.

Lemma rtc_days_window y m d :
  2000 <= y <= 2099 -> 1 <= m <= 12 -> 1 <= d <= rtc_days_in_month y m ->
  10957 <= rtc_days_from_civil y m d <= 47481.
Proof.
  intros Hy Hm Hd. pose proof (days_in_month_bound y m Hm).
  rewrite rtc_days_from_civil_eq by lia. unfold rtc_days_in_month, march_year, leaps in *.
  month_cases m; month_tables; cbn in *; try zlia.
Qed.

Lemma bcd_nonneg v : 0 <= rtc_from_bcd v.
Proof.
  unfold rtc_from_bcd. change 15 with (Z.ones 4). rewrite !Z.land_ones by lia.
  pose proof (Z.mod_pos_bound (Z.shiftr v 4) (2 ^ 4)). pose proof (Z.mod_pos_bound v (2 ^ 4)). lia.
Qed.

Lemma bcd_two_digits v : rtc_bcd_valid v = true -> 0 <= rtc_from_bcd v <= 99.
Proof.
  intros H. split; [apply bcd_nonneg|]. unfold rtc_bcd_valid in H. unfold rtc_from_bcd.
  split_bools. lia.
Qed.

(** ** Theorems: the clock chip *)

(** C40: setting the chip and reading it back is exact: for every instant of
    the years 2000 to 2099 the registers written decode to that instant, and
    whatever seven bytes are read, a successful decode is an instant of these
    years. *)
Theorem registers_roundtrip :
  (forall epoch, in_window epoch -> exists regs,
     rtc_write_payload epoch = Some (BM8563_REG_SECONDS :: regs) /\ length regs = 7%nat /\
     rtc_decode_registers regs = Some epoch) /\
  (forall data epoch, rtc_decode_registers data = Some epoch -> in_window epoch).
Proof.
  split.
  - intros epoch Hw. destruct (window_fields epoch Hw) as (t & y & m & d & h & mi & s & Hf).
    unfold rtc_write_payload. rewrite (fo_gmtime _ _ _ _ _ _ _ _ Hf).
    destruct Hf. rewrite fo_year0, fo_mon0, fo_mday0, fo_hour0, fo_min0, fo_sec0.
    pose proof (days_in_month_bound y m ltac:(lia)).
    rewrite (proj2 (Z.ltb_ge y 2000)), (proj2 (Z.ltb_ge 2099 y)) by lia. cbn [orb].
    rewrite Z.rem_mod_nonneg, !u32_small by (lia || (pose proof (Z.mod_pos_bound y 100); lia)).
    eexists. split; [reflexivity|]. split; [reflexivity|].
    unfold rtc_decode_registers. cbn [nth]. unfold BM8563_SECONDS_VL, BM8563_MONTH_CENTURY.
    rewrite !bcd_no_flag by lia. cbn [Z.eqb negb orb].
    destruct (bcd_roundtrip 127 60 s ltac:(vm_compute; reflexivity) ltac:(lia)) as (-> & -> & ->).
    destruct (bcd_roundtrip 127 60 mi ltac:(vm_compute; reflexivity) ltac:(lia)) as (-> & -> & ->).
    destruct (bcd_roundtrip 63 24 h ltac:(vm_compute; reflexivity) ltac:(lia)) as (-> & -> & ->).
    destruct (bcd_roundtrip 63 32 d ltac:(vm_compute; reflexivity) ltac:(lia)) as (-> & -> & ->).
    destruct (bcd_roundtrip 31 13 m ltac:(vm_compute; reflexivity) ltac:(lia)) as (-> & -> & ->).
    destruct (bcd_roundtrip 255 100 (y mod 100) ltac:(vm_compute; reflexivity) ltac:(zlia))
      as (_ & -> & ->).
    cbn [negb orb]. replace (2000 + y mod 100) with y by zlia.
    rewrite !(proj2 (Z.ltb_ge _ _)) by lia. cbn [orb]. by f_equal.
  - intros data epoch H. unfold rtc_decode_registers in H.
    destruct (_ || _) in H; [done|]. destruct (_ || _) eqn:Hv in H; [done|].
    destruct (_ || _) eqn:Hr in H; [done|]. split_bools. simplify_eq.
    match goal with |- in_window (rtc_days_from_civil (2000 + ?y) ?m ?d * _ + ?h * _ + ?mi * _ + ?s) =>
      pose proof (bcd_two_digits (nth 6 data 0) ltac:(done));
      pose proof (rtc_days_window (2000 + y) m d ltac:(lia) ltac:(lia) ltac:(lia));
      assert (0 <= h) by apply bcd_nonneg; assert (0 <= mi) by apply bcd_nonneg;
      assert (0 <= s) by apply bcd_nonneg
    end.
    unfold in_window, MIN_EPOCH, MAX_EPOCH. lia.
Qed.

Lemma days_from_civil_is_calendar_witness :
  rtc_days_from_civil 2024 3 1 = rtc_days_from_civil 2024 2 29 + 1.
Proof.
  apply (proj2 days_from_civil_is_calendar 2024 2 29).
  split; [lia|]. split; [lia|]. vm_compute. split; discriminate.
Defined.

Lemma registers_roundtrip_witness :
  exists regs, rtc_write_payload 1709218799 = Some (BM8563_REG_SECONDS :: regs) /\
    rtc_decode_registers regs = Some 1709218799.
Proof.
  destruct (proj1 registers_roundtrip 1709218799) as (regs & Hw & _ & Hd).
  - split; vm_compute; discriminate.
  - exists regs. split; assumption.
Defined.
