(* ===== verification/RtcEvent.v ===== *)
(** * RtcEvent: the exactly-once event line ([rtc_correction_event.c])

    Recovery of a pending clock correction: scan the event log line by line,
    cut off a torn tail, append the correction's line unless it is already
    there, and only then clear the pending record.  The JSON parser is cJSON,
    which is not part of the repository: its answer on a line is a parameter,
    and what the theorems need of it is a named hypothesis. *)

From S2P Require Import Prelude Monad Stdio Nvs.

Definition RTC_EVENT_LINE_MAX : nat := 512.

(** The texts of [rtc_correction_event_t], without their NUL. *)
Record rtc_correction_event_t := RtcCorrectionEvent {
  correction_id : bytes;
  before : bytes;
  after : bytes;
  source : bytes;
}.

(** The line the recovery appends. *)
Definition event_line (e : rtc_correction_event_t) : bytes :=
  (jtxt "{'event':'rtc_correction','correctionId':'" ++ correction_id e ++
   jtxt "','before':'" ++ before e ++ jtxt "','after':'" ++ after e ++
   jtxt "','source':'pc'}" ++ [10])%list.

Section rtc_event.

(** [cJSON_ParseWithOpts(line, NULL, true)]: no value, or whether it is an
    object and the string members it has.  The string a key has, if any, is
    what [cJSON_GetObjectItemCaseSensitive] and [cJSON_IsString] give. *)
Context (parse_object : bytes -> option (bytes -> option bytes)).

Definition json_string_equals (root : bytes -> option bytes) (key expected : bytes) : bool :=
  bool_decide (root key = Some expected).

(** [None] is [ESP_FAIL]; otherwise whether the line is the event's. *)
Definition classify_complete_event_line (line : bytes) (event : rtc_correction_event_t) :
    option bool :=
  match parse_object line with
  | None => None
  | Some root =>
      if json_string_equals root (txt "correctionId") (correction_id event) &&
         json_string_equals root (txt "event") (txt "rtc_correction")
      then
        if negb (json_string_equals root (txt "before") (before event)) ||
           negb (json_string_equals root (txt "after") (after event)) ||
           negb (json_string_equals root (txt "source") (source event))
        then None else Some true
      else Some false
  end.

(** What the scan ends with: failure (the file is closed), or [found] and
    whether an error indicator is set. *)
Inductive scan_result := ScanFailed | Scanned (found error : bool).

(** The torn tail: cut it off. *)
Definition cut_tail (h : handle) (last_complete : nat) : io bool :=
  let* cut := ftruncate h last_complete in
  if negb cut then ret false else
  let* s := fseek h last_complete in
  match s with None => ret false | Some h => fsync h end.

(** The [fgets] loop. *)
Fixpoint scan_loop (fuel : nat) (h : handle) (event : rtc_correction_event_t)
    (last_complete : nat) (found error : bool) : io (scan_result * handle) :=
  match fuel with
  | O => ret (ScanFailed, h)
  | S fuel =>
      let* (r, h) := fgets h RTC_EVENT_LINE_MAX in
      let error := error || gets_error r in
      match gets_line r with
      | None => ret (Scanned found error, h)
      | Some read =>
          let line := cstr read in
          match last line with
          | None => let* _ := fclose h in ret (ScanFailed, h)
          | Some c =>
              if negb (c =? 10) then
                if negb (gets_eof r) then (let* _ := fclose h in ret (ScanFailed, h)) else
                let* ok := cut_tail h last_complete in
                if negb ok then (let* _ := fclose h in ret (ScanFailed, h)) else
                ret (Scanned found false, h)
              else
                match classify_complete_event_line line event with
                | None => let* _ := fclose h in ret (ScanFailed, h)
                | Some matching =>
                    let found := matching || found in
                    let* pos := ftell h in
                    match pos with
                    | None => let* _ := fclose h in ret (ScanFailed, h)
                    | Some pos => scan_loop fuel h event pos found error
                    end
                end
          end
      end
  end.

(** Every [fgets] that continues the loop consumes a byte of the file. *)
Definition scan_fuel (path : bytes) (d : disk) : nat := S (S (length (file_content (d !! path)))).

Definition append_event_line (h : handle) (event : rtc_correction_event_t) : io bool :=
  let* s := fseek_end h in
  match s with
  | None => ret false
  | Some h =>
      match snprintf_fit (Z.of_nat RTC_EVENT_LINE_MAX) (event_line event) with
      | None => ret false
      | Some out =>
          let* (ok, h) := fwrite h out in
          if negb ok then ret false else
          let* flushed := fflush h in
          if negb flushed then ret false else fsync h
      end
  end.

(** From the opened log on: scan, append unless found, close. *)
Definition scan_and_append (events_path : bytes) (event : rtc_correction_event_t) (h : handle) :
    io bool :=
  let* d := get_disk in
  let* (r, h) := scan_loop (scan_fuel events_path d) h event 0 false false in
  match r with
  | ScanFailed => ret false
  | Scanned _ true => let* _ := fclose h in ret false
  | Scanned found false =>
      let* ok := if found then ret true else append_event_line h event in
      if negb ok then (let* _ := fclose h in ret false) else fclose h
  end.

(** [rtc_correction_recover_event] up to the clear: whether the event is
    durable in the log. *)
Definition make_event_durable (events_path : bytes) (event : rtc_correction_event_t) : io bool :=
  let* f := fopen_update events_path in
  let* fp := match f with
             | inr h => ret (Some h)
             | inl ENOENT => fopen_wb events_path
             | inl _ => ret None
             end in
  match fp with
  | None => ret false
  | Some h => scan_and_append events_path event h
  end.

(** The argument check of the source. *)
Definition event_args_ok (events_path : bytes) (event : rtc_correction_event_t) : bool :=
  negb (bool_decide (events_path = [])) && bool_decide (source event = txt "pc").

(** ** Lines *)

Definition is_line (l : bytes) : Prop := exists body, l = (body ++ [10])%list /\ 10 ∉ body.

Lemma is_line_last l : is_line l -> last l = Some 10.
Proof. intros (body & -> & _). by rewrite last_snoc. Qed.

Lemma is_line_nonempty l : is_line l -> (0 < length l)%nat.
Proof. intros (body & -> & _). rewrite length_app. cbn. lia. Qed.

Lemma through_newline_line n l rest :
  is_line l -> (length l <= n)%nat -> through_newline n (l ++ rest) = l.
Proof.
  intros (body & -> & Hb). revert n. induction body as [|c body IH]; intros n Hn.
  - destruct n; [cbn in Hn; lia|done].
  - destruct n; [cbn in Hn; lia|]. cbn. apply not_elem_of_cons in Hb as [Hc Hb].
    rewrite (proj2 (Z.eqb_neq c 10)) by done. f_equal. apply IH; [done|]. cbn in Hn. lia.
Qed.

Lemma through_newline_none n l : 10 ∉ l -> through_newline n l = take n l.
Proof.
  revert n. induction l as [|c l IH]; intros [|n] Hl; try done. cbn.
  apply not_elem_of_cons in Hl as [Hc Hl]. rewrite (proj2 (Z.eqb_neq c 10)) by done.
  f_equal. by apply IH.
Qed.

(** A line longer than the buffer is not delivered whole. *)
Lemma through_newline_long n l rest :
  is_line l -> (n < length l)%nat -> through_newline n (l ++ rest) = take n l /\ 10 ∉ take n l.
Proof.
  intros (body & -> & Hb) Hn. rewrite length_app in Hn. cbn in Hn.
  rewrite take_app_le by lia.
  assert (Ht : forall n k, 10 ∉ body -> (n <= length body)%nat ->
    through_newline n (body ++ k) = take n body).
  { clear. induction body as [|c body IH]; intros [|n] k Hb Hn; cbn in *; try done; [lia|].
    apply not_elem_of_cons in Hb as [Hc Hb]. rewrite (proj2 (Z.eqb_neq c 10)) by done.
    f_equal. apply IH; [done|lia]. }
  rewrite <- app_assoc. rewrite Ht by (done || lia). split; [done|].
  intros Hin. apply Hb. eapply elem_of_take in Hin as (i & Hi & _). by eapply list_elem_of_lookup_2.
Qed.

(** A prefix of a line that ends in a newline is the line. *)
Lemma prefix_of_line l k : is_line l -> k `prefix_of` l -> 10 ∈ k -> k = l.
Proof.
  intros (body & -> & Hb) [rest Hk] Hin.
  destruct rest as [|c rest] using rev_ind; [by rewrite app_nil_r in Hk|].
  exfalso. rewrite app_assoc in Hk. apply app_inj_tail in Hk as [-> _].
  apply Hb. apply elem_of_app. by left.
Qed.

Lemma cstr_last_newline l : last (cstr l) = Some 10 -> 10 ∈ l.
Proof.
  induction l as [|c l IH]; cbn; [done|]. destruct (Z.eqb_spec c 0); [done|].
  rewrite last_cons. destruct (last (cstr l)) eqn:E; intros H; apply elem_of_cons; [right|left].
  - apply IH. congruence.
  - congruence.
Qed.

(** A line is delivered whole to the classifier, or not at all. *)
Lemma cstr_of_line l : is_line l -> last (cstr l) = Some 10 -> cstr l = l.
Proof.
  intros (body & -> & Hb). revert Hb. induction body as [|c body IH]; intros Hb; [done|].
  apply not_elem_of_cons in Hb as [Hc Hb]. cbn.
  destruct (Z.eqb_spec c 0); [done|]. rewrite last_cons.
  destruct (last (cstr (body ++ [10]))) eqn:E; intros H; [f_equal; apply IH; congruence|congruence].
Qed.

(** ** The scan *)

Context (event : rtc_correction_event_t) (path : bytes).

Definition matches (l : bytes) : bool :=
  match classify_complete_event_line l event with Some true => true | _ => false end.

(** A line the scan can take in: it fits the buffer, holds no NUL, parses, and
    does not contradict the event. *)
Definition good_line (l : bytes) : Prop :=
  (length l < RTC_EVENT_LINE_MAX)%nat /\ (0 ∉ l) /\ classify_complete_event_line l event <> None.

(** A torn tail the scan can recognize. *)
Definition good_tail (tail : bytes) : Prop :=
  tail = [] \/ ((length tail < RTC_EVENT_LINE_MAX - 1)%nat /\ head tail <> Some 0).

(** The card as it was, or with the file cut to its complete lines. *)
Definition cut_or_not (d : disk) (whole : bytes) (d' : disk) : Prop :=
  d' = d \/ d' = <[path := NFile whole]> d.

(** What a scan over the lines [ls] and the tail [tail] ends with. *)
Definition scan_post (w : world) (whole : bytes) (ls : list bytes) (tail : bytes)
    (found : bool) (r : scan_result) (w' : world) : Prop :=
  during (cut_or_not (w_disk w) whole) w w' /\
  match r with
  | ScanFailed => True
  | Scanned _ true => True
  | Scanned found' false =>
      found' = (found || existsb matches ls) /\
      Forall (fun l => classify_complete_event_line l event <> None) ls /\
      w_disk w' = <[path := NFile whole]> (w_disk w) /\
      ((tail = [] /\ w_dirty w' = w_dirty w) \/ path ∉ w_dirty w')
  end /\
  (faultless w -> faultless w') /\
  (faultless w -> Forall good_line ls -> good_tail tail -> exists found', r = Scanned found' false).

Lemma wp_cut_tail n w whole (Q : bool -> world -> Prop) :
  take n (file_content (w_disk w !! path)) = whole ->
  (forall ok w', during (cut_or_not (w_disk w) whole) w w' ->
     (faultless w -> ok = true /\ faultless w') ->
     (ok = true -> w_disk w' = <[path := NFile whole]> (w_disk w) /\ path ∉ w_dirty w') -> Q ok w') ->
  forall pos, wp (cut_tail (Handle path pos) n) Q w.
Proof.
  intros Hn HQ pos. unfold cut_tail.
  assert (Hd0 : cut_or_not (w_disk w) whole (w_disk w)) by (left; done).
  assert (Hd1 : cut_or_not (w_disk w) whole (<[path := NFile whole]> (w_disk w))) by (right; done).
  wp_prim. apply wp_ftruncate; cbn [h_path].
  { intros w1 Hk1 Hf. wp_prim. apply HQ; [|done|done]. eauto using during_keeps, during_refl. }
  rewrite Hn. intros w1 Hm1. cbn [negb]. wp_prim. apply wp_fseek.
  { intros w2 Hk2 Hf. wp_prim. apply HQ; [|destruct Hm1; naive_solver|done].
    eauto using during_keeps, during_refl, during_moves. }
  intros w2 Hk2. wp_prim. apply wp_fsync; cbn [h_path].
  { intros w3 Hk3 Hf. wp_prim. apply HQ; [|destruct Hm1, Hk2; naive_solver|done].
    eauto using during_keeps, during_refl, during_moves. }
  intros w3 Hm3. wp_prim. apply HQ.
  - eapply during_moves; [|exact Hm3|]; [|worlds; done].
    eauto using during_keeps, during_refl, during_moves.
  - destruct Hm1, Hk2, Hm3. auto.
  - intros _. destruct Hm3 as [Hd Hdirty _ _ _]. rewrite Hd, Hdirty.
    split; [by worlds|apply not_in_synced].
Qed.

(** Giving up: the card stays as it is. *)
Lemma scan_give_up h w0 w whole ls tail found :
  keeps w0 w -> (faultless w0 -> Forall good_line ls -> good_tail tail -> False) ->
  wp (let* _ := fclose h in ret (ScanFailed, h))
     (fun r w' => scan_post w0 whole ls tail found r.1 w' /\ h_path r.2 = h_path h) w.
Proof.
  intros Hk Hno. wp_prim. apply wp_fclose. intros w1 ok Hk1 _. wp_prim. cbn.
  pose proof (keeps_trans _ _ _ Hk Hk1) as Hk2. split; [|done].
  split_and!; [|done|by destruct Hk2|intros; exfalso; eauto].
  eapply during_keeps; [|done]. apply during_refl. by left.
Qed.

Lemma concat_length_lines ls : Forall is_line ls -> (length ls <= length (List.concat ls))%nat.
Proof.
  induction 1 as [|l ls Hl _ IH]; cbn; [lia|]. rewrite length_app.
  pose proof (is_line_nonempty l Hl). lia.
Qed.

(** The end of the scan, at the tail. *)
Lemma scan_tail fuel done_ tail w0 w found error :
  keeps w0 w -> w_disk w0 !! path = Some (NFile (done_ ++ tail)) -> 10 ∉ tail ->
  (faultless w0 -> error = false) ->
  wp (scan_loop (S fuel) (Handle path (length done_)) event (length done_) found error)
    (fun r w' => scan_post w0 done_ [] tail found r.1 w' /\ h_path r.2 = path) w.
Proof.
  intros Hk Hc Ht Herr. cbn [scan_loop]. wp_prim. apply wp_fgets. cbn [h_path h_pos].
  rewrite (keeps_disk _ _ Hk), Hc. cbn [file_content]. rewrite drop_app_length.
  rewrite through_newline_none by done.
  set (whole := take (RTC_EVENT_LINE_MAX - 1) tail).
  intros w1 got eof err Hk1 Hpre Hgot Hf Heof Heof2. wp_prim. cbn [gets_error gets_line gets_eof].
  pose proof (keeps_trans _ _ _ Hk Hk1) as Hk01.
  assert (Hdur : during (cut_or_not (w_disk w0) done_) w0 w1).
  { eapply during_keeps; [|done]. apply during_refl. by left. }
  assert (Hin : ~ (10 ∈ got)).
  { intros Hin. destruct Hpre as [k Hk']. apply Ht.
    rewrite <- (take_drop (RTC_EVENT_LINE_MAX - 1) tail). fold whole. rewrite Hk'.
    apply elem_of_app. left. apply elem_of_app. by left. }
  destruct got as [|g got'] eqn:Hg.
  - wp_prim. cbn. split; [|done]. split_and!; [done| |by destruct Hk01|].
    + destruct (error || err) eqn:He; [done|]. apply orb_false_elim in He as [-> ->].
      specialize (Hgot eq_refl). assert (Htail : tail = []).
      { destruct tail; [done|]. unfold whole in Hgot. done. }
      subst tail. rewrite orb_false_r. split_and!; [done|done| |].
      * rewrite (keeps_disk _ _ Hk01). symmetry. apply insert_id. by rewrite Hc, app_nil_r.
      * left. split; [done|]. apply Hk01.
    + intros Hfl _ _. rewrite Herr, Hf by (destruct Hk; auto). eauto.
  - rewrite <- Hg in *. wp_prim.
    assert (Hne : got <> []) by (by rewrite Hg).
    assert (Hbad : forall P : Prop, last (cstr got) = None \/ eof = false ->
      faultless w0 -> good_tail tail -> P).
    { intros P Hor Hfl [->|[Hl Hh]].
      - exfalso. apply Hne. destruct Hpre as [k Hk']. unfold whole in Hk'. by destruct got.
      - exfalso. rewrite Hf in Hgot, Heof2 by (destruct Hk; auto).
        assert (Hwt : whole = tail) by (unfold whole; rewrite take_ge by lia; done).
        rewrite Hwt in *. destruct Hor as [Hn|Hn].
        + rewrite Hgot in Hn by done. destruct tail as [|c t]; [by rewrite Hgot in Hne|].
          cbn in Hn, Hh. destruct (Z.eqb_spec c 0); [by subst|]. rewrite last_cons in Hn.
          by destruct (last (cstr t)).
        + rewrite Heof2 in Hn; try done. intros Hl10. apply Ht.
          by eapply last_Some_elem_of. }
    destruct (last (cstr got)) as [c|] eqn:Hlast.
    2: { apply (scan_give_up (Handle path (length done_ + length got)) w0 w1 done_ [] tail found Hk01).
         intros Hfl _ Hgt. by apply (Hbad False); [auto| |]. }
    destruct (Z.eqb_spec c 10) as [->|Hc10]; cbn [negb].
    { exfalso. by apply Hin, cstr_last_newline. }
    destruct eof; cbn [negb].
    2: { apply (scan_give_up (Handle path (length done_ + length got)) w0 w1 done_ [] tail found Hk01).
         intros Hfl _ Hgt. by apply (Hbad False); [auto| |]. }
    destruct Heof as (Hlen & _ & He); [done|]. specialize (Hgot He).
    assert (Hwt : whole = tail).
    { unfold whole in *. rewrite length_take in Hlen. apply take_ge. lia. }
    wp_prim. apply (wp_cut_tail _ _ done_).
    { rewrite (keeps_disk _ _ Hk01), Hc. cbn. apply take_app_length. }
    intros ok w2 Hdur2 Hfl2 Hok2. wp_prim.
    rewrite (keeps_disk _ _ Hk01) in Hdur2, Hok2.
    pose proof (during_trans _ _ _ _ Hdur Hdur2) as Hdur02.
    destruct ok; cbn [negb]; wp_prim.
    + cbn. split; [|done]. destruct (Hok2 eq_refl). unfold scan_post. cbn. rewrite orb_false_r.
      split_and!; try done; [by right| |eauto].
      intros Hfl. apply Hfl2. by apply Hk01.
    + apply wp_fclose. intros w3 ok Hk3 _. wp_prim. cbn. split; [|done].
      split_and!; [by eapply during_keeps|done|intros; by apply Hk3, Hfl2, Hk01|].
      intros Hfl. destruct Hfl2; [by destruct Hk01; auto|done].
Qed.

(** What [fgets] delivers at the start of a line. *)
Lemma gets_at_line l rest :
  is_line l ->
  let whole := through_newline (RTC_EVENT_LINE_MAX - 1) (l ++ rest) in
  whole `prefix_of` l /\ whole <> [] /\
  ((length whole < RTC_EVENT_LINE_MAX - 1)%nat -> last whole = Some 10) /\
  ((length l < RTC_EVENT_LINE_MAX)%nat -> whole = l).
Proof.
  intros Hl whole. destruct (decide (length l <= RTC_EVENT_LINE_MAX - 1)%nat) as [Hs|Hs].
  - assert (Hw : whole = l) by (by apply through_newline_line).
    rewrite Hw. pose proof (is_line_nonempty l Hl). split_and!; [done| |by intros; apply is_line_last|done].
    intros ->. cbn in *. lia.
  - destruct (through_newline_long (RTC_EVENT_LINE_MAX - 1) l rest Hl) as [Hw _]; [lia|].
    fold whole in Hw. rewrite Hw. split_and!.
    + apply prefix_take.
    + intros Hn. apply (f_equal length) in Hn. rewrite length_take in Hn.
      unfold RTC_EVENT_LINE_MAX in *. cbn [length] in Hn. lia.
    + rewrite length_take. lia.
    + intros. unfold RTC_EVENT_LINE_MAX in *. lia.
Qed.

(** The scan, from a line boundary on. *)
Lemma scan_lines ls : forall fuel done_ tail w0 w found error,
  keeps w0 w -> w_disk w0 !! path = Some (NFile (done_ ++ List.concat ls ++ tail)) ->
  Forall is_line ls -> 10 ∉ tail -> (length ls < fuel)%nat ->
  (faultless w0 -> error = false) ->
  wp (scan_loop fuel (Handle path (length done_)) event (length done_) found error)
    (fun r w' => scan_post w0 (done_ ++ List.concat ls) ls tail found r.1 w' /\ h_path r.2 = path) w.
Proof.
  induction ls as [|l ls IH]; intros fuel done_ tail w0 w found error Hk Hc Hls Ht Hfuel Herr;
    (destruct fuel as [|fuel]; [lia|]).
  { cbn [List.concat]. rewrite app_nil_r. by apply scan_tail. }
  apply Forall_cons in Hls as [Hl Hls]. cbn [List.concat] in *. rewrite <- app_assoc in Hc.
  cbn [scan_loop]. wp_prim. apply wp_fgets. cbn [h_path h_pos].
  rewrite (keeps_disk _ _ Hk), Hc. cbn [file_content]. rewrite drop_app_length.
  destruct (gets_at_line l (List.concat ls ++ tail) Hl) as (Hwl & Hwne & Hwlast & Hwfit).
  set (whole := through_newline _ _) in *.
  intros w1 got eof err Hk1 Hpre Hgot Hf Heof _. wp_prim. cbn [gets_error gets_line gets_eof].
  pose proof (keeps_trans _ _ _ Hk Hk1) as Hk01.
  assert (Hflt : faultless w0 -> error || err = false).
  { intros Hfl. rewrite Herr, Hf; [done|by apply Hk|done]. }
  assert (Hdur : during (cut_or_not (w_disk w0) (done_ ++ l ++ List.concat ls)) w0 w1).
  { eapply during_keeps; [|done]. apply during_refl. by left. }
  (* a good line, without faults, is read whole *)
  assert (Hgood : faultless w0 -> good_line l -> got = l /\ cstr got = l).
  { intros Hfl (Hlen & Hnul & _). assert (got = l) as -> by (rewrite Hgot; [auto|apply Hf, Hk, Hfl]).
    split; [done|]. clear -Hnul. induction l as [|c l IHl]; [done|]. cbn.
    apply not_elem_of_cons in Hnul as [Hc Hnul].
    rewrite (proj2 (Z.eqb_neq c 0)) by done. f_equal. auto. }
  destruct got as [|g got'] eqn:Hg.
  { wp_prim. cbn. split; [|done]. unfold scan_post. destruct (error || err) eqn:He.
    - split_and!; [done..|by apply Hk01|]. intros Hfl. by apply Hflt in Hfl.
    - apply orb_false_elim in He as [_ He]. by rewrite <- Hgot in Hwne. }
  rewrite <- Hg in *. wp_prim.
  assert (Hup : forall P : Prop, last (cstr got) <> Some 10 -> faultless w0 ->
    Forall good_line (l :: ls) -> P).
  { intros P Hn Hfl Hgl. exfalso. apply Forall_cons in Hgl as [Hgl _].
    destruct (Hgood Hfl Hgl) as [_ Hcs]. rewrite Hcs in Hn. by apply Hn, is_line_last. }
  destruct (last (cstr got)) as [c|] eqn:Hlast.
  2: { apply (scan_give_up (Handle path (length done_ + length got)) w0 w1 _ _ _ _ Hk01).
       intros Hfl Hgl _. by apply (Hup False). }
  destruct (Z.eqb_spec c 10) as [->|Hc10]; cbn [negb].
  2: { destruct eof; cbn [negb].
       { exfalso. destruct Heof as (Hlw & Hl10 & _); [done|]. by apply Hl10, Hwlast. }
       apply (scan_give_up (Handle path (length done_ + length got)) w0 w1 _ _ _ _ Hk01).
       intros Hfl Hgl _. apply (Hup False); [congruence|done..]. }
  assert (got = l) as Hgl.
  { apply prefix_of_line; [done|by etrans|]. by apply cstr_last_newline. }
  assert (Hcs : cstr got = l) by (rewrite Hgl; apply cstr_of_line; [done|by rewrite <- Hgl]).
  rewrite Hcs. destruct (classify_complete_event_line l event) as [matching|] eqn:Hcl.
  2: { apply (scan_give_up (Handle path (length done_ + length got)) w0 w1 _ _ _ _ Hk01).
       intros Hfl Hgl' _. apply Forall_cons in Hgl' as [(_ & _ & Hn) _]. done. }
  wp_prim. apply wp_ftell; cbn [h_pos].
  { intros w2 Hk2 Hnf. pose proof (keeps_trans _ _ _ Hk01 Hk2) as Hk02. wp_prim.
    apply wp_unbind, (scan_give_up (Handle path (length done_ + length got)) w0 w2 _ _ _ _ Hk02).
    intros Hfl. destruct Hnf. by apply Hk01. }
  intros w2 Hk2. pose proof (keeps_trans _ _ _ Hk01 Hk2) as Hk02. wp_prim.
  replace (length done_ + length got)%nat with (length (done_ ++ l))
    by (by rewrite length_app, Hgl).
  eapply wp_mono; [apply (IH fuel (done_ ++ l)%list tail w0); try done|].
  { by rewrite <- app_assoc. }
  { cbn in Hfuel. lia. }
  rewrite <- app_assoc. intros [r h'] w3 [Hpost Hh]. split; [|done]. cbn in *.
  destruct Hpost as (Hd & Hr & Hfl & Hlive). split_and!; [done| |done|].
  - destruct r as [|f' []]; try done. destruct Hr as (-> & Hcls & Hr). split_and!; [|constructor; [congruence|done]|apply Hr..].
    cbn [existsb]. assert (Hm : matches l = matching).
    { unfold matches. rewrite Hcl. by destruct matching. }
    rewrite Hm. by destruct matching, found.
  - intros Hf0 Hgls Hgt. apply Hlive; [done|by apply Forall_cons in Hgls as [_ ?]|done].
Qed.

(** ** The append *)

(** The card as it was, or with the log at its complete lines followed by a
    part of the event's line. *)
Definition log_state (d : disk) (whole : bytes) (d' : disk) : Prop :=
  d' = d \/ exists k, k `prefix_of` event_line event /\ d' = <[path := NFile (whole ++ k)]> d.

Lemma log_state_cut d whole d' : cut_or_not d whole d' -> log_state d whole d'.
Proof.
  intros [->| ->]; [by left|]. right. exists []. rewrite app_nil_r. split; [apply prefix_nil|done].
Qed.

Lemma wp_append_event_line h d whole w (Q : bool -> world -> Prop) :
  h_path h = path -> w_disk w = <[path := NFile whole]> d ->
  (forall ok w', during (log_state d whole) w w' ->
     (ok = true -> w_disk w' = <[path := NFile (whole ++ event_line event)]> d /\ path ∉ w_dirty w') ->
     (faultless w -> zlen (event_line event) < Z.of_nat RTC_EVENT_LINE_MAX ->
        ok = true /\ faultless w') -> Q ok w') ->
  wp (append_event_line h event) Q w.
Proof.
  intros Hh Hd HQ.
  assert (H0 : log_state d whole (<[path := NFile whole]> d)) by (by apply log_state_cut; right).
  assert (Hdur : during (log_state d whole) w w) by (apply during_refl; by rewrite Hd).
  unfold append_event_line. wp_prim. apply wp_fseek_end.
  { intros w1 Hk1 Hf. wp_prim. apply HQ; [by eapply during_keeps|done|done]. }
  rewrite Hh. intros w1 Hk1. wp_prim.
  assert (Hd1 : w_disk w1 = <[path := NFile whole]> d) by (by rewrite (keeps_disk _ _ Hk1)).
  assert (Hdur1 : during (log_state d whole) w w1) by (by eapply during_keeps).
  unfold snprintf_fit. destruct (Z.ltb_spec (zlen (event_line event)) (Z.of_nat RTC_EVENT_LINE_MAX)).
  2: { wp_prim. apply HQ; [done|done|]. intros _ Hlt. lia. }
  wp_prim. apply wp_fwrite. cbn [h_path h_pos]. rewrite Hd1, Hd, lookup_insert_eq. cbn [file_content].
  intros w2 ok stored Hm Hpre Hst Hfl. rewrite insert_insert_eq, write_at_end in Hm. wp_prim.
  assert (Hdur2 : during (log_state d whole) w w2).
  { eapply during_moves; [exact Hdur1|exact Hm|]. right. eauto. }
  destruct ok; cbn [negb]; wp_prim.
  2: { apply HQ; [done|done|]. intros Hf _. by specialize (Hfl (keeps_faultless _ _ Hk1 Hf)). }
  rewrite Hst in Hm by done. apply wp_fflush. intros w3 ok Hk3 Hfl3. wp_prim.
  assert (Hdur3 : during (log_state d whole) w w3) by (by eapply during_keeps).
  assert (Hf13 : faultless w -> faultless w3)
    by (intros Hf; apply (keeps_faultless _ _ Hk3), (moves_faultless _ _ _ _ Hm), (keeps_faultless _ _ Hk1), Hf).
  destruct ok; cbn [negb]; wp_prim.
  2: { apply HQ; [done|done|]. intros Hf _. split; [|auto]. apply Hfl3.
       by apply (moves_faultless _ _ _ _ Hm), (keeps_faultless _ _ Hk1). }
  apply wp_fsync; cbn [h_path].
  { intros w4 Hk4 Hnf. apply HQ; [by eapply during_keeps|done|]. intros Hf. by specialize (Hf13 Hf). }
  intros w4 Hm4. rewrite (keeps_disk _ _ Hk3), (moves_disk _ _ _ _ Hm) in Hm4. apply HQ.
  - eapply during_moves; [exact Hdur3|exact Hm4|]. right. eauto.
  - intros _. rewrite (moves_disk _ _ _ _ Hm4), (moves_dirty _ _ _ _ Hm4). split; [done|apply not_in_synced].
  - intros Hf _. split; [done|]. by apply (moves_faultless _ _ _ _ Hm4), Hf13.
Qed.

(** ** The recovery *)

Lemma wp_fopen_update_honest p w Q :
  honest_faults w ->
  (forall w' e, keeps w w' -> (e = ENOENT -> w_disk w !! p = None) ->
     (faultless w -> w_disk w !! p = None -> e = ENOENT) ->
     (faultless w -> is_file (w_disk w !! p) = false) -> Q (inl e) w') ->
  (forall w' c, keeps w w' -> w_disk w !! p = Some (NFile c) -> Q (inr (Handle p 0)) w') ->
  wp (fopen_update p) Q w.
Proof.
  intros Hh H1 H2. unfold wp, fopen_update, bind, next_fault, get_disk, ret, honest_faults in *.
  destruct w as [d dirty [|f fs] over hist]; cbn in *.
  - destruct (d !! p) as [[c|]|] eqn:Hp; cbn; [by eapply H2|apply H1..];
      first [done|congruence|intros; congruence].
  - apply Forall_cons in Hh as [Hf _].
    assert (Hnf : ~ faultless (World d dirty (f :: fs) over hist)) by done.
    assert (Hk : keeps (World d dirty (f :: fs) over hist) (World d dirty fs over hist)) by apply keeps_pop.
    destruct f as [f|]; cbn.
    + apply H1; try done; intros; by exfalso.
    + destruct (d !! p) as [[c|]|] eqn:Hp; cbn; [by eapply H2|apply H1..];
        try done; intros; by exfalso.
Qed.

(** The log: complete lines and a torn tail; a missing file is an empty log. *)
Definition log_at (d : disk) (ls : list bytes) (tail : bytes) : Prop :=
  (d !! path = Some (NFile (List.concat ls ++ tail)) \/
   (d !! path = None /\ ls = [] /\ tail = [])) /\
  Forall is_line ls /\ 10 ∉ tail.

Definition durable_post (ls : list bytes) (tail : bytes) (w : world) (ok : bool) (w' : world) : Prop :=
  during (log_state (w_disk w) (List.concat ls)) w w' /\
  (ok = true ->
     Forall (fun l => classify_complete_event_line l event <> None) ls /\
     w_disk w' = <[path := NFile (List.concat ls ++
       (if existsb matches ls then [] else event_line event))]> (w_disk w) /\
     ((path ∉ w_dirty w') \/ (existsb matches ls = true /\ tail = [] /\ w_dirty w' = w_dirty w))) /\
  (faultless w -> w_disk w !! path <> None \/ ls = [] -> Forall good_line ls -> good_tail tail ->
     zlen (event_line event) < Z.of_nat RTC_EVENT_LINE_MAX -> ok = true) /\
  (existsb matches ls = true -> during (cut_or_not (w_disk w) (List.concat ls)) w w').

Lemma wp_scan_and_append ls tail w :
  w_disk w !! path = Some (NFile (List.concat ls ++ tail)) -> Forall is_line ls -> 10 ∉ tail ->
  wp (scan_and_append path event (Handle path 0)) (durable_post ls tail w) w.
Proof.
  intros Hc Hls Ht. unfold scan_and_append. wp_prim.
  eapply wp_mono; [apply (scan_lines ls _ [] tail w w false false); try done|].
  { unfold scan_fuel. rewrite Hc. cbn. rewrite length_app. pose proof (concat_length_lines ls Hls). lia. }
  cbn [app]. intros [r h] w1 [(Hdur & Hr & Hfl1 & Hlive) Hh]. cbn in Hr, Hlive, Hh. wp_prim.
  assert (Hd1 : during (log_state (w_disk w) (List.concat ls)) w w1)
    by (eapply during_mono; [apply log_state_cut|done]).
  destruct r as [|found []].
  - wp_prim. split_and!; [done|done| |done]. intros Hf _ Hg Hgt _. by destruct (Hlive Hf Hg Hgt).
  - wp_prim. apply wp_fclose. intros w2 ok Hk2 _. wp_prim.
    split_and!; [by eapply during_keeps|done| |by intros; eapply during_keeps].
    intros Hf _ Hg Hgt _. by destruct (Hlive Hf Hg Hgt).
  - destruct Hr as (Hfound & Hcls & Hd & Hdirty). cbn [orb] in Hfound.
    destruct found; wp_prim; cbn [negb].
    + apply wp_fclose. intros w2 ok Hk2 Hok.
      split_and!; [by eapply during_keeps| | |by intros; eapply during_keeps].
      * intros _. rewrite <- Hfound, app_nil_r, (keeps_disk _ _ Hk2), (keeps_dirty _ _ Hk2).
        split_and!; [done..|]. destruct Hdirty as [[-> ->]|]; [by right|by left].
      * intros Hf _ _ _ _. auto.
    + apply (wp_append_event_line h (w_disk w) (List.concat ls)); [done|done|].
      intros ok w2 Hdur2 Hok2 Hlive2. wp_prim.
      pose proof (during_trans _ _ _ _ Hd1 Hdur2) as Hd2.
      destruct ok; cbn [negb]; wp_prim; apply wp_fclose; intros w3 ok Hk3 Hcl; wp_prim;
        (split_and!; [by eapply during_keeps| | |by rewrite <- Hfound]); try done.
      * intros _. destruct (Hok2 eq_refl) as [Hd' Hs'].
        rewrite <- Hfound, (keeps_disk _ _ Hk3), (keeps_dirty _ _ Hk3). split_and!; [done..|by left].
      * intros Hf _ _ _ Hlen. apply Hcl. by apply Hlive2; auto.
      * intros Hf _ _ _ Hlen. by destruct (Hlive2 (Hfl1 Hf) Hlen).
Qed.

Lemma durable_post_weaken ls tail w w1 ok w' :
  keeps w w1 -> durable_post ls tail w1 ok w' -> durable_post ls tail w ok w'.
Proof.
  intros Hk (H1 & H2 & H3 & H4). pose proof Hk as [Hd Hdi _ Hh Hf]. unfold durable_post.
  assert (Hdur : forall P, during P w1 w' -> during P w w').
  { intros P (HP & l & Hl & Hall). split; [done|]. exists l. by rewrite Hl, Hh. }
  rewrite <- Hd, <- Hdi. split_and!; auto.
Qed.

Lemma wp_make_event_durable ls tail w :
  log_at (w_disk w) ls tail -> honest_faults w ->
  wp (make_event_durable path event) (durable_post ls tail w) w.
Proof.
  intros [Hlog [Hls Ht]] Hh. unfold make_event_durable. wp_prim.
  assert (Hrefl : forall w1, keeps w w1 -> during (log_state (w_disk w) (List.concat ls)) w w1).
  { intros w1 Hk. eapply during_keeps; [|done]. apply during_refl. by left. }
  apply wp_fopen_update_honest; [done|..].
  - intros w1 e Hk1 He He' Hfile. destruct (decide (e = ENOENT)) as [->|Hne].
    + specialize (He eq_refl). destruct Hlog as [Hlog|(_ & -> & ->)]; [congruence|].
      wp_prim. apply wp_fopen_wb_file.
      { intros w2 Hk2 Hdir. wp_prim. pose proof (keeps_trans _ _ _ Hk1 Hk2).
        split_and!; [by apply Hrefl|done| |done]. intros Hf _ _ _ _.
        specialize (Hdir (keeps_faultless _ _ Hk1 Hf)). rewrite (keeps_disk _ _ Hk1) in Hdir. congruence. }
      intros w2 _ Hm. wp_prim. rewrite (keeps_disk _ _ Hk1) in Hm.
      eapply wp_mono; [apply (wp_scan_and_append [] []); try done|].
      { rewrite (moves_disk _ _ _ _ Hm). apply lookup_insert_eq. }
      intros ok w3 (Hdur & Hok & Hlive & _). rewrite (moves_disk _ _ _ _ Hm) in Hdur, Hok.
      split_and!.
      * eapply during_trans; [eapply (during_moves _ w w1); [by apply Hrefl|exact Hm|]|].
        { apply log_state_cut. by right. }
        eapply during_mono; [|exact Hdur]. intros d [->|(k & Hk & ->)]; [apply log_state_cut; by right|].
        right. exists k. split; [done|]. cbn. by rewrite insert_insert_eq.
      * intros ->. destruct (Hok eq_refl) as (Hc & Hd & Hs). rewrite insert_insert_eq in Hd.
        split_and!; [done|done|]. destruct Hs as [?|(Hex & _)]; [by left|done].
      * intros Hf _ Hg Hgt Hlen. apply Hlive; try done; [|by right].
        by apply (moves_faultless _ _ _ _ Hm), (keeps_faultless _ _ Hk1).
      * done.
    + assert (Hw : wp (ret None : io (option handle)) (fun fp w2 =>
        wp (match fp with None => ret false | Some h => scan_and_append path event h end)
          (durable_post ls tail w) w2) w1).
      { wp_prim. split_and!; [by apply Hrefl|done| |].
        2: { intros _. eapply during_keeps; [|done]. apply during_refl. by left. }
        intros Hf Hpres Hg Hgt Hlen. exfalso.
        destruct Hlog as [Hlog|(Hlog & -> & _)].
        - specialize (Hfile Hf). by rewrite Hlog in Hfile.
        - by apply Hne, He'. }
      destruct e; [done|by apply wp_bind..].
  - intros w1 c Hk1 Hc. wp_prim. destruct Hlog as [Hlog|(Hlog & _)]; [|congruence].
    eapply wp_mono; [apply (wp_scan_and_append ls tail); try done; by rewrite (keeps_disk _ _ Hk1)|].
    intros ok w2 Hpost. by eapply durable_post_weaken.
Qed.

(** ** [rtc_correction_recover_event]

    The client's state [C] is what its clear callback works on. *)

Definition on_files {C A} (m : io A) : st (world * C) A := fun s =>
  let '(x, w) := m s.1 in (x, (w, s.2)).
Definition on_client {C A} (m : st C A) : st (world * C) A := fun s =>
  let '(x, c) := m s.2 in (x, (s.1, c)).

Definition rtc_correction_recover_event {C} (events_path : bytes) (event : rtc_correction_event_t)
    (clear_pending : st C esp_err_t) : st (world * C) esp_err_t :=
  if negb (event_args_ok events_path event) then ret ESP_ERR_INVALID_ARG else
  let* ok := on_files (make_event_durable events_path event) in
  if (ok : bool) then on_client clear_pending else ret ESP_FAIL.

(** ** Theorems *)


(** The parser reads the event's own line. *)
Definition event_parses : Prop :=
  is_line (event_line event) /\ classify_complete_event_line (event_line event) event = Some true.

(** Recovering twice appends once: after a recovery that reached the clear
    callback, the log is whole lines with at least one of this event, exactly
    one when there was none, and no later recovery, under any faults, changes
    the card again at any moment. *)
Theorem recover_event_idempotent ls tail w w2 :
  log_at (w_disk w) ls tail -> honest_faults w -> event_parses ->
  (make_event_durable path event w).1 = true ->
  w_disk w2 = w_disk (make_event_durable path event w).2 -> honest_faults w2 ->
  exists ls',
    log_at (w_disk w2) ls' [] /\
    length (List.filter matches ls') = Nat.max 1 (length (List.filter matches ls)) /\
    during (fun d => d = w_disk w2) w2 (make_event_durable path event w2).2.
Proof.
  intros Hlog Hh [Hline Hparse] Hok Hd2 Hh2.
  pose proof (wp_make_event_durable ls tail w Hlog Hh) as (_ & Hd & _).
  destruct (Hd Hok) as (_ & Hdisk & _). rewrite <- Hd2 in Hdisk.
  assert (Hm : matches (event_line event) = true) by (unfold matches; by rewrite Hparse).
  set (ls' := (ls ++ if existsb matches ls then [] else [event_line event])%list).
  assert (Hlog' : log_at (w_disk w2) ls' []).
  { split; [left|split; [|by intros ?%not_elem_of_nil]].
    - rewrite Hdisk, lookup_insert_eq, app_nil_r. unfold ls'. rewrite concat_app.
      destruct (existsb matches ls); cbn; by rewrite ?app_nil_r.
    - unfold ls'. apply Forall_app. destruct Hlog as [_ [Hls _]]. split; [done|].
      destruct (existsb matches ls); by repeat constructor. }
  assert (Hex : existsb matches ls' = true).
  { unfold ls'. rewrite existsb_app. destruct (existsb matches ls) eqn:E; [done|]. cbn. by rewrite Hm. }
  exists ls'. split_and!; [done| |].
  - unfold ls'. rewrite List.filter_app, length_app. destruct (existsb matches ls) eqn:E.
    + apply existsb_exists in E as (l & Hin & Hl). cbn.
      assert (Hpos : (0 < length (List.filter matches ls))%nat).
      { destruct (List.filter matches ls) eqn:Ef; [|cbn; lia].
        assert (Hin' : In l (List.filter matches ls)) by (by apply List.filter_In). by rewrite Ef in Hin'. }
      lia.
    + assert (Hnil : List.filter matches ls = []).
      { clear -E. induction ls as [|l ls IH]; [done|]. cbn in *. apply orb_false_elim in E as [-> E]. auto. }
      rewrite Hnil. cbn. by rewrite Hm.
  - pose proof (wp_make_event_durable ls' [] w2 Hlog' Hh2) as (_ & _ & _ & Hcut).
    eapply during_mono; [|by apply Hcut]. intros d [->| ->]; [done|].
    apply insert_id. destruct Hlog' as [[Hl|(_ & Hn & _)] _]; [|by rewrite Hn in Hex].
    by rewrite Hl, app_nil_r.
Qed.

(** One complete line the JSON parser rejects, wherever it is in the log,
    blocks every recovery: the clear callback is never reached, under any
    faults, so the correction stays pending forever; a torn line that another
    writer appended to is such a line. *)
Theorem malformed_line_blocks_recovery {C} (clear : st C esp_err_t) ls tail w c l :
  event_args_ok path event = true -> log_at (w_disk w) ls tail -> honest_faults w ->
  l ∈ ls -> parse_object l = None ->
  let '(err, (_, c')) := rtc_correction_recover_event path event clear (w, c) in
  err = ESP_FAIL /\ c' = c.
Proof.
  intros Ha Hlog Hh Hl Hp. unfold rtc_correction_recover_event. rewrite Ha. cbn [negb].
  pose proof (wp_make_event_durable ls tail w Hlog Hh) as Hw. unfold wp in Hw.
  unfold bind, on_files, on_client. cbn [fst snd].
  destruct (make_event_durable path event w) as [ok w']. cbn in Hw.
  destruct Hw as (_ & Hok & _). destruct ok; [|done]. exfalso.
  destruct (Hok eq_refl) as (Hcls & _). rewrite Forall_forall in Hcls. apply (Hcls l Hl).
  unfold classify_complete_event_line. by rewrite Hp.
Qed.
End rtc_event.

(** ** Witnesses *)

Definition sample_event : rtc_correction_event_t :=
  RtcCorrectionEvent (txt "00000000-0000-4000-8000-000000000000")
    (txt "2024-01-01T00:00:00+00:00") (txt "2024-01-01T00:00:05+00:00") (txt "pc").

Definition sample_root (e : rtc_correction_event_t) (key : bytes) : option bytes :=
  if bool_decide (key = txt "event") then Some (txt "rtc_correction") else
  if bool_decide (key = txt "correctionId") then Some (correction_id e) else
  if bool_decide (key = txt "before") then Some (before e) else
  if bool_decide (key = txt "after") then Some (after e) else
  if bool_decide (key = txt "source") then Some (source e) else None.

(** Reads the sample event's line, and lines of the form [{}]. *)
Definition sample_parse (line : bytes) : option (bytes -> option bytes) :=
  if bool_decide (line = event_line sample_event) then Some (sample_root sample_event) else
  if bool_decide (line = txt "{}" ++ [10])%list then Some (fun _ => None) else None.

Definition log_path : bytes := txt "/sdcard/M5DAYLOG/events.jsonl".

(** A log with one line and a torn tail. *)
Definition torn_log : world :=
  clean_world {[log_path := NFile (txt "{}" ++ [10] ++ jtxt "{'ev")%list]}.

Lemma sample_line : is_line (txt "{}" ++ [10])%list.
Proof. exists (txt "{}"). split; [done|]. by apply (bool_decide_eq_true_1 _). Qed.

Lemma torn_log_at : log_at log_path (w_disk torn_log) [txt "{}" ++ [10]]%list (jtxt "{'ev").
Proof.
  split; [left; exact (lookup_singleton_eq log_path _)|]. split; [constructor; [apply sample_line|done]|].
  by apply (bool_decide_eq_true_1 _).
Qed.

Lemma sample_event_parses : event_parses sample_parse sample_event.
Proof.
  split; [|vm_compute; reflexivity].
  exists (removelast (event_line sample_event)). split; [vm_compute; reflexivity|].
  by apply (bool_decide_eq_true_1 _).
Qed.

Definition clear_flag : st bool esp_err_t := fun _ => (ESP_OK, false).


Lemma recover_event_idempotent_witness :
  let w' := (make_event_durable sample_parse log_path sample_event torn_log).2 in
  exists ls', log_at log_path (w_disk w') ls' [].
Proof.
  intros w'.
  destruct (recover_event_idempotent sample_parse sample_event log_path _ _ torn_log w'
    torn_log_at (Forall_nil_2 _) sample_event_parses) as (ls' & Hl & _).
  - vm_compute. reflexivity.
  - reflexivity.
  - vm_compute. constructor.
  - exists ls'. exact Hl.
Defined.

(** A log whose one line is torn text another writer ended. *)
Definition bad_log : world := clean_world {[log_path := NFile (jtxt "{'ev{}" ++ [10])%list]}.

Lemma malformed_line_blocks_recovery_witness :
  (rtc_correction_recover_event sample_parse log_path sample_event clear_flag (bad_log, true)).1 =
    ESP_FAIL.
Proof.
  assert (Hlog : log_at log_path (w_disk bad_log) [jtxt "{'ev{}" ++ [10]]%list []).
  { split; [left; exact (lookup_singleton_eq log_path _)|]. split; [constructor; [|done]|by apply not_elem_of_nil].
    exists (jtxt "{'ev{}"). split; [done|]. by apply (bool_decide_eq_true_1 _). }
  pose proof (malformed_line_blocks_recovery sample_parse sample_event log_path clear_flag _ _ bad_log
    true (jtxt "{'ev{}" ++ [10])%list ltac:(vm_compute; reflexivity) Hlog (Forall_nil_2 _)
    ltac:(by apply list_elem_of_singleton) ltac:(vm_compute; reflexivity)) as H.
  destruct (rtc_correction_recover_event _ _ _ _ _) as [err [w' c']]. apply H.
Defined.
