(* ===== verification/Rtc.v ===== *)
(** * Rtc: clock correction with a durable intent ([rtc_correction.c])

    SET_TIME validates an instant, writes the BM8563 clock chip and the system
    clock, and commits a pending record; a later boot that owns the card turns
    the record into one event line and clears it.  The chip's bus, the system
    clock, the random numbers and the component's mutex are the platform's: a
    class of operations with what the firmware relies on as its laws. *)

From S2P Require Import Prelude Monad Stdio RecorderConfig Nvs ShutdownArmed WakeRecovery.
From S2P Require Import DeviceIdentity Calendar RtcEvent.

(** ** The platform *)
Class RtcPlatform (H : Type) := {
  rtc_mutex_create : st H bool;
  rtc_mutex_take : st H bool;
  i2c_new_master_bus : st H esp_err_t;
  i2c_master_bus_add_device : st H esp_err_t;
  i2c_master_bus_rm_device : st H esp_err_t;
  i2c_del_master_bus : st H esp_err_t;
  i2c_master_transmit : bytes -> st H esp_err_t;
  (** the register address and the number of bytes wanted *)
  i2c_master_transmit_receive : Z -> nat -> st H (esp_err_t * bytes);
  gettimeofday : st H (option Z);
  settimeofday : Z -> st H bool;
  esp_random : st H Z;
  (** the chip's seven time registers, and the system clock *)
  chip_registers : H -> bytes;
  system_clock : H -> Z;
}.

(** The operation changes neither clock. *)
Definition clocks_kept {H A} `{RtcPlatform H} (m : st H A) : Prop :=
  forall h, chip_registers (m h).2 = chip_registers h /\ system_clock (m h).2 = system_clock h.

Class RtcPlatformLaws (H : Type) `{RtcPlatform H} := {
  rtc_mutex_create_kept : clocks_kept rtc_mutex_create;
  rtc_mutex_take_kept : clocks_kept rtc_mutex_take;
  new_bus_kept : clocks_kept i2c_new_master_bus;
  add_device_kept : clocks_kept i2c_master_bus_add_device;
  rm_device_kept : clocks_kept i2c_master_bus_rm_device;
  del_bus_kept : clocks_kept i2c_del_master_bus;
  receive_kept : forall reg n, clocks_kept (i2c_master_transmit_receive reg n);
  gettimeofday_kept : clocks_kept gettimeofday;
  esp_random_kept : clocks_kept esp_random;
  (** a write to the control register leaves the time registers alone *)
  transmit_control_kept : forall v, clocks_kept (i2c_master_transmit [BM8563_REG_CONTROL1; v]);
  (** a complete write from the seconds register on sets all seven *)
  transmit_time : forall regs h, length regs = 7%nat ->
    (i2c_master_transmit (BM8563_REG_SECONDS :: regs) h).1 = ESP_OK ->
    chip_registers (i2c_master_transmit (BM8563_REG_SECONDS :: regs) h).2 = regs;
  settimeofday_sets : forall t h, (settimeofday t h).1 = true ->
    system_clock (settimeofday t h).2 = t;
  settimeofday_registers : forall t h, chip_registers (settimeofday t h).2 = chip_registers h;
}.

(** ** The pending record *)

Definition RTC_PENDING_MAGIC : Z := 1381253937.
Definition RTC_PENDING_VERSION : Z := 1.
Definition RTC_NVS_NAMESPACE : bytes := txt "m5daylog_rtc".
Definition RTC_NVS_PENDING_KEY : bytes := txt "pending".
Definition pending_key : nvs_key := (RTC_NVS_NAMESPACE, RTC_NVS_PENDING_KEY).

(** The arrays of the struct, NULs included. *)
Record rtc_pending_record_t := PendingRecord {
  magic : Z;
  version : Z;
  correctionId : bytes;
  rec_before : bytes;
  rec_after : bytes;
  rec_source : bytes;
}.

(** [sizeof(rtc_pending_record_t)]: 113 bytes of members, aligned. *)
Definition RECORD_SIZE : Z := 116.

(** The all-zero record. *)
Definition zero_record : rtc_pending_record_t :=
  PendingRecord 0 0 (replicate 37 0) (replicate 32 0) (replicate 32 0) (replicate 4 0).

(** A text stored in a zeroed array of [n] bytes. *)
Definition array_of (n : nat) (s : bytes) : bytes := (s ++ replicate (n - length s) 0)%list.

(** A stored blob: its size and the record its bytes are read as. *)
Abbreviation rtc_blob := (Z * rtc_pending_record_t)%type.

(** [memchr(a, 0, sizeof a) != NULL] *)
Definition has_nul (a : bytes) : bool := existsb (fun c => c =? 0) a.

Definition rtc_pending_record_valid (r : rtc_pending_record_t) : bool :=
  if negb (magic r =? RTC_PENDING_MAGIC) || negb (version r =? RTC_PENDING_VERSION) ||
     negb (device_identity_is_valid_uuid (cstr (correctionId r))) then false else
  if negb (has_nul (rec_before r)) || negb (has_nul (rec_after r)) || negb (has_nul (rec_source r))
  then false else
  (length (cstr (rec_source r)) =? 2)%nat && bool_decide (cstr (rec_source r) = txt "pc") &&
  (length (cstr (rec_before r)) =? 25)%nat && (length (cstr (rec_after r)) =? 25)%nat.

(** The component's statics and the platform. *)
Record rtc_state (H : Type) := RtcState {
  s_rtc_lock : mutex;
  s_rtc_bus : bool;
  s_rtc_dev : bool;
  s_hw_ready : bool;
  s_pending : bool;
  s_pending_record : rtc_pending_record_t;
  hw : H;
}.

Arguments RtcState {H}.
Arguments s_rtc_lock {H}.
Arguments s_rtc_bus {H}.
Arguments s_rtc_dev {H}.
Arguments s_hw_ready {H}.
Arguments s_pending {H}.
Arguments s_pending_record {H}.
Arguments hw {H}.

Section rtc.
Context {H N : Type} `{PH : RtcPlatform H, NV : NvsOps N rtc_blob}.

(** cJSON's answer on a line, as in RtcEvent. *)
Context (parse_object : bytes -> option (bytes -> option bytes)).

(** The component, the card, the settings. *)
Definition rtc_world : Type := (rtc_state H * world) * nvs_env N.

(** ** State access *)

Definition upd (f : rtc_state H -> rtc_state H) : st rtc_world unit :=
  modify (fun s => ((f s.1.1, s.1.2), s.2)).
Definition sget {A} (f : rtc_state H -> A) : st rtc_world A := get (fun s => f s.1.1).

Definition set_lock (f : mutex -> mutex) (r : rtc_state H) : rtc_state H :=
  RtcState (f (s_rtc_lock r)) (s_rtc_bus r) (s_rtc_dev r) (s_hw_ready r) (s_pending r)
           (s_pending_record r) (hw r).
Definition set_bus (bus dev ready : bool) (r : rtc_state H) : rtc_state H :=
  RtcState (s_rtc_lock r) bus dev ready (s_pending r) (s_pending_record r) (hw r).
Definition set_pending (p : bool) (rec : rtc_pending_record_t) (r : rtc_state H) : rtc_state H :=
  RtcState (s_rtc_lock r) (s_rtc_bus r) (s_rtc_dev r) (s_hw_ready r) p rec (hw r).
Definition set_hw (h : H) (r : rtc_state H) : rtc_state H :=
  RtcState (s_rtc_lock r) (s_rtc_bus r) (s_rtc_dev r) (s_hw_ready r) (s_pending r)
           (s_pending_record r) h.

Definition on_hw {A} (m : st H A) : st rtc_world A := fun s =>
  let '(x, h) := m (hw s.1.1) in (x, ((set_hw h s.1.1, s.1.2), s.2)).
Definition on_nvs {A} (m : st (nvs_env N) A) : st rtc_world A := fun s =>
  let '(x, e) := m s.2 in (x, (s.1, e)).
Definition on_card {A} (m : st (world * nvs_env N) A) : st rtc_world A := fun s =>
  let '(x, (w, e)) := m (s.1.2, s.2) in (x, ((s.1.1, w), e)).

(** [xSemaphoreTake(s_rtc_lock, portMAX_DELAY) == pdTRUE] *)
Definition take_rtc_lock : st rtc_world bool :=
  let* taken := on_hw rtc_mutex_take in
  if (taken : bool) then (upd (set_lock mutex_after_take) ;;; ret true) else ret false.
Definition give_rtc_lock : st rtc_world unit := upd (set_lock mutex_after_give).

(** ** The chip *)

Definition rtc_hw_init : st rtc_world esp_err_t :=
  let* ready := sget s_hw_ready in
  if (ready : bool) then ret ESP_OK else
  let* err := on_hw i2c_new_master_bus in
  if negb (is_ok err) then ret err else
  let* dev := sget s_rtc_dev in
  upd (set_bus true dev false) ;;;
  let* err := on_hw i2c_master_bus_add_device in
  if negb (is_ok err) then
    (let* _ := on_hw i2c_del_master_bus in
     upd (set_bus false dev false) ;;; ret err)
  else (upd (set_bus true true true) ;;; ret ESP_OK).

Definition rtc_hw_deinit : st rtc_world esp_err_t :=
  let* dev := sget s_rtc_dev in
  let* err1 := if (dev : bool) then on_hw i2c_master_bus_rm_device else ret ESP_OK in
  let dev := if is_ok err1 then false else dev in
  let* bus := sget s_rtc_bus in
  let* err2 := if bus && negb dev then on_hw i2c_del_master_bus else ret ESP_OK in
  let bus := if is_ok err2 && negb dev then false else bus in
  let* ready := sget s_hw_ready in
  upd (set_bus bus dev (if negb dev && negb bus then false else ready)) ;;;
  ret (if is_ok err1 then err2 else err1).

Definition stop_bytes : bytes := [BM8563_REG_CONTROL1; BM8563_CONTROL1_STOP].
Definition start_bytes : bytes := [BM8563_REG_CONTROL1; 0].

Definition rtc_hw_write_epoch (epoch : Z) : st rtc_world esp_err_t :=
  match rtc_write_payload epoch with
  | None => ret ESP_ERR_INVALID_ARG
  | Some payload =>
      let* err := on_hw (i2c_master_transmit stop_bytes) in
      if negb (is_ok err) then ret err else
      let* err := on_hw (i2c_master_transmit payload) in
      if negb (is_ok err) then
        (let* _ := on_hw (i2c_master_transmit start_bytes) in ret err)
      else on_hw (i2c_master_transmit start_bytes)
  end.

(** The result and [*out_epoch]. *)
Definition rtc_hw_read_epoch : st rtc_world (option Z) :=
  let* r := on_hw (i2c_master_transmit_receive BM8563_REG_SECONDS 7) in
  ret (if negb (is_ok r.1) then None else rtc_decode_registers r.2).

(** ** The durable record *)

(** The read of [rtc_load_pending_locked] once the namespace is open: an error,
    or what the statics become. *)
Definition load_blob : st N (esp_err_t + option rtc_pending_record_t) :=
  let* r := nvs_get_blob pending_key in
  ret match r with
      | (ESP_ERR_NVS_NOT_FOUND, _) => inr None
      | (ESP_OK, Some (size, rec)) =>
          if negb (size =? RECORD_SIZE) || negb (rtc_pending_record_valid rec) then inl ESP_FAIL
          else inr (Some rec)
      | _ => inl ESP_FAIL
      end.

(** [rtc_load_pending_locked] between the lock and the unlock of
    [rtc_correction_init]. *)
Definition rtc_load_pending_locked : st (nvs_env N) (esp_err_t + option rtc_pending_record_t) :=
  nvs_reading RTC_NVS_NAMESPACE (inr None) inl load_blob.

Definition rtc_correction_clear_pending_nvs : st (nvs_env N) esp_err_t :=
  nvs_transaction RTC_NVS_NAMESPACE
    (let* err := nvs_erase_key pending_key in
     ret match err with ESP_ERR_NVS_NOT_FOUND => ESP_OK | err => err end).

(** The commit of [rtc_correction_apply]. *)
Definition commit_pending (candidate : rtc_pending_record_t) : st (nvs_env N) esp_err_t :=
  nvs_transaction RTC_NVS_NAMESPACE (nvs_set pending_key (NvsBlob (RECORD_SIZE, candidate))).

(** ** The operations *)

Definition rtc_correction_init : st rtc_world esp_err_t :=
  let* err := on_nvs recorder_nvs_init in
  if negb (is_ok err) then ret err else
  let* lock := sget s_rtc_lock in
  let* created := if mutex_null lock then on_hw rtc_mutex_create else ret true in
  if negb created then ret ESP_ERR_NO_MEM else
  (if mutex_null lock then upd (set_lock (fun _ => MutexFree)) else ret tt) ;;;
  let* taken := take_rtc_lock in
  if negb taken then ret ESP_FAIL else
  let* loaded := on_nvs rtc_load_pending_locked in
  let* err := match loaded with
              | inl err => ret err
              | inr None => upd (set_pending false zero_record) ;;; ret ESP_OK
              | inr (Some rec) => upd (set_pending true rec) ;;; ret ESP_OK
              end in
  give_rtc_lock ;;;
  ret err.

Definition rtc_correction_is_pending : st rtc_world bool :=
  let* lock := sget s_rtc_lock in
  if mutex_null lock then ret true else
  let* taken := take_rtc_lock in
  if negb taken then ret true else
  let* pending := sget s_pending in
  give_rtc_lock ;;; ret pending.

Definition rtc_make_correction_id : st rtc_world (option bytes) :=
  let* rand16 := on_hw (random16 esp_random) in
  ret (device_identity_format_uuid_v4 rand16).

(** The audit time: the chip's, or the system clock's, or zero. *)
Definition before_epoch : st rtc_world Z :=
  let* e := rtc_hw_read_epoch in
  match e with
  | Some e => ret e
  | None => let* tv := on_hw gettimeofday in ret (default 0 tv)
  end.

Definition make_candidate (id before normalized : bytes) : rtc_pending_record_t :=
  PendingRecord RTC_PENDING_MAGIC RTC_PENDING_VERSION (array_of 37 id) (array_of 32 before)
    (array_of 32 normalized) (array_of 4 (txt "pc")).

(** From the taken lock to the give: the result. *)
Definition apply_locked (requested_epoch : Z) (normalized : bytes) :
    st rtc_world rtc_correction_result_t :=
  let* pending := sget s_pending in
  if (pending : bool) then ret RTC_CORRECTION_BUSY else
  let* ready := sget s_hw_ready in
  let* err := if (ready : bool) then ret ESP_OK else rtc_hw_init in
  if negb (is_ok err) then ret RTC_CORRECTION_INTERNAL_ERROR else
  let* before := before_epoch in
  let* id := rtc_make_correction_id in
  match id with
  | None => ret RTC_CORRECTION_INTERNAL_ERROR
  | Some id =>
      let candidate := make_candidate id (rtc_format_epoch before) normalized in
      let* err := rtc_hw_write_epoch requested_epoch in
      if negb (is_ok err) then ret RTC_CORRECTION_INTERNAL_ERROR else
      let* set := on_hw (settimeofday requested_epoch) in
      if negb set then ret RTC_CORRECTION_INTERNAL_ERROR else
      let* err := on_nvs (commit_pending candidate) in
      if negb (is_ok err) then ret RTC_CORRECTION_INTERNAL_ERROR else
      upd (set_pending true candidate) ;;;
      ret RTC_CORRECTION_OK
  end.

(** The result and the text left in [normalized]. *)
Definition rtc_correction_apply (requested_time : bytes) (normalized_size : Z) :
    st rtc_world (rtc_correction_result_t * bytes) :=
  if normalized_size <? RECORDER_ISO8601_STR_LEN then ret (RTC_CORRECTION_INVALID_ARGS, []) else
  match rtc_parse_iso8601 requested_time with
  | (RTC_CORRECTION_OK, Some (requested_epoch, normalized)) =>
      let* lock := sget s_rtc_lock in
      if mutex_null lock then ret (RTC_CORRECTION_INTERNAL_ERROR, []) else
      let* taken := take_rtc_lock in
      if negb taken then ret (RTC_CORRECTION_INTERNAL_ERROR, []) else
      let* r := apply_locked requested_epoch normalized in
      give_rtc_lock ;;;
      ret (r, if bool_decide (r = RTC_CORRECTION_OK) then normalized else [])
  | (r, _) => ret (r, [])
  end.

Definition rtc_sync_system_clock_best_effort_locked : st rtc_world unit :=
  let* err := rtc_hw_init in
  (if is_ok err then
     let* e := rtc_hw_read_epoch in
     match e with
     | Some e => let* _ := on_hw (settimeofday e) in ret tt
     | None => ret tt
     end
   else ret tt) ;;;
  let* _ := rtc_hw_deinit in
  ret tt.

(** The event a record stands for. *)
Definition event_of (r : rtc_pending_record_t) : rtc_correction_event_t :=
  RtcCorrectionEvent (cstr (correctionId r)) (cstr (rec_before r)) (cstr (rec_after r))
    (cstr (rec_source r)).

Definition rtc_correction_flush_pending_event (events_path : bytes) : st rtc_world esp_err_t :=
  let* lock := sget s_rtc_lock in
  if bool_decide (events_path = []) || mutex_null lock then ret ESP_ERR_INVALID_ARG else
  let* taken := take_rtc_lock in
  if negb taken then ret ESP_FAIL else
  rtc_sync_system_clock_best_effort_locked ;;;
  let* pending := sget s_pending in
  if negb pending then (give_rtc_lock ;;; ret ESP_OK) else
  let* record := sget s_pending_record in
  let* err := on_card (rtc_correction_recover_event parse_object events_path (event_of record)
                         rtc_correction_clear_pending_nvs) in
  (if is_ok err then upd (set_pending false zero_record) else ret tt) ;;;
  give_rtc_lock ;;;
  ret err.

(** ** Frames *)

(** Everything but the bus state is as before; the mutex is in state [l]. *)
Record moved (l : mutex) (s s' : rtc_world) : Prop := Moved {
  moved_lock : s_rtc_lock s'.1.1 = l;
  moved_pending : s_pending s'.1.1 = s_pending s.1.1;
  moved_record : s_pending_record s'.1.1 = s_pending_record s.1.1;
  moved_registers : chip_registers (hw s'.1.1) = chip_registers (hw s.1.1);
  moved_clock : system_clock (hw s'.1.1) = system_clock (hw s.1.1);
  moved_card : s'.1.2 = s.1.2;
  moved_settings : s'.2 = s.2;
}.

Definition quiet (s s' : rtc_world) : Prop := moved (s_rtc_lock s.1.1) s s'.

Lemma quiet_refl s : quiet s s.
Proof. by split. Qed.

Lemma moved_trans l1 l2 s1 s2 s3 : moved l1 s1 s2 -> moved l2 s2 s3 -> moved l2 s1 s3.
Proof. intros [] []. split; congruence. Qed.

Lemma moved_quiet l s1 s2 s3 : moved l s1 s2 -> quiet s2 s3 -> moved l s1 s3.
Proof. intros H1 H2. destruct H1 eqn:E. rewrite <- moved_lock0. by eapply moved_trans. Qed.

Lemma quiet_trans s1 s2 s3 : quiet s1 s2 -> quiet s2 s3 -> quiet s1 s3.
Proof. apply moved_quiet. Qed.

Context `{PL : !RtcPlatformLaws H, NL : !NvsLaws N rtc_blob}.

Lemma wp_sget {A} (f : rtc_state H -> A) (Q : A -> rtc_world -> Prop) s :
  Q (f s.1.1) s -> wp (sget f) Q s.
Proof. done. Qed.

Lemma wp_upd f (Q : unit -> rtc_world -> Prop) s : Q tt ((f s.1.1, s.1.2), s.2) -> wp (upd f) Q s.
Proof. done. Qed.

Lemma wp_on_hw {A} (m : st H A) (Q : A -> rtc_world -> Prop) s :
  clocks_kept m -> (forall s', quiet s s' -> Q (m (hw s.1.1)).1 s') -> wp (on_hw m) Q s.
Proof.
  intros Hm HQ. unfold wp, on_hw. destruct (Hm (hw s.1.1)) as [Hr Hc].
  destruct (m (hw s.1.1)) as [x h]. apply HQ. by split.
Qed.

Lemma wp_on_nvs {A} (m : st (nvs_env N) A) (Q : A -> rtc_world -> Prop) s :
  wp m (fun x e => Q x (s.1, e)) s.2 -> wp (on_nvs m) Q s.
Proof. unfold wp, on_nvs. by destruct (m s.2). Qed.

Lemma wp_take_rtc_lock (Q : bool -> rtc_world -> Prop) s :
  s_rtc_lock s.1.1 = MutexFree ->
  (forall (b : bool) s', moved (if b then MutexHeld else MutexFree) s s' -> Q b s') ->
  wp take_rtc_lock Q s.
Proof.
  intros Hl HQ. unfold take_rtc_lock. st_prim. apply wp_on_hw; [apply rtc_mutex_take_kept|].
  intros s1 [H1 H2 H3 H4 H5 H6 H7]. destruct (rtc_mutex_take _).1; st_prim.
  - apply wp_upd. st_prim. apply HQ. split; cbn; try done. by rewrite H1, Hl.
  - apply HQ. split; try done. by rewrite H1.
Qed.

Lemma quiet_bus b d r s : quiet s ((set_bus b d r s.1.1, s.1.2), s.2).
Proof. by split. Qed.

Lemma wp_rtc_hw_init (Q : esp_err_t -> rtc_world -> Prop) s :
  (forall r s', quiet s s' -> Q r s') -> wp rtc_hw_init Q s.
Proof.
  intros HQ. unfold rtc_hw_init. st_prim. apply wp_sget.
  destruct (s_hw_ready s.1.1); st_prim; [by apply HQ|].
  apply wp_on_hw; [apply new_bus_kept|]. intros s1 H1. st_prim.
  destruct (negb (is_ok (i2c_new_master_bus _).1)); st_prim; [by apply HQ|].
  apply wp_sget. st_prim. apply wp_upd. st_prim.
  pose proof (quiet_trans _ _ _ H1 (quiet_bus true (s_rtc_dev s1.1.1) false s1)) as H2.
  apply wp_on_hw; [apply add_device_kept|]. intros s3 H3. st_prim.
  pose proof (quiet_trans _ _ _ H2 H3) as H4.
  destruct (negb (is_ok (i2c_master_bus_add_device _).1)); st_prim.
  - apply wp_on_hw; [apply del_bus_kept|]. intros s5 H5. st_prim. apply wp_upd. st_prim.
    apply HQ. eapply quiet_trans, quiet_bus. by eapply quiet_trans.
  - apply wp_upd. st_prim. apply HQ. by eapply quiet_trans, quiet_bus.
Qed.

Lemma wp_rtc_hw_deinit (Q : esp_err_t -> rtc_world -> Prop) s :
  (forall r s', quiet s s' -> Q r s') -> wp rtc_hw_deinit Q s.
Proof.
  intros HQ. unfold rtc_hw_deinit. st_prim. apply wp_sget. st_prim.
  assert (Hrest : forall err1 dev s1, quiet s s1 ->
    wp (let* bus := sget s_rtc_bus in
        let* err2 := if bus && negb dev then on_hw i2c_del_master_bus else ret ESP_OK in
        let bus := if is_ok err2 && negb dev then false else bus in
        let* ready := sget s_hw_ready in
        upd (set_bus bus dev (if negb dev && negb bus then false else ready)) ;;;
        ret (if is_ok err1 then err2 else err1)) Q s1).
  { intros err1 dev s1 H1. st_prim. apply wp_sget. st_prim.
    destruct (s_rtc_bus s1.1.1 && negb dev); st_prim.
    - apply wp_on_hw; [apply del_bus_kept|]. intros s2 H2. st_prim. cbv zeta. st_prim.
      apply wp_sget. st_prim. apply wp_upd. st_prim. apply HQ. eapply quiet_trans, quiet_bus. by eapply quiet_trans.
    - cbv zeta. st_prim. apply wp_sget. st_prim. apply wp_upd. st_prim.
      apply HQ. by eapply quiet_trans, quiet_bus. }
  destruct (s_rtc_dev s.1.1); st_prim.
  - apply wp_on_hw; [apply rm_device_kept|]. intros s1 H1. st_prim. by apply wp_unbind, Hrest.
  - by apply wp_unbind, Hrest.
Qed.

Lemma wp_rtc_hw_read_epoch (Q : option Z -> rtc_world -> Prop) s :
  (forall r s', quiet s s' -> Q r s') -> wp rtc_hw_read_epoch Q s.
Proof.
  intros HQ. unfold rtc_hw_read_epoch. st_prim. apply wp_on_hw; [apply receive_kept|].
  intros s1 H1. st_prim. by apply HQ.
Qed.

(** ** Texts without NUL *)

Lemma cstr_array n s : 0 ∉ s -> (length s < n)%nat ->
  cstr (array_of n s) = s /\ has_nul (array_of n s) = true.
Proof.
  intros Hs Hl. unfold array_of. destruct (n - length s)%nat eqn:E; [lia|]. cbn [replicate].
  split; [by apply cstr_app|]. unfold has_nul. rewrite existsb_app. cbn. by rewrite orb_true_r.
Qed.

Lemma uuid_no_nul s : device_identity_is_valid_uuid s = true -> 0 ∉ s.
Proof.
  intros Hv Hin. pose proof (valid_uuid_length s Hv) as Hl.
  unfold device_identity_is_valid_uuid in Hv. split_bools.
  apply list_elem_of_lookup in Hin as [i Hi]. pose proof (lookup_lt_Some _ _ _ Hi).
  match goal with H : forallb _ _ = true |- _ => rewrite forallb_forall in H; specialize (H i) end.
  assert (Hin : In i (seq 0 36)) by (apply in_seq; lia).
  match goal with H : In i _ -> _ |- _ => specialize (H Hin); unfold uuid_char_ok in H end.
  rewrite (nth_lookup_Some _ _ _ _ Hi) in *. by destruct (is_hyphen_index i).
Qed.

Lemma digits_no_nul l : Forall (fun c => is_digit c = true) l -> 0 ∉ l.
Proof. intros Hl Hin. rewrite Forall_forall in Hl. specialize (Hl 0 Hin). done. Qed.

Lemma dec_0_no_nul w z : 0 ∉ dec_0 w z.
Proof.
  assert (Hl : forall w l, 0 ∉ l -> 0 ∉ lpad w l).
  { intros w' l Hl Hin. unfold lpad in Hin. apply elem_of_app in Hin as [Hin|Hin]; [|done].
    apply elem_of_replicate in Hin as [? _]. done. }
  unfold dec_0. destruct (Z.ltb_spec z 0).
  - intros Hin. apply elem_of_cons in Hin as [?|Hin]; [done|]. revert Hin.
    apply Hl, digits_no_nul, dec_u_digits. lia.
  - apply Hl, digits_no_nul, dec_u_digits. lia.
Qed.

Lemma iso_utc_no_nul t : 0 ∉ iso_utc t.
Proof.
  unfold iso_utc. rewrite !not_elem_of_app. repeat split; try apply dec_0_no_nul;
    by apply (bool_decide_eq_true_1 _).
Qed.

Lemma format_epoch_text epoch :
  length (rtc_format_epoch epoch) = 25%nat /\ 0 ∉ rtc_format_epoch epoch.
Proof.
  unfold rtc_format_epoch. destruct (gmtime_r epoch) as [t|].
  - destruct (Z.eqb_spec (zlen (iso_utc t)) 25) as [Hl|].
    + split; [unfold zlen in Hl; lia|apply iso_utc_no_nul].
    + split; [done|by apply (bool_decide_eq_true_1 _)].
  - split; [done|by apply (bool_decide_eq_true_1 _)].
Qed.

(** The record of an accepted request is one the next boot loads, and stands
    for the event of this id and these times. *)
Lemma candidate_valid id before epoch :
  device_identity_is_valid_uuid id = true ->
  let r := make_candidate id (rtc_format_epoch before) (rtc_format_epoch epoch) in
  rtc_pending_record_valid r = true /\
  event_of r = RtcCorrectionEvent id (rtc_format_epoch before) (rtc_format_epoch epoch) (txt "pc").
Proof.
  intros Hid r. pose proof (valid_uuid_length id Hid) as Hl.
  destruct (format_epoch_text before) as [Hlb Hnb]. destruct (format_epoch_text epoch) as [Hle Hne].
  destruct (cstr_array 37 id (uuid_no_nul id Hid) ltac:(lia)) as [Hc1 _].
  destruct (cstr_array 32 _ Hnb ltac:(lia)) as [Hc2 Hn2].
  destruct (cstr_array 32 _ Hne ltac:(lia)) as [Hc3 Hn3].
  unfold rtc_pending_record_valid, event_of, r, make_candidate.
  cbn [magic version correctionId rec_before rec_after rec_source].
  rewrite Hc1, Hc2, Hc3, Hn2, Hn3, Hid, Hlb, Hle. done.
Qed.

(** ** Writing the chip *)

(** Everything but the clocks and the bus is as before. *)
Record kept (s s' : rtc_world) : Prop := Kept {
  kept_lock : s_rtc_lock s'.1.1 = s_rtc_lock s.1.1;
  kept_pending : s_pending s'.1.1 = s_pending s.1.1;
  kept_record : s_pending_record s'.1.1 = s_pending_record s.1.1;
  kept_card : s'.1.2 = s.1.2;
  kept_settings : s'.2 = s.2;
}.

Lemma quiet_kept s s' : quiet s s' -> kept s s'.
Proof. intros []. by split. Qed.

Lemma state_kept_trans s1 s2 s3 : kept s1 s2 -> kept s2 s3 -> kept s1 s3.
Proof. intros [] []. split; congruence. Qed.

Lemma wp_on_hw_kept {A} (m : st H A) (Q : A -> rtc_world -> Prop) s :
  (forall s', kept s s' -> hw s'.1.1 = (m (hw s.1.1)).2 -> Q (m (hw s.1.1)).1 s') ->
  wp (on_hw m) Q s.
Proof.
  intros HQ. unfold wp, on_hw. destruct (m (hw s.1.1)) as [x h] eqn:E. by apply HQ.
Qed.

Lemma write_payload_shape epoch p :
  rtc_write_payload epoch = Some p -> exists regs, p = BM8563_REG_SECONDS :: regs /\ length regs = 7%nat.
Proof.
  unfold rtc_write_payload. intros Hp. destruct (gmtime_r epoch); [|done].
  destruct (_ || _); [done|]. injection Hp as <-. by eexists.
Qed.

Lemma wp_rtc_hw_write_epoch epoch (Q : esp_err_t -> rtc_world -> Prop) s :
  (forall r s', kept s s' ->
     (r = ESP_OK -> rtc_write_payload epoch = Some (BM8563_REG_SECONDS :: chip_registers (hw s'.1.1))) ->
     Q r s') ->
  wp (rtc_hw_write_epoch epoch) Q s.
Proof.
  intros HQ. unfold rtc_hw_write_epoch.
  destruct (rtc_write_payload epoch) as [p|] eqn:Hp; [|by apply HQ].
  destruct (write_payload_shape _ _ Hp) as (regs & -> & Hl).
  st_prim. apply wp_on_hw_kept. intros s1 H1 _. st_prim.
  destruct (negb (is_ok (i2c_master_transmit _ _).1)) eqn:He1; st_prim.
  { apply HQ; [done|]. intros Hr. by rewrite Hr in He1. }
  apply wp_on_hw_kept. intros s2 H2 Hh2. st_prim. pose proof (state_kept_trans _ _ _ H1 H2) as H12.
  pose proof (transmit_time regs (hw s1.1.1) Hl) as Ht. rewrite <- Hh2 in Ht.
  destruct (i2c_master_transmit (BM8563_REG_SECONDS :: regs) _).1; cbn [is_ok negb]; st_prim;
    try (apply wp_on_hw_kept; intros s3 H3 _; st_prim; apply HQ; [by eapply state_kept_trans|done]).
  apply wp_on_hw; [apply (transmit_control_kept 0)|]. intros s3 H3.
  apply HQ; [eapply state_kept_trans; [exact H12|by apply quiet_kept]|].
  intros _. by rewrite (moved_registers _ _ _ H3), Ht.
Qed.

(** ** The correction *)

Lemma random16_shape (f : st H Z) h :
  length (random16 f h).1 = 16%nat /\ bytes_ok (random16 f h).1.
Proof.
  unfold random16, bind, ret. destruct (f h) as [w0 h0]. destruct (f h0) as [w1 h1].
  destruct (f h1) as [w2 h2]. destruct (f h2) as [w3 h3]. cbn [fst].
  split; [reflexivity|]. unfold bytes_ok. rewrite !Forall_app. split_and!; apply word_bytes_ok.
Qed.

Lemma random16_kept : clocks_kept (random16 esp_random).
Proof.
  intros h. unfold random16, bind, ret.
  pose proof (esp_random_kept h) as H0. destruct (esp_random h) as [w0 h0].
  pose proof (esp_random_kept h0) as H1. destruct (esp_random h0) as [w1 h1].
  pose proof (esp_random_kept h1) as H2. destruct (esp_random h1) as [w2 h2].
  pose proof (esp_random_kept h2) as H3. destruct (esp_random h2) as [w3 h3].
  cbn in *. destruct_and!. split; congruence.
Qed.

Lemma wp_rtc_make_correction_id (Q : option bytes -> rtc_world -> Prop) s :
  (forall id s', quiet s s' -> device_identity_is_valid_uuid id = true -> Q (Some id) s') ->
  wp rtc_make_correction_id Q s.
Proof.
  intros HQ. unfold rtc_make_correction_id. st_prim. apply wp_on_hw; [apply random16_kept|].
  intros s1 H1. st_prim. destruct (random16_shape esp_random (hw s.1.1)) as [Hl Hb].
  rewrite format_uuid_text by done. apply HQ; [done|].
  apply uuid_text_valid; [by rewrite length_stamp_v4|by apply stamp_v4_ok].
Qed.

Lemma wp_before_epoch (Q : Z -> rtc_world -> Prop) s :
  (forall e s', quiet s s' -> Q e s') -> wp before_epoch Q s.
Proof.
  intros HQ. unfold before_epoch. st_prim. apply wp_rtc_hw_read_epoch. intros r s1 H1.
  destruct r; st_prim; [by apply HQ|]. apply wp_on_hw; [apply gettimeofday_kept|].
  intros s2 H2. st_prim. apply HQ. by eapply quiet_trans.
Qed.

(** The settings after a commit that may have failed: at most the pending
    record was set. *)
Definition settings_at_most (s s' : rtc_world) : Prop :=
  unlocked s'.2 /\ exists v, transition pending_key v s.2 s'.2.

Lemma same_at_most s s' : unlocked s.2 -> s'.2 = s.2 -> settings_at_most s s'.
Proof. intros Hu He. split; [by rewrite He|]. exists None. apply same_transition. by rewrite He. Qed.

(** What a correction that parsed to [epoch] ends with. *)
Record corrected (epoch : Z) (s s' : rtc_world) (r : rtc_correction_result_t) : Prop := Corrected {
  corrected_lock : s_rtc_lock s'.1.1 = s_rtc_lock s.1.1;
  corrected_card : s'.1.2 = s.1.2;
  corrected_settings : settings_at_most s s';
  (** while an earlier correction is pending: refused, nothing touched *)
  corrected_busy : s_pending s.1.1 = true -> r = RTC_CORRECTION_BUSY;
  corrected_busy_quiet : r = RTC_CORRECTION_BUSY -> quiet s s';
  (** success: the chip, the system clock and the durable record *)
  corrected_ok : r = RTC_CORRECTION_OK ->
    rtc_write_payload epoch = Some (BM8563_REG_SECONDS :: chip_registers (hw s'.1.1)) /\
    system_clock (hw s'.1.1) = epoch /\
    s_pending s'.1.1 = true /\
    rtc_pending_record_valid (s_pending_record s'.1.1) = true /\
    after (event_of (s_pending_record s'.1.1)) = rtc_format_epoch epoch /\
    view s'.2 pending_key = Some (NvsBlob (RECORD_SIZE, s_pending_record s'.1.1)) /\
    durable s'.2 pending_key = Some (NvsBlob (RECORD_SIZE, s_pending_record s'.1.1));
  (** any other result: no pending record is taken on *)
  corrected_failed : r <> RTC_CORRECTION_OK ->
    s_pending s'.1.1 = s_pending s.1.1 /\ s_pending_record s'.1.1 = s_pending_record s.1.1;
  corrected_result : r = RTC_CORRECTION_OK \/ r = RTC_CORRECTION_BUSY \/
    r = RTC_CORRECTION_INTERNAL_ERROR;
}.

Lemma corrected_error epoch s s' :
  kept s s' -> unlocked s.2 -> s_pending s.1.1 = false ->
  corrected epoch s s' RTC_CORRECTION_INTERNAL_ERROR.
Proof.
  intros [] Hu Hp. split; try done; try congruence; [by apply same_at_most|auto].
Qed.

Lemma wp_commit_pending rec e :
  unlocked e ->
  wp (commit_pending rec) (fun r e' =>
    unlocked e' /\ transition pending_key (Some (NvsBlob (RECORD_SIZE, rec))) e e' /\
    (r = ESP_OK -> view e' pending_key = Some (NvsBlob (RECORD_SIZE, rec)) /\
       durable e' pending_key = Some (NvsBlob (RECORD_SIZE, rec)))) e.
Proof.
  intros Hu. unfold commit_pending, pending_key. apply wp_nvs_transaction; [|apply set_ok|done].
  intros n. apply set_effect.
Qed.

Lemma wp_apply_locked epoch s :
  unlocked s.2 ->
  wp (apply_locked epoch (rtc_format_epoch epoch)) (fun r s' => corrected epoch s s' r) s.
Proof.
  intros Hu. unfold apply_locked. st_prim. apply wp_sget.
  destruct (s_pending s.1.1) eqn:Hp.
  { st_prim. split; try done; [by apply same_at_most|auto]. }
  st_prim. apply wp_sget. st_prim.
  assert (Hinit : forall (Q : esp_err_t -> rtc_world -> Prop),
    (forall r s', quiet s s' -> Q r s') ->
    wp (if s_hw_ready s.1.1 then ret ESP_OK else rtc_hw_init) Q s).
  { intros Q HQ. destruct (s_hw_ready s.1.1); [st_prim; by apply HQ|by apply wp_rtc_hw_init]. }
  apply Hinit. clear Hinit. intros r s1 H1.
  destruct (negb (is_ok r)); st_prim; [apply corrected_error; [by apply quiet_kept|done..]|].
  apply wp_before_epoch. intros be s2 H2. st_prim. apply wp_rtc_make_correction_id.
  intros id s3 H3 Hid. st_prim.
  pose proof (quiet_kept _ _ (quiet_trans _ _ _ (quiet_trans _ _ _ H1 H2) H3)) as K3.
  clear H1 H2 H3. apply wp_rtc_hw_write_epoch. intros r4 s4 K4 Hw.
  pose proof (state_kept_trans _ _ _ K3 K4) as K04.
  destruct r4; cbn [is_ok negb]; st_prim; try (by apply corrected_error).
  specialize (Hw eq_refl). apply wp_on_hw_kept. intros s5 K5 Hh5. st_prim.
  pose proof (state_kept_trans _ _ _ K04 K5) as K05.
  pose proof (settimeofday_sets epoch (hw s4.1.1)) as Hset.
  pose proof (settimeofday_registers epoch (hw s4.1.1)) as Hreg. rewrite <- Hh5 in Hset, Hreg.
  destruct (settimeofday _ _).1; cbn [negb]; st_prim; [|by apply corrected_error].
  specialize (Hset eq_refl).
  apply wp_on_nvs. eapply wp_mono; [apply wp_commit_pending; by rewrite (kept_settings _ _ K05)|].
  intros r6 e6 (Hu6 & Htr & Hok6). rewrite (kept_settings _ _ K05) in Htr.
  set (rec := make_candidate id (rtc_format_epoch be) (rtc_format_epoch epoch)) in *.
  destruct K05 as [L5 P5 R5 C5 S5].
  destruct r6; cbn [is_ok negb]; st_prim;
    try (split; cbn; try done; try congruence; [split; [done|eauto]|auto]).
  apply wp_upd. st_prim. destruct (candidate_valid id be epoch Hid) as [Hvalid Hev].
  destruct (Hok6 eq_refl) as [Hv6 Hd6]. rewrite Hreg in Hw || rewrite <- Hreg in Hw.
  split; cbn; try done; try congruence; [split; [done|eauto]| |auto].
  intros _. fold rec in Hvalid, Hev. split_and!; try done.
  change (after (event_of rec) = rtc_format_epoch epoch). by rewrite Hev.
Qed.

(** C17: SET_TIME touches nothing before it is sure of the request, and leaves
    all three clocks of the device in agreement: a request that is malformed,
    out of range or meets a pending correction changes neither the chip, nor
    the system clock, nor the settings; a success means the chip and the
    system clock hold the requested instant, and a record that the next boot
    can load, naming the normalized instant, is durable; the card is never
    touched, at most the pending setting changes, and both mutexes are free
    again. *)
Theorem apply_outcomes text size s :
  s_rtc_lock s.1.1 = MutexFree -> unlocked s.2 ->
  let '((r, out), s') := rtc_correction_apply text size s in
  s_rtc_lock s'.1.1 = MutexFree /\ s'.1.2 = s.1.2 /\ settings_at_most s s' /\
  (r = RTC_CORRECTION_INVALID_ARGS \/ r = RTC_CORRECTION_RANGE_ERROR \/
   r = RTC_CORRECTION_BUSY -> moved MutexFree s s') /\
  (s_pending s.1.1 = true -> r <> RTC_CORRECTION_OK) /\
  (r = RTC_CORRECTION_OK -> exists epoch,
     rtc_parse_iso8601 text = (RTC_CORRECTION_OK, Some (epoch, out)) /\
     rtc_write_payload epoch = Some (BM8563_REG_SECONDS :: chip_registers (hw s'.1.1)) /\
     system_clock (hw s'.1.1) = epoch /\
     s_pending s'.1.1 = true /\ rtc_pending_record_valid (s_pending_record s'.1.1) = true /\
     after (event_of (s_pending_record s'.1.1)) = out /\
     view s'.2 pending_key = Some (NvsBlob (RECORD_SIZE, s_pending_record s'.1.1)) /\
     durable s'.2 pending_key = Some (NvsBlob (RECORD_SIZE, s_pending_record s'.1.1))).
Proof.
  clear parse_object. intros Hl Hu.
  enough (Hwp : wp (rtc_correction_apply text size) (fun ro s' =>
    s_rtc_lock s'.1.1 = MutexFree /\ s'.1.2 = s.1.2 /\ settings_at_most s s' /\
    (ro.1 = RTC_CORRECTION_INVALID_ARGS \/ ro.1 = RTC_CORRECTION_RANGE_ERROR \/
     ro.1 = RTC_CORRECTION_BUSY -> moved MutexFree s s') /\
    (s_pending s.1.1 = true -> ro.1 <> RTC_CORRECTION_OK) /\
    (ro.1 = RTC_CORRECTION_OK -> exists epoch,
       rtc_parse_iso8601 text = (RTC_CORRECTION_OK, Some (epoch, ro.2)) /\
       rtc_write_payload epoch = Some (BM8563_REG_SECONDS :: chip_registers (hw s'.1.1)) /\
       system_clock (hw s'.1.1) = epoch /\
       s_pending s'.1.1 = true /\ rtc_pending_record_valid (s_pending_record s'.1.1) = true /\
       after (event_of (s_pending_record s'.1.1)) = ro.2 /\
       view s'.2 pending_key = Some (NvsBlob (RECORD_SIZE, s_pending_record s'.1.1)) /\
       durable s'.2 pending_key = Some (NvsBlob (RECORD_SIZE, s_pending_record s'.1.1)))) s).
  { unfold wp in Hwp. by destruct (rtc_correction_apply text size s) as [[r out] s']. }
  assert (Hq : moved MutexFree s s) by (split; done).
  assert (Hs : settings_at_most s s) by (by apply same_at_most).
  unfold rtc_correction_apply. destruct (_ <? _); [st_prim; by split_and!|].
  destruct (rtc_parse_iso8601 text) as [r [[epoch n]|]] eqn:Hp.
  2: { destruct r; [by apply parse_ok_some in Hp|..]; st_prim; by split_and!. }
  destruct r; st_prim; cbn; try (by split_and!).
  destruct (parse_ok_finish _ _ _ Hp) as [e He].
  destruct (finish_parse_ok _ _ _ He) as (_ & -> & ->). clear He.
  apply wp_sget. rewrite Hl. cbn [mutex_null]. st_prim.
  apply wp_take_rtc_lock; [done|]. intros b s1 H1. st_prim. destruct b; cbn [negb]; st_prim.
  2: { destruct H1. cbn. split_and!; try done; by apply same_at_most. }
  assert (Hu1 : unlocked s1.2) by (by rewrite (moved_settings _ _ _ H1)).
  eapply wp_mono; [by apply wp_apply_locked|]. intros r s2 [L2 C2 S2 B2 Q2 O2 F2 R2]. st_prim.
  apply wp_upd. st_prim. cbn. destruct H1 as [L1 P1 Re1 G1 K1 C1 E1]. rewrite L2, L1, C2, C1.
  split_and!; try done.
  - destruct S2 as [Hu2 [v Hv]]. split; [done|]. exists v. cbn. by rewrite E1 in Hv.
  - intros Hr. destruct Q2; [destruct R2 as [->|[->| ->]]; naive_solver|].
    split; cbn; try congruence. by rewrite L2, L1.
  - intros Hpend. rewrite P1 in B2. by rewrite (B2 Hpend).
  - intros ->. exists e. rewrite bool_decide_eq_true_2 by done. destruct (O2 eq_refl).
    split_and!; naive_solver.
Qed.

(** ** The boot *)

(** A reset: the statics start over, the platform's devices and the flash do
    not. *)
Definition rtc_reset (s : rtc_world) : rtc_world :=
  ((RtcState MutexNull false false false false zero_record (hw s.1.1), s.1.2), reboot s.2).

Lemma load_blob_harmless : harmless load_blob.
Proof.
  intros n. unfold load_blob, bind. pose proof (get_blob_harmless pending_key n) as Hh.
  by destruct (nvs_get_blob pending_key n).
Qed.

(** What a load found, in a store with this view. *)
Definition loaded_ok (v : option (nvs_value rtc_blob)) (o : option rtc_pending_record_t) : Prop :=
  match o with
  | None => forall b, v <> Some (NvsBlob b)
  | Some rec => v = Some (NvsBlob (RECORD_SIZE, rec)) /\ rtc_pending_record_valid rec = true
  end.

Lemma wp_load_pending e (Q : _ -> nvs_env N -> Prop) :
  unlocked e ->
  (forall r e', same_settings e e' -> unlocked e' ->
     (forall o, r = inr o -> loaded_ok (view e pending_key) o) ->
     (forall err, r = inl err -> err <> ESP_OK) -> Q r e') ->
  wp rtc_load_pending_locked Q e.
Proof.
  intros Hu HQ. apply wp_nvs_reading; [apply load_blob_harmless|done|].
  intros e' He' Hu'. split_and!.
  - intros err Herr. apply HQ; [done..|by intros ? [= ->]].
  - intros Hnone. apply HQ; [done..| |done]. intros o [= <-]. cbn. unfold pending_key. by rewrite Hnone.
  - intros n Hn. apply HQ; [done..| |].
    2: { intros err. unfold load_blob, bind, ret.
         destruct (nvs_get_blob pending_key n) as [[[] [[size rec]|]] n']; cbn; try naive_solver.
         destruct (_ || _); naive_solver. }
    intros o Ho. rewrite <- Hn. unfold load_blob, bind in Ho.
    pose proof (get_blob_ok pending_key n) as Hok. pose proof (get_blob_missing pending_key n) as Hmiss.
    destruct (nvs_get_blob pending_key n) as [[err b] n']. cbn in *.
    destruct err; try done.
    + destruct (Hok b eq_refl) as ([size rec] & -> & Hv).
      destruct (Z.eqb_spec size RECORD_SIZE) as [->|]; cbn in Ho; [|done].
      destruct (rtc_pending_record_valid rec) eqn:Hval; cbn in Ho; [|done].
      injection Ho as <-. by split.
    + injection Ho as <-. cbn. intros x. by apply (Hmiss b eq_refl).
Qed.

(** The pending correction survives a reset: the next boot's
    initialization never changes a setting or the card, and when it succeeds,
    SET_TIME is refused from then on exactly if a record is durable, and the
    record in memory is the durable one. *)
Theorem init_restores_pending s :
  let '(r, s') := rtc_correction_init (rtc_reset s) in
  durable s'.2 = durable s.2 /\ view s'.2 = durable s.2 /\ s'.1.2 = s.1.2 /\
  unlocked s'.2 /\
  (r = ESP_OK -> s_rtc_lock s'.1.1 = MutexFree /\
     ((s_pending s'.1.1 = true /\ rtc_pending_record_valid (s_pending_record s'.1.1) = true /\
       durable s.2 pending_key = Some (NvsBlob (RECORD_SIZE, s_pending_record s'.1.1))) \/
      (s_pending s'.1.1 = false /\ forall b, durable s.2 pending_key <> Some (NvsBlob b)))).
Proof.
  set (s0 := rtc_reset s).
  assert (H0 : same_settings s0.2 s0.2 /\ view s0.2 = durable s.2 /\ durable s0.2 = durable s.2).
  { unfold s0, rtc_reset, view, durable. cbn. by rewrite reboot_view, reboot_durable. }
  destruct H0 as (_ & Hv0 & Hd0). apply wp_run. unfold rtc_correction_init. st_prim.
  apply wp_on_nvs, wp_recorder_nvs_init; [by left|]. intros r e1 [Hv1 Hd1] Hu1 _.
  rewrite Hv0 in Hv1. rewrite Hd0 in Hd1. st_prim.
  destruct (negb (is_ok r)) eqn:Hr; st_prim; [split_and!; try done; by intros ->|]. clear Hr.
  apply wp_sget. cbn [s0 rtc_reset s_rtc_lock mutex_null fst snd]. st_prim.
  apply wp_on_hw; [apply rtc_mutex_create_kept|]. intros s2 [L2 P2 R2 _ _ C2 E2]. st_prim.
  cbn [fst snd] in *.
  destruct (negb (rtc_mutex_create _).1); st_prim; [rewrite E2; split_and!; done|].
  apply wp_upd. st_prim. apply wp_take_rtc_lock; [done|].
  intros b s3 [L3 P3 R3 _ _ C3 E3]. cbn [fst snd set_lock s_rtc_lock s_pending s_pending_record] in *.
  st_prim. destruct b; cbn [negb]; st_prim; [|rewrite E3, E2, C3, C2; split_and!; done].
  apply wp_on_nvs, wp_load_pending; [by rewrite E3, E2|].
  intros loaded e4 [Hv4 Hd4] Hu4 Hl He. rewrite E3, E2 in *. rewrite Hv1 in *. rewrite Hd1 in *. st_prim.
  destruct loaded as [err|[rec|]]; st_prim.
  - apply wp_upd. st_prim. cbn. rewrite C3, C2. split_and!; try done. intros ->. by destruct (He _ eq_refl).
  - apply wp_upd. st_prim. apply wp_upd. st_prim. cbn. rewrite C3, C2, L3.
    destruct (Hl _ eq_refl). split_and!; try done. intros _. split; [done|]. left. by split_and!.
  - apply wp_upd. st_prim. apply wp_upd. st_prim. cbn. rewrite C3, C2, L3.
    split_and!; try done. intros _. split; [done|]. right. split; [done|]. apply (Hl _ eq_refl).
Qed.

(** ** The flush *)

Lemma wp_clear_pending e :
  unlocked e ->
  wp rtc_correction_clear_pending_nvs (fun r e' =>
    unlocked e' /\ transition pending_key None e e' /\
    (r = ESP_OK -> view e' pending_key = None /\ durable e' pending_key = None)) e.
Proof.
  intros Hu. unfold rtc_correction_clear_pending_nvs, pending_key. apply wp_nvs_transaction; [| |done];
    intros n; unfold bind; pose proof (erase_effect pending_key n) as He;
    pose proof (erase_ok pending_key n) as Ho; unfold pending_key in *;
    destruct (nvs_erase_key _ n) as [[] n']; cbn in *; auto; done.
Qed.

Lemma wp_sync_clock (Q : unit -> rtc_world -> Prop) s :
  (forall s', kept s s' -> Q tt s') -> wp rtc_sync_system_clock_best_effort_locked Q s.
Proof.
  intros HQ. unfold rtc_sync_system_clock_best_effort_locked. st_prim.
  assert (Hend : forall s1, kept s s1 ->
    wp (let* _ := rtc_hw_deinit in ret tt) Q s1).
  { intros s1 H1. st_prim. apply wp_rtc_hw_deinit. intros r s2 H2. st_prim. apply HQ.
    eapply state_kept_trans; [done|by apply quiet_kept]. }
  apply wp_rtc_hw_init. intros r s1 H1. apply quiet_kept in H1.
  destruct (is_ok r); st_prim; [|by apply wp_unbind, Hend].
  apply wp_rtc_hw_read_epoch. intros o s2 H2. apply quiet_kept in H2.
  pose proof (state_kept_trans _ _ _ H1 H2). destruct o; st_prim; [|by apply wp_unbind, Hend].
  apply wp_on_hw_kept. intros s3 H3 _. st_prim. apply wp_unbind, Hend. by eapply state_kept_trans.
Qed.

(** The recovery of an event on the card, with the settings behind it. *)
Definition settled_log (path : bytes) (ev : rtc_correction_event_t) (ls : list bytes)
    (d d' : disk) : Prop :=
  d' = <[path := NFile (List.concat ls ++
    (if existsb (matches parse_object ev) ls then [] else event_line ev))]> d.

Record recovered_card (path : bytes) (ev : rtc_correction_event_t) (ls : list bytes)
    (s s' : rtc_world) (r : esp_err_t) : Prop := RecoveredCard {
  rc_statics : s'.1.1 = s.1.1;
  rc_during : during (log_state ev path (w_disk s.1.2) (List.concat ls)) s.1.2 s'.1.2;
  rc_unlocked : unlocked s'.2;
  rc_settings : transition pending_key None s.2 s'.2;
  (** settings change only behind the event in the log *)
  rc_order : s'.2 = s.2 \/ settled_log path ev ls (w_disk s.1.2) (w_disk s'.1.2);
  rc_ok : r = ESP_OK -> settled_log path ev ls (w_disk s.1.2) (w_disk s'.1.2) /\
    view s'.2 pending_key = None /\ durable s'.2 pending_key = None;
}.

Lemma wp_recover path ev ls tail s :
  event_args_ok path ev = true -> unlocked s.2 ->
  log_at path (w_disk s.1.2) ls tail -> honest_faults s.1.2 ->
  wp (on_card (rtc_correction_recover_event parse_object path ev rtc_correction_clear_pending_nvs))
    (fun r s' => recovered_card path ev ls s s' r) s.
Proof.
  intros Ha Hu Hlog Hh. unfold wp, on_card, rtc_correction_recover_event. rewrite Ha. cbn [negb].
  pose proof (wp_make_event_durable parse_object ev path ls tail s.1.2 Hlog Hh) as Hw.
  pose proof (wp_clear_pending s.2 Hu) as Hc. unfold wp in Hw, Hc.
  unfold bind, on_files, on_client. cbn [fst snd].
  destruct (make_event_durable parse_object path ev s.1.2) as [ok w']. cbn in Hw.
  destruct Hw as (Hdur & Hok & _). destruct ok; cbn.
  - destruct (rtc_correction_clear_pending_nvs s.2) as [err e']. cbn in Hc |- *.
    destruct Hc as (Hu' & Ht & Hcl). destruct (Hok eq_refl) as (_ & Hd & _).
    split; cbn; try done; [by right|]. intros Hr. by destruct (Hcl Hr).
  - split; cbn; try done; [by apply same_transition|by left].
Qed.

(** C16: flushing a pending correction is exactly-once and ordered: for a valid
    pending record, under any faults, the card goes only through states where
    the log keeps its complete lines and gains at most a part of this event's
    line; success means the event is in the log and the record is gone, from
    memory and durably; a failure keeps it pending in memory; and the durable
    record never changes unless the event is in the log first. *)
Theorem flush_exactly_once path ls tail s :
  s_rtc_lock s.1.1 = MutexFree -> unlocked s.2 -> path <> [] ->
  s_pending s.1.1 = true -> rtc_pending_record_valid (s_pending_record s.1.1) = true ->
  log_at path (w_disk s.1.2) ls tail -> honest_faults s.1.2 ->
  let ev := event_of (s_pending_record s.1.1) in
  let '(r, s') := rtc_correction_flush_pending_event path s in
  s_rtc_lock s'.1.1 = MutexFree /\ unlocked s'.2 /\
  during (log_state ev path (w_disk s.1.2) (List.concat ls)) s.1.2 s'.1.2 /\
  (r = ESP_OK -> s_pending s'.1.1 = false /\
     settled_log path ev ls (w_disk s.1.2) (w_disk s'.1.2) /\
     view s'.2 pending_key = None /\ durable s'.2 pending_key = None) /\
  (r <> ESP_OK -> s_pending s'.1.1 = true /\ s_pending_record s'.1.1 = s_pending_record s.1.1) /\
  (durable s'.2 pending_key = durable s.2 pending_key \/
   settled_log path ev ls (w_disk s.1.2) (w_disk s'.1.2)).
Proof.
  intros Hl Hu Hpath Hp Hval Hlog Hh ev. apply wp_run.
  unfold rtc_correction_flush_pending_event. st_prim. apply wp_sget.
  rewrite Hl, bool_decide_eq_false_2 by done. cbn [orb mutex_null]. st_prim.
  assert (Hrefl : during (log_state ev path (w_disk s.1.2) (List.concat ls)) s.1.2 s.1.2)
    by (apply during_refl; by left).
  apply wp_take_rtc_lock; [done|]. intros b s1 [L1 P1 R1 _ _ C1 E1]. st_prim.
  destruct b; cbn [negb]; st_prim.
  2: { rewrite C1, E1, P1, R1. split_and!; try done. by left. }
  apply wp_sync_clock. intros s2 [L2 P2 R2 C2 E2]. st_prim. apply wp_sget.
  rewrite P2, P1, Hp. cbn [negb]. st_prim. apply wp_sget. rewrite R2, R1. fold ev. st_prim.
  rewrite C1 in C2. rewrite E1 in E2.
  eapply wp_mono; [apply (wp_recover path ev ls tail); rewrite ?C2, ?E2; try done|].
  { unfold event_args_ok. rewrite bool_decide_eq_false_2 by done. cbn.
    unfold rtc_pending_record_valid in Hval. repeat (destruct (_ || _); [done|]).
    split_bools. by apply bool_decide_eq_true_2. }
  intros r s3 [S3 D3 U3 T3 O3 K3]. rewrite C2 in D3, O3, K3. rewrite E2 in T3, O3. st_prim.
  destruct (is_ok r) eqn:Hr; st_prim.
  - destruct r; try done. apply wp_upd. st_prim. apply wp_upd. st_prim. cbn.
    destruct (K3 eq_refl) as (? & ? & ?). rewrite S3, L2, L1.
    split_and!; try done. by right.
  - apply wp_upd. st_prim. cbn. rewrite S3, L2, L1, P2, P1, R2, R1.
    split_and!; try done; [by intros ->|]. destruct O3 as [-> | ?]; [by left|by right].
Qed.

(** ** The interface WakeRecovery relies on *)

#[export] Instance rtc_flush : RtcFlush (rtc_state H * world) N :=
  {| flush_pending_event := Some rtc_correction_flush_pending_event |}.

Lemma armed_not_pending : armed_key <> pending_key.
Proof. discriminate. Qed.

(** The recovery, as the settings see it. *)
Lemma wp_recover_settings path ev (Q : esp_err_t -> rtc_world -> Prop) s :
  unlocked s.2 ->
  (forall r s', unlocked s'.2 -> transition pending_key None s.2 s'.2 -> Q r s') ->
  wp (on_card (rtc_correction_recover_event parse_object path ev rtc_correction_clear_pending_nvs))
    Q s.
Proof.
  intros Hu HQ. unfold wp, on_card, rtc_correction_recover_event.
  destruct (negb (event_args_ok _ _)); [apply HQ; [done|by apply same_transition]|].
  unfold bind, on_files, on_client. cbn [fst snd].
  destruct (make_event_durable _ _ _ s.1.2) as [ok w']. destruct ok.
  - pose proof (wp_clear_pending s.2 Hu) as Hc. unfold wp in Hc. cbn [snd].
    destruct (rtc_correction_clear_pending_nvs s.2) as [err e']. cbn in Hc |- *.
    destruct Hc as (U & T & _). by apply HQ.
  - apply HQ; [done|by apply same_transition].
Qed.

(** Settings of other components after the flush. *)
Lemma wp_flush_settings path s :
  unlocked s.2 ->
  wp (rtc_correction_flush_pending_event path) (fun _ (s' : rtc_world) =>
    unlocked s'.2 /\ transition pending_key None s.2 s'.2) s.
Proof.
  intros Hu. assert (Hsame : forall s' : rtc_world, s'.2 = s.2 -> unlocked s'.2 /\ transition pending_key None s.2 s'.2).
  { intros s' ->. split; [done|]. by apply same_transition. }
  unfold rtc_correction_flush_pending_event. st_prim. apply wp_sget.
  destruct (_ || _); st_prim; [by apply Hsame|].
  unfold take_rtc_lock. st_prim. apply wp_on_hw_kept. intros s1 K1 _. st_prim.
  destruct (rtc_mutex_take _).1; st_prim; [apply wp_upd; st_prim|by apply Hsame, K1].
  cbn [negb]. st_prim. apply wp_sync_clock. intros s2 K2. st_prim. apply wp_sget.
  assert (E2 : s2.2 = s.2) by (destruct K1, K2; cbn in *; congruence).
  destruct (negb _); st_prim; [apply wp_upd; st_prim; by apply Hsame|].
  apply wp_sget. st_prim. apply wp_recover_settings; [by rewrite E2|].
  intros r s3 U3 T3. rewrite E2 in T3. st_prim.
  destruct (is_ok r); st_prim; [apply wp_upd; st_prim|]; apply wp_upd; st_prim; done.
Qed.

#[export] Instance rtc_flush_laws : RtcFlushLaws (rtc_state H * world) N rtc_blob.
Proof.
  split. intros f path r e [= <-] Hu. pose proof (wp_flush_settings path (r, e) Hu) as Hw.
  unfold wp in Hw. destruct (rtc_correction_flush_pending_event path (r, e)) as [x [r' e']].
  cbn in *. destruct Hw as (Hu' & Hv & Hd). unfold current, next_boot. split_and!; [done| |].
  - destruct (Hv armed_key) as [-> |[Hk _]]; [done|]. by destruct armed_not_pending.
  - destruct (Hd armed_key) as [-> |[-> |[Hk _]]]; [by left|by right|by destruct armed_not_pending].
Qed.
End rtc.

(** ** The reference platform: a chip whose calls all succeed *)
Module ReferenceChip.

Record chip := Chip { regs : bytes; clk : Z; seed : Z }.

(** A write from the seconds register on. *)
Definition transmit (data : bytes) (c : chip) : chip :=
  match data with
  | r :: new => if r =? BM8563_REG_SECONDS then Chip new (clk c) (seed c) else c
  | [] => c
  end.

#[global] Instance chip_platform : RtcPlatform chip := {
  rtc_mutex_create := ret true;
  rtc_mutex_take := ret true;
  i2c_new_master_bus := ret ESP_OK;
  i2c_master_bus_add_device := ret ESP_OK;
  i2c_master_bus_rm_device := ret ESP_OK;
  i2c_del_master_bus := ret ESP_OK;
  i2c_master_transmit := fun data c => (ESP_OK, transmit data c);
  i2c_master_transmit_receive := fun _ n c => ((ESP_OK, take n (regs c)), c);
  gettimeofday := fun c => (Some (clk c), c);
  settimeofday := fun t c => (true, Chip (regs c) t (seed c));
  esp_random := fun c => (seed c, Chip (regs c) (clk c) (u32 (seed c * 69069 + 1)));
  chip_registers := regs;
  system_clock := clk;
}.

#[global] Instance chip_laws : RtcPlatformLaws chip.
Proof. split; try done. Qed.

End ReferenceChip.

(** ** Witnesses *)

Definition blank_settings : nvs_env (ReferenceNvs.store rtc_blob) :=
  NvsEnv MutexFree true (ReferenceNvs.Store (fun _ => None) (fun _ => None) []).

Definition idle : rtc_world (H := ReferenceChip.chip) (N := ReferenceNvs.store rtc_blob) :=
  ((RtcState MutexFree false false false false zero_record
      (ReferenceChip.Chip (replicate 7 0) 0 305419896), clean_world ∅), blank_settings).

Definition request : bytes := txt "2024-02-29T23:59:59.250+09:00".

Lemma apply_outcomes_witness :
  (rtc_correction_apply request 32 idle).1.1 = RTC_CORRECTION_OK /\
  system_clock (hw (rtc_correction_apply request 32 idle).2.1.1) = 1709218799.
Proof.
  assert (Hr : (rtc_correction_apply request 32 idle).1.1 = RTC_CORRECTION_OK)
    by (vm_compute; reflexivity).
  assert (Hp : rtc_parse_iso8601 request =
    (RTC_CORRECTION_OK, Some (1709218799, txt "2024-02-29T14:59:59+00:00"))) by (vm_compute; reflexivity).
  split; [exact Hr|].
  pose proof (apply_outcomes request 32 idle eq_refl (or_intror eq_refl)) as H.
  destruct (rtc_correction_apply request 32 idle) as [[r out] s']. cbn in Hr.
  destruct H as (_ & _ & _ & _ & _ & H). destruct (H Hr) as (epoch & He & _ & Hc & _).
  rewrite Hp in He. injection He as <- _. exact Hc.
Defined.

(** After the request of the previous witness, on an empty card. *)
Definition corrected_state : rtc_world (H := ReferenceChip.chip) (N := ReferenceNvs.store rtc_blob) :=
  (rtc_correction_apply request 32 idle).2.

Lemma flush_exactly_once_witness :
  s_pending corrected_state.1.1 = true /\
  let '(r, s') := rtc_correction_flush_pending_event sample_parse log_path corrected_state in
  r = ESP_OK /\ s_pending s'.1.1 = false.
Proof.
  assert (Hp : s_pending corrected_state.1.1 = true) by (vm_compute; reflexivity).
  split; [exact Hp|].
  assert (Hlog : log_at log_path (w_disk corrected_state.1.2) [] []).
  { split; [right; split; [vm_compute; reflexivity|by split]|].
    split; [constructor|by apply not_elem_of_nil]. }
  pose proof (flush_exactly_once sample_parse log_path [] [] corrected_state
    ltac:(vm_compute; reflexivity) ltac:(right; vm_compute; reflexivity) ltac:(discriminate) Hp
    ltac:(vm_compute; reflexivity) Hlog ltac:(vm_compute; constructor)) as H.
  assert (Hr : (rtc_correction_flush_pending_event sample_parse log_path corrected_state).1 = ESP_OK)
    by (vm_compute; reflexivity).
  destruct (rtc_correction_flush_pending_event _ _ _) as [r s']. cbn in Hr.
  split; [exact Hr|]. destruct H as (_ & _ & _ & H & _). apply H, Hr.
Defined.

Lemma init_restores_pending_witness :
  let '(r, s') := rtc_correction_init (rtc_reset corrected_state) in
  r = ESP_OK /\ s_pending s'.1.1 = true.
Proof.
  pose proof (init_restores_pending corrected_state) as H.
  assert (Hr : (rtc_correction_init (rtc_reset corrected_state)).1 = ESP_OK)
    by (vm_compute; reflexivity).
  assert (Hd : durable corrected_state.2 pending_key =
    Some (NvsBlob (RECORD_SIZE, s_pending_record corrected_state.1.1))) by (vm_compute; reflexivity).
  destruct (rtc_correction_init (rtc_reset corrected_state)) as [r s']. cbn in Hr.
  split; [exact Hr|]. destruct H as (_ & _ & _ & _ & H).
  destruct (H Hr) as (_ & [(Hp & _)|(_ & Hn)]); [exact Hp|]. exfalso. exact (Hn _ Hd).
Defined.
