(* ===== verification/CdcCore.v ===== *)
(** * CdcCore: the portable USB CDC request parser and dispatcher

    Models [usb_cdc_protocol_core.c]: the identifier and UTF-8 checks, the
    bounded line framer, and [usb_cdc_protocol_process_line], which decodes one
    request line, runs the one callback the command names and renders the
    response.  The JSON parser is cJSON, which is not part of the repository:
    it is the class [Cjson], and the host's callbacks are the fields of the
    configuration, over a state [S] of their own. *)

From S2P Require Import Prelude Monad RecorderConfig.

(** ** [usb_cdc_protocol.h] *)

Definition USB_CDC_PROTOCOL_MAJOR : Z := 1.
Definition USB_CDC_PROTOCOL_MAX_LINE_BYTES : Z := 1024.
Definition USB_CDC_PROTOCOL_MAX_ID_BYTES : Z := 64.
Definition USB_CDC_PROTOCOL_TIME_BYTES : Z := 32.

Definition USB_CDC_ERROR_INVALID_JSON := txt "INVALID_JSON".
Definition USB_CDC_ERROR_INVALID_REQUEST := txt "INVALID_REQUEST".
Definition USB_CDC_ERROR_REQUEST_TOO_LARGE := txt "REQUEST_TOO_LARGE".
Definition USB_CDC_ERROR_UNKNOWN_COMMAND := txt "UNKNOWN_COMMAND".
Definition USB_CDC_ERROR_INVALID_ARGS := txt "INVALID_ARGS".
Definition USB_CDC_ERROR_RANGE_ERROR := txt "RANGE_ERROR".
Definition USB_CDC_ERROR_BUSY := txt "BUSY".
Definition USB_CDC_ERROR_INTERNAL_ERROR := txt "INTERNAL_ERROR".

Inductive usb_cdc_release_result_t :=
  | USB_CDC_RELEASE_ACCEPTED
  | USB_CDC_RELEASE_INVALID_ARGS
  | USB_CDC_RELEASE_WRONG_STATE
  | USB_CDC_RELEASE_CONFLICT
  | USB_CDC_RELEASE_INTERNAL_ERROR.

Inductive usb_cdc_set_time_result_t :=
  | USB_CDC_SET_TIME_OK
  | USB_CDC_SET_TIME_INVALID_ARGS
  | USB_CDC_SET_TIME_RANGE_ERROR
  | USB_CDC_SET_TIME_BUSY
  | USB_CDC_SET_TIME_INTERNAL_ERROR.

(** [state] and [reason] may be NULL. *)
Record usb_cdc_protocol_status_t := CdcStatus {
  state : option bytes;
  reason : option bytes;
  battery_mv : Z;
  battery_valid : bool;
  rtc_correction_pending : bool;
}.

(** Every callback may be NULL; each runs on the host's state [S].  [set_time]
    gives the text it left in the zeroed [normalized] buffer. *)
Record usb_cdc_protocol_config_t (S : Type) := CdcConfig {
  device_id : option bytes;
  status_provider : option (st S (option usb_cdc_protocol_status_t));
  set_time : option (bytes -> st S (usb_cdc_set_time_result_t * bytes));
  release_accept : option (bytes -> st S usb_cdc_release_result_t);
  release_response_complete : option (bytes -> st S bool);
  command_admission_open : option (st S bool);
}.
#[global] Arguments device_id {S}.
#[global] Arguments status_provider {S}.
#[global] Arguments set_time {S}.
#[global] Arguments release_accept {S}.
#[global] Arguments release_response_complete {S}.
#[global] Arguments command_admission_open {S}.

(** [release_attempt_id] is meaningful when [release_accepted]. *)
Record usb_cdc_protocol_effect_t := CdcEffect {
  release_accepted : bool;
  release_attempt_id : bytes;
}.

Definition no_effect : usb_cdc_protocol_effect_t := CdcEffect false [].

(** What the code uses of cJSON: parsing a whole NUL-terminated text, and
    observing a value.  [cJSON_string] is [valuestring] of a string item. *)
Class Cjson (J : Type) := {
  cJSON_ParseWithOpts : bytes -> option J;
  cJSON_IsObject : J -> bool;
  cJSON_GetObjectItemCaseSensitive : J -> bytes -> option J;
  cJSON_GetArraySize : J -> Z;
  cJSON_string : J -> option bytes;
}.

(** ** Identifiers *)

Definition id_char (c : Z) : bool :=
  ((ch "A" <=? c) && (c <=? ch "Z")) || ((ch "a" <=? c) && (c <=? ch "z")) ||
  ((ch "0" <=? c) && (c <=? ch "9")) || (c =? ch ".") || (c =? ch "_") ||
  (c =? ch ":") || (c =? ch "-").

Definition cdc_id_valid (id : option bytes) : bool :=
  match id with
  | None => false
  | Some id =>
      if (zlen id =? 0) || (USB_CDC_PROTOCOL_MAX_ID_BYTES <? zlen id) then false
      else forallb id_char id
  end.

(** ** UTF-8 *)

(** The first byte of a multi-byte sequence: its payload bits and how many
    continuation bytes it announces. *)
Definition utf8_lead (c : Z) : option (Z * nat) :=
  if (194 <=? c) && (c <=? 223) then Some (Z.land c 31, 1%nat)
  else if (224 <=? c) && (c <=? 239) then Some (Z.land c 15, 2%nat)
  else if (240 <=? c) && (c <=? 244) then Some (Z.land c 7, 3%nat)
  else None.

(** The loop over the continuation bytes. *)
Fixpoint utf8_continue (need : nat) (code : Z) (l : bytes) : option (Z * bytes) :=
  match need, l with
  | O, _ => Some (code, l)
  | S need, cc :: l =>
      if negb (Z.land cc 192 =? 128) then None
      else utf8_continue need (Z.lor (Z.shiftl code 6) (Z.land cc 63)) l
  | S _, [] => None
  end.

Definition utf8_code_bad (need : nat) (code : Z) : bool :=
  (Nat.eqb need 1 && (code <? 128)) || (Nat.eqb need 2 && (code <? 2048)) ||
  (Nat.eqb need 3 && (code <? 65536)) || (1114111 <? code) ||
  ((55296 <=? code) && (code <=? 57343)).

(** The outer loop; each pass consumes a byte. *)
Fixpoint utf8_loop (fuel : nat) (l : bytes) : bool :=
  match l, fuel with
  | [], _ => true
  | _, O => false
  | c :: l, S fuel =>
      if c =? 0 then false else
      if c <? 128 then utf8_loop fuel l else
      match utf8_lead c with
      | None => false
      | Some (code, need) =>
          if (length l <? need)%nat then false else
          match utf8_continue need code l with
          | None => false
          | Some (code, l) => if utf8_code_bad need code then false else utf8_loop fuel l
          end
      end
  end.

Definition cdc_utf8_valid (data : bytes) : bool := utf8_loop (length data) data.

(** ** The framer *)

Record usb_cdc_protocol_framer_t := Framer {
  line : bytes;
  line_len : Z;
  oversized : bool;
}.

Inductive usb_cdc_protocol_frame_result_t :=
  | USB_CDC_PROTOCOL_FRAME_NONE
  | USB_CDC_PROTOCOL_FRAME_LINE
  | USB_CDC_PROTOCOL_FRAME_TOO_LARGE.

Definition usb_cdc_protocol_framer_reset (f : usb_cdc_protocol_framer_t) :
    usb_cdc_protocol_framer_t :=
  Framer (line f) 0 false.

Definition usb_cdc_protocol_framer_init (f : usb_cdc_protocol_framer_t) :
    usb_cdc_protocol_framer_t :=
  usb_cdc_protocol_framer_reset f.

(** The result, [*out_line] (the whole array) with [*out_len], and the framer. *)
Definition usb_cdc_protocol_framer_feed (f : usb_cdc_protocol_framer_t) (byte : Z) :
    usb_cdc_protocol_frame_result_t * (option bytes * Z) * usb_cdc_protocol_framer_t :=
  if negb (byte =? 10) then
    let f :=
      if negb (oversized f) then
        if line_len f <? USB_CDC_PROTOCOL_MAX_LINE_BYTES + 1
        then Framer (splice (Z.to_nat (line_len f)) [byte] (line f)) (line_len f + 1) false
        else Framer (line f) (line_len f) true
      else f in
    (USB_CDC_PROTOCOL_FRAME_NONE, (None, 0), f)
  else
    let payload_len :=
      if negb (line_len f =? 0) && (nth (Z.to_nat (line_len f - 1)) (line f) 0 =? 13)
      then line_len f - 1 else line_len f in
    let too_large := oversized f || (USB_CDC_PROTOCOL_MAX_LINE_BYTES <? payload_len) in
    (if too_large then USB_CDC_PROTOCOL_FRAME_TOO_LARGE else USB_CDC_PROTOCOL_FRAME_LINE,
     (Some (line f), if too_large then USB_CDC_PROTOCOL_MAX_LINE_BYTES + 1 else payload_len),
     Framer (line f) 0 false).

(** ** Responses *)

(** [snprintf]: the length of the whole text, and what fits in the buffer. *)
Definition snprintf (out_size : Z) (s : bytes) : Z * bytes :=
  (zlen s, take (Z.to_nat (out_size - 1)) s).

Definition error_tail (code : bytes) : bytes :=
  (jtxt ",'ok':false,'error':{'code':'" ++ code ++ jtxt "','message':'" ++ code ++ jtxt "'}}")%list.

Definition cdc_error_response (out_size : Z) (id : option bytes) (code : bytes) : Z * bytes :=
  match id with
  | Some i =>
      if cdc_id_valid id then snprintf out_size (jtxt "{'id':'" ++ i ++ jtxt "'" ++ error_tail code)
      else snprintf out_size (jtxt "{'id':null" ++ error_tail code)
  | None => snprintf out_size (jtxt "{'id':null" ++ error_tail code)
  end.

Definition cdc_release_error_code (r : usb_cdc_release_result_t) : bytes :=
  match r with
  | USB_CDC_RELEASE_INVALID_ARGS => USB_CDC_ERROR_INVALID_ARGS
  | USB_CDC_RELEASE_WRONG_STATE | USB_CDC_RELEASE_CONFLICT => USB_CDC_ERROR_BUSY
  | _ => USB_CDC_ERROR_INTERNAL_ERROR
  end.

Definition cdc_set_time_error_code (r : usb_cdc_set_time_result_t) : bytes :=
  match r with
  | USB_CDC_SET_TIME_INVALID_ARGS => USB_CDC_ERROR_INVALID_ARGS
  | USB_CDC_SET_TIME_RANGE_ERROR => USB_CDC_ERROR_RANGE_ERROR
  | USB_CDC_SET_TIME_BUSY => USB_CDC_ERROR_BUSY
  | _ => USB_CDC_ERROR_INTERNAL_ERROR
  end.

Definition ok_text (id body : bytes) : bytes :=
  (jtxt "{'id':'" ++ id ++ jtxt "','ok':true,'result':{" ++ body ++ jtxt "}}")%list.

Definition release_body (attempt : bytes) : bytes :=
  (jtxt "'releaseAttemptId':'" ++ attempt ++ jtxt "','accepted':true")%list.

Definition info_body (device : bytes) : bytes :=
  (jtxt "'protocolMajor':" ++ dec_u USB_CDC_PROTOCOL_MAJOR ++
   jtxt ",'schemaVersion':" ++ dec_u RECORDER_METADATA_SCHEMA_VERSION ++
   jtxt ",'deviceId':'" ++ device ++ jtxt "','model':'" ++ RECORDER_MODEL ++
   jtxt "','firmwareVersion':'" ++ RECORDER_FIRMWARE_VERSION ++
   jtxt "','audioCapabilities':{'sampleRate':" ++ dec_u RECORDER_SAMPLE_RATE_HZ ++
   jtxt ",'bitDepth':" ++ dec_u RECORDER_BITS_PER_SAMPLE ++
   jtxt ",'channels':" ++ dec_u RECORDER_CHANNELS ++ jtxt ",'format':'pcm'}")%list.

Definition status_body (st_ rs : bytes) (s : usb_cdc_protocol_status_t) : bytes :=
  (jtxt "'state':'" ++ st_ ++ jtxt "','reason':'" ++ rs ++ jtxt "','batteryMv':" ++
   (if battery_valid s then dec_d (battery_mv s) else txt "null") ++
   jtxt ",'rtcCorrectionPending':" ++
   (if rtc_correction_pending s then txt "true" else txt "false"))%list.

Definition time_body (normalized : bytes) : bytes :=
  (jtxt "'time':'" ++ normalized ++ jtxt "','eventPending':true")%list.

(** ** The dispatcher *)

Section dispatch.
Context {S J : Type} `{!Cjson J}.

Definition cdc_args_empty (args : J) : bool :=
  cJSON_IsObject args && (cJSON_GetArraySize args =? 0).

(** A string member of an object: [cJSON_IsString(item) && item->valuestring]. *)
Definition string_member (o : J) (key : bytes) : option bytes :=
  match cJSON_GetObjectItemCaseSensitive o key with
  | Some item => cJSON_string item
  | None => None
  end.

(** A command's part of the answer: [n] with [out], and [*effect]. *)
Definition answer : Type := (Z * bytes) * usb_cdc_protocol_effect_t.

Section command.
Context (out_size : Z) (config : option (usb_cdc_protocol_config_t S)) (id : bytes) (args : J).

Definition refuse (code : bytes) : st S answer :=
  ret (cdc_error_response out_size (Some id) code, no_effect).
Definition accept (body : bytes) : st S answer :=
  ret (snprintf out_size (ok_text id body), no_effect).

(** The branch of [RELEASE_STORAGE]. *)
Definition do_release : st S answer :=
  match string_member args (txt "releaseAttemptId") with
  | Some attempt =>
      if negb (cJSON_GetArraySize args =? 1) || negb (cdc_id_valid (Some attempt))
      then refuse USB_CDC_ERROR_INVALID_ARGS else
      match config ≫= release_accept with
      | None => refuse USB_CDC_ERROR_INTERNAL_ERROR
      | Some accept_ =>
          let* result := accept_ attempt in
          match result with
          | USB_CDC_RELEASE_ACCEPTED =>
              ret (snprintf out_size (ok_text id (release_body attempt)),
                   CdcEffect true attempt)
          | _ => refuse (cdc_release_error_code result)
          end
      end
  | None => refuse USB_CDC_ERROR_INVALID_ARGS
  end.

(** The branch of [GET_INFO]. *)
Definition do_get_info : st S answer :=
  if negb (cdc_args_empty args) then refuse USB_CDC_ERROR_INVALID_ARGS else
  match config ≫= device_id with
  | None => refuse USB_CDC_ERROR_INTERNAL_ERROR
  | Some device => accept (info_body device)
  end.

(** The branch of [GET_STATUS]. *)
Definition do_get_status : st S answer :=
  if negb (cdc_args_empty args) then refuse USB_CDC_ERROR_INVALID_ARGS else
  match config ≫= status_provider with
  | None => refuse USB_CDC_ERROR_INTERNAL_ERROR
  | Some provider =>
      let* status := provider in
      match status with
      | None => refuse USB_CDC_ERROR_INTERNAL_ERROR
      | Some s =>
          match state s, reason s with
          | Some st_, Some rs => accept (status_body st_ rs s)
          | _, _ => refuse USB_CDC_ERROR_INTERNAL_ERROR
          end
      end
  end.

(** The branch of [SET_TIME]. *)
Definition do_set_time : st S answer :=
  match string_member args (txt "time") with
  | Some time =>
      if negb (cJSON_GetArraySize args =? 1) then refuse USB_CDC_ERROR_INVALID_ARGS else
      match config ≫= set_time with
      | None => refuse USB_CDC_ERROR_INTERNAL_ERROR
      | Some set =>
          let* r := set time in
          match r with
          | (USB_CDC_SET_TIME_OK, normalized) => accept (time_body normalized)
          | (result, _) => refuse (cdc_set_time_error_code result)
          end
      end
  | None => refuse USB_CDC_ERROR_INVALID_ARGS
  end.

Definition run_command (cmd : bytes) : st S answer :=
  if decide (cmd = txt "RELEASE_STORAGE") then do_release
  else if decide (cmd = txt "PING") then
    if negb (cdc_args_empty args) then refuse USB_CDC_ERROR_INVALID_ARGS
    else accept (jtxt "'pong':true")
  else if decide (cmd = txt "GET_INFO") then do_get_info
  else if decide (cmd = txt "GET_STATUS") then do_get_status
  else if decide (cmd = txt "SET_TIME") then do_set_time
  else refuse USB_CDC_ERROR_UNKNOWN_COMMAND.
End command.

(** The parsed request: [id] as the code after [done] sees it, and the answer. *)
Definition run_request (out_size : Z) (config : option (usb_cdc_protocol_config_t S))
    (root : J) : option bytes * st S answer :=
  let invalid id := ret (cdc_error_response out_size id USB_CDC_ERROR_INVALID_REQUEST, no_effect) in
  if negb (cJSON_IsObject root) then (None, invalid None) else
  match string_member root (txt "id") with
  | None => (None, invalid None)
  | Some id =>
      if negb (cdc_id_valid (Some id)) then (None, invalid None) else
      (Some id,
       match string_member root (txt "cmd"), cJSON_GetObjectItemCaseSensitive root (txt "args") with
       | Some cmd, Some args =>
           if negb (cJSON_IsObject args) then invalid (Some id)
           else run_command out_size config id args cmd
       | _, _ => invalid (Some id)
       end)
  end.

(** The code at [done]. *)
Definition finish (out_size : Z) (id : option bytes) (a : answer) : answer :=
  if (a.1.1 <? 0) || (out_size <=? a.1.1)
  then (cdc_error_response out_size id USB_CDC_ERROR_INTERNAL_ERROR, no_effect)
  else a.

(** The returned length with the text left in [out] ([None]: untouched), and
    [*effect].  An [out_size] of 0 also stands for a NULL [out]; a [None] line
    is a NULL pointer, and the buffer may be longer than [len]. *)
Definition usb_cdc_protocol_process_line (line : option bytes) (len out_size : Z)
    (config : option (usb_cdc_protocol_config_t S)) :
    st S (Z * option bytes * usb_cdc_protocol_effect_t) :=
  let said (r : Z * bytes) eff := (r.1, Some r.2, eff) in
  let fail code := ret (said (cdc_error_response out_size None code) no_effect) in
  if out_size =? 0 then ret (-1, None, no_effect) else
  if USB_CDC_PROTOCOL_MAX_LINE_BYTES <? len then fail USB_CDC_ERROR_REQUEST_TOO_LARGE else
  match line with
  | None => ret (-1, None, no_effect)
  | Some buffer =>
      let json := take (Z.to_nat len) buffer in
      if negb (cdc_utf8_valid json) then fail USB_CDC_ERROR_INVALID_JSON else
      match cJSON_ParseWithOpts json with
      | None => fail USB_CDC_ERROR_INVALID_JSON
      | Some root =>
          let (id, run) := run_request out_size config root in
          let* a := run in
          let a := finish out_size id a in
          ret (said a.1 a.2)
      end
  end.
End dispatch.

(** ** Specification: UTF-8 *)

(** The Unicode scalar values other than NUL. *)
Definition scalar (z : Z) : Prop := 0 < z <= 1114111 /\ ~ 55296 <= z <= 57343.

Definition utf8_encode (z : Z) : bytes :=
  if z <? 128 then [z]
  else if z <? 2048 then [192 + z / 64; 128 + z mod 64]
  else if z <? 65536 then [224 + z / 4096; 128 + z / 64 mod 64; 128 + z mod 64]
  else [240 + z / 262144; 128 + z / 4096 mod 64; 128 + z / 64 mod 64; 128 + z mod 64].

Definition is_continuation (c : Z) : Prop := 128 <= c < 192.

Definition push_bits (code c : Z) : Z := code * 64 + (c - 128).

Lemma continuation_mask c :
  byte_ok c -> (Z.land c 192 =? 128) = (128 <=? c) && (c <? 192).
Proof.
  intros Hc. apply eqb_prop.
  apply (every_byte (fun c => Bool.eqb (Z.land c 192 =? 128) ((128 <=? c) && (c <? 192))));
    [by vm_compute|done].
Qed.

Lemma continuation_bits code c :
  is_continuation c -> Z.lor (Z.shiftl code 6) (Z.land c 63) = push_bits code c.
Proof.
  unfold is_continuation, push_bits. intros Hc. change 63 with (Z.ones 6).
  rewrite Z.land_ones, Z.lor_comm, lor_shiftl by (try apply Z.mod_pos_bound; lia). zlia.
Qed.

Lemma continue_spec need : forall code l code' l',
  bytes_ok l -> utf8_continue need code l = Some (code', l') ->
  exists cs, l = (cs ++ l')%list /\ length cs = need /\ Forall is_continuation cs /\
             code' = fold_left push_bits cs code.
Proof.
  induction need as [|need IH]; intros code l code' l' Hl H; cbn in H.
  - exists []. naive_solver.
  - destruct l as [|c l]; [done|]. inversion_clear Hl as [|? ? Hc Hl'].
    rewrite continuation_mask in H by done.
    destruct ((128 <=? c) && (c <? 192)) eqn:Hm; cbn [negb] in H; [|done]. split_bools.
    rewrite continuation_bits in H by done.
    apply IH in H as (cs & -> & Hlen & Hcs & ->); [|done].
    exists (c :: cs). cbn. rewrite Hlen. split_and!; try done. by constructor.
Qed.

Lemma continue_all cs : forall code l,
  Forall is_continuation cs ->
  utf8_continue (length cs) code (cs ++ l) = Some (fold_left push_bits cs code, l).
Proof.
  induction cs as [|c cs IH]; intros code l H; cbn; [done|].
  inversion_clear H as [|? ? Hc Hcs]. rewrite continuation_mask by (unfold is_continuation, byte_ok in *; lia).
  rewrite (proj2 (Z.leb_le _ _)), (proj2 (Z.ltb_lt _ _)) by (unfold is_continuation in Hc; lia). cbn [andb negb].
  rewrite continuation_bits by done. by apply IH.
Qed.

(** What [utf8_lead] accepts, as numbers. *)
Lemma lead_spec c code need :
  utf8_lead c = Some (code, need) <->
  (need = 1%nat /\ code = c - 192 /\ 194 <= c <= 223) \/
  (need = 2%nat /\ code = c - 224 /\ 224 <= c <= 239) \/
  (need = 3%nat /\ code = c - 240 /\ 240 <= c <= 244).
Proof.
  unfold utf8_lead. change 31 with (Z.ones 5). change 15 with (Z.ones 4). change 7 with (Z.ones 3).
  rewrite !Z.land_ones by lia. change (2 ^ 5) with 32. change (2 ^ 4) with 16. change (2 ^ 3) with 8.
  split.
  - repeat step_match; split_bools; intros [= <- <-];
      [left|right; left|right; right]; split_and!; zlia.
  - intros [(-> & -> & Hc)|[(-> & -> & Hc)|(-> & -> & Hc)]];
      repeat first [rewrite (proj2 (Z.leb_le _ _)) by lia | rewrite (proj2 (Z.leb_gt _ _)) by lia];
      cbn [andb]; do 2 f_equal; zlia.
Qed.

Lemma encode_nonempty z : utf8_encode z <> [].
Proof. unfold utf8_encode. by repeat step_match. Qed.

(** Arithmetic of one multi-byte sequence. *)
Ltac sequence_bits :=
  unfold utf8_code_bad, utf8_encode, scalar, push_bits, is_continuation in *; cbn [fold_left] in *.

Lemma sequence_encodes need c code cs :
  utf8_lead c = Some (code, need) -> length cs = need -> Forall is_continuation cs ->
  let z := fold_left push_bits cs code in
  utf8_code_bad need z = false -> scalar z /\ utf8_encode z = c :: cs.
Proof.
  intros Hl Hn Hcs z Hz. subst z. apply lead_spec in Hl.
  destruct Hl as [(-> & -> & Hc)|[(-> & -> & Hc)|(-> & -> & Hc)]];
    destruct cs as [|c1 [|c2 [|c3 [|]]]]; try done; clear Hn;
    repeat match goal with H : Forall _ (_ :: _) |- _ => inversion_clear H end;
    sequence_bits; cbn [Nat.eqb andb orb] in Hz; split_bools.
  all: match goal with H : _ && _ = false |- _ => apply andb_false_iff in H end.
  all: split; [split; [lia|intros [? ?]; rewrite Z.leb_gt, Z.leb_gt in *; lia]|].
  all: repeat match goal with |- context [?a <? ?b] => destruct (Z.ltb_spec a b); [try lia|try lia] end.
  all: repeat (apply (f_equal2 cons); [zlia|]); done.
Qed.

Lemma encode_parses z rest fuel :
  scalar z -> utf8_loop (S fuel) (utf8_encode z ++ rest) = utf8_loop fuel rest.
Proof.
  intros [Hz Hs]. unfold utf8_encode.
  destruct (Z.ltb_spec z 128) as [?|?].
  { cbn. rewrite (proj2 (Z.eqb_neq _ _)), (proj2 (Z.ltb_lt z 128)) by lia. done. }
  assert (Hgo : forall c cs code need, utf8_lead c = Some (code, need) -> length cs = need ->
    Forall is_continuation cs -> fold_left push_bits cs code = z -> utf8_code_bad need z = false ->
    utf8_loop (S fuel) ((c :: cs) ++ rest) = utf8_loop fuel rest).
  { intros c cs code need Hl Hn Hcs Hf Hb. cbn [utf8_loop app].
    assert (194 <= c <= 244) by (apply lead_spec in Hl; lia).
    rewrite (proj2 (Z.eqb_neq _ _)), (proj2 (Z.ltb_ge c 128)), Hl by lia.
    rewrite (proj2 (Nat.ltb_ge _ _)) by (rewrite length_app; lia).
    subst need. rewrite continue_all by done. by rewrite Hf, Hb. }
  assert (Hbad : forall need low, (need, low) ∈ [(1%nat, 128); (2%nat, 2048); (3%nat, 65536)] ->
    low <= z -> utf8_code_bad need z = false).
  { intros need low Hin Hlow. unfold utf8_code_bad.
    assert ((55296 <=? z) && (z <=? 57343) = false) as -> by (apply andb_false_iff; lia).
    set_unfold. destruct Hin as [[= -> ->]|[[= -> ->]|[[= -> ->]|[]]]]; cbn [Nat.eqb andb orb]; lia. }
  destruct (Z.ltb_spec z 2048); [|destruct (Z.ltb_spec z 65536)].
  - apply (Hgo _ [_] (z / 64) 1%nat); [apply lead_spec; left; split_and!; zlia|done| | |].
    + repeat constructor; zlia.
    + cbn. unfold push_bits. zlia.
    + apply (Hbad _ 128); [set_solver|lia].
  - apply (Hgo _ [_; _] (z / 4096) 2%nat); [apply lead_spec; right; left; split_and!; zlia|done| | |].
    + repeat constructor; zlia.
    + cbn. unfold push_bits. zlia.
    + apply (Hbad _ 2048); [set_solver|lia].
  - apply (Hgo _ [_; _; _] (z / 262144) 3%nat); [apply lead_spec; right; right; split_and!; zlia|done| | |].
    + repeat constructor; zlia.
    + cbn. unfold push_bits. zlia.
    + apply (Hbad _ 65536); [set_solver|lia].
Qed.

Lemma utf8_loop_sound fuel : forall l, bytes_ok l -> utf8_loop fuel l = true ->
  exists zs, Forall scalar zs /\ l = concat (map utf8_encode zs).
Proof.
  induction fuel as [|fuel IH]; intros [|c l] Hl H; try by exists [].
  cbn [utf8_loop] in H. inversion_clear Hl as [|? ? Hc Hl'].
  destruct (Z.eqb_spec c 0); [done|]. destruct (Z.ltb_spec c 128).
  { destruct (IH l Hl' H) as (zs & Hzs & ->). exists (c :: zs). split.
    - constructor; [|done]. unfold scalar, byte_ok in *. lia.
    - cbn. unfold utf8_encode at 2. by rewrite (proj2 (Z.ltb_lt c 128)). }
  destruct (utf8_lead c) as [[code need]|] eqn:Hlead; [|done].
  destruct (length l <? need)%nat; [done|].
  destruct (utf8_continue need code l) as [[z l']|] eqn:Hcont; [|done].
  destruct (utf8_code_bad need z) eqn:Hbad; [done|].
  apply continue_spec in Hcont as (cs & -> & Hlen & Hcs & ->); [|done].
  destruct (sequence_encodes need c code cs Hlead Hlen Hcs Hbad) as [Hz Henc].
  apply Forall_app in Hl' as [_ Hl'].
  destruct (IH l' Hl' H) as (zs & Hzs & ->).
  exists (fold_left push_bits cs code :: zs). split; [by constructor|]. cbn. by rewrite Henc.
Qed.

Lemma utf8_loop_complete zs : forall fuel,
  Forall scalar zs -> (length (concat (map utf8_encode zs)) <= fuel)%nat ->
  utf8_loop fuel (concat (map utf8_encode zs)) = true.
Proof.
  induction zs as [|z zs IH]; intros fuel Hzs Hf; [by destruct fuel|].
  inversion_clear Hzs as [|? ? Hz Hzs']. cbn in *. rewrite length_app in Hf.
  pose proof (encode_nonempty z). destruct (utf8_encode z) as [|c cs] eqn:He; [done|].
  rewrite <- He. destruct fuel as [|fuel]; [cbn in Hf; lia|].
  rewrite encode_parses by done. apply IH; [done|cbn in Hf; lia].
Qed.

(** C37: the UTF-8 check accepts exactly the well-formed encodings: a request
    line passes if and only if it is the concatenation of the shortest
    encodings of Unicode scalar values, surrogates and NUL excluded. *)
Theorem utf8_valid_iff data :
  bytes_ok data ->
  (cdc_utf8_valid data = true <->
   exists zs, Forall scalar zs /\ data = concat (map utf8_encode zs)).
Proof.
  intros Hb. split; [by apply utf8_loop_sound|].
  intros (zs & Hzs & ->). by apply utf8_loop_complete.
Qed.

Lemma utf8_valid_iff_witness :
  bytes_ok [65; 195; 169; 240; 159; 142; 164] /\
  exists zs, Forall scalar zs /\ [65; 195; 169; 240; 159; 142; 164] = concat (map utf8_encode zs).
Proof.
  assert (H : bytes_ok [65; 195; 169; 240; 159; 142; 164])
    by (repeat constructor; vm_compute; congruence).
  split; [exact H|]. apply (utf8_valid_iff _ H). reflexivity.
Defined.

(** ** Specification: lines *)

(** What a caller sees of a frame. *)
Inductive frame := FrameLine (l : bytes) | FrameTooLarge.

(** Feeding a stream: the frames that come out of it. *)
Fixpoint feed_all (f : usb_cdc_protocol_framer_t) (l : bytes) : list frame * usb_cdc_protocol_framer_t :=
  match l with
  | [] => ([], f)
  | b :: l =>
      let '(r, (buffer, len), f) := usb_cdc_protocol_framer_feed f b in
      let (fs, f') := feed_all f l in
      (match r, buffer with
       | USB_CDC_PROTOCOL_FRAME_LINE, Some buffer => FrameLine (take (Z.to_nat len) buffer) :: fs
       | USB_CDC_PROTOCOL_FRAME_TOO_LARGE, _ => FrameTooLarge :: fs
       | _, _ => fs
       end, f')
  end.

(** The line without one carriage return at its end. *)
Definition strip_cr (l : bytes) : bytes :=
  if decide (last l = Some 13) then take (length l - 1) l else l.

(** The reference: collect a line of any length, judge it at its newline. *)
Fixpoint lines_spec (pending : bytes) (l : bytes) : list frame * bytes :=
  match l with
  | [] => ([], pending)
  | b :: l =>
      if b =? 10 then
        let (fs, p) := lines_spec [] l in
        ((if USB_CDC_PROTOCOL_MAX_LINE_BYTES <? zlen (strip_cr pending) then FrameTooLarge
          else FrameLine (strip_cr pending)) :: fs, p)
      else lines_spec (pending ++ [b])%list l
  end.

(** The framer's view of the pending line: all of it up to 1025 bytes, beyond
    that only that it is too long. *)
Definition frames_pending (f : usb_cdc_protocol_framer_t) (p : bytes) : Prop :=
  length (line f) = 1025%nat /\
  (if zlen p <=? 1025
   then line_len f = zlen p /\ oversized f = false /\ take (length p) (line f) = p
   else line_len f = 1025 /\ oversized f = true).

Lemma strip_cr_length l :
  zlen (strip_cr l) = if decide (last l = Some 13) then zlen l - 1 else zlen l.
Proof.
  unfold strip_cr. destruct (decide _) as [Hl|]; [|done]. destruct l; [done|].
  unfold zlen. rewrite length_take. cbn. lia.
Qed.

Lemma last_nth l : l <> [] -> last l = Some (nth (length l - 1) l 0).
Proof.
  intros Hl. rewrite last_lookup. replace (Nat.pred (length l)) with (length l - 1)%nat by lia.
  rewrite nth_lookup. destruct (l !! (length l - 1)%nat) eqn:E; [done|].
  apply lookup_ge_None in E. destruct l; [done|cbn in E; lia].
Qed.

Lemma pending_last f p :
  frames_pending f p -> zlen p <= 1025 ->
  negb (line_len f =? 0) && (nth (Z.to_nat (line_len f - 1)) (line f) 0 =? 13)
  = bool_decide (last p = Some 13).
Proof.
  intros [Hlen Hp] Hsize. rewrite (proj2 (Z.leb_le _ _) Hsize) in Hp.
  destruct Hp as (-> & _ & Htake). destruct p as [|b p]; [done|].
  rewrite last_nth by done. unfold zlen in *. cbn [length] in *.
  replace (nth _ (line f) 0) with (nth (S (length p) - 1) (b :: p) 0).
  2: { rewrite <- Htake, !nth_lookup, lookup_take_lt by lia. do 3 f_equal. lia. }
  rewrite (proj2 (Z.eqb_neq _ _)) by lia. cbn [negb andb].
  destruct (Z.eqb_spec (nth (S (length p) - 1) (b :: p) 0) 13) as [->|]; symmetry;
    [by apply bool_decide_eq_true_2|apply bool_decide_eq_false_2; congruence].
Qed.

Lemma feed_byte f p b :
  frames_pending f p -> b <> 10 ->
  exists f', usb_cdc_protocol_framer_feed f b = (USB_CDC_PROTOCOL_FRAME_NONE, (None, 0), f') /\
    frames_pending f' (p ++ [b]).
Proof.
  intros [Hlen Hp] Hb. unfold usb_cdc_protocol_framer_feed, USB_CDC_PROTOCOL_MAX_LINE_BYTES.
  rewrite (proj2 (Z.eqb_neq _ _) Hb). cbn [negb]. eexists. split; [done|].
  unfold frames_pending. rewrite zlen_app, zlen_cons, zlen_nil.
  destruct (Z.leb_spec (zlen p) 1025) as [Hs|Hs].
  - destruct Hp as (Hl & -> & Htake). cbn [negb]. rewrite Hl.
    destruct (Z.ltb_spec (zlen p) (1024 + 1)); cbn [line line_len oversized].
    + rewrite (proj2 (Z.leb_le _ _)) by lia. unfold zlen in *.
      assert (Hfit : (Z.to_nat (Z.of_nat (length p)) + length [b] <= length (line f))%nat)
        by (cbn; lia).
      rewrite length_splice by done. split_and!; try lia; try done.
      rewrite Nat2Z.id in *. rewrite length_app. rewrite (take_splice _ [b]) by done. by rewrite Htake.
    + rewrite (proj2 (Z.leb_gt _ _)) by lia. split_and!; [done|lia|done].
  - destruct Hp as [Hl Ho]. rewrite Ho. cbn [negb]. rewrite (proj2 (Z.leb_gt _ _)) by lia. done.
Qed.

Lemma feed_newline f p :
  frames_pending f p ->
  exists r len f', usb_cdc_protocol_framer_feed f 10 = (r, (Some (line f), len), f') /\
    frames_pending f' [] /\
    if USB_CDC_PROTOCOL_MAX_LINE_BYTES <? zlen (strip_cr p)
    then r = USB_CDC_PROTOCOL_FRAME_TOO_LARGE /\ len = USB_CDC_PROTOCOL_MAX_LINE_BYTES + 1
    else r = USB_CDC_PROTOCOL_FRAME_LINE /\ take (Z.to_nat len) (line f) = strip_cr p.
Proof.
  intros Hf. pose proof Hf as [Hlen Hp]. pose proof (pending_last f p Hf) as Hcr.
  pose proof (strip_cr_length p) as Hstrip.
  unfold usb_cdc_protocol_framer_feed. cbn [Z.eqb Pos.eqb negb]. cbv zeta.
  do 3 eexists. split; [done|]. split; [by split|]. unfold USB_CDC_PROTOCOL_MAX_LINE_BYTES in *.
  destruct (Z.leb_spec (zlen p) 1025) as [Hs|Hs].
  - rewrite Hcr by done. destruct Hp as (-> & -> & Htake). cbn [orb].
    unfold strip_cr in *. rewrite Hstrip. case_bool_decide as Hl; rewrite ?decide_True, ?decide_False by done.
    + destruct (1024 <? zlen p - 1); [done|]. split; [done|].
      rewrite <- Htake at 3. rewrite take_take. f_equal. unfold zlen. lia.
    + destruct (1024 <? zlen p); [done|]. split; [done|].
      rewrite <- Htake at 2. f_equal. unfold zlen. lia.
  - destruct Hp as [_ ->]. cbn [orb]. rewrite (proj2 (Z.ltb_lt _ _)); [done|].
    rewrite Hstrip. destruct (decide _); lia.
Qed.

Lemma feed_all_refines l : forall f p,
  frames_pending f p ->
  exists f', feed_all f l = ((lines_spec p l).1, f') /\ frames_pending f' (lines_spec p l).2.
Proof.
  induction l as [|b l IH]; intros f p Hf; cbn; [by exists f|].
  destruct (Z.eqb_spec b 10) as [->|Hb].
  - destruct (feed_newline f p Hf) as (r & len & f1 & -> & Hf1 & Hr).
    destruct (IH f1 [] Hf1) as (f' & -> & Hf'). exists f'. destruct (lines_spec [] l) as [fs q].
    split; [|done]. cbn. by destruct (_ <? _); destruct Hr as [-> Hr]; rewrite ?Hr.
  - destruct (feed_byte f p b Hf Hb) as (f1 & -> & Hf1).
    destruct (IH f1 _ Hf1) as (f' & -> & Hf'). exists f'. by split.
Qed.

(** C29: the bounded framer refines line splitting without a bound: fed any
    stream of bytes, it hands out for each newline exactly the line before it
    (a final carriage return dropped), or TOO_LARGE when that is longer than
    1024 bytes; nothing of a line reaches the next one, and no write leaves
    the 1025-byte array. *)
Theorem framer_refines_lines f l :
  length (line f) = 1025%nat ->
  exists f', feed_all (usb_cdc_protocol_framer_init f) l = ((lines_spec [] l).1, f') /\
    length (line f') = 1025%nat.
Proof.
  intros Hlen. destruct (feed_all_refines l (usb_cdc_protocol_framer_init f) []) as (f' & -> & Hf');
    [by split|]. exists f'. by destruct Hf'.
Qed.

Lemma framer_refines_lines_witness :
  exists f', feed_all (usb_cdc_protocol_framer_init (Framer (replicate 1025 7) 3 true))
    [123; 125; 13; 10; 65; 10; 66] = ([FrameLine [123; 125]; FrameLine [65]], f') /\
    length (line f') = 1025%nat.
Proof.
  exact (framer_refines_lines (Framer (replicate 1025 7) 3 true) [123; 125; 13; 10; 65; 10; 66] eq_refl).
Defined.

(** ** Specification: responses *)

(** A text without control characters: it cannot break the line protocol. *)
Definition plain (s : bytes) : Prop := Forall (fun c => 32 <= c) s.

Lemma plain_lit s : forallb (fun c => 32 <=? c) s = true -> plain s.
Proof.
  intros H. apply Forall_forall. intros c Hc. rewrite forallb_forall in H.
  apply Z.leb_le, H. by apply list_elem_of_In.
Qed.

Lemma plain_app a b : plain a -> plain b -> plain (a ++ b).
Proof. apply Forall_app_2. Qed.

Lemma plain_dec_u z : 0 <= z -> plain (dec_u z).
Proof.
  intros Hz. eapply Forall_impl; [by apply dec_u_digits|]. intros c Hc.
  unfold is_digit in Hc. split_bools. lia.
Qed.

Lemma plain_dec_d z : plain (dec_d z).
Proof.
  unfold dec_d. destruct (Z.ltb_spec z 0); [constructor; [lia|]|]; apply plain_dec_u; lia.
Qed.

Lemma id_valid_plain id : cdc_id_valid (Some id) = true -> plain id /\ 0 < zlen id <= 64.
Proof.
  unfold cdc_id_valid, USB_CDC_PROTOCOL_MAX_ID_BYTES. step_match; [done|]. intros H. split_bools.
  pose proof (zlen_nonneg id). split; [|lia].
  apply Forall_forall. intros c Hc. rewrite forallb_forall in H.
  specialize (H c ltac:(by apply list_elem_of_In)). unfold id_char in H.
  change (ch "A") with 65 in H. change (ch "a") with 97 in H. change (ch "0") with 48 in H.
  change (ch ".") with 46 in H. change (ch "_") with 95 in H. change (ch ":") with 58 in H.
  change (ch "-") with 45 in H. lia.
Qed.

(** The error codes the protocol knows. *)
Definition error_codes : list bytes :=
  [USB_CDC_ERROR_INVALID_JSON; USB_CDC_ERROR_INVALID_REQUEST; USB_CDC_ERROR_REQUEST_TOO_LARGE;
   USB_CDC_ERROR_UNKNOWN_COMMAND; USB_CDC_ERROR_INVALID_ARGS; USB_CDC_ERROR_RANGE_ERROR;
   USB_CDC_ERROR_BUSY; USB_CDC_ERROR_INTERNAL_ERROR].

Lemma code_plain code : code ∈ error_codes -> plain code /\ zlen code <= 17.
Proof.
  intros H. assert (Hall : forallb (fun c => forallb (fun c => 32 <=? c) c && (zlen c <=? 17)) error_codes = true)
    by reflexivity.
  rewrite forallb_forall in Hall. specialize (Hall code ltac:(by apply list_elem_of_In)).
  split_bools. split; [by apply plain_lit|done].
Qed.

(** The whole response, in a buffer it fits. *)
Definition whole (out_size : Z) (r : Z * bytes) : Prop :=
  exists text, r = (zlen text, text) /\ 0 < zlen text < out_size /\ plain text.

Lemma snprintf_fits out_size text :
  zlen text < out_size -> snprintf out_size text = (zlen text, text).
Proof. intros Hl. unfold snprintf, zlen in *. by rewrite take_ge by lia. Qed.

Lemma snprintf_whole out_size text :
  0 < zlen text < out_size -> plain text -> whole out_size (snprintf out_size text).
Proof. intros Hl Hp. exists text. rewrite snprintf_fits by lia. done. Qed.

(** Length and plainness of a rendered text. *)
Ltac text_length := autorewrite with m5; cbn [String.length]; lia.
Ltac text_plain := repeat first [assumption | apply plain_app | apply plain_lit; reflexivity].

Lemma error_whole out_size id code :
  256 <= out_size -> code ∈ error_codes -> whole out_size (cdc_error_response out_size id code).
Proof.
  intros Hs Hc. destruct (code_plain code Hc) as [Hp Hl]. pose proof (zlen_nonneg code).
  assert (Hnull : whole out_size (snprintf out_size (jtxt "{'id':null" ++ error_tail code))).
  { unfold error_tail. apply snprintf_whole; [text_length|text_plain]. }
  unfold cdc_error_response. destruct id as [id|]; [|done].
  destruct (cdc_id_valid (Some id)) eqn:Hid; [|done].
  destruct (id_valid_plain id Hid). unfold error_tail. apply snprintf_whole; [text_length|text_plain].
Qed.

(** What the responses rely on of the host's texts: [device_id] is a UUID,
    state and reason are short words, the normalized time fits its buffer. *)
Definition word_ok (n : Z) (s : bytes) : Prop := zlen s <= n /\ plain s.

Record host_ok {S} (cfg : usb_cdc_protocol_config_t S) : Prop := HostOk {
  host_device : forall d, device_id cfg = Some d -> word_ok 36 d;
  host_status : forall p s r, status_provider cfg = Some p -> (p s).1 = Some r ->
    (forall x, state r = Some x \/ reason r = Some x -> word_ok 64 x) /\
    -2147483648 <= battery_mv r < 2147483648;
  host_time : forall f t s n, set_time cfg = Some f -> (f t s).1 = (USB_CDC_SET_TIME_OK, n) ->
    word_ok 31 n;
}.

Lemma info_body_eq device : info_body device =
  (jtxt "'protocolMajor':1,'schemaVersion':1,'deviceId':'" ++ device ++
   jtxt "','model':'M5Capsule v1.1','firmwareVersion':'0.1.0','audioCapabilities':{'sampleRate':16000,'bitDepth':16,'channels':1,'format':'pcm'}")%list.
Proof. reflexivity. Qed.

Section responses.
Context {S J : Type} `{!Cjson J}.
Context (out_size : Z) (config : option (usb_cdc_protocol_config_t S)).

Section command_specs.
Context (Hsize : 512 <= out_size) (id : bytes) (args : J) (Hid : cdc_id_valid (Some id) = true).

Lemma refuse_whole code (s : S) :
  code ∈ error_codes -> wp (refuse out_size id code) (fun a _ => whole out_size a.1) s.
Proof. intros. by apply wp_ret, error_whole; [lia|]. Qed.

Lemma ok_fits body : zlen body <= 400 -> 0 < zlen (ok_text id body) < out_size.
Proof.
  intros Hl. destruct (id_valid_plain id Hid). pose proof (zlen_nonneg body).
  unfold ok_text. text_length.
Qed.

Lemma ok_whole body : plain body -> zlen body <= 400 -> whole out_size (snprintf out_size (ok_text id body)).
Proof.
  intros Hb Hl. destruct (id_valid_plain id Hid). apply snprintf_whole; [by apply ok_fits|].
  unfold ok_text. text_plain.
Qed.

Lemma accept_whole body (s : S) :
  plain body -> zlen body <= 400 -> wp (accept out_size id body) (fun a _ => whole out_size a.1) s.
Proof. intros. by apply wp_ret, ok_whole. Qed.

Lemma release_body_short attempt :
  cdc_id_valid (Some attempt) = true -> plain (release_body attempt) /\ zlen (release_body attempt) <= 400.
Proof.
  intros Ha. destruct (id_valid_plain attempt Ha). unfold release_body.
  split; [text_plain|text_length].
Qed.

Hypothesis Hhost : forall cfg, config = Some cfg -> host_ok cfg.

Ltac known := set_unfold; unfold error_codes; set_solver.

Lemma run_command_whole cmd s :
  wp (run_command out_size config id args cmd) (fun a _ => whole out_size a.1) s.
Proof.
  unfold run_command. repeat (destruct (decide _); [subst cmd|]).
  - unfold do_release. destruct (string_member _ _) as [attempt|]; [|apply refuse_whole; known].
    destruct (negb _ || negb _) eqn:Hv; [apply refuse_whole; known|]. split_bools.
    destruct (config ≫= release_accept) as [f|]; [|apply refuse_whole; known].
    st_prim. apply wp_call. intros [] s1 _;
      try (apply refuse_whole; known). destruct (release_body_short attempt) as [Hp Hl]; [done|]. by apply wp_ret, ok_whole.
  - destruct (negb _); [apply refuse_whole; known|]. apply accept_whole; [text_plain|text_length].
  - unfold do_get_info. destruct (negb _); [apply refuse_whole; known|].
    destruct config as [cfg|]; [|apply refuse_whole; known]. cbn.
    destruct (device_id cfg) as [d|] eqn:Hd; [|apply refuse_whole; known].
    destruct (host_device _ (Hhost cfg eq_refl) d Hd). pose proof (zlen_nonneg d).
    rewrite info_body_eq.
    apply accept_whole; [text_plain|text_length].
  - unfold do_get_status. destruct (negb _); [apply refuse_whole; known|].
    destruct config as [cfg|]; [|apply refuse_whole; known]. cbn.
    destruct (status_provider cfg) as [p|] eqn:Hp; [|apply refuse_whole; known].
    st_prim. apply wp_call. intros [r|] s1 Hr; [|apply refuse_whole; known].
    destruct (host_status _ (Hhost cfg eq_refl) p s r Hp ltac:(by rewrite Hr)) as [Hw Hb].
    destruct (state r) as [st_|]; [|apply refuse_whole; known].
    destruct (reason r) as [rs|]; [|apply refuse_whole; known].
    destruct (Hw st_ ltac:(by left)), (Hw rs ltac:(by right)).
    unfold status_body. apply accept_whole.
    + repeat apply plain_app; try (apply plain_lit; reflexivity); try done;
        step_match; try (apply plain_lit; reflexivity). apply plain_dec_d.
    + pose proof (dec_d_length (battery_mv r) Hb).
      destruct (battery_valid r), (rtc_correction_pending r); text_length.
  - unfold do_set_time. destruct (string_member _ _) as [time|]; [|apply refuse_whole; known].
    destruct (negb _); [apply refuse_whole; known|].
    destruct config as [cfg|]; [|apply refuse_whole; known]. cbn.
    destruct (set_time cfg) as [f|] eqn:Hf; [|apply refuse_whole; known].
    st_prim. apply wp_call. intros [res norm] s1 Hr. destruct res; try (apply refuse_whole; known).
    destruct (host_time _ (Hhost cfg eq_refl) f time s norm Hf ltac:(by rewrite Hr)).
    unfold time_body. apply accept_whole; [text_plain|text_length].
  - apply refuse_whole; known.
Qed.

End command_specs.

Context (Hsize : 512 <= out_size) (Hhost : forall cfg, config = Some cfg -> host_ok cfg).

Lemma run_request_whole root s :
  wp (run_request out_size config root).2 (fun a _ => whole out_size a.1) s.
Proof.
  unfold run_request. cbv zeta.
  assert (Hinv : forall id s, wp (ret (S := S) (cdc_error_response out_size id USB_CDC_ERROR_INVALID_REQUEST, no_effect))
    (fun a _ => whole out_size a.1) s).
  { intros. apply wp_ret, error_whole; [lia|]. unfold error_codes. set_solver. }
  destruct (negb (cJSON_IsObject root)); [apply Hinv|].
  destruct (string_member root (txt "id")) as [id|]; [|apply Hinv].
  destruct (cdc_id_valid (Some id)) eqn:Hid; cbn [negb]; [|apply Hinv]. cbn [snd].
  destruct (string_member root (txt "cmd")) as [cmd|]; [|apply Hinv].
  destruct (cJSON_GetObjectItemCaseSensitive root (txt "args")) as [args|]; [|apply Hinv].
  destruct (negb _); [apply Hinv|]. by apply run_command_whole.
Qed.

Lemma finish_whole id a : whole out_size a.1 -> finish out_size id a = a.
Proof.
  intros (text & Ha & Hl & _). unfold finish. rewrite Ha. cbn [fst].
  by rewrite (proj2 (Z.ltb_ge _ _)), (proj2 (Z.leb_gt _ _)) by lia.
Qed.

(** C35: whatever line arrives, the answer is one whole line: in a buffer of at
    least 512 bytes the response is complete, positive in length, and holds no
    control character, so it is neither cut nor can it break the line framing,
    for every JSON parser and every host whose own texts are short and plain. *)
Theorem response_is_one_line buffer len s :
  wp (usb_cdc_protocol_process_line (Some buffer) len out_size config)
    (fun '(n, out, _) _ => exists text, out = Some text /\ n = zlen text /\
       0 < n < out_size /\ plain text) s.
Proof.
  unfold usb_cdc_protocol_process_line. rewrite (proj2 (Z.eqb_neq _ _)) by lia. cbv zeta.
  assert (Hfail : forall code, code ∈ error_codes -> forall (s : S),
    wp (ret ((cdc_error_response out_size None code).1, Some (cdc_error_response out_size None code).2, no_effect))
      (fun '(n, out, _) _ => exists text, out = Some text /\ n = zlen text /\ 0 < n < out_size /\ plain text) s).
  { intros code Hc s1. destruct (error_whole out_size None code ltac:(lia) Hc) as (text & -> & Hl & Hp).
    by exists text. }
  destruct (_ <? len); [apply Hfail; unfold error_codes; set_solver|].
  destruct (negb _); [apply Hfail; unfold error_codes; set_solver|].
  destruct (cJSON_ParseWithOpts _) as [root|]; [|apply Hfail; unfold error_codes; set_solver].
  pose proof (run_request_whole root s) as Hrun. destruct (run_request out_size config root) as [id run].
  st_prim. eapply wp_mono; [exact Hrun|]. intros a s1 Ha. st_prim.
  rewrite finish_whole by done. destruct Ha as (text & -> & Hl & Hp). by exists text.
Qed.
End responses.

(** ** Specification: what a request may do *)

Section authority.
Context {S J : Type} `{!Cjson J}.
Context (config : option (usb_cdc_protocol_config_t S)).

(** [ran args s cmd s' accepted]: the command [cmd] moved the host from [s] to
    [s'] by at most the one callback it names, called once with the argument
    of the request; [accepted] is the attempt whose release it accepted. *)
Inductive ran (args : J) (s : S) : bytes -> S -> option bytes -> Prop :=
  | RanNothing cmd :
      (cmd = txt "RELEASE_STORAGE" -> forall f attempt,
         config ≫= release_accept = Some f ->
         string_member args (txt "releaseAttemptId") = Some attempt ->
         cJSON_GetArraySize args = 1 -> cdc_id_valid (Some attempt) = true -> False) ->
      ran args s cmd s None
  | RanRelease f attempt s' r :
      config ≫= release_accept = Some f ->
      string_member args (txt "releaseAttemptId") = Some attempt ->
      cJSON_GetArraySize args = 1 -> cdc_id_valid (Some attempt) = true ->
      f attempt s = (r, s') ->
      ran args s (txt "RELEASE_STORAGE") s'
        (match r with USB_CDC_RELEASE_ACCEPTED => Some attempt | _ => None end)
  | RanStatus p r s' :
      config ≫= status_provider = Some p -> cdc_args_empty args = true -> p s = (r, s') ->
      ran args s (txt "GET_STATUS") s' None
  | RanTime f time r s' :
      config ≫= set_time = Some f -> string_member args (txt "time") = Some time ->
      cJSON_GetArraySize args = 1 -> f time s = (r, s') ->
      ran args s (txt "SET_TIME") s' None.

(** What the effect and the response say of the acceptance. *)
Definition reports (id : bytes) (accepted : option bytes) (out : bytes) (eff : usb_cdc_protocol_effect_t) : Prop :=
  match accepted with
  | Some attempt => eff = CdcEffect true attempt /\ out = ok_text id (release_body attempt)
  | None => eff = no_effect
  end.

(** The request a line holds. *)
Record requests (json : bytes) (len : Z) (id : bytes) (args : J) (cmd : bytes) : Prop := Requests {
  req_utf8 : cdc_utf8_valid json = true;
  req_short : len <= USB_CDC_PROTOCOL_MAX_LINE_BYTES;
  req_id_ok : cdc_id_valid (Some id) = true;
  req_args_object : cJSON_IsObject args = true;
  req_root : exists root, cJSON_ParseWithOpts json = Some root /\ cJSON_IsObject root = true /\
    string_member root (txt "id") = Some id /\ string_member root (txt "cmd") = Some cmd /\
    cJSON_GetObjectItemCaseSensitive root (txt "args") = Some args;
}.

Context (out_size : Z) (Hsize : 512 <= out_size).

Lemma run_command_ran id args cmd s :
  cdc_id_valid (Some id) = true ->
  wp (run_command out_size config id args cmd)
     (fun a s' => exists accepted, ran args s cmd s' accepted /\ reports id accepted a.1.2 a.2) s.
Proof.
  intros Hid.
  assert (Hno : forall cmd (r : Z * bytes), (cmd = txt "RELEASE_STORAGE" -> forall f attempt,
         config ≫= release_accept = Some f ->
         string_member args (txt "releaseAttemptId") = Some attempt ->
         cJSON_GetArraySize args = 1 -> cdc_id_valid (Some attempt) = true -> False) -> wp (ret (r, no_effect))
    (fun a s' => exists accepted, ran args s cmd s' accepted /\ reports id accepted a.1.2 a.2) s).
  { intros cmd0 r Hnot. exists None. split; [by constructor|done]. }
  unfold run_command. repeat (destruct (decide _); [subst cmd|]); try (apply Hno; done).
  - unfold do_release. destruct (string_member args (txt "releaseAttemptId")) as [attempt|] eqn:Ha; [|apply Hno; congruence].
    destruct (negb _ || negb _) eqn:Hv.
    { apply Hno. intros _ f attempt0 _ [= <-] Hn Hi. rewrite Hn, Hi in Hv. done. }
    split_bools. destruct (config ≫= release_accept) as [f|] eqn:Hf; [|apply Hno; congruence].
    st_prim. apply wp_call. intros r s' Hr.
    pose proof (RanRelease args s f attempt s' r Hf Ha ltac:(done) ltac:(done) Hr) as Hran.
    destruct r; st_prim; try (exists None; by split).
    exists (Some attempt). split; [done|]. split; [done|]. cbn [fst snd].
    destruct (release_body_short attempt ltac:(done)) as [_ Hl].
    by rewrite snprintf_fits by (by apply ok_fits).
  - destruct (negb _); by apply Hno.
  - unfold do_get_info. destruct (negb _); [by apply Hno|]. destruct (config ≫= device_id); by apply Hno.
  - unfold do_get_status. destruct (negb _) eqn:He; [by apply Hno|]. split_bools.
    destruct (config ≫= status_provider) as [p|] eqn:Hp; [|by apply Hno].
    st_prim. apply wp_call. intros r s' Hr.
    pose proof (RanStatus args s p r s' Hp ltac:(done) Hr).
    repeat step_match; exists None; by split.
  - unfold do_set_time. destruct (string_member args (txt "time")) as [time|] eqn:Ht; [|by apply Hno].
    destruct (negb _) eqn:He; [by apply Hno|]. split_bools.
    destruct (config ≫= set_time) as [f|] eqn:Hf; [|by apply Hno].
    st_prim. apply wp_call. intros r s' Hr.
    pose proof (RanTime args s f time r s' Hf Ht ltac:(done) Hr).
    destruct r as [[] norm]; exists None; by split.
Qed.

Ltac not_a_request :=
  left; split_and!; try done;
    intros id' args' cmd' [_ _ ? ? (? & ? & ? & ? & ? & ?)]; congruence.

Lemma run_request_ran json len root s :
  cdc_utf8_valid json = true -> len <= USB_CDC_PROTOCOL_MAX_LINE_BYTES ->
  cJSON_ParseWithOpts json = Some root ->
  wp (run_request out_size config root).2
    (fun a s' => (s' = s /\ a.2 = no_effect /\ forall id args cmd, ~ requests json len id args cmd) \/
       exists id args cmd accepted, requests json len id args cmd /\ ran args s cmd s' accepted /\
         reports id accepted a.1.2 a.2) s.
Proof.
  intros Hutf Hlen Hroot. unfold run_request. cbv zeta.
  destruct (cJSON_IsObject root) eqn:Hobj; cbn [negb]; [|not_a_request].
  destruct (string_member root (txt "id")) as [id|] eqn:Hid; [|not_a_request].
  destruct (cdc_id_valid (Some id)) eqn:Hok; cbn [negb snd]; [|not_a_request].
  destruct (string_member root (txt "cmd")) as [cmd|] eqn:Hcmd; [|not_a_request].
  destruct (cJSON_GetObjectItemCaseSensitive root (txt "args")) as [args|] eqn:Hargs; [|not_a_request].
  destruct (cJSON_IsObject args) eqn:Haobj; cbn [negb]; [|not_a_request].
  eapply wp_mono; [by apply run_command_ran|].
  intros a s' (accepted & Hran & Hrep). right. exists id, args, cmd, accepted.
  split_and!; try done. split; try done. by exists root.
Qed.

End authority.

(** ** A concrete parser *)

(** A JSON value with strings and objects; a parser that knows one text. *)
Inductive tiny_json :=
  | TinyString (s : bytes)
  | TinyObject (members : list (bytes * tiny_json)).

Fixpoint tiny_member (key : bytes) (l : list (bytes * tiny_json)) : option tiny_json :=
  match l with
  | [] => None
  | (k, v) :: l => if decide (k = key) then Some v else tiny_member key l
  end.

Definition sample_line : bytes :=
  jtxt "{'id':'r1','cmd':'RELEASE_STORAGE','args':{'releaseAttemptId':'a-7'}}".

Definition sample_request : tiny_json :=
  TinyObject [(txt "id", TinyString (txt "r1")); (txt "cmd", TinyString (txt "RELEASE_STORAGE"));
              (txt "args", TinyObject [(txt "releaseAttemptId", TinyString (txt "a-7"))])].

#[export] Instance tiny_cjson : Cjson tiny_json := {
  cJSON_ParseWithOpts l := if decide (l = sample_line) then Some sample_request else None;
  cJSON_IsObject j := match j with TinyObject _ => true | _ => false end;
  cJSON_GetObjectItemCaseSensitive j k := match j with TinyObject l => tiny_member k l | _ => None end;
  cJSON_GetArraySize j := match j with TinyObject l => zlen l | _ => 0 end;
  cJSON_string j := match j with TinyString s => Some s | _ => None end;
}.

(** A host that counts the releases it accepts. *)
Definition sample_host : usb_cdc_protocol_config_t Z :=
  CdcConfig Z (Some (txt "01234567-89ab-4cde-8f01-23456789abcd"))
    (Some (fun s => (Some (CdcStatus (Some (txt "USB")) (Some (txt "NONE")) 3900 true false), s)))
    (Some (fun _ s => ((USB_CDC_SET_TIME_BUSY, []), s)))
    (Some (fun _ s => (USB_CDC_RELEASE_ACCEPTED, s + 1))) None None.

Lemma sample_host_ok : host_ok sample_host.
Proof.
  split.
  - intros d [= <-]. split; [done|by apply plain_lit].
  - intros p s r [= <-] [= <-]. split; [|cbn; lia].
    intros x [[= <-]|[= <-]]; (split; [done|by apply plain_lit]).
  - intros f t s n [= <-]. cbn. congruence.
Qed.

Lemma response_is_one_line_witness :
  wp (usb_cdc_protocol_process_line (Some sample_line) (zlen sample_line) 768 (Some sample_host))
    (fun '(n, out, _) _ => exists text, out = Some text /\ n = zlen text /\ 0 < n < 768 /\ plain text) 0.
Proof.
  apply (response_is_one_line 768 (Some sample_host)); [lia|].
  intros cfg H. assert (cfg = sample_host) as -> by congruence. exact sample_host_ok.
Defined.

