(* ===== verification/CdcTx.v ===== *)
(** * CdcTx: the session-fenced response writer

    Models [usb_cdc_tx.c]: queueing a response and its newline behind the
    session fence, the wait for the last USB IN transfer with its timeout, and
    the gate in front of the release callback.  The transport and the clock
    are the platform: their operations are the function pointers of the two
    [ops] structures, over a state [T], and what the theorems need of them are
    the records [transport] and [clock].  Loops that depend on the platform
    carry fuel; [None] is running out of it. *)

From S2P Require Import Prelude Monad.

(** ** Writing a response *)

(** [usb_cdc_tx_ops_t]; a pointer may be NULL. *)
Record usb_cdc_tx_ops_t (T : Type) := TxOps {
  is_connected : option (st T bool);
  session_is_current : option (Z -> st T bool);
  queue : option (bytes -> st T Z);
  queue_char : option (Z -> st T Z);
  flush : option (Z -> st T bool);
  wait : option (st T unit);
  await_endpoint : option (Z -> st T bool);
  endpoint_timeout_ms : Z;
  retry_flush_timeout_ms : Z;
  final_flush_timeout_ms : Z;
}.
#[global] Arguments is_connected {T}.
#[global] Arguments session_is_current {T}.
#[global] Arguments queue {T}.
#[global] Arguments queue_char {T}.
#[global] Arguments flush {T}.
#[global] Arguments wait {T}.
#[global] Arguments await_endpoint {T}.
#[global] Arguments endpoint_timeout_ms {T}.
#[global] Arguments retry_flush_timeout_ms {T}.
#[global] Arguments final_flush_timeout_ms {T}.

Section write.
Context {T : Type}.

(** The five calls that must be there. *)
Section calls.
Context (connected : st T bool) (current : Z -> st T bool) (put : bytes -> st T Z)
        (put_char : Z -> st T Z) (push : Z -> st T bool).
Context (pause : option (st T unit)) (retry_ms : Z) (generation : Z).

Definition tx_is_current : st T bool :=
  let* c := connected in
  if (c : bool) then current generation else ret false.

Definition do_pause : st T unit := match pause with Some p => p | None => ret tt end.

(** The [while (sent < len)] loop on what is left to send: [Some true] when
    all of it is queued. *)
Fixpoint queue_loop (fuel : nat) (rest : bytes) : st T (option bool) :=
  match fuel with
  | O => ret None
  | S fuel =>
      if bool_decide (rest = []) then ret (Some true) else
      let* cur := tx_is_current in
      if negb cur then ret (Some false) else
      let* queued := put rest in
      if zlen rest <? queued then ret (Some false) else
      if queued =? 0 then
        let* cur := tx_is_current in
        if negb cur then ret (Some false) else
        let* flushed := push retry_ms in
        (if negb flushed then do_pause else ret tt) ;;;
        queue_loop fuel rest
      else queue_loop fuel (drop (Z.to_nat queued) rest)
  end.

(** The [for (;;)] loop of the newline. *)
Fixpoint newline_loop (fuel : nat) : st T (option bool) :=
  match fuel with
  | O => ret None
  | S fuel =>
      let* cur := tx_is_current in
      if negb cur then ret (Some false) else
      let* queued := put_char 10 in
      if negb (queued =? 0) then ret (Some true) else
      let* _ := push retry_ms in
      do_pause ;;;
      newline_loop fuel
  end.
End calls.

(** The steps after the newline. *)
Definition finish_response (connected : st T bool) (current : Z -> st T bool) (push : Z -> st T bool)
    (ops : usb_cdc_tx_ops_t T) (generation : Z) : st T (option bool) :=
  let* cur := tx_is_current connected current generation in
  if negb cur then ret (Some false) else
  let* flushed := push (final_flush_timeout_ms ops) in
  if negb flushed then ret (Some false) else
  let* done_ := match await_endpoint ops with
                | Some await => await (endpoint_timeout_ms ops)
                | None => ret true
                end in
  if negb done_ then ret (Some false) else
  let* cur := current generation in
  ret (Some cur).

(** A [None] response is a NULL pointer. *)
Definition usb_cdc_tx_write_response (fuel : nat) (ops : option (usb_cdc_tx_ops_t T))
    (response : option bytes) (len : Z) (generation : Z) : st T (option bool) :=
  match ops with
  | None => ret (Some false)
  | Some ops =>
      if bool_decide (response = None) && negb (len =? 0) then ret (Some false) else
      match is_connected ops, session_is_current ops, queue ops, queue_char ops, flush ops with
      | Some connected, Some current, Some put, Some put_char, Some push =>
          let data := take (Z.to_nat len) (default [] response) in
          let* sent := queue_loop connected current put push (wait ops)
                         (retry_flush_timeout_ms ops) generation fuel data in
          match sent with
          | Some true =>
              let* ended := newline_loop connected current put_char push (wait ops)
                              (retry_flush_timeout_ms ops) generation fuel in
              match ended with
              | Some true => finish_response connected current push ops generation
              | _ => ret ended
              end
          | _ => ret sent
          end
      | _, _, _, _, _ => ret (Some false)
      end
  end.

(** ** The release gate *)

Definition usb_cdc_tx_complete_accepted_release (release_accepted response_complete : bool)
    (attempt_id : option bytes) (callback : option (bytes -> st T bool)) : st T bool :=
  match attempt_id, callback with
  | Some id, Some callback =>
      if negb release_accepted || negb response_complete then ret false else callback id
  | _, _ => ret false
  end.
End write.

(** ** Waiting for the last IN transfer *)

Definition usb_cdc_tx_final_in_complete (callbacks_before callbacks_after : Z)
    (fifo_drained endpoint_busy : bool) : bool :=
  negb (callbacks_after =? callbacks_before) && fifo_drained && negb endpoint_busy.

(** [usb_cdc_tx_final_wait_ops_t]; [sample] gives its three outputs, or fails. *)
Record usb_cdc_tx_final_wait_ops_t (T : Type) := FinalWaitOps {
  session_current : option (st T bool);
  sample : option (st T (option (Z * bool * bool)));
  now_ticks : option (st T Z);
  delay_ticks : option (Z -> st T unit);
  callbacks_before : Z;
  timeout_ticks : Z;
  host_grace_ticks : Z;
}.
#[global] Arguments session_current {T}.
#[global] Arguments sample {T}.
#[global] Arguments now_ticks {T}.
#[global] Arguments delay_ticks {T}.
#[global] Arguments callbacks_before {T}.
#[global] Arguments timeout_ticks {T}.
#[global] Arguments host_grace_ticks {T}.

Section final_wait.
Context {T : Type}.
Context (current : st T bool) (observe : st T (option (Z * bool * bool))) (now : st T Z)
        (delay : Z -> st T unit) (before timeout grace : Z).

Definition tx_final_in_sample_ready : st T bool :=
  let* o := observe in
  ret match o with
      | Some (after, drained, busy) => usb_cdc_tx_final_in_complete before after drained busy
      | None => false
      end.

(** One pass of the [do] loop: [Some] result, or [None] to evaluate the loop
    condition ([continue] goes there too). *)
Definition final_pass : st T (option bool) :=
  let* cur := current in
  if negb cur then ret (Some false) else
  let* ready := tx_final_in_sample_ready in
  if (ready : bool) then
    delay 1 ;;;
    let* cur := current in
    if negb cur then ret (Some false) else
    let* ready := tx_final_in_sample_ready in
    if negb ready then ret None else
    delay grace ;;;
    let* cur := current in
    if negb cur then ret (Some false) else
    let* ready := tx_final_in_sample_ready in
    ret (Some ready)
  else
    delay 1 ;;;
    ret None.

Fixpoint final_loop (fuel : nat) (start : Z) : st T (option bool) :=
  match fuel with
  | O => ret None
  | S fuel =>
      let* r := final_pass in
      match r with
      | Some b => ret (Some b)
      | None =>
          let* t := now in
          if u32 (t - start) <? timeout then final_loop fuel start else ret (Some false)
      end
  end.
End final_wait.

Definition usb_cdc_tx_wait_final_in {T} (fuel : nat) (ops : option (usb_cdc_tx_final_wait_ops_t T)) :
    st T (option bool) :=
  match ops with
  | None => ret (Some false)
  | Some ops =>
      match session_current ops, sample ops, now_ticks ops, delay_ticks ops with
      | Some current, Some observe, Some now, Some delay =>
          if timeout_ticks ops =? 0 then ret (Some false) else
          let* start := now in
          final_loop current observe now delay (callbacks_before ops) (timeout_ticks ops)
            (host_grace_ticks ops) fuel start
      | _, _, _, _ => ret (Some false)
      end
  end.

(** ** Specification: the transport *)

(** [wire] is what the transport accepted so far; a call other than the two
    queueing ones accepts nothing; a queueing call accepts the prefix it
    counts.  [patience] bounds how often an open connection accepts nothing. *)
Section transport.
Context {T : Type} (wire : T -> bytes) (patience : T -> nat).

Definition quiet (s s' : T) : Prop := wire s' = wire s /\ (patience s' <= patience s)%nat.

Record transport (ops : usb_cdc_tx_ops_t T) : Prop := Transport {
  tr_connected : forall f s, is_connected ops = Some f -> quiet s (f s).2;
  tr_current : forall f g s, session_is_current ops = Some f -> quiet s (f g s).2;
  tr_flush : forall f t s, flush ops = Some f -> quiet s (f t s).2;
  tr_wait : forall f s, wait ops = Some f -> quiet s (f s).2;
  tr_await : forall f t s, await_endpoint ops = Some f -> quiet s (f t s).2;
  tr_queue : forall f d s n s', queue ops = Some f -> f d s = (n, s') ->
    0 <= n /\ wire s' = (wire s ++ take (Z.to_nat n) d)%list /\ (patience s' <= patience s)%nat /\
    (n = 0 -> (patience s' < patience s)%nat);
  tr_queue_char : forall f c s n s', queue_char ops = Some f -> f c s = (n, s') ->
    wire s' = (wire s ++ (if n =? 0%Z then [] else [c]))%list /\ (patience s' <= patience s)%nat /\
    (n = 0 -> (patience s' < patience s)%nat);
}.

Lemma tx_quiet_refl s : quiet s s.
Proof. by split. Qed.

Lemma tx_quiet_trans s1 s2 s3 : quiet s1 s2 -> quiet s2 s3 -> quiet s1 s3.
Proof. intros [? ?] [? ?]. split; [congruence|lia]. Qed.

Lemma wp_quiet {A} (m : st T A) (Q : A -> T -> Prop) s :
  quiet s (m s).2 -> (forall x s', m s = (x, s') -> quiet s s' -> Q x s') -> wp m Q s.
Proof. intros Hq HQ. apply wp_call. intros x s' He. apply HQ; [done|]. by rewrite He in Hq. Qed.

Section calls.
Context (ops : usb_cdc_tx_ops_t T) (Hops : transport ops).
Context connected current put put_char push
  (Hconnected : is_connected ops = Some connected) (Hcurrent : session_is_current ops = Some current)
  (Hput : queue ops = Some put) (Hput_char : queue_char ops = Some put_char)
  (Hpush : flush ops = Some push) (generation : Z).

Lemma wp_tx_is_current (Q : bool -> T -> Prop) s :
  (forall b s', quiet s s' -> Q b s') -> wp (tx_is_current connected current generation) Q s.
Proof.
  intros HQ. unfold tx_is_current. st_prim.
  apply wp_quiet; [by eapply tr_connected|]. intros [] s1 _ H1; st_prim; [|by apply HQ].
  apply wp_quiet; [by eapply tr_current|]. intros b s2 _ H2. apply HQ. by eapply tx_quiet_trans.
Qed.

Lemma wp_push t (Q : bool -> T -> Prop) s :
  (forall b s', push t s = (b, s') -> quiet s s' -> Q b s') -> wp (push t) Q s.
Proof. intros HQ. apply wp_quiet; [by eapply tr_flush|done]. Qed.

Lemma wp_do_pause (Q : unit -> T -> Prop) s :
  (forall s', quiet s s' -> Q tt s') -> wp (do_pause (wait ops)) Q s.
Proof.
  intros HQ. unfold do_pause. destruct (wait ops) as [p|] eqn:Hp.
  - apply wp_quiet; [by eapply tr_wait|]. intros [] s' _. by apply HQ.
  - apply wp_ret, HQ, tx_quiet_refl.
Qed.

(** [sent r data s s']: the loop ended; [true] with all of [data] on the wire,
    [false] with a prefix of it. *)
Definition sent (r : option bool) (data : bytes) (s s' : T) : Prop :=
  (patience s' <= patience s)%nat /\
  exists b k, r = Some b /\ wire s' = (wire s ++ take k data)%list /\ (b = true -> take k data = data).

Lemma sent_nothing s s' data : quiet s s' -> sent (Some false) data s s'.
Proof. intros [Hw Hp]. split; [done|]. exists false, 0%nat. rewrite app_nil_r. by split_and!. Qed.

Lemma sent_later r data s s1 s2 : quiet s s1 -> sent r data s1 s2 -> sent r data s s2.
Proof.
  intros [Hw Hp] [Hp2 (b & k & -> & Hw2 & Hb)]. split; [lia|]. exists b, k. by rewrite Hw2, Hw.
Qed.

Lemma sent_more n data r s s1 s2 :
  wire s1 = (wire s ++ take n data)%list -> (patience s1 <= patience s)%nat ->
  sent r (drop n data) s1 s2 -> sent r data s s2.
Proof.
  intros Hw Hp [Hp2 (b & k & -> & Hw2 & Hb)]. split; [lia|]. exists b, (n + k)%nat.
  rewrite Hw2, Hw, <- app_assoc, take_take_drop. split_and!; try done.
  intros Ht. specialize (Hb Ht). by rewrite <- take_take_drop, Hb, take_drop.
Qed.

Lemma wp_queue_loop retry fuel : forall rest s,
  (length rest + patience s < fuel)%nat ->
  wp (queue_loop connected current put push (wait ops) retry generation fuel rest)
     (fun r s' => sent r rest s s') s.
Proof.
  induction fuel as [|fuel IH]; intros rest s Hf; [lia|]. cbn [queue_loop].
  case_bool_decide as Hrest.
  { subst rest. apply wp_ret. split; [done|]. exists true, 0%nat. by rewrite app_nil_r. }
  st_prim. apply wp_tx_is_current. intros cur s1 H1.
  destruct cur; cbn [negb]; st_prim; [|by apply sent_nothing].
  apply wp_call. intros n s2 Hn.
  destruct (tr_queue ops Hops put rest s1 n s2 Hput Hn) as (Hn0 & Hw & Hp & Hzero).
  destruct H1 as [Hw1 Hp1].
  destruct (zlen rest <? n).
  { st_prim. eapply sent_later; [by split|]. split; [done|]. exists false, (Z.to_nat n). by rewrite Hw. }
  destruct (Z.eqb_spec n 0) as [->|Hpos].
  - cbn in Hw. rewrite app_nil_r in Hw. st_prim. apply wp_tx_is_current. intros cur s3 [Hw3 Hp3].
    destruct cur; cbn [negb]; st_prim; [|apply sent_nothing; split; [congruence|lia]].
    apply wp_push. intros flushed s4 _ [Hw4 Hp4].
    assert (Hgo : forall s5, quiet s4 s5 -> wp (queue_loop connected current put push (wait ops)
      retry generation fuel rest) (fun r s' => sent r rest s s') s5).
    { intros s5 [Hw5 Hp5]. specialize (Hzero eq_refl). eapply wp_mono; [apply IH; lia|].
      intros r s6. apply sent_later. split; [congruence|lia]. }
    st_prim. destruct flushed; cbn [negb]; st_prim; [apply Hgo, tx_quiet_refl|].
    by apply wp_do_pause.
  - assert (length (drop (Z.to_nat n) rest) < length rest)%nat.
    { rewrite length_drop. destruct rest; [done|cbn; lia]. }
    eapply wp_mono; [apply IH; lia|]. intros r s3. apply sent_more; [congruence|lia].
Qed.

Lemma wp_newline_loop retry fuel : forall s,
  (patience s < fuel)%nat ->
  wp (newline_loop connected current put_char push (wait ops) retry generation fuel)
     (fun r s' => sent r [10] s s') s.
Proof.
  induction fuel as [|fuel IH]; intros s Hf; [lia|]. cbn [newline_loop].
  st_prim. apply wp_tx_is_current. intros cur s1 H1.
  destruct cur; cbn [negb]; st_prim; [|by apply sent_nothing].
  apply wp_call. intros n s2 Hn.
  destruct (tr_queue_char ops Hops put_char 10 s1 n s2 Hput_char Hn) as (Hw & Hp & Hzero).
  destruct (Z.eqb_spec n 0) as [->|Hpos]; cbn [negb]; st_prim.
  - rewrite app_nil_r in Hw. apply wp_push. intros _ s3 _ [Hw3 Hp3]. st_prim.
    apply wp_do_pause. intros s4 [Hw4 Hp4]. destruct H1 as [Hw1 Hp1]. specialize (Hzero eq_refl).
    eapply wp_mono; [apply IH; lia|]. intros r s5. apply sent_later. split; [congruence|lia].
  - eapply sent_later; [done|]. split; [done|]. exists true, 1%nat. by split_and!.
Qed.

(** The transport boundary after the newline: the final flush and, when asked
    for, the last IN transfer succeeded, and the session was still current. *)
Definition settled (s' : T) : Prop :=
  exists s0 s1 s2, push (final_flush_timeout_ms ops) s0 = (true, s1) /\
    match await_endpoint ops with
    | Some await => await (endpoint_timeout_ms ops) s1 = (true, s2)
    | None => s2 = s1
    end /\ current generation s2 = (true, s').

Lemma wp_finish_response s :
  wp (finish_response connected current push ops generation)
     (fun r s' => quiet s s' /\ exists b, r = Some b /\ (b = true -> settled s')) s.
Proof.
  unfold finish_response. st_prim. apply wp_tx_is_current. intros cur s1 H1.
  destruct cur; cbn [negb]; st_prim; [|by split; [|exists false]].
  apply wp_push. intros flushed s2 Hf H2. pose proof (tx_quiet_trans _ _ _ H1 H2) as H12.
  destruct flushed; cbn [negb]; st_prim; [|by split; [|exists false]].
  assert (Hend : forall s3, quiet s2 s3 ->
    match await_endpoint ops with
    | Some await => await (endpoint_timeout_ms ops) s2 = (true, s3) | None => s3 = s2 end ->
    wp (let* cur := current generation in ret (Some cur))
       (fun r s' => quiet s s' /\ exists b, r = Some b /\ (b = true -> settled s')) s3).
  { intros s3 H3 Hw. st_prim. apply wp_quiet; [by eapply tr_current|]. intros b s4 Hc H4. st_prim.
    split; [eauto using tx_quiet_trans|]. exists b. split; [done|]. intros ->. by exists s1, s2, s3. }
  destruct (await_endpoint ops) as [await|] eqn:Ha; st_prim; [|apply Hend; [apply tx_quiet_refl|done]].
  apply wp_quiet; [by eapply tr_await|]. intros b s3 Hb H3.
  destruct b; cbn [negb]; [by apply Hend|]. st_prim.
  split; [eauto using tx_quiet_trans|]. by exists false.
Qed.
End calls.
End transport.


(** ** Specification: the clock *)

(** [ticks] is the scheduler's time without wrap-around: [now] reads its low
    32 bits, [delay] lets at least the asked time pass, and no call takes
    more than [slack] ticks beyond that. *)
Section clock.
Context {T : Type} (ticks : T -> Z) (slack : Z).

Definition takes (s : T) (n : Z) (s' : T) : Prop := ticks s + n <= ticks s' <= ticks s + n + slack.

Record clock (ops : usb_cdc_tx_final_wait_ops_t T) : Prop := Clock {
  clock_current : forall f s, session_current ops = Some f -> takes s 0 (f s).2;
  clock_sample : forall f s, sample ops = Some f -> takes s 0 (f s).2;
  clock_now : forall f s, now_ticks ops = Some f -> takes s 0 (f s).2 /\ (f s).1 = u32 (ticks (f s).2);
  clock_delay : forall f k s, delay_ticks ops = Some f -> 0 <= k -> takes s k (f k s).2;
}.

Section wait.
Context (ops : usb_cdc_tx_final_wait_ops_t T) (Hops : clock ops).
Context current observe now delay
  (Hcurrent : session_current ops = Some current) (Hobserve : sample ops = Some observe)
  (Hnow : now_ticks ops = Some now) (Hdelay : delay_ticks ops = Some delay).
Context (Hslack : 0 <= slack) (Hgrace : 0 <= host_grace_ticks ops)
        (Htimeout : 0 < timeout_ticks ops) (Hwindow : timeout_ticks ops + 8 * slack + 2 <= 4294967296).

Abbreviation pass := (final_pass current observe delay (callbacks_before ops) (host_grace_ticks ops)).
Abbreviation ready := (tx_final_in_sample_ready observe (callbacks_before ops)).

(** The proof that the last IN transfer reached the host: behind the grace
    period the session was current, and the next sample showed a completed
    transfer since the response was queued, an empty FIFO and an idle endpoint. *)
Definition final_proof (s' : T) : Prop :=
  exists s0 s1 s2 after, delay (host_grace_ticks ops) s0 = (tt, s1) /\ current s1 = (true, s2) /\
    observe s2 = (Some (after, true, false), s') /\ after <> callbacks_before ops.

Lemma wp_current (Q : bool -> T -> Prop) s :
  (forall b s', current s = (b, s') -> takes s 0 s' -> Q b s') -> wp current Q s.
Proof.
  intros HQ. apply wp_call. intros b s' He. apply HQ; [done|].
  pose proof (clock_current ops Hops current s Hcurrent) as H. by rewrite He in H.
Qed.

Lemma wp_ready (Q : bool -> T -> Prop) s :
  (forall b s', takes s 0 s' ->
     (b = true -> exists after, observe s = (Some (after, true, false), s') /\
        after <> callbacks_before ops) -> Q b s') -> wp ready Q s.
Proof.
  intros HQ. unfold tx_final_in_sample_ready. st_prim. apply wp_call. intros o s' He. st_prim.
  pose proof (clock_sample ops Hops observe s Hobserve) as H. rewrite He in H.
  apply HQ; [done|]. destruct o as [[[after drained] busy]|]; [|done].
  unfold usb_cdc_tx_final_in_complete. intros Hr. split_bools. destruct drained; [|done].
  exists after. by subst busy.
Qed.

Lemma wp_delay k (Q : unit -> T -> Prop) s :
  0 <= k -> (forall s', delay k s = (tt, s') -> takes s k s' -> Q tt s') -> wp (delay k) Q s.
Proof.
  intros Hk HQ. apply wp_call. intros [] s' He. apply HQ; [done|].
  pose proof (clock_delay ops Hops delay k s Hdelay Hk) as H. by rewrite He in H.
Qed.

Lemma wp_final_pass s :
  wp pass (fun r s' =>
    match r with
    | None => ticks s + 1 <= ticks s' <= ticks s + 1 + 6 * slack
    | Some b => ticks s' <= ticks s + 1 + host_grace_ticks ops + 8 * slack /\ (b = true -> final_proof s')
    end) s.
Proof.
  unfold final_pass. unfold takes in *. st_prim.
  apply wp_current. intros b s1 _ H1. unfold takes in H1.
  destruct b; cbn [negb]; st_prim; [|split; [lia|done]].
  apply wp_ready. intros b s2 H2 _. unfold takes in H2. destruct b; st_prim.
  2: { apply wp_delay; [lia|]. intros s3 _ H3. unfold takes in H3. st_prim. lia. }
  apply wp_delay; [lia|]. intros s3 _ H3. unfold takes in H3. st_prim.
  apply wp_current. intros b s4 _ H4. unfold takes in H4.
  destruct b; cbn [negb]; st_prim; [|split; [lia|done]].
  apply wp_ready. intros b s5 H5 _. unfold takes in H5.
  destruct b; cbn [negb]; st_prim; [|lia].
  apply wp_delay; [done|]. intros s6 E6 H6. unfold takes in H6. st_prim.
  apply wp_current. intros b s7 E7 H7. unfold takes in H7.
  destruct b; cbn [negb]; st_prim; [|split; [lia|done]].
  apply wp_ready. intros b s8 H8 Hready. unfold takes in H8. st_prim.
  split; [lia|]. intros Hb. destruct (Hready Hb) as (after & E8 & Hne). by exists s5, s6, s7, after.
Qed.

Lemma wp_final_loop s0 fuel : forall s,
  0 <= ticks s - ticks s0 < timeout_ticks ops ->
  timeout_ticks ops - (ticks s - ticks s0) <= Z.of_nat fuel ->
  wp (final_loop current observe now delay (callbacks_before ops) (timeout_ticks ops)
        (host_grace_ticks ops) fuel (u32 (ticks s0)))
     (fun r s' => exists b, r = Some b /\
        ticks s' <= ticks s0 + timeout_ticks ops + host_grace_ticks ops + 8 * slack /\
        (b = true -> final_proof s')) s.
Proof.
  induction fuel as [|fuel IH]; intros s He Hf; [cbn in Hf; lia|]. cbn [final_loop]. st_prim.
  eapply wp_mono; [apply wp_final_pass|]. intros [b|] s1 H1; cbv beta iota in H1; st_prim.
  { exists b. split_and!; [done|lia|apply H1]. }
  apply wp_call. intros t s2 Ht.
  destruct (clock_now ops Hops now s1 Hnow) as [H2 Hread]. rewrite Ht in H2, Hread. cbn in H2, Hread.
  unfold takes in H2. rewrite Hread. assert (u32 (u32 (ticks s2) - u32 (ticks s0)) = ticks s2 - ticks s0) as ->.
  { unfold u32. rewrite <- Zminus_mod. apply u32_small. lia. }
  destruct (Z.ltb_spec (ticks s2 - ticks s0) (timeout_ticks ops)); [apply IH; lia|].
  st_prim. exists false. split_and!; [done|lia|done].
Qed.
End wait.
End clock.

(** C28: the wait for the last IN transfer always ends, within the timeout plus
    the grace period and the time the calls themselves take, for a 32-bit
    tick counter that may wrap around during it; and it reports success only
    on the proof: behind the grace period, with the session still current, a
    sample with a completed transfer since the response was queued, an empty
    FIFO and an idle endpoint. *)
Theorem wait_final_in_fail_closed {T} (ticks : T -> Z) slack ops fuel s :
  clock ticks slack ops -> 0 <= slack -> 0 <= host_grace_ticks ops -> 0 <= timeout_ticks ops ->
  timeout_ticks ops + 8 * slack + 2 <= 4294967296 -> timeout_ticks ops <= Z.of_nat fuel ->
  wp (usb_cdc_tx_wait_final_in fuel (Some ops))
    (fun r s' => exists b, r = Some b /\
       ticks s' <= ticks s + timeout_ticks ops + host_grace_ticks ops + 9 * slack /\
       (b = true -> exists current observe delay, session_current ops = Some current /\
          sample ops = Some observe /\ delay_ticks ops = Some delay /\
          final_proof ops current observe delay s')) s.
Proof.
  intros Hops Hslack Hgrace Ht Hwindow Hf. unfold usb_cdc_tx_wait_final_in.
  assert (Hno : forall s', ticks s' = ticks s -> exists b : bool, Some false = Some b /\
    ticks s' <= ticks s + timeout_ticks ops + host_grace_ticks ops + 9 * slack /\
    (b = true -> exists current observe delay, session_current ops = Some current /\
          sample ops = Some observe /\ delay_ticks ops = Some delay /\
          final_proof ops current observe delay s')).
  { intros s' ->. exists false. split_and!; [done|lia|done]. }
  destruct (session_current ops) as [current|] eqn:Hc; [|by apply wp_ret, Hno].
  destruct (sample ops) as [observe|] eqn:Hs; [|by apply wp_ret, Hno].
  destruct (now_ticks ops) as [now|] eqn:Hn; [|by apply wp_ret, Hno].
  destruct (delay_ticks ops) as [delay|] eqn:Hd; [|by apply wp_ret, Hno].
  destruct (Z.eqb_spec (timeout_ticks ops) 0); [by apply wp_ret, Hno|].
  st_prim. apply wp_call. intros start s1 Hstart.
  destruct (clock_now _ _ ops Hops now s Hn) as [H1 Hread]. rewrite Hstart in H1, Hread.
  cbn in H1, Hread. unfold takes in H1. rewrite Hread.
  eapply wp_mono; [apply (wp_final_loop ticks slack ops Hops current observe now delay); try done; lia|].
  intros r s2 (b & -> & Hticks & Hproof). exists b. split_and!; [done|lia|].
  intros Hb. exists current, observe, delay. split_and!; try done. by apply Hproof.
Qed.

(** ** Witnesses *)

(** A transport that refuses [patience] calls and then takes a byte at a time,
    with a tick counter about to wrap around. *)
Record sample_transport := SampleTransport { st_wire : bytes; st_patience : nat; st_ticks : Z }.

Definition sample_put (d : bytes) (s : sample_transport) : Z * sample_transport :=
  match st_patience s with
  | O => (1, SampleTransport (st_wire s ++ take 1 d) 0 (st_ticks s))
  | S p => (0, SampleTransport (st_wire s) p (st_ticks s))
  end.

Definition sample_ops : usb_cdc_tx_ops_t sample_transport :=
  TxOps _ (Some (ret true)) (Some (fun _ => ret true)) (Some sample_put)
    (Some (fun c => sample_put [c])) (Some (fun _ => ret true)) None (Some (fun _ => ret true)) 500 20 250.

Lemma sample_transport_ok : transport st_wire st_patience sample_ops.
Proof.
  split; cbn; try (by intros f s [= <-]); try (by intros f t s [= <-]); try done.
  - intros f d s n s' [= <-]. unfold sample_put.
    destruct (st_patience s); intros [= <- <-]; cbn; rewrite ?app_nil_r; split_and!; try done; lia.
  - intros f c s n s' [= <-]. unfold sample_put.
    destruct (st_patience s); intros [= <- <-]; cbn; rewrite ?app_nil_r; split_and!; try done; lia.
Qed.


Definition sample_wait : usb_cdc_tx_final_wait_ops_t sample_transport :=
  FinalWaitOps _ (Some (ret true))
    (Some (fun s => (Some (if 4294967300 <=? st_ticks s then 8 else 7, true, false), s)))
    (Some (fun s => (u32 (st_ticks s), s)))
    (Some (fun k s => (tt, SampleTransport (st_wire s) (st_patience s) (st_ticks s + k)))) 7 500 150.

Lemma sample_clock_ok : clock st_ticks 0 sample_wait.
Proof.
  split; cbn; intros; simplify_eq; unfold takes; cbn; lia.
Qed.

Lemma wait_final_in_fail_closed_witness :
  let s := SampleTransport [] 0 4294967290 in
  (usb_cdc_tx_wait_final_in 500 (Some sample_wait) s).1 = Some true /\
  wp (usb_cdc_tx_wait_final_in 500 (Some sample_wait))
    (fun r s' => exists b, r = Some b /\ st_ticks s' <= 4294967290 + 500 + 150 + 9 * 0 /\
       (b = true -> exists current observe delay, session_current sample_wait = Some current /\
          sample sample_wait = Some observe /\ delay_ticks sample_wait = Some delay /\
          final_proof sample_wait current observe delay s')) s.
Proof.
  split; [by vm_compute|].
  apply (wait_final_in_fail_closed st_ticks 0 sample_wait 500 (SampleTransport [] 0 4294967290));
    [exact sample_clock_ok|cbn; lia..].
Defined.
