(* ===== verification/Interleave.v ===== *)
(** * Interleave: programs of atomic steps and their interleavings

    Lock-free code is a [prog]: a tree of atomic accesses to a shared state [W]
    and of loops.  A pool of threads runs under a schedule that names, at each
    step, the thread and whether a weak compare-exchange fails spuriously.
    All accesses of the modelled code are sequentially consistent, or are
    ordered by ones that are, so an interleaving is an execution.

    [ok p l Q] is the proof rule of one thread: [l] is what the thread claims
    of the shared state, the invariant [I] ties the shared state to the claims
    of all threads, and each atomic step must preserve [I] while it changes
    the claim.  [run_ok] is its soundness for every pool and schedule. *)

From S2P Require Import Prelude.

Section interleave.
Context {W : Type}.

(** [Loop body s k] runs [body] from [s] until it gives [inr], then [k]. *)
Inductive prog : Type -> Type :=
  | Done {A} (a : A) : prog A
  | Atomic {X A} (f : bool -> W -> X * W) (k : X -> prog A) : prog A
  | Loop {S B A} (body : S -> prog (S + B)) (s : S) (k : B -> prog A) : prog A.

Fixpoint pbind {A B} (p : prog A) : (A -> prog B) -> prog B :=
  match p with
  | Done a => fun k => k a
  | Atomic f c => fun k => Atomic f (fun x => pbind (c x) k)
  | Loop body s c => fun k => Loop body s (fun b => pbind (c b) k)
  end.

(** [p1 || p2 || ...]: the first that answers true ends the test. *)
Fixpoint first_true (ps : list (prog bool)) : prog bool :=
  match ps with
  | [] => Done false
  | p :: ps => pbind p (fun b => if (b : bool) then Done true else first_true ps)
  end.

(** [!p] *)
Definition negated (p : prog bool) : prog bool := pbind p (fun b => Done (negb b)).

(** [if (b) p] *)
Definition when (b : bool) (p : prog unit) : prog unit := if b then p else Done tt.

(** Leave a loop, or go round with a new loop variable. *)
Definition leave {S B} (b : B) : prog (S + B) := Done (inr b).
Definition again {S B} (s : S) : prog (S + B) := Done (inl s).

(** One step of a thread; entering a loop body touches nothing. *)
Definition step {A} (flip : bool) (p : prog A) : W -> prog A * W :=
  match p with
  | Done a => fun w => (Done a, w)
  | Atomic f k => fun w => let (x, w') := f flip w in (k x, w')
  | Loop body s k => fun w =>
      (pbind (body s) (fun r => match r with inl s' => Loop body s' k | inr b => k b end), w)
  end.

Fixpoint run (sched : list (nat * bool)) (pool : list (prog unit)) (w : W) : list (prog unit) * W :=
  match sched with
  | [] => (pool, w)
  | (i, flip) :: sched =>
      match pool !! i with
      | None => run sched pool w
      | Some p => let (p', w') := step flip p w in run sched (<[i := p']> pool) w'
      end
  end.

Definition result {A} (p : prog A) : option A :=
  match p with Done a => Some a | _ => None end.

(** One thread alone, no spurious failure, for at most [fuel] steps. *)
Fixpoint alone {A} (fuel : nat) (p : prog A) (w : W) : option (A * W) :=
  match result p, fuel with
  | Some a, _ => Some (a, w)
  | None, O => None
  | None, S fuel => let (p', w') := step false p w in alone fuel p' w'
  end.

(** Every step of the program is one of [S]. *)
Fixpoint all_steps {A} (S : forall X, (W -> X * W) -> Prop) (p : prog A) : Prop :=
  match p with
  | Done _ => True
  | Atomic f k => (forall flip, S _ (f flip)) /\ forall x, all_steps S (k x)
  | Loop body _ k => (forall s, all_steps S (body s)) /\ forall b, all_steps S (k b)
  end.

Lemma all_steps_bind {A B} S (p : prog A) : forall (k : A -> prog B),
  all_steps S p -> (forall a, all_steps S (k a)) -> all_steps S (pbind p k).
Proof.
  induction p as [A a|X A f c IH|S' C A body IHb s c IHc]; intros k Hp Hk; cbn; [by apply Hk| |];
    destruct Hp as [H1 H2]; (split; [done|]); intros x; [apply IH|apply IHc]; auto.
Qed.

Lemma all_steps_first_true S (ps : list (prog bool)) :
  Forall (all_steps S) ps -> all_steps S (first_true ps).
Proof.
  induction 1 as [|p ps Hp _ IH]; cbn; [done|]. apply all_steps_bind; [done|]. by intros [].
Qed.

Lemma all_steps_when S (b : bool) (p : prog unit) : all_steps S p -> all_steps S (when b p).
Proof. by destruct b. Qed.

Lemma all_steps_negated S (p : prog bool) : all_steps S p -> all_steps S (negated p).
Proof. intros Hp. by apply all_steps_bind. Qed.

Lemma all_steps_mono {A} (S S' : forall X, (W -> X * W) -> Prop) (p : prog A) :
  (forall X f, S X f -> S' X f) -> all_steps S p -> all_steps S' p.
Proof.
  intros HS. induction p as [A a|X A f k IH|S0 B A body IHb s k IHk]; cbn; [done|..];
    intros [H1 H2]; auto.
Qed.

(** ** One thread alone, without loops

    [exec] runs a program without loops to its end; [runs p Q w] is total
    correctness of such a run. *)

Fixpoint exec {A} (p : prog A) : W -> option (A * W) :=
  match p with
  | Done a => fun w => Some (a, w)
  | Atomic f k => fun w => let (x, w') := f false w in exec (k x) w'
  | Loop _ _ _ => fun _ => None
  end.

Definition runs {A} (p : prog A) (Q : A -> W -> Prop) (w : W) : Prop :=
  match exec p w with Some (a, w') => Q a w' | None => False end.

Lemma runs_done {A} (a : A) (Q : A -> W -> Prop) w : Q a w -> runs (Done a) Q w.
Proof. done. Qed.

Lemma runs_atomic {X A} f (k : X -> prog A) (Q : A -> W -> Prop) w :
  runs (k (f false w).1) Q (f false w).2 -> runs (Atomic f k) Q w.
Proof. unfold runs. cbn. by destruct (f false w). Qed.

Lemma exec_bind {A B} (p : prog A) : forall (k : A -> prog B) w,
  exec (pbind p k) w = match exec p w with Some (a, w') => exec (k a) w' | None => None end.
Proof.
  induction p as [A a|X A f c IH|S C A body IHb s c IHc]; intros k w; cbn; [done| |done].
  destruct (f false w) as [x w']. apply IH.
Qed.

Lemma runs_bind {A B} (p : prog A) (k : A -> prog B) (Q : B -> W -> Prop) w :
  runs p (fun a w' => runs (k a) Q w') w -> runs (pbind p k) Q w.
Proof. unfold runs. rewrite exec_bind. by destruct (exec p w) as [[a w']|]. Qed.

Lemma runs_mono {A} (p : prog A) (Q Q' : A -> W -> Prop) w :
  runs p Q w -> (forall a w', Q a w' -> Q' a w') -> runs p Q' w.
Proof. unfold runs. destruct (exec p w) as [[a w']|]; auto. Qed.

(** A run of [exec] is a run of the interleaving semantics with one thread. *)
Lemma exec_alone {A} (p : prog A) : forall w r,
  exec p w = Some r -> exists fuel, alone fuel p w = Some r.
Proof.
  induction p as [A a|X A f k IH|S B A body IHb s k IHk]; intros w r H; cbn in H; [|..|done].
  - by exists O.
  - destruct (f false w) as [x w'] eqn:E. destruct (IH x w' r H) as [n Hn].
    exists (S n). cbn. by rewrite E.
Qed.

Section logic.
Context {L : Type} (I : W -> list L -> Prop).

Fixpoint ok {A} (p : prog A) : L -> (A -> L -> Prop) -> Prop :=
  match p with
  | Done a => fun l Q => Q a l
  | Atomic f k => fun l Q => forall flip w ls i, ls !! i = Some l -> I w ls ->
      exists l', I (f flip w).2 (<[i := l']> ls) /\ ok (k (f flip w).1) l' Q
  | Loop body s k => fun l Q => exists Inv Post, Inv s l /\
      (forall s l, Inv s l -> ok (body s) l (fun r l' =>
         match r with inl s' => Inv s' l' | inr b => Post b l' end)) /\
      (forall b l, Post b l -> ok (k b) l Q)
  end.

Lemma ok_mono {A} (p : prog A) : forall l (Q Q' : A -> L -> Prop),
  ok p l Q -> (forall a l, Q a l -> Q' a l) -> ok p l Q'.
Proof.
  induction p as [A a|X A f k IH|S B A body IHb s k IHk]; intros l Q Q' H HQ.
  - by apply HQ.
  - intros flip w ls i Hi Hw. destruct (H flip w ls i Hi Hw) as (l' & HI & Hk).
    exists l'. split; [done|]. by eapply IH.
  - destruct H as (Inv & Post & Hs & Hb & Hk). exists Inv, Post. split_and!; [done..|].
    intros b l0 Hp. eapply IHk; [by apply Hk|done].
Qed.

Lemma ok_bind {A B} (p : prog A) : forall (k : A -> prog B) l Q,
  ok p l (fun a l' => ok (k a) l' Q) -> ok (pbind p k) l Q.
Proof.
  induction p as [A a|X A f c IH|S C A body IHb s c IHc]; intros k l Q H; [done|..].
  - intros flip w ls i Hi Hw. destruct (H flip w ls i Hi Hw) as (l' & HI & Hc).
    exists l'. split; [done|]. by apply IH.
  - destruct H as (Inv & Post & Hs & Hb & Hc). exists Inv, Post. split_and!; [done..|].
    intros b l0 Hp. by apply IHc, Hc.
Qed.

Lemma ok_step {A} flip (p : prog A) l Q w ls i :
  ok p l Q -> ls !! i = Some l -> I w ls ->
  exists l', I (step flip p w).2 (<[i := l']> ls) /\ ok (step flip p w).1 l' Q.
Proof.
  destruct p as [A a|X A f k|S B A body s k]; cbn; intros H Hi Hw.
  - exists l. by rewrite list_insert_id.
  - destruct (H flip w ls i Hi Hw) as (l' & HI & Hk). exists l'. by destruct (f flip w).
  - exists l. rewrite list_insert_id by done. split; [done|].
    destruct H as (Inv & Post & Hs & Hb & Hk). apply ok_bind. eapply ok_mono; [by apply Hb|].
    intros [s'|b] l' Hr; [|by apply Hk]. by exists Inv, Post.
Qed.

(** A pool all of whose threads follow the rule; thread [i] ends with a claim
    that satisfies [Q i]. *)
Definition pool_ok_to (Q : nat -> L -> Prop) (pool : list (prog unit)) (w : W) : Prop :=
  exists ls, length ls = length pool /\ I w ls /\
    forall i p l, pool !! i = Some p -> ls !! i = Some l -> ok p l (fun _ l' => Q i l').
Definition pool_ok := pool_ok_to (fun _ _ => True).

Lemma run_ok_to Q sched : forall pool w,
  pool_ok_to Q pool w -> pool_ok_to Q (run sched pool w).1 (run sched pool w).2.
Proof.
  induction sched as [|[i flip] sched IH]; intros pool w H; cbn; [done|].
  destruct (pool !! i) as [p|] eqn:Hp; [|by apply IH].
  destruct H as (ls & Hlen & Hw & Hall).
  destruct (lookup_lt_is_Some_2 ls i) as [l Hl].
  { rewrite Hlen. by eapply lookup_lt_Some. }
  destruct (ok_step flip p l (fun _ l' => Q i l') w ls i (Hall i p l Hp Hl) Hl Hw) as (l' & Hw' & Hp').
  destruct (step flip p w) as [p' w']. apply IH. exists (<[i := l']> ls).
  split_and!; [by rewrite !length_insert|done|].
  intros j q m Hq Hm. destruct (decide (i = j)) as [<-|Hne].
  - rewrite list_lookup_insert_eq in Hq by (by eapply lookup_lt_Some).
    rewrite list_lookup_insert_eq in Hm by (by eapply lookup_lt_Some). by simplify_eq.
  - rewrite list_lookup_insert_ne in Hq by done. rewrite list_lookup_insert_ne in Hm by done.
    by eapply Hall.
Qed.

Lemma run_ok sched pool w :
  pool_ok pool w -> pool_ok (run sched pool w).1 (run sched pool w).2.
Proof. apply run_ok_to. Qed.

(** [keeps_claim p]: the thread's claim is the same before and after every
    step of [p], whatever it is. *)
Definition keeps_claim {A} (p : prog A) : Prop := forall l, ok p l (fun _ l' => l' = l).

Lemma keeps_claim_done {A} (a : A) : keeps_claim (Done a).
Proof. done. Qed.

Lemma keeps_claim_bind {A B} (p : prog A) (k : A -> prog B) :
  keeps_claim p -> (forall a, keeps_claim (k a)) -> keeps_claim (pbind p k).
Proof.
  intros Hp Hk l. apply ok_bind. eapply ok_mono; [apply Hp|]. intros a l' ->. apply Hk.
Qed.

Lemma keeps_claim_loop {S B A} (body : S -> prog (S + B)) s (k : B -> prog A) :
  (forall s, keeps_claim (body s)) -> (forall b, keeps_claim (k b)) -> keeps_claim (Loop body s k).
Proof.
  intros Hb Hk l. exists (fun _ l' => l' = l), (fun _ l' => l' = l).
  split_and!; [done| |].
  - intros s' l' ->. eapply ok_mono; [apply Hb|]. by intros [s2|b] l' ->.
  - intros b l' ->. apply Hk.
Qed.

(** Steps that keep the invariant under every claim keep every claim. *)
Definition keeps_inv X (f : W -> X * W) : Prop := forall w ls, I w ls -> I (f w).2 ls.

Lemma all_steps_keep {A} (p : prog A) : all_steps keeps_inv p -> keeps_claim p.
Proof.
  induction p as [A a|X A f k IH|S B A body IHb s k IHk]; cbn; [intros; apply keeps_claim_done|..];
    intros [H1 H2].
  - intros l flip w ls i Hi Hw. exists l. rewrite list_insert_id by done.
    split; [by apply H1|]. by apply IH.
  - apply keeps_claim_loop; auto.
Qed.

Lemma ok_keep {A} (p : prog A) l (Q : A -> L -> Prop) :
  all_steps keeps_inv p -> (forall a, Q a l) -> ok p l Q.
Proof. intros Hp HQ. eapply ok_mono; [by apply all_steps_keep|]. by intros a l' ->. Qed.
End logic.

(** [within R p Q]: whatever the other threads do, every step of [p] is in [R],
    and the results of [p] satisfy [Q]. *)
Section within.
Context (R : W -> W -> Prop).

Fixpoint within {A} (p : prog A) : (A -> Prop) -> Prop :=
  match p with
  | Done a => fun Q => Q a
  | Atomic f k => fun Q => forall flip w, R w (f flip w).2 /\ within (k (f flip w).1) Q
  | Loop body s k => fun Q => exists Inv Post, Inv s /\
      (forall s, Inv s -> within (body s) (fun r =>
         match r with inl s' => Inv s' | inr b => Post b end)) /\
      (forall b, Post b -> within (k b) Q)
  end.

Lemma within_mono {A} (p : prog A) : forall (Q Q' : A -> Prop),
  within p Q -> (forall a, Q a -> Q' a) -> within p Q'.
Proof.
  induction p as [A a|X A f k IH|S B A body IHb s k IHk]; intros Q Q' H HQ; [by apply HQ|..].
  - intros flip w. destruct (H flip w) as [HR Hk]. split; [done|]. by eapply IH.
  - destruct H as (Inv & Post & Hs & Hb & Hk). exists Inv, Post. split_and!; [done..|].
    intros b Hp. eapply IHk; [by apply Hk|done].
Qed.

Lemma within_bind {A B} (p : prog A) : forall (k : A -> prog B) (P : A -> Prop) (Q : B -> Prop),
  within p P -> (forall a, P a -> within (k a) Q) -> within (pbind p k) Q.
Proof.
  induction p as [A a|X A f c IH|S C A body IHb s c IHc]; intros k P Q Hp Hk; [by apply Hk|..].
  - intros flip w. destruct (Hp flip w) as [HR Hc]. split; [done|]. by eapply IH.
  - destruct Hp as (Inv & Post & Hs & Hb & Hc). exists Inv, Post. split_and!; [done..|].
    intros b Hp. eapply IHc; [by apply Hc|done].
Qed.

Lemma within_steps {A} (p : prog A) (Q : A -> Prop) :
  all_steps (fun _ f => forall w, R w (f w).2) p -> (forall a, Q a) -> within p Q.
Proof.
  intros Hp HQ. eapply within_mono; [instantiate (1 := fun _ => True)|done]. clear Q HQ.
  induction p as [A a|X A f k IH|S B A body IHb s k IHk]; cbn in *; [done|..]; destruct Hp as [H1 H2].
  - auto.
  - exists (fun _ => True), (fun _ => True). split; [done|]. split; [|auto].
    intros s' _. eapply within_mono; [apply IHb, H1|]. by intros [].
Qed.

Context `{!PreOrder R}.

Lemma within_step {A} flip (p : prog A) Q w :
  within p Q -> R w (step flip p w).2 /\ within (step flip p w).1 Q.
Proof.
  destruct p as [A a|X A f k|S B A body s k]; cbn; intros H.
  - done.
  - destruct (H flip w) as [HR Hk]. by destruct (f flip w).
  - split; [done|]. destruct H as (Inv & Post & Hs & Hb & Hk).
    eapply within_bind; [by apply Hb|]. intros [s'|b] Hr; [|by apply Hk]. by exists Inv, Post.
Qed.

(** For a pool of such threads, every schedule. *)
Lemma run_within sched : forall pool w,
  Forall (fun p => within p (fun _ => True)) pool ->
  R w (run sched pool w).2 /\ Forall (fun p => within p (fun _ => True)) (run sched pool w).1.
Proof.
  induction sched as [|[i flip] sched IH]; intros pool w H; cbn; [done|].
  destruct (pool !! i) as [p|] eqn:Hp; [|by apply IH].
  rewrite Forall_lookup in H. destruct (within_step flip p (fun _ => True) w (H i p Hp)) as [HR Hp'].
  rewrite <- Forall_lookup in H. destruct (step flip p w) as [p' w'].
  destruct (IH (<[i := p']> pool) w') as [HR' Hall].
  - by apply Forall_insert.
  - split; [by etransitivity|done].
Qed.
End within.
End interleave.

(** A program on a part of the world: [on] runs one of its steps. *)
Fixpoint lift {W1 W2 A} (on : forall X, (W1 -> X * W1) -> W2 -> X * W2) (p : @prog W1 A) : @prog W2 A :=
  match p with
  | Done a => Done a
  | Atomic f k => Atomic (fun flip => on _ (f flip)) (fun x => lift on (k x))
  | Loop body s k => Loop (fun s => lift on (body s)) s (fun b => lift on (k b))
  end.

Lemma all_steps_lift {W1 W2 A} (on : forall X, (W1 -> X * W1) -> W2 -> X * W2)
    (S : forall X, (W2 -> X * W2) -> Prop) (p : @prog W1 A) :
  (forall X f, S X (on X f)) -> all_steps S (lift on p).
Proof. intros HS. induction p; cbn; auto. Qed.

(** Walking over a program, down to the calls [leaf] knows. *)
Ltac walk_step leaf :=
  cbn beta zeta;
  lazymatch goal with
  | |- all_steps _ (Done _) => exact I
  | |- all_steps _ (leave _) => exact I
  | |- all_steps _ (again _) => exact I
  | |- all_steps _ (pbind _ _) => apply all_steps_bind; [|intros ?]
  | |- all_steps _ (Loop _ _ _) => split; intros ?
  | |- all_steps _ (when _ _) => apply all_steps_when
  | |- all_steps _ (negated _) => apply all_steps_negated
  | |- all_steps _ (first_true _) =>
      apply all_steps_first_true; repeat (apply Forall_cons; split); [..|apply Forall_nil; exact I]
  | |- all_steps _ (match ?x with _ => _ end) => destruct x
  | |- _ => leaf
  end.
Tactic Notation "walk" tactic3(leaf) := repeat walk_step leaf.

Declare Scope prog_scope.
Delimit Scope prog_scope with prog.
Notation "x <- p ; k" := (pbind p (fun x => k))
  (at level 60, p at next level, k at level 200, right associativity) : prog_scope.
Notation "p1 ;;' p2" := (pbind p1 (fun _ => p2))
  (at level 60, p2 at level 200, right associativity) : prog_scope.
