(* ===== verification/Ends.v ===== *)
(** * Ends: programs that end when they run alone

    [wpt p Q w]: run alone from [w], without spurious failures, [p] ends, in a
    state that satisfies [Q]; every loop comes with a measure.  [stoppable S p]:
    from any state of [S] that the other threads may leave behind, [p] ends; it
    holds of what is left of [p] wherever it is interrupted. *)

From S2P Require Import Prelude Interleave.

Section ends.
Context {W : Type}.

Abbreviation prog := (@prog W).

(** ** Total correctness *)

Fixpoint wpt {A} (p : prog A) : (A -> W -> Prop) -> W -> Prop :=
  match p with
  | Done a => fun Q w => Q a w
  | Atomic f k => fun Q w => wpt (k (f false w).1) Q (f false w).2
  | Loop body s k => fun Q w => exists Inv : nat -> _ -> W -> Prop, (exists n, Inv n s w) /\
      forall n s w, Inv n s w -> wpt (body s) (fun r w' =>
        match r with
        | inl s' => exists m, (m < n)%nat /\ Inv m s' w'
        | inr b => wpt (k b) Q w'
        end) w
  end.

Lemma wpt_mono {A} (p : prog A) : forall (Q Q' : A -> W -> Prop) w,
  wpt p Q w -> (forall a w', Q a w' -> Q' a w') -> wpt p Q' w.
Proof.
  induction p as [A a|X A f k IH|S B A body IHb s k IHk]; intros Q Q' w H HQ; cbn in *; [by apply HQ|..].
  - by eapply IH.
  - destruct H as (Inv & Hs & Hb). exists Inv. split; [done|]. intros n s' w' Hi.
    eapply IHb; [by apply Hb|]. intros [s2|b] w2 Hr; [done|]. by eapply IHk.
Qed.

Lemma wpt_bind {A B} (p : prog A) : forall (k : A -> prog B) (Q : B -> W -> Prop) w,
  wpt p (fun a w' => wpt (k a) Q w') w -> wpt (pbind p k) Q w.
Proof.
  induction p as [A a|X A f c IH|S C A body IHb s c IHc]; intros k Q w H; cbn in *; [done|by apply IH|].
  destruct H as (Inv & Hs & Hb). exists Inv. split; [done|]. intros n s' w' Hi.
  eapply wpt_mono; [by apply Hb|]. intros [s2|b] w2 Hr; [done|]. by apply IHc.
Qed.

(** *** A run of the interleaving semantics *)

Definition ends {A} (p : prog A) (Q : A -> W -> Prop) (w : W) : Prop :=
  exists fuel r, alone fuel p w = Some r /\ Q r.1 r.2.

Lemma ends_done {A} (a : A) (Q : A -> W -> Prop) w : Q a w -> ends (Done a) Q w.
Proof. intros HQ. by exists O, (a, w). Qed.

Lemma ends_step {A} (p : prog A) (Q : A -> W -> Prop) w :
  result p = None -> ends (step false p w).1 Q (step false p w).2 -> ends p Q w.
Proof.
  intros Hp (fuel & r & Hr & HQ). exists (S fuel), r. split; [|done]. cbn. rewrite Hp.
  by destruct (step false p w).
Qed.

(** A loop in front of [k]: by the measure. *)
Lemma ends_loop {S B A} (body : S -> prog (S + B)) (c : B -> prog A) (Q : A -> W -> Prop)
    (Inv : nat -> S -> W -> Prop) (Post : B -> W -> Prop) :
  (forall s w (R : S + B -> W -> Prop) (k : S + B -> prog A),
     wpt (body s) R w -> (forall r w', R r w' -> ends (k r) Q w') -> ends (pbind (body s) k) Q w) ->
  (forall b w, Post b w -> ends (c b) Q w) ->
  (forall n s w, Inv n s w -> wpt (body s) (fun r w' =>
     match r with inl s' => exists m, (m < n)%nat /\ Inv m s' w' | inr b => Post b w' end) w) ->
  forall n s w, Inv n s w -> ends (Loop body s c) Q w.
Proof.
  intros Hbody Hc Hb. induction n as [n IH] using lt_wf_ind. intros s w Hi.
  apply ends_step; [done|]. cbn. eapply Hbody; [by apply Hb|].
  intros [s'|b] w' Hr; [|by apply Hc]. destruct Hr as (m & Hm & Hi'). by eapply IH.
Qed.

Lemma wpt_ends_bind {A} (p : prog A) : forall {B} (k : A -> prog B) (Q : A -> W -> Prop) (R : B -> W -> Prop) w,
  wpt p Q w -> (forall a w', Q a w' -> ends (k a) R w') -> ends (pbind p k) R w.
Proof.
  induction p as [A a|X A f c IH|S C A body IHb s c IHc]; intros B k Q R w H Hk; cbn in *; [by apply Hk|..].
  - apply ends_step; [done|]. cbn. specialize (IH (f false w).1 B k Q R (f false w).2).
    destruct (f false w). by apply IH.
  - destruct H as (Inv & (n & Hs) & Hb).
    eapply (ends_loop body (fun b => pbind (c b) k) R Inv (fun b w' => wpt (c b) Q w')); [| |done|done].
    + intros s' w' R' k' Hw Hk'. by eapply IHb.
    + intros b w' Hw. by eapply IHc.
Qed.

Lemma wpt_ends {A} (p : prog A) : forall (Q : A -> W -> Prop) w, wpt p Q w -> ends p Q w.
Proof.
  induction p as [A a|X A f c IH|S C A body IHb s c IHc]; intros Q w H; cbn in *; [by apply ends_done|..].
  - apply ends_step; [done|]. cbn. specialize (IH (f false w).1 Q (f false w).2).
    destruct (f false w). by apply IH.
  - destruct H as (Inv & (n & Hs) & Hb).
    eapply (ends_loop body c Q Inv (fun b w' => wpt (c b) Q w')); [| |done|done].
    + intros s' w' R' k' Hw Hk'. by eapply wpt_ends_bind.
    + intros b w' Hw. by apply IHc.
Qed.

Lemma run_length sched : forall (pool : list (prog unit)) (w : W), length (run sched pool w).1 = length pool.
Proof.
  induction sched as [|[i flip] sched IH]; intros pool w; cbn; [done|].
  destruct (pool !! i) as [p|]; [|done]. destruct (step flip p w). by rewrite IH, length_insert.
Qed.

Lemma run_app sched1 sched2 (pool : list (prog unit)) (w : W) :
  run (sched1 ++ sched2)%list pool w = run sched2 (run sched1 pool w).1 (run sched1 pool w).2.
Proof.
  revert pool w. induction sched1 as [|[i flip] sched1 IH]; intros pool w; cbn; [done|].
  destruct (pool !! i) as [p|]; [|done]. by destruct (step flip p w).
Qed.

Lemma result_done {A} (p : prog A) a : result p = Some a -> p = Done a.
Proof. destruct p; cbn; congruence. Qed.

(** In a pool, by a schedule that names this thread only. *)
Lemma alone_run fuel : forall (p : prog unit) w w' pool i,
  alone fuel p w = Some (tt, w') -> pool !! i = Some p ->
  exists n, run (replicate n (i, false)) pool w = (<[i := Done tt]> pool, w').
Proof.
  induction fuel as [|fuel IH]; intros p w w' pool i Ha Hp; cbn in Ha;
    (destruct (result p) as [[]|] eqn:Hr;
     [injection Ha as <-; apply result_done in Hr as ->; exists O; cbn; by rewrite (list_insert_id pool i (Done tt))|]); [done|].
  destruct (step false p w) as [p1 w1] eqn:E.
  destruct (IH p1 w1 w' (<[i := p1]> pool) i Ha) as [n Hn].
  { apply list_lookup_insert_eq. by eapply lookup_lt_Some. }
  exists (S n). cbn. by rewrite Hp, E, Hn, list_insert_insert_eq.
Qed.

(** ** Code without loops *)

Fixpoint loopless {A} (p : prog A) : Prop :=
  match p with
  | Done _ => True
  | Atomic f k => forall x, loopless (k x)
  | Loop _ _ _ => False
  end.

Lemma loopless_bind {A B} (p : prog A) (k : A -> prog B) :
  loopless p -> (forall a, loopless (k a)) -> loopless (pbind p k).
Proof.
  intros Hp Hk. induction p as [A a|X A f c IH|]; cbn in *; [by apply Hk| |done]. intros x. by apply IH.
Qed.

Lemma loopless_when (b : bool) (p : prog unit) : loopless p -> loopless (when b p).
Proof. by destruct b. Qed.

Lemma wpt_steps (R : W -> W -> Prop) `{!PreOrder R} {A} (p : prog A) :
  loopless p -> all_steps (fun _ f => forall w, R w (f w).2) p -> forall w, wpt p (fun _ w' => R w w') w.
Proof.
  induction p as [A a|X A f c IH|]; cbn; [done| |done]. intros Hl [Hf Hc] w.
  eapply wpt_mono; [by apply IH|]. intros a w' Hr. transitivity (f false w).2; [apply Hf|done].
Qed.

(** ** What ends from wherever it is interrupted *)

Section stoppable.
Context (S : W -> Prop).

Fixpoint stoppable {A} (p : prog A) : Prop :=
  match p with
  | Done _ => True
  | Atomic f k => (forall w, S w -> S (f false w).2) /\ forall x, stoppable (k x)
  | Loop body s k => (forall s, stoppable (body s)) /\ (forall b, stoppable (k b)) /\
      exists rank : _ -> W -> nat, forall s w, S w -> wpt (body s) (fun r w' =>
        S w' /\ match r with inl s' => (rank s' w' < rank s w)%nat | inr _ => True end) w
  end.

Lemma stoppable_bind {A B} (p : prog A) (k : A -> prog B) :
  stoppable p -> (forall a, stoppable (k a)) -> stoppable (pbind p k).
Proof.
  intros Hp Hk. induction p as [A a|X A f c IH|S' C A body IHb s c IHc]; cbn in *; [by apply Hk|..].
  - destruct Hp as [Hf Hc]. split; [done|]. intros x. by apply IH.
  - destruct Hp as (Hb & Hc & Hr). split_and!; [done| |done]. intros b. by apply IHc.
Qed.

Lemma stoppable_steps (R : W -> W -> Prop) {A} (p : prog A) :
  (forall w w', R w w' -> S w -> S w') -> loopless p ->
  all_steps (fun _ f => forall w, R w (f w).2) p -> stoppable p.
Proof.
  intros HR. induction p as [A a|X A f c IH|]; cbn; [done| |done]. intros Hl [Hf Hc].
  split; [|by intros x; apply IH]. intros w. by apply HR.
Qed.

Lemma stoppable_wpt {A} (p : prog A) : stoppable p -> forall w, S w -> wpt p (fun _ w' => S w') w.
Proof.
  induction p as [A a|X A f c IH|S' C A body IHb s c IHc]; cbn; [done|..].
  - intros [Hf Hc] w Hw. by apply IH, Hf.
  - intros (Hb & Hc & rank & Hr) w Hw. exists (fun n s w => S w /\ rank s w = n).
    split; [by exists (rank s w)|]. intros n s' w' [Hw' <-].
    eapply wpt_mono; [by apply Hr|]. intros [s2|b] w2 [Hw2 Hlt]; [|by apply IHc].
    by exists (rank s2 w2).
Qed.

Lemma stoppable_step {A} flip (p : prog A) w : stoppable p -> stoppable (step flip p w).1.
Proof.
  destruct p as [A a|X A f k|S' B A body s k]; cbn; intros H; [done|..].
  - destruct H as [_ Hk]. specialize (Hk (f flip w).1). by destruct (f flip w).
  - destruct H as (Hb & Hk & Hr). apply stoppable_bind; [apply Hb|]. intros [s'|b]; [|apply Hk].
    by split_and!.
Qed.

Lemma stoppable_run sched i : forall pool w,
  (forall p, pool !! i = Some p -> stoppable p) ->
  forall p, (run sched pool w).1 !! i = Some p -> stoppable p.
Proof.
  induction sched as [|[j flip] sched IH]; intros pool w H; cbn; [done|].
  destruct (pool !! j) as [q|] eqn:Hq; [|by apply IH].
  pose proof (stoppable_step flip q w) as Hstep. destruct (step flip q w) as [q' w'].
  apply IH. intros p Hp. destruct (decide (j = i)) as [->|Hne].
  - rewrite list_lookup_insert_eq in Hp by (by eapply lookup_lt_Some). injection Hp as <-. by apply Hstep, H.
  - rewrite list_lookup_insert_ne in Hp by done. by apply H.
Qed.

(** From any state of [S], such a thread of a pool ends when it is run. *)
Lemma stoppable_ends i p pool w :
  stoppable p -> S w -> pool !! i = Some p ->
  exists n w', run (replicate n (i, false)) pool w = (<[i := Done tt]> pool, w') /\ S w'.
Proof.
  intros Hp Hw Hi. destruct (wpt_ends p _ w (stoppable_wpt p Hp w Hw)) as (fuel & [[] w'] & Ha & Hs).
  destruct (alone_run fuel p w w' pool i Ha Hi) as [n Hn]. by exists n, w'.
Qed.
End stoppable.
End ends.
