(* ===== verification/PdmCapture.v ===== *)
(** * PdmCapture: the microphone channel and its overflow evidence ([i2s_pdm_capture.c])

    The capture task and the interrupt that reports a full receive queue share
    three variables under one spinlock; a critical section is one step.  The
    driver calls the interrupt only while the channel runs.  [pdm_notes] records,
    newest first, what was counted and what was handed out. *)

From S2P Require Import Prelude Monad Nvs RecorderConfig Interleave.
Open Scope prog_scope.

(** The I2S driver and the heap.  [channel_runs] is whether the receive
    interrupt can fire; a read gives its result and the bytes. *)
Class I2sDriver (D : Type) := {
  pdm_calloc : st D bool;
  i2s_new_channel : st D esp_err_t;
  i2s_channel_init_pdm_rx_mode : st D esp_err_t;
  i2s_channel_register_event_callback : st D esp_err_t;
  i2s_channel_enable : st D esp_err_t;
  i2s_channel_disable : st D esp_err_t;
  i2s_del_channel : st D esp_err_t;
  i2s_channel_read : Z -> st D (esp_err_t * bytes);
  channel_runs : D -> bool;
}.

(** Only [i2s_channel_enable] starts a channel, and a successful
    [i2s_channel_disable] stops it. *)
Definition starts_nothing {D X} `{I2sDriver D} (m : st D X) : Prop :=
  forall d, channel_runs d = false -> channel_runs (m d).2 = false.

Class I2sLaws (D : Type) `{I2sDriver D} := {
  calloc_starts_nothing : starts_nothing pdm_calloc;
  new_channel_starts_nothing : starts_nothing i2s_new_channel;
  init_mode_starts_nothing : starts_nothing i2s_channel_init_pdm_rx_mode;
  register_starts_nothing : starts_nothing i2s_channel_register_event_callback;
  disable_starts_nothing : starts_nothing i2s_channel_disable;
  del_channel_starts_nothing : starts_nothing i2s_del_channel;
  read_starts_nothing : forall n, starts_nothing (i2s_channel_read n);
  disabled_is_stopped : forall d, (i2s_channel_disable d).1 = ESP_OK -> channel_runs (i2s_channel_disable d).2 = false;
}.

Inductive pdm_note :=
  | OverflowReset
  | Counted (size : Z)
  | Drained (events drop_bytes : Z)
  | FinalDrained.

(** [pdm_handle]: not allocated, or its [enabled]. *)
Record pdm_vars := PdmVars {
  s_ovf_events : Z;
  s_ovf_drop_bytes : Z;
  s_ovf_armed : bool;
  pdm_handle : option bool;
  pdm_notes : list pdm_note;
}.

Definition pdm_initial : pdm_vars := PdmVars 0 0 false None [].

Definition set_handle (h : option bool) (v : pdm_vars) : pdm_vars :=
  PdmVars (s_ovf_events v) (s_ovf_drop_bytes v) (s_ovf_armed v) h (pdm_notes v).
Definition set_armed (b : bool) (v : pdm_vars) : pdm_vars :=
  PdmVars (s_ovf_events v) (s_ovf_drop_bytes v) b (pdm_handle v) (pdm_notes v).
Definition reset_overflow (v : pdm_vars) : pdm_vars :=
  PdmVars 0 0 false (pdm_handle v) (OverflowReset :: pdm_notes v).
Definition count_event (size : Z) (v : pdm_vars) : pdm_vars :=
  PdmVars (u32 (s_ovf_events v + 1)) (u32 (s_ovf_drop_bytes v + size)) (s_ovf_armed v) (pdm_handle v)
    (Counted size :: pdm_notes v).
Definition clear_overflow (v : pdm_vars) : pdm_vars :=
  PdmVars 0 0 (s_ovf_armed v) (pdm_handle v)
    (Drained (s_ovf_events v) (s_ovf_drop_bytes v) :: pdm_notes v).
Definition note_final (v : pdm_vars) : pdm_vars :=
  PdmVars (s_ovf_events v) (s_ovf_drop_bytes v) (s_ovf_armed v) (pdm_handle v) (FinalDrained :: pdm_notes v).

Section pdm.
Context {D : Type} `{I2sDriver D}.

Abbreviation world := (pdm_vars * D)%type.
Abbreviation task := (@prog world).

Definition pdm_call {X} (m : st D X) : task X :=
  Atomic (fun _ w => let (x, d) := m w.2 in (x, (w.1, d))) Done.
Definition pdm_get {X} (f : pdm_vars -> X) : task X := Atomic (fun _ w => (f w.1, w)) Done.
Definition pdm_set (f : pdm_vars -> pdm_vars) : task unit := Atomic (fun _ w => (tt, (f w.1, w.2))) Done.

(** ** The functions *)

(** The interrupt, of an event or of NULL; the channel runs when it fires. *)
Definition recorder_rx_q_ovf_cb (event : option Z) : task unit :=
  Atomic (fun _ w =>
    (tt, if channel_runs w.2 && s_ovf_armed w.1 then (count_event (default 0 event) w.1, w.2) else w)) Done.

(** Both fields of a snapshot, under the spinlock. *)
Definition pdm_capture_drain_overflow : task (Z * Z) :=
  Atomic (fun _ w => ((s_ovf_events w.1, s_ovf_drop_bytes w.1), (clear_overflow w.1, w.2))) Done.

(** The paths that give the channel and the handle back. *)
Definition pdm_abandon (err : esp_err_t) : task esp_err_t :=
  pdm_call i2s_del_channel ;;' pdm_set (set_handle None) ;;' Done err.

(** [config] and [out_handle] are not NULL; the two pins of the configuration. *)
Definition pdm_capture_init (pdm_clk_pin pdm_data_pin : Z) : task esp_err_t :=
  if (pdm_clk_pin <? 0) || (pdm_data_pin <? 0) then Done ESP_ERR_INVALID_ARG else
  pdm_set reset_overflow ;;'
  (allocated <- pdm_call pdm_calloc;
   if negb allocated then Done ESP_ERR_NO_MEM else
   pdm_set (set_handle (Some false)) ;;'
   (err <- pdm_call i2s_new_channel;
    if negb (is_ok err) then pdm_set (set_handle None) ;;' Done err else
    err <- pdm_call i2s_channel_init_pdm_rx_mode;
    if negb (is_ok err) then pdm_abandon err else
    err <- pdm_call i2s_channel_register_event_callback;
    if negb (is_ok err) then pdm_abandon err else
    pdm_set (set_armed true) ;;'
    (err <- pdm_call i2s_channel_enable;
     if negb (is_ok err) then pdm_set (set_armed false) ;;' pdm_abandon err else
     pdm_set (set_handle (Some true)) ;;' Done ESP_OK))).

(** [dst] and [out_read] are not NULL: the result, and the bytes read. *)
Definition pdm_capture_read (len : Z) : task (esp_err_t * bytes) :=
  handle <- pdm_get pdm_handle;
  if bool_decide (handle = None) then Done (ESP_ERR_INVALID_ARG, []) else
  if (len =? 0) || negb (len mod RECORDER_BYTES_PER_SAMPLE =? 0) then Done (ESP_ERR_INVALID_ARG, []) else
  pdm_call (i2s_channel_read len).

(** [out] is not NULL; it is untouched without a handle. *)
Definition pdm_capture_stop_and_drain_final : task (esp_err_t * option (Z * Z)) :=
  handle <- pdm_get pdm_handle;
  if bool_decide (handle = None) then Done (ESP_ERR_INVALID_ARG, None) else
  err <- pdm_call i2s_channel_disable;
  if negb (is_ok err) then Done (err, Some (0, 0)) else
  pdm_set (set_handle (Some false)) ;;'
  (out <- pdm_capture_drain_overflow;
   pdm_set note_final ;;' Done (ESP_OK, Some out)).

Definition pdm_capture_deinit : task esp_err_t :=
  handle <- pdm_get pdm_handle;
  match handle with
  | None => Done ESP_OK
  | Some enabled =>
      err <- (if (enabled : bool)
              then (err <- pdm_call i2s_channel_disable;
                    (if is_ok err then pdm_set (set_handle (Some false)) else Done tt) ;;' Done err)
              else Done ESP_OK);
      if negb (is_ok err) then Done err else
      err <- pdm_call i2s_del_channel;
      if negb (is_ok err) then Done err else
      pdm_set (set_armed false) ;;' pdm_set (set_handle None) ;;' Done ESP_OK
  end.

(** ** The threads *)

(** What the capture task calls. *)
Inductive pdm_op :=
  | PdmInit (pdm_clk_pin pdm_data_pin : Z)
  | PdmRead (len : Z)
  | PdmDrain
  | PdmStop
  | PdmDeinit.

Definition run_pdm_op (op : pdm_op) : task unit :=
  match op with
  | PdmInit clk data => pdm_capture_init clk data ;;' Done tt
  | PdmRead len => pdm_capture_read len ;;' Done tt
  | PdmDrain => pdm_capture_drain_overflow ;;' Done tt
  | PdmStop => pdm_capture_stop_and_drain_final ;;' Done tt
  | PdmDeinit => pdm_capture_deinit ;;' Done tt
  end.

Definition in_turn {X} (f : X -> task unit) : list X -> task unit :=
  fold_right (fun x p => f x ;;' p) (Done tt).

(** The capture task, and interrupts of any number. *)
Definition microphone (ops : list pdm_op) (interrupts : list (list (option Z))) : list (task unit) :=
  in_turn run_pdm_op ops :: map (in_turn recorder_rx_q_ovf_cb) interrupts.

(** ** What the evidence says *)

(** Since the last reset: the interrupts counted and their bytes, and what was
    handed out. *)
Fixpoint counted (ns : list pdm_note) : Z * Z :=
  match ns with
  | [] | OverflowReset :: _ => (0, 0)
  | Counted size :: ns => ((counted ns).1 + 1, (counted ns).2 + size)
  | _ :: ns => counted ns
  end.

Fixpoint drained (ns : list pdm_note) : Z * Z :=
  match ns with
  | [] | OverflowReset :: _ => (0, 0)
  | Drained events drop_bytes :: ns => ((drained ns).1 + events, (drained ns).2 + drop_bytes)
  | _ :: ns => drained ns
  end.

(** The channel was stopped for good, and not set up again. *)
Fixpoint quiesced (ns : list pdm_note) : bool :=
  match ns with
  | [] | OverflowReset :: _ => false
  | FinalDrained :: _ => true
  | _ :: ns => quiesced ns
  end.

(** The final snapshot is final. *)
Definition final_is_final (ns : list pdm_note) : Prop :=
  forall newer size older, ns = (newer ++ Counted size :: older)%list -> quiesced older = false.
End pdm.

(** ** The invariant *)

(** What the capture task knows: the channel is stopped; it was not stopped for
    good since it was set up. *)
Inductive pdm_stage := PAny | PStopped | PFresh.
Inductive pdm_claim := PTask (s : pdm_stage) | PInterrupt.

Section evidence.
Context {D : Type} `{I2sDriver D, !I2sLaws D}.

Abbreviation world := (pdm_vars * D)%type.
Abbreviation task := (@prog world).

Definition accounted (v : pdm_vars) : Prop :=
  s_ovf_events v = u32 ((counted (pdm_notes v)).1 - (drained (pdm_notes v)).1) /\
  s_ovf_drop_bytes v = u32 ((counted (pdm_notes v)).2 - (drained (pdm_notes v)).2).

Definition stage_fact (s : pdm_stage) (w : world) : Prop :=
  match s with
  | PAny => True
  | PStopped => channel_runs w.2 = false
  | PFresh => quiesced (pdm_notes w.1) = false
  end.

Record pdm_facts (s : pdm_stage) (w : world) : Prop := PdmFacts {
  pdm_accounted : accounted w.1;
  pdm_quiet : quiesced (pdm_notes w.1) = true -> channel_runs w.2 = false;
  pdm_final : final_is_final (pdm_notes w.1);
  pdm_stage_fact : stage_fact s w;
}.

Definition listening (w : world) (ls : list pdm_claim) : Prop :=
  exists s rest, ls = PTask s :: rest /\ Forall (eq PInterrupt) rest /\ pdm_facts s w.

Definition pdm_keeps {X} (f : st world X) : Prop := forall s w, pdm_facts s w -> pdm_facts s (f w).2.

Abbreviation listens p := (all_steps (fun X => pdm_keeps) p).
Abbreviation ok := (ok listening).

Lemma pdm_ok_keeps {A} (p : task A) l (Q : A -> pdm_claim -> Prop) :
  listens p -> (forall a, Q a l) -> ok p l Q.
Proof.
  intros Hp HQ. apply ok_keep; [|done]. eapply all_steps_mono; [|exact Hp].
  intros X f Hf w ls (s & rest & -> & Hrest & Hfacts). exists s, rest. split_and!; [done..|]. by apply Hf.
Qed.

Lemma pdm_ok_bind {A B} (p : task A) (k : A -> task B) l (Q : B -> pdm_claim -> Prop) :
  listens p -> (forall a, ok (k a) l Q) -> ok (pbind p k) l Q.
Proof. intros Hp Hk. by apply ok_bind, pdm_ok_keeps. Qed.

Lemma pdm_task_step {X A} (f : st world X) (k : X -> task A) s (Q : A -> pdm_claim -> Prop) :
  (forall w, pdm_facts s w -> exists s', pdm_facts s' (f w).2 /\ ok (k (f w).1) (PTask s') Q) ->
  ok (Atomic (fun _ => f) k) (PTask s) Q.
Proof.
  intros Hf flip w ls i Hi (s0 & rest & -> & Hrest & Hw).
  destruct i as [|i]; cbn in Hi; [|by rewrite Forall_lookup in Hrest; apply Hrest in Hi]. simplify_eq.
  destruct (Hf w Hw) as (s' & Hs' & Hk). exists (PTask s'). split; [by exists s', rest|done].
Qed.

(** ** The steps *)

Lemma keeps_call {X} (m : st D X) : starts_nothing m -> listens (pdm_call m).
Proof.
  intros Hm. split; [intros _|done]. intros s [v d] [Ha Hq Hf Hs]. specialize (Hm d). cbn in *.
  destruct (m d) as [x d']. cbn in *. split; cbn; [done|auto|done|]. destruct s; cbn in *; auto.
Qed.

Lemma keeps_get {X} (f : pdm_vars -> X) : listens (pdm_get f).
Proof. split; [by intros _ s w|done]. Qed.

Lemma keeps_vars f :
  (forall v, s_ovf_events (f v) = s_ovf_events v /\ s_ovf_drop_bytes (f v) = s_ovf_drop_bytes v /\
     pdm_notes (f v) = pdm_notes v) -> listens (pdm_set f).
Proof.
  intros Hv. split; [intros _|done]. intros s [v d] [Ha Hq Hf Hs]. destruct (Hv v) as (E1 & E2 & E3).
  split; unfold accounted in *; cbn in *; rewrite ?E1, ?E2, ?E3; try done. destruct s; cbn in *; by rewrite ?E3.
Qed.

Lemma u32_next a b : u32 (u32 (a - b) + 1) = u32 (a + 1 - b).
Proof. rewrite u32_add_l. f_equal. lia. Qed.

Lemma tracked_drain : listens pdm_capture_drain_overflow.
Proof.
  split; [intros _|done]. intros s [v d] [[E1 E2] Hq Hf Hs]. split; cbn in *; try done.
  - unfold accounted. cbn. rewrite E1, E2. unfold u32. split; symmetry; rewrite Z.sub_add_distr, Zminus_mod_idemp_r;
      by rewrite Z.sub_diag.
  - intros [|n newer] size older Heq; cbn in Heq; simplify_eq. by eapply Hf.
Qed.

Lemma keeps_interrupt event : listens (recorder_rx_q_ovf_cb event).
Proof.
  split; [intros _|done]. intros s [v d] Hfacts. cbn. destruct (channel_runs d && s_ovf_armed v) eqn:E; [|done].
  apply andb_true_iff in E as [Hrun _]. destruct Hfacts as [[E1 E2] Hq Hf Hs].
  assert (Hnq : quiesced (pdm_notes v) = false).
  { apply not_true_is_false. intros Hc. specialize (Hq Hc). cbn in *. congruence. }
  split; cbn in *; try done.
  - unfold accounted. cbn. rewrite E1, E2. split; [apply u32_next|]. rewrite u32_add_l. f_equal. lia.
  - intros [|n newer] size older Heq; cbn in Heq; simplify_eq; [done|]. by eapply Hf.
Qed.

(** ** The task and the interrupts *)

#[local] Create HintDb pdm discriminated.

#[local] Hint Resolve keeps_call keeps_get tracked_drain keeps_interrupt calloc_starts_nothing
  new_channel_starts_nothing init_mode_starts_nothing register_starts_nothing disable_starts_nothing
  del_channel_starts_nothing read_starts_nothing : pdm.

Lemma keeps_handle h : listens (pdm_set (set_handle h)).
Proof. by apply keeps_vars. Qed.
Lemma keeps_armed b : listens (pdm_set (set_armed b)).
Proof. by apply keeps_vars. Qed.
#[local] Hint Resolve keeps_handle keeps_armed : pdm.

Ltac pdm_walk := walk (solve [eauto with pdm nocore]).

Lemma keeps_abandon err : listens (pdm_abandon err).
Proof. unfold pdm_abandon. pdm_walk. Qed.
#[local] Hint Resolve keeps_abandon : pdm.

Definition pdm_task (l : pdm_claim) : Prop := exists s, l = PTask s.

Lemma tracked_reset s (Q : unit -> pdm_claim -> Prop) :
  Q tt (PTask PFresh) -> ok (pdm_set reset_overflow) (PTask s) Q.
Proof.
  intros HQ. apply pdm_task_step. intros [v d] [Ha Hq Hf Hs]. exists PFresh. split; [|done].
  split; cbn in *; try done. intros [|n newer] size older Heq; cbn in Heq; simplify_eq. by eapply Hf.
Qed.

(** The channel is set up on fresh evidence. *)
Lemma ok_enable (Q : esp_err_t -> pdm_claim -> Prop) :
  (forall err, Q err (PTask PFresh)) -> ok (pdm_call i2s_channel_enable) (PTask PFresh) Q.
Proof.
  intros HQ. apply pdm_task_step. intros [v d] [Ha Hq Hf Hs]. exists PFresh. split; [|apply HQ].
  cbn in *. destruct (i2s_channel_enable d) as [x d']. split; cbn; [done| |done|done]. congruence.
Qed.

Lemma ok_disable s (Q : esp_err_t -> pdm_claim -> Prop) :
  Q ESP_OK (PTask PStopped) -> (forall err, err <> ESP_OK -> Q err (PTask s)) ->
  ok (pdm_call i2s_channel_disable) (PTask s) Q.
Proof.
  intros Hok Hno. apply pdm_task_step. intros [v d] Hfacts.
  pose proof (proj1 (keeps_call i2s_channel_disable disable_starts_nothing) false s (v, d) Hfacts) as Hkept.
  pose proof (disabled_is_stopped d) as Hstop. cbn in *. destruct (i2s_channel_disable d) as [err d']. cbn in *.
  destruct (decide (err = ESP_OK)) as [->|He].
  - exists PStopped. split; [|done]. destruct Hkept as [Ha Hq Hf Hs]. split; cbn in *; auto.
  - exists s. split; [done|by apply Hno].
Qed.

Lemma ok_note_final (Q : unit -> pdm_claim -> Prop) :
  Q tt (PTask PAny) -> ok (pdm_set note_final) (PTask PStopped) Q.
Proof.
  intros HQ. apply pdm_task_step. intros [v d] [Ha Hq Hf Hs]. exists PAny. split; [|done].
  split; cbn in *; try done. intros [|n newer] size older Heq; cbn in Heq; simplify_eq. by eapply Hf.
Qed.

Lemma ok_pdm_init clk data s (Q : esp_err_t -> pdm_claim -> Prop) :
  (forall err s, Q err (PTask s)) -> ok (pdm_capture_init clk data) (PTask s) Q.
Proof.
  intros HQ. unfold pdm_capture_init. destruct (_ || _); [apply HQ|].
  apply ok_bind, tracked_reset. apply pdm_ok_bind; [pdm_walk|]. intros [|]; cbn [negb]; [|apply HQ].
  apply pdm_ok_bind; [pdm_walk|]. intros []. apply pdm_ok_bind; [pdm_walk|]. intros e1.
  destruct (is_ok e1); cbn [negb]; [|apply pdm_ok_keeps; [pdm_walk|by intros]].
  do 2 (apply pdm_ok_bind; [pdm_walk|]; intros ?;
        match goal with |- ok (if negb (is_ok ?e) then _ else _) _ _ =>
          destruct (is_ok e); cbn [negb]; [|apply pdm_ok_keeps; [pdm_walk|by intros]] end).
  apply pdm_ok_bind; [pdm_walk|]. intros []. apply ok_bind, ok_enable. intros e.
  apply pdm_ok_keeps; [pdm_walk|by intros].
Qed.

Lemma ok_pdm_stop s (Q : esp_err_t * option (Z * Z) -> pdm_claim -> Prop) :
  (forall r s, Q r (PTask s)) -> ok pdm_capture_stop_and_drain_final (PTask s) Q.
Proof.
  intros HQ. unfold pdm_capture_stop_and_drain_final. apply pdm_ok_bind; [pdm_walk|]. intros h.
  destruct (bool_decide _); [apply HQ|]. apply ok_bind, ok_disable; cbn [is_ok negb].
  - apply pdm_ok_bind; [pdm_walk|]. intros []. apply pdm_ok_bind; [pdm_walk|]. intros out.
    apply ok_bind, ok_note_final, HQ.
  - intros err He. destruct err; [done|..]; apply HQ.
Qed.

Lemma ok_pdm_op op s : ok (run_pdm_op op) (PTask s) (fun _ => pdm_task).
Proof.
  destruct op as [clk data|len| | |]; cbn [run_pdm_op].
  - apply ok_bind, ok_pdm_init. by intros; eexists.
  - apply pdm_ok_keeps; [unfold pdm_capture_read; pdm_walk|by intros; eexists].
  - apply pdm_ok_keeps; [pdm_walk|by intros; eexists].
  - apply ok_bind, ok_pdm_stop. by intros; eexists.
  - apply pdm_ok_keeps; [unfold pdm_capture_deinit; pdm_walk|by intros; eexists].
Qed.

Lemma ok_pdm_ops ops : forall s, ok (in_turn run_pdm_op ops) (PTask s) (fun _ _ => True).
Proof.
  induction ops as [|op ops IH]; intros s; cbn [in_turn fold_right]; [done|].
  apply ok_bind. eapply ok_mono; [apply ok_pdm_op|]. intros _ l [s' ->]. apply IH.
Qed.

Lemma keeps_interrupts events : listens (in_turn recorder_rx_q_ovf_cb events).
Proof. induction events as [|e events IH]; cbn [in_turn fold_right]; [done|]. apply all_steps_bind; [pdm_walk|done]. Qed.

End evidence.

(** ** Witness: a channel that runs while it is enabled *)

#[local] Instance bench_i2s : I2sDriver bool := {
  pdm_calloc := ret true;
  i2s_new_channel := ret ESP_OK;
  i2s_channel_init_pdm_rx_mode := ret ESP_OK;
  i2s_channel_register_event_callback := ret ESP_OK;
  i2s_channel_enable := fun _ => (ESP_OK, true);
  i2s_channel_disable := fun _ => (ESP_OK, false);
  i2s_del_channel := ret ESP_OK;
  i2s_channel_read n := ret (ESP_OK, replicate (Z.to_nat n) 0);
  channel_runs d := d;
}.

#[local] Instance bench_i2s_laws : I2sLaws bool.
Proof. by split; unfold starts_nothing; cbn. Qed.

(** Two interrupts, a drain, one more, the stop, and one that comes too late. *)
Abbreviation bench_capture :=
  (run (replicate 9 (0%nat, false) ++ [(1%nat, false); (1%nat, false); (0%nat, false); (1%nat, false)] ++
        replicate 5 (0%nat, false) ++ [(1%nat, false)])%list
     (microphone [PdmInit 40 41; PdmDrain; PdmStop] [[Some 960; Some 480; None; Some 7]])
     (pdm_initial, false)).2.1.

