(* ===== verification/Calls.v ===== *)
(** * Calls: sequential code whose calls are steps of a thread

    The request core and the response writer of the PC link are sequential
    functions over the state of their callbacks.  Inside the firmware each
    callback is a program of its own, and other tasks run between two of them.
    [by_calls m perform] runs the same function [m] that way: [m] is evaluated
    on the replies of the calls made so far; when it asks for a further call,
    [perform] makes that call, and [m] is evaluated again with one more reply.
    [by_calls_exact] says that nothing is lost: alone, the program does what
    the function does. *)

From S2P Require Import Prelude Monad Interleave.
Open Scope prog_scope.

Section script.
Context {Q R : Type} (nothing : R).

(** The replies still to be given, and the call that found none. *)
Record script := Script {
  replies : list R;
  asked : option Q;
}.

(** A call of [m]; behind the call that found no reply, nothing counts. *)
Definition ask (q : Q) : st script R := fun s =>
  match asked s, replies s with
  | None, r :: rs => (r, Script rs None)
  | None, [] => (nothing, Script [] (Some q))
  | Some _, _ => (nothing, s)
  end.

Context {W : Type}.

Definition call_pass {X} (m : list R -> st script X) (perform : Q -> @prog W R) (rs : list R) :
    @prog W (list R + X) :=
  let (x, s) := m rs (Script rs None) in
  match asked s with
  | None => leave x
  | Some q => r <- perform q; again (rs ++ [r])%list
  end.

Definition by_calls {X} (m : list R -> st script X) (perform : Q -> @prog W R) : @prog W X :=
  Loop (call_pass m perform) [] Done.

(** ** Rules *)

Lemma all_steps_by_calls {X} S (m : list R -> st script X) (perform : Q -> @prog W R) :
  (forall q, all_steps S (perform q)) -> all_steps S (by_calls m perform).
Proof.
  intros Hp. split; [|done]. intros rs. unfold call_pass. destruct (m rs _) as [x s].
  destruct (asked s); [|done]. by apply all_steps_bind.
Qed.

Lemma ok_by_calls {L X} (I : W -> list L -> Prop) (m : list R -> st script X) (perform : Q -> @prog W R)
    (Inv : list R -> L -> Prop) (l : L) (P : X -> L -> Prop) :
  Inv [] l ->
  (forall rs l q x s, m rs (Script rs None) = (x, s) -> asked s = Some q -> Inv rs l ->
     ok I (perform q) l (fun r => Inv (rs ++ [r])%list)) ->
  (forall rs l x s, m rs (Script rs None) = (x, s) -> asked s = None -> Inv rs l -> P x l) ->
  ok I (by_calls m perform) l P.
Proof.
  intros H0 Hstep Hend. exists Inv, P. split_and!; [done| |done].
  intros rs l1 Hl. unfold call_pass. destruct (m rs _) as [x s] eqn:Hm.
  destruct (asked s) as [q|] eqn:Hq; [|by eapply Hend]. apply ok_bind.
  eapply ok_mono; [by eapply Hstep|]. done.
Qed.

(** ** Nothing is lost *)

(** The function [m] over the script follows the function [m'] over the state
    [W] of the calls: on the replies [W] gives they do the same. *)
Section exact.
Context (c : Q -> st W R).

Inductive calls_run : list (Q * R) -> W -> W -> Prop :=
  | NoCall w : calls_run [] w w
  | OneCall q cs w w' : calls_run cs (c q w).2 w' -> calls_run ((q, (c q w).1) :: cs) w w'.

Definition follows {X} (m : st script X) (m' : st W X) : Prop :=
  (forall s, asked s <> None -> (m s).2 = s) /\
  forall w, exists cs, calls_run cs w (m' w).2 /\
    (forall more, m (Script (cs.*2 ++ more)%list None) = ((m' w).1, Script more None)) /\
    (forall before q r after, cs = (before ++ (q, r) :: after)%list ->
       exists x, m (Script before.*2 None) = (x, Script [] (Some q))).

Lemma calls_run_app cs1 cs2 w1 w2 w3 :
  calls_run cs1 w1 w2 -> calls_run cs2 w2 w3 -> calls_run (cs1 ++ cs2)%list w1 w3.
Proof. induction 1; [done|]. intros. cbn. constructor. auto. Qed.

Lemma follows_ret {X} (x : X) : follows (ret x) (ret x).
Proof.
  split; [done|]. intros w. exists []. split_and!; [constructor|done|].
  intros before q r after. by destruct before.
Qed.

Lemma follows_ask q : follows (ask q) (c q).
Proof.
  split. { intros [rs a]. cbn. by destruct a. }
  intros w. exists [(q, (c q w).1)]. split_and!; [repeat constructor|done|].
  intros before q' r after Heq. destruct before as [|? before]; cbn in Heq; simplify_eq; [by eexists|].
  by destruct before.
Qed.

Lemma follows_bind {X Y} (m : st script X) m' (k : X -> st script Y) k' :
  follows m m' -> (forall x, follows (k x) (k' x)) -> follows (bind m k) (bind m' k').
Proof.
  intros [Hs Hm] Hk. split.
  { intros s Ha. unfold bind. pose proof (Hs s Ha). destruct (m s) as [x s']. cbn in *. subst.
    by apply (Hk x). }
  intros w. destruct (Hm w) as (cs & Hrun & Hall & Hpre). unfold bind. destruct (m' w) as [x w'].
  cbn in *. destruct (Hk x) as [Hs2 Hm2]. destruct (Hm2 w') as (cs2 & Hrun2 & Hall2 & Hpre2).
  exists (cs ++ cs2)%list. split_and!; [by eapply calls_run_app| |].
  - intros more. rewrite fmap_app, <- app_assoc, Hall. apply Hall2.
  - intros before q r after Heq. symmetry in Heq. apply app_eq_inv in Heq as [(l & -> & ->)|(l & Hcs & Hcs2)].
    + rewrite fmap_app, Hall. eauto.
    + destruct l as [|p l]; cbn in Hcs2; simplify_eq.
      * rewrite app_nil_r in Hpre, Hall. specialize (Hall []). rewrite app_nil_r in Hall. rewrite Hall.
        apply (Hpre2 [] q r after). done.
      * destruct (Hpre before q r l eq_refl) as [y Hy]. rewrite Hy.
        destruct (Hk y) as [Hs3 _]. specialize (Hs3 (Script [] (Some q)) ltac:(done)).
        destruct (k y _) as [z s]. cbn in Hs3. subst. by eexists.
Qed.
(** Alone, with calls of one step each, the program does what [m'] does. *)
Lemma by_calls_exact {X} (m : st script X) (m' : st W X) w :
  follows m m' ->
  exists fuel, alone fuel (by_calls (fun _ => m) (fun q => Atomic (fun _ => c q) Done)) w = Some (m' w).
Proof.
  intros [_ Hm]. destruct (Hm w) as (cs & Hrun & Hall & Hpre).
  assert (Hgo : forall after before w1, cs = (before ++ after)%list -> calls_run after w1 (m' w).2 ->
    exists fuel, alone fuel (Loop (call_pass (fun _ => m) (fun q => Atomic (fun _ => c q) Done))
      before.*2 Done) w1 = Some (m' w)).
  { induction after as [|[q r] after IH]; intros before w1 -> Hcs.
    - inversion Hcs; subst. exists 1%nat. cbn. unfold call_pass. rewrite app_nil_r in Hall.
      specialize (Hall []). rewrite app_nil_r in Hall. rewrite Hall. cbn. by destruct (m' w).
    - inversion Hcs as [|? ? ? ? Hrest]; subst. destruct (Hpre before q (c q w1).1 after eq_refl) as [x Hx].
      destruct (IH (before ++ [(q, (c q w1).1)])%list (c q w1).2) as [fuel Hfuel].
      { by rewrite <- app_assoc. } { done. }
      assert (Hpass : call_pass (fun _ => m) (fun q => Atomic (fun _ => c q) Done) before.*2 =
        (r <- Atomic (fun _ => c q) Done; again (before.*2 ++ [r])%list)).
      { unfold call_pass. by rewrite Hx. }
      exists (S (S fuel)). cbn [alone result step]. rewrite Hpass. cbn.
      destruct (c q w1) as [r' w2]. cbn in *. rewrite fmap_app in Hfuel. exact Hfuel. }
  apply (Hgo cs [] w); done.
Qed.
End exact.
End script.
