(* ===== verification/SessionGate.v ===== *)
(** * SessionGate: the lock-free command admission gate

    Models [usb_cdc_session_gate.c]: every function is a program of atomic
    steps on the six atomic words of the gate, with the retry loops of its
    compare-exchanges.  Tasks and callbacks call them concurrently; the
    theorems hold for every number of threads and every interleaving.  The
    gate pointer is not NULL, and [a != b] of two loads reads [a] first. *)

From S2P Require Import Prelude Interleave.
Open Scope prog_scope.

(** ** The gate *)

Inductive usb_cdc_session_gate_phase_t :=
  | USB_CDC_SESSION_GATE_CLOSED
  | USB_CDC_SESSION_GATE_OPEN
  | USB_CDC_SESSION_GATE_RESETTING.

#[export] Instance phase_eq_dec : EqDecision usb_cdc_session_gate_phase_t.
Proof. solve_decision. Defined.

Record usb_cdc_session_gate_t := Gate {
  generation : Z;
  active_commands : Z;
  phase : usb_cdc_session_gate_phase_t;
  rx_state : Z;
  rx_discard_epoch : Z;
  rx_drained_epoch : Z;
}.

Record usb_cdc_session_snapshot_t := Snapshot {
  snap_generation : Z;
  snap_admitted : bool;
}.

Definition RX_STATE_OPEN : Z := 2147483648.
Definition RX_STATE_DIRTY : Z := 1073741824.
Definition RX_STATE_OPENING : Z := 536870912.
Definition RX_STATE_COUNT_MASK : Z := RX_STATE_OPENING - 1.

(** What the clients did, newest first: a command with the generation of its
    frame, and a reset that returned with the number of invalidations there
    were when it was called. *)
Inductive event :=
  | Executed (frame_generation : Z)
  | ResetReturned (called_at : Z).

(** [bumps] counts how often the generation changed: the generation without
    its wrap-around. *)
Record gate_world := GateWorld {
  gate : usb_cdc_session_gate_t;
  bumps : Z;
  log : list event;
}.

Abbreviation task := (@prog gate_world).

(** ** Atomic accesses *)

Definition on_gate {X} (f : bool -> usb_cdc_session_gate_t -> X * usb_cdc_session_gate_t)
    (flip : bool) (w : gate_world) : X * gate_world :=
  let (x, g) := f flip (gate w) in
  (x, GateWorld g (bumps w + if generation g =? generation (gate w) then 0 else 1) (log w)).

Definition atomic {X} (f : usb_cdc_session_gate_t -> X * usb_cdc_session_gate_t) : task X :=
  Atomic (on_gate (fun _ => f)) Done.

Definition load {X} (f : usb_cdc_session_gate_t -> X) : task X := atomic (fun g => (f g, g)).

Definition set_generation (v : Z) (g : usb_cdc_session_gate_t) :=
  Gate v (active_commands g) (phase g) (rx_state g) (rx_discard_epoch g) (rx_drained_epoch g).
Definition set_active (v : Z) (g : usb_cdc_session_gate_t) :=
  Gate (generation g) v (phase g) (rx_state g) (rx_discard_epoch g) (rx_drained_epoch g).
Definition set_phase (v : usb_cdc_session_gate_phase_t) (g : usb_cdc_session_gate_t) :=
  Gate (generation g) (active_commands g) v (rx_state g) (rx_discard_epoch g) (rx_drained_epoch g).
Definition set_rx (v : Z) (g : usb_cdc_session_gate_t) :=
  Gate (generation g) (active_commands g) (phase g) v (rx_discard_epoch g) (rx_drained_epoch g).
Definition set_discard (v : Z) (g : usb_cdc_session_gate_t) :=
  Gate (generation g) (active_commands g) (phase g) (rx_state g) v (rx_drained_epoch g).
Definition set_drained (v : Z) (g : usb_cdc_session_gate_t) :=
  Gate (generation g) (active_commands g) (phase g) (rx_state g) (rx_discard_epoch g) v.

Definition bump_generation : task unit :=
  atomic (fun g => (tt, set_generation (u32 (generation g + 1)) g)).
Definition add_active (n : Z) : task unit :=
  atomic (fun g => (tt, set_active (u32 (active_commands g + n)) g)).
Definition add_rx (n : Z) : task unit := atomic (fun g => (tt, set_rx (u32 (rx_state g + n)) g)).
Definition or_rx (m : Z) : task unit := atomic (fun g => (tt, set_rx (Z.lor (rx_state g) m) g)).
Definition bump_discard : task unit :=
  atomic (fun g => (tt, set_discard (u32 (rx_discard_epoch g + 1)) g)).
Definition store_phase (p : usb_cdc_session_gate_phase_t) : task unit :=
  atomic (fun g => (tt, set_phase p g)).

(** Compare-exchange of [rx_state]: whether it succeeded, and [expected]
    afterwards.  The weak one may fail although the values agree. *)
Definition try_rx (fails : bool) (expected desired : Z) (g : usb_cdc_session_gate_t) :
    (bool * Z) * usb_cdc_session_gate_t :=
  if negb fails && (rx_state g =? expected) then ((true, expected), set_rx desired g)
  else ((false, rx_state g), g).

Definition cas_rx (expected desired : Z) : task (bool * Z) := atomic (try_rx false expected desired).
Definition cas_rx_weak (expected desired : Z) : task (bool * Z) :=
  Atomic (on_gate (fun flip => try_rx flip expected desired)) Done.

Definition cas_phase (expected desired : usb_cdc_session_gate_phase_t) :
    task (bool * usb_cdc_session_gate_phase_t) :=
  atomic (fun g => if decide (phase g = expected) then ((true, expected), set_phase desired g)
                   else ((false, phase g), g)).

Definition cas_drained_weak (expected desired : Z) : task (bool * Z) :=
  Atomic (on_gate (fun flip g =>
    if negb flip && (rx_drained_epoch g =? expected) then ((true, expected), set_drained desired g)
    else ((false, rx_drained_epoch g), g))) Done.

(** ** The functions *)

Definition gate_has_pending_rx_discard : task bool :=
  d <- load rx_discard_epoch; r <- load rx_drained_epoch; Done (negb (d =? r)).

Definition gate_rx_admission_is_open : task bool :=
  s <- load rx_state; Done (s =? RX_STATE_OPEN).

Definition phase_is_open : task bool :=
  p <- load phase; Done (bool_decide (p = USB_CDC_SESSION_GATE_OPEN)).

(** [p && q] *)
Definition andp (p q : task bool) : task bool :=
  b <- p; if (b : bool) then q else Done false.

Definition notp (p : task bool) : task bool := b <- p; Done (negb b).

(** Leave a [for (;;)] loop, or go round with a new loop variable. *)
Definition leave {S B} (b : B) : task (S + B) := Done (inr b).
Definition again {S B} (s : S) : task (S + B) := Done (inl s).

Definition gate_try_clear_rx_dirty : task unit :=
  Loop (fun _ : unit =>
    state <- load rx_state;
    pending <- (if negb (Z.land state (Z.lor RX_STATE_OPEN RX_STATE_OPENING) =? 0) ||
                   (Z.land state RX_STATE_DIRTY =? 0) ||
                   negb (Z.land state RX_STATE_COUNT_MASK =? 0)
                then Done true else gate_has_pending_rx_discard);
    if (pending : bool) then leave tt else
    r <- cas_rx_weak state (Z.ldiff state RX_STATE_DIRTY);
    if (r.1 : bool) then leave tt else again tt) tt Done.

Definition gate_cancel_rx_opening : task unit :=
  state <- load rx_state;
  Loop (fun state =>
    if Z.land state RX_STATE_OPENING =? 0 then leave tt else
    r <- cas_rx_weak state (Z.ldiff state RX_STATE_OPENING);
    if (r.1 : bool) then gate_try_clear_rx_dirty ;;' leave tt else again r.2) state Done.

Definition gate_mark_rx_boundary_stale : task unit :=
  state <- load rx_state;
  Loop (fun state =>
    let count := Z.land state RX_STATE_COUNT_MASK in
    let desired := if count =? RX_STATE_COUNT_MASK then Z.lor count RX_STATE_DIRTY
                   else Z.lor (count + 1) RX_STATE_DIRTY in
    r <- cas_rx_weak state desired;
    if (r.1 : bool) then leave (negb (count =? RX_STATE_COUNT_MASK)) else again r.2) state
  (fun boundary_registered =>
    bump_discard ;;'
    (if (boundary_registered : bool) then add_rx (-1) else Done tt) ;;'
    gate_try_clear_rx_dirty).

Definition gate_close_rx_admission : task unit :=
  state <- load rx_state;
  Loop (fun state =>
    if Z.land state (Z.lor RX_STATE_OPEN RX_STATE_OPENING) =? 0 then leave tt else
    r <- cas_rx_weak state (Z.ldiff state (Z.lor RX_STATE_OPEN RX_STATE_OPENING));
    if (r.1 : bool) then gate_try_clear_rx_dirty ;;' leave tt else again r.2) state Done.

(** The gate [usb_cdc_session_gate_init] leaves. *)
Definition usb_cdc_session_gate_init : usb_cdc_session_gate_t :=
  Gate 1 0 USB_CDC_SESSION_GATE_CLOSED 0 0 0.

Definition usb_cdc_session_gate_generation : task Z := load generation.

Definition usb_cdc_session_gate_is_open : task bool :=
  andp phase_is_open (andp gate_rx_admission_is_open (notp gate_has_pending_rx_discard)).

(** From the publication on. *)
Definition gate_publish : task bool :=
  let refuse := gate_cancel_rx_opening ;;' Done false in
  still <- phase_is_open;
  if negb still then refuse else
  r <- cas_rx RX_STATE_OPENING RX_STATE_OPEN;
  if negb r.1 then refuse else
  still <- phase_is_open;
  if negb still then gate_mark_rx_boundary_stale ;;' Done false else Done true.

Definition gate_reserve : task bool :=
  let refuse := gate_cancel_rx_opening ;;' Done false in
  r <- cas_rx 0 RX_STATE_OPENING;
  if negb r.1 then Done false else
  p <- load phase;
  match p with
  | USB_CDC_SESSION_GATE_CLOSED =>
      c <- cas_phase USB_CDC_SESSION_GATE_CLOSED USB_CDC_SESSION_GATE_OPEN;
      if negb c.1 && negb (bool_decide (c.2 = USB_CDC_SESSION_GATE_OPEN)) then refuse
      else gate_publish
  | USB_CDC_SESSION_GATE_OPEN => gate_publish
  | USB_CDC_SESSION_GATE_RESETTING => refuse
  end.

Definition usb_cdc_session_gate_open : task bool :=
  p <- load phase;
  if decide (p = USB_CDC_SESSION_GATE_RESETTING) then Done false else
  published <- (if decide (p = USB_CDC_SESSION_GATE_OPEN) then gate_rx_admission_is_open
                else Done false);
  if (published : bool) then notp gate_has_pending_rx_discard else gate_reserve.

Definition usb_cdc_session_gate_close : task unit :=
  c <- cas_phase USB_CDC_SESSION_GATE_OPEN USB_CDC_SESSION_GATE_CLOSED;
  if (c.1 : bool) then bump_generation ;;' gate_mark_rx_boundary_stale else Done tt.

Definition generation_is (v : Z) : task bool := g <- load generation; Done (g =? v).

Definition usb_cdc_session_gate_snapshot : task usb_cdc_session_snapshot_t :=
  g <- load generation;
  admitted <- andp phase_is_open
                (andp gate_rx_admission_is_open (notp gate_has_pending_rx_discard));
  valid <- (if (admitted : bool) then
              andp phase_is_open (andp (generation_is g)
                (andp gate_rx_admission_is_open (notp gate_has_pending_rx_discard)))
            else Done false);
  Done (Snapshot g (admitted && valid)).

Definition usb_cdc_session_gate_snapshot_is_current (s : usb_cdc_session_snapshot_t) : task bool :=
  if negb (snap_admitted s) then Done false else
  andp phase_is_open (andp (generation_is (snap_generation s))
    (andp gate_rx_admission_is_open (notp gate_has_pending_rx_discard))).

Definition usb_cdc_session_gate_note_rx : task unit :=
  state <- load rx_state;
  Loop (fun state =>
    if state =? RX_STATE_OPEN then leave false else
    let count := Z.land state RX_STATE_COUNT_MASK in
    if count =? RX_STATE_COUNT_MASK then
      bump_discard ;;' or_rx RX_STATE_DIRTY ;;' leave false
    else
      r <- cas_rx_weak state (u32 (state + 1));
      if (r.1 : bool) then leave true else again r.2) state
  (fun registered =>
    if (registered : bool)
    then bump_discard ;;' or_rx RX_STATE_DIRTY ;;' add_rx (-1)
    else Done tt).

Definition usb_cdc_session_gate_rx_discard_epoch : task Z := load rx_discard_epoch.

Definition usb_cdc_session_gate_should_discard_rx : task bool := gate_has_pending_rx_discard.

Definition usb_cdc_session_gate_mark_rx_drained (observed_epoch : Z) : task unit :=
  current <- load rx_drained_epoch;
  Loop (fun current =>
    if negb (current <? observed_epoch) then leave tt else
    r <- cas_drained_weak current observed_epoch;
    if (r.1 : bool) then leave tt else again r.2) current
  (fun _ : unit => gate_try_clear_rx_dirty).

(** The admission test of [usb_cdc_session_gate_command_begin], both times. *)
Definition command_admissible (frame_generation : Z) : task bool :=
  andp phase_is_open (andp (generation_is frame_generation)
    (andp gate_rx_admission_is_open (notp gate_has_pending_rx_discard))).

Definition usb_cdc_session_gate_command_begin (frame_generation : Z) : task bool :=
  ok1 <- command_admissible frame_generation;
  if negb ok1 then Done false else
  add_active 1 ;;'
  (ok2 <- command_admissible frame_generation;
   if negb ok2 then add_active (-1) ;;' Done false else Done true).

Definition usb_cdc_session_gate_command_end : task unit := add_active (-1).

(** The wait function does not touch the gate. *)
Definition usb_cdc_session_gate_reset : task unit :=
  store_phase USB_CDC_SESSION_GATE_RESETTING ;;'
  gate_close_rx_admission ;;'
  bump_generation ;;'
  Loop (fun _ : unit =>
    n <- load active_commands;
    if negb (n =? 0) then again tt else leave tt) tt
  (fun _ : unit => store_phase USB_CDC_SESSION_GATE_CLOSED).

(** ** The clients *)

(** What a thread does with the gate, one call after the other: run a command
    of a frame, tear the session down, and the calls of the lifecycle, of the
    receive callback and of the worker that drains stale bytes. *)
Inductive role :=
  | RunCommand (frame_generation : Z)
  | Reset
  | Open
  | Close
  | TakeSnapshot
  | NoteRx
  | Drain.

Definition emit (e : event) : task unit :=
  Atomic (fun _ w => (tt, GateWorld (gate w) (bumps w) (e :: log w))) Done.

Definition bumps_now : task Z := Atomic (fun _ w => (bumps w, w)) Done.

Definition run_role (r : role) : task unit :=
  match r with
  | RunCommand g =>
      admitted <- usb_cdc_session_gate_command_begin g;
      if (admitted : bool) then emit (Executed g) ;;' usb_cdc_session_gate_command_end else Done tt
  | Reset => b <- bumps_now; usb_cdc_session_gate_reset ;;' emit (ResetReturned b)
  | Open => usb_cdc_session_gate_open ;;' Done tt
  | Close => usb_cdc_session_gate_close
  | TakeSnapshot =>
      s <- usb_cdc_session_gate_snapshot;
      usb_cdc_session_gate_snapshot_is_current s ;;'
      usb_cdc_session_gate_is_open ;;' Done tt
  | NoteRx => usb_cdc_session_gate_note_rx
  | Drain =>
      usb_cdc_session_gate_should_discard_rx ;;'
      (e <- usb_cdc_session_gate_rx_discard_epoch; usb_cdc_session_gate_mark_rx_drained e)
  end.

Fixpoint run_roles (rs : list role) : task unit :=
  match rs with [] => Done tt | r :: rs => run_role r ;;' run_roles rs end.

(** ** The invariant *)

(** What a thread claims: it is counted in [active_commands]; being counted,
    it read generation number [b]; its reset was called at [b] invalidations,
    has invalidated, has seen no active command. *)
Inductive claim :=
  | Nothing
  | Joined
  | Entitled (b : Z)
  | Called (b : Z)
  | Invalidated (b : Z)
  | Drained (b : Z).

Definition is_counted (c : claim) : Z :=
  match c with Joined | Entitled _ => 1 | _ => 0 end.

Fixpoint counted (cs : list claim) : Z :=
  match cs with [] => 0 | c :: cs => is_counted c + counted cs end.

(** Every generation number below [fence] is past a reset's barrier. *)
Definition claim_ok (fence n : Z) (c : claim) : Prop :=
  match c with
  | Nothing | Joined => True
  | Entitled b => fence <= b <= n
  | Called b => 0 <= b <= n
  | Invalidated b => 0 <= b < n
  | Drained b => 0 <= b < fence
  end.

(** A command executed after a reset returned belongs to a generation that
    began after that reset was called. *)
Definition log_safe (n : Z) (l : list event) : Prop :=
  forall l2 g l1, l = (l2 ++ Executed g :: l1)%list ->
    exists b, g = u32 (1 + b) /\ b <= n /\ forall b0, ResetReturned b0 ∈ l1 -> 0 <= b0 < b.

Record inv_at (fence : Z) (w : gate_world) (cs : list claim) : Prop := InvAt {
  inv_generation : generation (gate w) = u32 (1 + bumps w);
  inv_active : active_commands (gate w) = u32 (counted cs);
  inv_size : zlen cs < 4294967296;
  inv_fence : 0 <= fence <= bumps w;
  inv_claims : Forall (claim_ok fence (bumps w)) cs;
  inv_returned : forall b, ResetReturned b ∈ log w -> 0 <= b < fence;
  inv_log : log_safe (bumps w) (log w);
}.

Definition inv (w : gate_world) (cs : list claim) : Prop := exists fence, inv_at fence w cs.

Lemma counted_bounds cs : 0 <= counted cs <= zlen cs.
Proof.
  induction cs as [|c cs IH]; cbn; [done|]. rewrite zlen_cons. destruct c; cbn; lia.
Qed.

Lemma counted_insert cs : forall i c c',
  cs !! i = Some c -> counted (<[i := c']> cs) = counted cs - is_counted c + is_counted c'.
Proof.
  induction cs as [|c0 cs IH]; intros [|i] c c' H; try done.
  - injection H as <-. cbn. lia.
  - change (counted (<[S i := c']> (c0 :: cs))) with (is_counted c0 + counted (<[i := c']> cs)).
    rewrite (IH i c c' H). cbn. lia.
Qed.

Lemma counted_zero cs : counted cs = 0 -> Forall (fun c => is_counted c = 0) cs.
Proof.
  induction cs as [|c cs IH]; cbn; intros H; [constructor|].
  pose proof (counted_bounds cs). assert (0 <= is_counted c) by (by destruct c).
  constructor; [lia|]. apply IH. lia.
Qed.

Lemma claims_mono fence n n' cs :
  n <= n' -> Forall (claim_ok fence n) cs -> Forall (claim_ok fence n') cs.
Proof. intros Hn H. eapply Forall_impl; [exact H|]. intros [] Hc; cbn in *; lia. Qed.

Lemma log_safe_mono n n' l : n <= n' -> log_safe n l -> log_safe n' l.
Proof. intros Hn H l2 g l1 E. destruct (H l2 g l1 E) as (b & ? & ? & ?). exists b. split_and!; [done|lia|done]. Qed.

(** The claim of one thread changes with the world. *)
Lemma inv_at_update fence n' w' w cs i c c' :
  inv_at fence w cs -> cs !! i = Some c ->
  generation (gate w') = u32 (1 + n') -> bumps w' = n' -> bumps w <= n' -> log w' = log w ->
  active_commands (gate w') = u32 (counted cs - is_counted c + is_counted c') ->
  claim_ok fence n' c' -> inv_at fence w' (<[i := c']> cs).
Proof.
  intros [] Hi Hg Hn Hle Hl Ha Hc. subst n'. split; try done.
  - by rewrite (counted_insert cs i c c' Hi).
  - unfold zlen in *. by rewrite length_insert.
  - lia.
  - apply Forall_insert; [by eapply claims_mono|done].
  - by rewrite Hl.
  - rewrite Hl. by eapply log_safe_mono.
Qed.

Lemma inv_update fence n' w' w cs i c c' :
  inv_at fence w cs -> cs !! i = Some c ->
  generation (gate w') = u32 (1 + n') -> bumps w' = n' -> bumps w <= n' -> log w' = log w ->
  active_commands (gate w') = u32 (counted cs - is_counted c + is_counted c') ->
  claim_ok fence n' c' -> inv w' (<[i := c']> cs).
Proof. intros. exists fence. by eapply inv_at_update. Qed.

(** ** Steps that keep every claim *)

(** A gate operation that touches neither the generation nor the count. *)
Definition steady {X} (f : bool -> usb_cdc_session_gate_t -> X * usb_cdc_session_gate_t) : Prop :=
  forall flip g, generation (f flip g).2 = generation g /\
                 active_commands (f flip g).2 = active_commands g.

Abbreviation keeps := (keeps_claim inv).

Lemma inv_steady {X} (f : bool -> usb_cdc_session_gate_t -> X * usb_cdc_session_gate_t) flip w cs i c :
  steady f -> inv w cs -> cs !! i = Some c -> inv (on_gate f flip w).2 (<[i := c]> cs).
Proof.
  intros Hf [fence Hinv] Hi. destruct (Hf flip (gate w)) as [Hg Ha]. unfold on_gate.
  destruct (f flip (gate w)) as [x g']. cbn [snd] in *. rewrite Hg, Z.eqb_refl, Z.add_0_r.
  pose proof Hinv as [Hgen Hact _ _ Hcl _ _].
  apply (inv_update fence (bumps w) _ w _ _ c); try done; cbn [gate bumps]; [congruence| |].
  - rewrite Ha, Hact. f_equal. lia.
  - by eapply Forall_lookup_1.
Qed.

Lemma keeps_atomic {X A} f (k : X -> task A) :
  steady f -> (forall x, keeps (k x)) -> keeps (Atomic (on_gate f) k).
Proof.
  intros Hf Hk l flip w ls i Hi Hw. exists l. split; [by apply inv_steady|apply Hk].
Qed.

Lemma keeps_load {X} (f : usb_cdc_session_gate_t -> X) : keeps (load f).
Proof. apply keeps_atomic; [done|]. intros x. apply keeps_claim_done. Qed.

Lemma keeps_cas_rx e d : keeps (cas_rx e d).
Proof.
  apply keeps_atomic; [|intros x; apply keeps_claim_done].
  intros flip g. unfold try_rx. by step_match.
Qed.

Lemma keeps_cas_rx_weak e d : keeps (cas_rx_weak e d).
Proof.
  apply keeps_atomic; [|intros x; apply keeps_claim_done].
  intros flip g. unfold try_rx. by step_match.
Qed.

Lemma keeps_cas_phase e d : keeps (cas_phase e d).
Proof.
  apply keeps_atomic; [|intros x; apply keeps_claim_done]. intros flip g. by step_match.
Qed.

Lemma keeps_cas_drained e d : keeps (cas_drained_weak e d).
Proof.
  apply keeps_atomic; [|intros x; apply keeps_claim_done]. intros flip g. by step_match.
Qed.

Lemma keeps_add_rx n : keeps (add_rx n).
Proof. apply keeps_atomic; [done|intros x; apply keeps_claim_done]. Qed.
Lemma keeps_or_rx n : keeps (or_rx n).
Proof. apply keeps_atomic; [done|intros x; apply keeps_claim_done]. Qed.
Lemma keeps_bump_discard : keeps bump_discard.
Proof. apply keeps_atomic; [done|intros x; apply keeps_claim_done]. Qed.
Lemma keeps_store_phase p : keeps (store_phase p).
Proof. apply keeps_atomic; [done|intros x; apply keeps_claim_done]. Qed.

(** Invalidating a generation keeps every claim, and turns a reset's call into
    its invalidation. *)
Lemma u32_bump n : u32 (u32 (1 + n) + 1) = u32 (1 + (n + 1)) /\ u32 (u32 (1 + n) + 1) <> u32 (1 + n).
Proof.
  rewrite u32_add_l. split; [f_equal; lia|]. unfold u32. change (2 ^ 32) with 4294967296.
  zlia.
Qed.

Lemma ok_bump_generation l (Q : unit -> claim -> Prop) :
  (Q tt l \/ exists b, l = Called b /\ Q tt (Invalidated b)) ->
  ok inv bump_generation l Q.
Proof.
  intros HQ flip w ls i Hi [fence Hinv]. unfold on_gate.
  pose proof Hinv as [Hgen Hact _ _ Hcl _ _]. destruct (u32_bump (bumps w)) as [Hn Hne].
  cbn [fst snd generation set_generation]. rewrite Hgen.
  rewrite (proj2 (Z.eqb_neq _ _) Hne), Hn.
  pose proof (Forall_lookup_1 _ _ _ _ Hcl Hi) as Hl.
  destruct HQ as [HQ|(b & -> & HQ)]; [exists l|exists (Invalidated b)]; (split; [|exact HQ]);
    eapply (inv_update fence (bumps w + 1)); try done; cbn [gate bumps active_commands set_generation]; try lia.
  - rewrite Hact. f_equal. lia.
  - destruct l; cbn in *; lia.
  - rewrite Hact. f_equal. cbn. lia.
  - cbn in *. lia.
Qed.

(** [keeps] of every function that neither joins nor invalidates, by its
    structure. *)
Ltac keeps_tac :=
  repeat first
    [ apply keeps_claim_done | apply keeps_load | apply keeps_cas_rx | apply keeps_cas_rx_weak
    | apply keeps_cas_phase | apply keeps_cas_drained | apply keeps_add_rx | apply keeps_or_rx
    | apply keeps_bump_discard | apply keeps_store_phase | assumption
    | apply keeps_claim_bind; [|intros ?]
    | apply keeps_claim_loop; intros ?
    | match goal with
      | |- keeps (if ?b then _ else _) => destruct b
      | |- keeps (match ?x with _ => _ end) => destruct x
      end ].

Lemma keeps_pending : keeps gate_has_pending_rx_discard.
Proof. unfold gate_has_pending_rx_discard. keeps_tac. Qed.

Lemma keeps_andp p q : keeps p -> keeps q -> keeps (andp p q).
Proof. intros Hp Hq. unfold andp. keeps_tac. Qed.

Lemma keeps_notp p : keeps p -> keeps (notp p).
Proof. intros Hp. unfold notp. keeps_tac. Qed.

Lemma keeps_try_clear : keeps gate_try_clear_rx_dirty.
Proof. pose proof keeps_pending. unfold gate_try_clear_rx_dirty, leave, again. keeps_tac. Qed.

Lemma keeps_cancel : keeps gate_cancel_rx_opening.
Proof. pose proof keeps_try_clear. unfold gate_cancel_rx_opening, leave, again. keeps_tac. Qed.

Lemma keeps_boundary : keeps gate_mark_rx_boundary_stale.
Proof. pose proof keeps_try_clear. unfold gate_mark_rx_boundary_stale, leave, again. keeps_tac. Qed.

Lemma keeps_close_rx : keeps gate_close_rx_admission.
Proof. pose proof keeps_try_clear. unfold gate_close_rx_admission, leave, again. keeps_tac. Qed.

Lemma keeps_phase_is_open : keeps phase_is_open.
Proof. unfold phase_is_open. keeps_tac. Qed.

Lemma keeps_admission : keeps gate_rx_admission_is_open.
Proof. unfold gate_rx_admission_is_open. keeps_tac. Qed.

Lemma keeps_generation_is v : keeps (generation_is v).
Proof. unfold generation_is. keeps_tac. Qed.

(** The tail of every admission test. *)
Lemma keeps_quiet_rx : keeps (andp gate_rx_admission_is_open (notp gate_has_pending_rx_discard)).
Proof. apply keeps_andp; [apply keeps_admission|apply keeps_notp, keeps_pending]. Qed.

Lemma keeps_admissible g : keeps (command_admissible g).
Proof.
  unfold command_admissible. apply keeps_andp; [apply keeps_phase_is_open|].
  apply keeps_andp; [apply keeps_generation_is|apply keeps_quiet_rx].
Qed.

Lemma keeps_open : keeps usb_cdc_session_gate_open.
Proof.
  pose proof keeps_cancel. pose proof keeps_boundary. pose proof keeps_phase_is_open.
  pose proof keeps_admission. pose proof (keeps_notp _ keeps_pending).
  assert (Hpub : keeps gate_publish) by (unfold gate_publish; keeps_tac).
  unfold usb_cdc_session_gate_open, gate_reserve. keeps_tac.
Qed.

Lemma keeps_bump_generation : keeps bump_generation.
Proof. intros l. apply ok_bump_generation. by left. Qed.

Lemma keeps_close : keeps usb_cdc_session_gate_close.
Proof.
  pose proof keeps_bump_generation. pose proof keeps_boundary.
  unfold usb_cdc_session_gate_close. keeps_tac.
Qed.

Lemma keeps_snapshot : keeps (run_role TakeSnapshot).
Proof.
  pose proof keeps_phase_is_open as H1. pose proof keeps_quiet_rx as H2.
  assert (H3 : forall g, keeps (andp phase_is_open (andp (generation_is g)
      (andp gate_rx_admission_is_open (notp gate_has_pending_rx_discard))))).
  { intros g. apply keeps_andp; [done|]. apply keeps_andp; [apply keeps_generation_is|done]. }
  pose proof (keeps_andp _ _ H1 H2).
  cbn [run_role]. unfold usb_cdc_session_gate_snapshot, usb_cdc_session_gate_snapshot_is_current,
    usb_cdc_session_gate_is_open. repeat (keeps_tac; try apply H3).
Qed.

Lemma keeps_note_rx : keeps usb_cdc_session_gate_note_rx.
Proof. unfold usb_cdc_session_gate_note_rx, leave, again. keeps_tac. Qed.

Lemma keeps_drain : keeps (run_role Drain).
Proof.
  pose proof keeps_try_clear. pose proof keeps_pending. cbn [run_role].
  unfold usb_cdc_session_gate_should_discard_rx, usb_cdc_session_gate_rx_discard_epoch,
    usb_cdc_session_gate_mark_rx_drained, leave, again. keeps_tac.
Qed.

(** ** Commands *)

Lemma ok_keeps {A} (p : task A) l (Q : A -> claim -> Prop) :
  keeps p -> (forall a, Q a l) -> ok inv p l Q.
Proof. intros Hp HQ. eapply ok_mono; [apply Hp|]. by intros a l' ->. Qed.

(** Joining and leaving the active set. *)
Lemma ok_add_active n l l' (Q : unit -> claim -> Prop) :
  is_counted l' = is_counted l + n -> (forall fence m, claim_ok fence m l -> claim_ok fence m l') ->
  Q tt l' -> ok inv (add_active n) l Q.
Proof.
  intros Hn Hok HQ flip w ls i Hi [fence Hinv]. unfold on_gate. cbn [fst snd generation set_active].
  rewrite Z.eqb_refl, Z.add_0_r. pose proof Hinv as [Hgen Hact _ _ Hcl _ _].
  exists l'. split; [|exact HQ].
  apply (inv_update fence (bumps w) _ w _ _ l); try done; cbn [gate bumps active_commands set_active].
  - rewrite Hact, u32_add_l, Hn. f_equal. lia.
  - apply Hok. by eapply Forall_lookup_1.
Qed.

(** A counted thread that reads its frame's generation knows its number. *)
Lemma ok_generation_is g (Q : bool -> claim -> Prop) :
  Q false Joined -> (forall b, g = u32 (1 + b) -> Q true (Entitled b)) ->
  ok inv (generation_is g) Joined Q.
Proof.
  intros Hno Hyes flip w ls i Hi [fence Hinv]. unfold on_gate. cbn [fst snd].
  rewrite Z.eqb_refl, Z.add_0_r. pose proof Hinv as [Hgen Hact _ Hf Hcl _ _].
  assert (Hup : forall l', is_counted l' = 1 -> claim_ok fence (bumps w) l' ->
    inv (GateWorld (gate w) (bumps w) (log w)) (<[i := l']> ls)).
  { intros l' Hc Hl. apply (inv_update fence (bumps w) _ w _ _ Joined); try done; cbn [gate bumps].
    rewrite Hact, Hc. f_equal. cbn. lia. }
  cbn [pbind ok]. destruct (Z.eqb_spec (generation (gate w)) g) as [He|Hne].
  - exists (Entitled (bumps w)). split; [apply Hup; [done|cbn; lia]|]. apply Hyes. congruence.
  - exists Joined. split; [by apply Hup|done].
Qed.

Lemma ok_command_begin g (Q : bool -> claim -> Prop) :
  Q false Nothing -> (forall b, g = u32 (1 + b) -> Q true (Entitled b)) ->
  ok inv (usb_cdc_session_gate_command_begin g) Nothing Q.
Proof.
  intros Hno Hyes. unfold usb_cdc_session_gate_command_begin.
  apply ok_bind, ok_keeps; [apply keeps_admissible|]. intros []; cbn [negb]; [|done].
  apply ok_bind, (ok_add_active 1 Nothing Joined); [done..|].
  assert (Hleave : forall l, is_counted l = 1 -> ok inv (add_active (-1) ;;' Done false) l Q).
  { intros l Hl. apply ok_bind, (ok_add_active (-1) l Nothing); [cbn; lia|done|done]. }
  apply ok_bind. unfold command_admissible, andp at 1.
  apply ok_bind, ok_keeps; [apply keeps_phase_is_open|]. intros []; [|by apply Hleave].
  unfold andp at 1. apply ok_bind, ok_generation_is; [by apply Hleave|]. intros b Hb.
  apply ok_keeps; [apply keeps_quiet_rx|]. intros []; [by apply Hyes|by apply Hleave].
Qed.

(** Recording an event. *)
Lemma ok_emit e l l' (Q : unit -> claim -> Prop) :
  is_counted l' = is_counted l ->
  (forall fence n, claim_ok fence n l -> claim_ok fence n l' /\
     (forall b, e = ResetReturned b -> 0 <= b < fence) /\
     (forall g, e = Executed g -> exists b, g = u32 (1 + b) /\ fence <= b <= n)) ->
  Q tt l' -> ok inv (emit e) l Q.
Proof.
  intros Hc He HQ flip w ls i Hi [fence Hinv]. exists l'. split; [|exact HQ].
  pose proof Hinv as [_ Hact _ _ Hcl _ _].
  destruct (He fence (bumps w) ltac:(by eapply Forall_lookup_1)) as (Hl' & Hr & Hx).
  assert (Hup : inv_at fence w (<[i := l']> ls)).
  { apply (inv_at_update fence (bumps w) w w ls i l); try done; [by destruct Hinv|].
    rewrite Hact, Hc. f_equal. lia. }
  exists fence. cbn [snd]. destruct Hup as [Hgen' Hact' Hsz Hf Hcl' Hret Hlog].
  split; try done; cbn [log bumps].
  - intros b Hb. apply elem_of_cons in Hb as [Hb|Hb]; [by apply Hr|by apply Hret].
  - intros [|e2 l2] g l1 E; cbn in E; injection E as E1 E2; [|by apply (Hlog l2 g l1)].
    destruct (Hx g E1) as (b & Hg & Hb). exists b. split_and!; [done|lia|].
    intros b0 Hb0. rewrite <- E2 in Hb0. specialize (Hret b0 Hb0). lia.
Qed.

(** ** Resets *)

Lemma ok_bumps_now (Q : Z -> claim -> Prop) :
  (forall b, Q b (Called b)) -> ok inv bumps_now Nothing Q.
Proof.
  intros HQ flip w ls i Hi [fence Hinv]. exists (Called (bumps w)). split; [|apply HQ].
  pose proof Hinv as [Hgen Hact _ Hf Hcl _ _].
  apply (inv_update fence (bumps w) _ w _ _ Nothing); try done; cbn.
  - rewrite Hact. f_equal. lia.
  - lia.
Qed.

(** The barrier: with no command counted, every earlier generation is past. *)
Lemma inv_barrier w ls i b :
  inv w ls -> ls !! i = Some (Invalidated b) -> active_commands (gate w) = 0 ->
  inv w (<[i := Drained b]> ls).
Proof.
  intros [fence [Hgen Hact Hsz Hf Hcl Hret Hlog]] Hi Hz. exists (bumps w).
  assert (Hnone : counted ls = 0).
  { pose proof (counted_bounds ls). rewrite Hact in Hz. rewrite u32_small in Hz; lia. }
  split; try done.
  - rewrite (counted_insert ls i _ _ Hi), Hact, Hnone. done.
  - unfold zlen in *. by rewrite length_insert.
  - lia.
  - apply Forall_insert.
    + pose proof (counted_zero ls Hnone) as Hc. apply Forall_forall. intros c Hin.
      rewrite Forall_forall in Hcl, Hc. specialize (Hcl c Hin). specialize (Hc c Hin).
      destruct c; cbn in *; lia.
    + pose proof (Forall_lookup_1 _ _ _ _ Hcl Hi) as Hb. cbn in *. lia.
  - intros b0 Hb0. specialize (Hret b0 Hb0). lia.
Qed.

Lemma ok_reset b (Q : unit -> claim -> Prop) :
  Q tt (Drained b) -> ok inv usb_cdc_session_gate_reset (Called b) Q.
Proof.
  intros HQ. unfold usb_cdc_session_gate_reset.
  apply ok_bind, ok_keeps; [apply keeps_store_phase|]. intros _.
  apply ok_bind, ok_keeps; [apply keeps_close_rx|]. intros _.
  apply ok_bind, ok_bump_generation. right. exists b. split; [done|].
  exists (fun _ l => l = Invalidated b), (fun _ l => l = Drained b). split_and!; [done| |].
  - intros _ l ->. intros flip w ls i Hi Hw. unfold on_gate. cbn [fst snd].
    rewrite Z.eqb_refl, Z.add_0_r. destruct w as [g n lg]. cbn [gate bumps log] in *.
    cbn [pbind ok]. destruct (Z.eqb_spec (active_commands g) 0) as [Hz|]; cbn [negb].
    + exists (Drained b). split; [by apply inv_barrier|done].
    + exists (Invalidated b). rewrite list_insert_id by done. done.
  - intros _ l ->. apply ok_keeps; [apply keeps_store_phase|]. by intros [].
Qed.

Lemma ok_role r : ok inv (run_role r) Nothing (fun _ l => l = Nothing).
Proof.
  destruct r as [g| | | | | |].
  - cbn [run_role]. apply ok_bind, ok_command_begin; [done|]. intros b Hg.
    apply ok_bind, (ok_emit _ _ (Entitled b)); [done| |].
    { intros fence n Hc. split_and!; [done|done|]. intros g' [= <-]. by exists b. }
    by apply (ok_add_active (-1) (Entitled b) Nothing).
  - cbn [run_role]. apply ok_bind, ok_bumps_now. intros b. apply ok_bind, ok_reset.
    apply (ok_emit _ _ Nothing); [done| |done].
    intros fence n Hc. split_and!; [done| |done]. by intros b0 [= <-].
  - cbn [run_role]. apply ok_bind, ok_keeps; [apply keeps_open|done].
  - apply ok_keeps; [apply keeps_close|done].
  - apply ok_keeps; [apply keeps_snapshot|done].
  - apply ok_keeps; [apply keeps_note_rx|done].
  - apply ok_keeps; [apply keeps_drain|done].
Qed.

Lemma ok_roles rs : ok inv (run_roles rs) Nothing (fun _ _ => True).
Proof.
  induction rs as [|r rs IH]; [done|]. cbn [run_roles].
  apply ok_bind. eapply ok_mono; [apply ok_role|]. by intros _ l ->.
Qed.

(** ** The teardown barrier *)

Definition start_world : gate_world := GateWorld usb_cdc_session_gate_init 0 [].

Lemma inv_start n : Z.of_nat n < 4294967296 -> inv start_world (replicate n Nothing).
Proof.
  intros Hn. exists 0.
  assert (Hc : counted (replicate n Nothing) = 0) by (clear; induction n; cbn; lia).
  split; cbn; try done.
  - by rewrite Hc.
  - unfold zlen. by rewrite length_replicate.
  - by apply Forall_replicate.
  - intros b Hb. by apply elem_of_nil in Hb.
  - intros [] g l1 E; discriminate.
Qed.

(** C15: a reset is a barrier for every command, under every interleaving of any
    number of tasks and callbacks that use the gate in any order: once a call
    of reset has returned, no command executes whose frame was tagged with a
    generation current before that call began — not a command that was
    admitted before it, nor one that raced with it, nor a late one; the
    generations are told apart as long as there were fewer than 2^32
    invalidations. *)
Theorem reset_is_a_barrier (threads : list (list role)) sched l2 g l1 :
  Z.of_nat (length threads) < 4294967296 ->
  let w := (run sched (map run_roles threads) start_world).2 in
  log w = (l2 ++ Executed g :: l1)%list ->
  exists b, g = u32 (1 + b) /\ b <= bumps w /\
    forall called_at, ResetReturned called_at ∈ l1 ->
      called_at < b /\
      (bumps w < 4294967296 -> forall b', 0 <= b' <= called_at -> g <> u32 (1 + b')).
Proof.
  intros Hn w E.
  assert (H : pool_ok inv (map run_roles threads) start_world).
  { exists (replicate (length threads) Nothing). split_and!.
    - by rewrite length_replicate, length_map.
    - by apply inv_start.
    - intros i p l Hp Hl. rewrite list_lookup_fmap in Hp.
      apply lookup_replicate in Hl as [-> _].
      destruct (threads !! i) as [rs|]; [|done]. cbn in Hp. injection Hp as <-. apply ok_roles. }
  apply (run_ok inv sched) in H as (cs & _ & [fence [_ _ _ _ _ _ Hlog]] & _). fold w in Hlog.
  destruct (Hlog l2 g l1 E) as (b & Hg & Hb & Hr). exists b. split_and!; [done|done|].
  intros b0 Hb0. specialize (Hr b0 Hb0). split; [lia|]. intros Hmax b' Hb' Heq.
  rewrite Hg in Heq. unfold u32 in Heq. change (2 ^ 32) with 4294967296 in Heq. zlia.
Qed.

(** One worker runs a command, another task resets, a third one reopens and
    runs a command of the next generation. *)
Definition sample_threads : list (list role) := [[Open; RunCommand 1]; [Reset]; [Open; RunCommand 2]].
Definition sample_schedule : list (nat * bool) :=
  (replicate 60 (0%nat, false) ++ replicate 60 (1%nat, false) ++ replicate 60 (2%nat, false))%list.

Lemma reset_is_a_barrier_witness :
  log (run sample_schedule (map run_roles sample_threads) start_world).2
    = [Executed 2; ResetReturned 0; Executed 1] /\
  exists b, 2 = u32 (1 + b) /\ b <= bumps (run sample_schedule (map run_roles sample_threads) start_world).2 /\
    forall called_at, ResetReturned called_at ∈ [ResetReturned 0; Executed 1] ->
      called_at < b /\
      (bumps (run sample_schedule (map run_roles sample_threads) start_world).2 < 4294967296 ->
       forall b', 0 <= b' <= called_at -> 2 <> u32 (1 + b')).
Proof.
  assert (E : log (run sample_schedule (map run_roles sample_threads) start_world).2
    = [Executed 2; ResetReturned 0; Executed 1]) by (vm_compute; reflexivity).
  split; [exact E|].
  exact (reset_is_a_barrier sample_threads sample_schedule [] 2 [ResetReturned 0; Executed 1]
    ltac:(vm_compute; reflexivity) E).
Defined.

(** ** Stale bytes, one caller at a time *)

(** A closed gate at rest: generation [g], all stale bytes up to epoch [e]
    drained. *)
Definition closed_gate (g e : Z) : gate_world :=
  GateWorld (Gate g 0 USB_CDC_SESSION_GATE_CLOSED 0 e e) 0 [].

(** A byte is signalled, the lifecycle opens, the worker drains to the epoch
    it read, the lifecycle opens again, a command of generation [g] begins. *)
Definition stale_byte_session (g : Z) : task (bool * bool * bool) :=
  usb_cdc_session_gate_note_rx ;;'
  (early <- usb_cdc_session_gate_open;
   e <- usb_cdc_session_gate_rx_discard_epoch;
   usb_cdc_session_gate_mark_rx_drained e ;;'
   (opened <- usb_cdc_session_gate_open;
    admitted <- usb_cdc_session_gate_command_begin g;
    Done (early, opened, admitted))).

(** [does p w a w']: alone and without spurious failures, [p] ends with [a]
    and leaves [w']. *)
Inductive does : forall {A}, task A -> gate_world -> A -> gate_world -> Prop :=
  | DoesDone {A} (a : A) w : does (Done a) w a w
  | DoesAtomic {X A} (f : bool -> gate_world -> X * gate_world) (k : X -> task A) w x w1 a w2 :
      f false w = (x, w1) -> does (k x) w1 a w2 -> does (Atomic f k) w a w2
  | DoesLoop {S B A} (body : S -> task (S + B)) s (k : B -> task A) w a w' :
      does (pbind (body s) (fun r => match r with inl s' => Loop body s' k | inr b => k b end)) w a w' ->
      does (Loop body s k) w a w'.

(** Symbolic execution: the next access of the program is its head. *)
Ltac prog_head p := lazymatch p with pbind ?q _ => prog_head q | _ => p end.

Ltac literal v := lazymatch v with Z0 => idtac | Zpos _ => idtac | Zneg _ => idtac end.

(** Bring the gate back to its constructor and its literals to normal form. *)
Ltac tidy_world :=
  cbv [set_generation set_active set_phase set_rx set_discard set_drained
       generation active_commands phase rx_state rx_discard_epoch rx_drained_epoch gate bumps log];
  rewrite ?Z.eqb_refl, ?Z.add_0_r;
  repeat match goal with H : u32 _ = _ |- _ => progress rewrite !H end;
  repeat match goal with |- context [u32 ?x] =>
    let v := eval vm_compute in (u32 x) in literal v; change (u32 x) with v end;
  repeat match goal with |- context [Z.lor ?x ?y] =>
    let v := eval vm_compute in (Z.lor x y) in literal v; change (Z.lor x y) with v end.

Ltac step_access :=
  cbv beta; cbn [pbind];
  lazymatch goal with |- does ?p _ _ _ =>
    let h := prog_head p in
    lazymatch h with
    | Done _ => first [apply DoesDone | progress (cbn [pbind])]
    | Atomic _ _ => eapply DoesAtomic;
        [unfold on_gate; tidy_world; cbn [negb andb]; cbv iota; reflexivity|tidy_world]
    | Loop _ _ _ => apply DoesLoop
    | if ?b then _ else _ =>
        first [ let v := eval vm_compute in b in
                lazymatch v with true => change b with true | false => change b with false
                            | left _ => change b with v | right _ => change b with v end
              | progress rewrite ?Z.eqb_refl, ?Z.ltb_irrefl
              | match goal with H : _ = _ |- _ => progress rewrite !H end ];
        cbn [negb andb orb fst snd]; cbv iota
    | match ?x with _ => _ end => cbv iota
    | _ => let f := (lazymatch h with ?f _ _ _ => f | ?f _ _ => f | ?f _ => f | ?f => f end) in
           unfold f at 1
    end
  end.

(** C39: bytes signalled while the gate is closed must be drained before it opens
    again: with the gate closed and at rest, a receive callback makes the next
    open fail; draining to the epoch read behind it lets the lifecycle open,
    and a command of the current generation begins, for every generation and
    every epoch before the last. *)
Theorem stale_bytes_are_drained_first g e :
  0 <= e < 4294967295 ->
  exists w, does (stale_byte_session g) (closed_gate g e) (false, true, true) w.
Proof.
  intros He. unfold closed_gate, stale_byte_session. eexists.
  assert (Hs : u32 (e + 1) = e + 1) by (apply u32_small; lia).
  assert (H1 : (e + 1 =? e) = false) by lia. assert (H2 : (e <? e + 1) = true) by lia.
  repeat step_access.
Qed.

Lemma stale_bytes_are_drained_first_witness :
  0 <= 41 < 4294967295 /\
  exists w, does (stale_byte_session 7) (closed_gate 7 41) (false, true, true) w.
Proof. split; [lia|]. apply (stale_bytes_are_drained_first 7 41). lia. Defined.

(** The epochs are compared by size: when the last epoch wraps to 0, no drain
    advances past it and the gate does not open again. *)
Theorem last_epoch_blocks_the_gate g :
  exists w, does (stale_byte_session g) (closed_gate g 4294967295) (false, false, false) w.
Proof. unfold closed_gate, stale_byte_session. eexists. repeat step_access. Qed.
