(* ===== verification/ManifestText.v ===== *)
(** * ManifestText: the text of the recording manifest ([device_manifest.c])

    The pure half of the module: the checks of its fields, the builders of an
    entry and of a document, and the strict parser of the canonical document.
    A [const char *] without a length is its text before the NUL; a cursor
    [p] with its [end] is the list of the bytes between them. *)

From S2P Require Import Prelude RecorderConfig DeviceIdentity Sha256.

(** ** Times *)

Definition days_in_month (month : Z) : Z :=
  nth (Z.to_nat (month - 1)) [31; 28; 31; 30; 31; 30; 31; 31; 30; 31; 30; 31] 0.

Definition valid_calendar_date (year month day : Z) : bool :=
  if (year =? 0) || (month <? 1) || (12 <? month) || (day <? 1) then false else
  let last := days_in_month month in
  let last :=
    if (month =? 2) && (year mod 4 =? 0) && (negb (year mod 100 =? 0) || (year mod 400 =? 0))
    then last + 1 else last in
  day <=? last.

Definition device_manifest_is_valid_sha256_hex (s : bytes) : bool := sha256_is_valid_hex s.

(** The value of [n] digits from position [i]. *)
Fixpoint digits_at (s : bytes) (i n : nat) (acc : Z) : Z :=
  match n with
  | O => acc
  | S n => digits_at s (S i) n (acc * 10 + (nth i s 0 - 48))
  end.

Definition iso_separator (i : nat) : bool :=
  (i =? 4)%nat || (i =? 7)%nat || (i =? 10)%nat || (i =? 13)%nat || (i =? 16)%nat ||
  (i =? 19)%nat || (i =? 22)%nat.

Definition iso_shape (s : bytes) : bool :=
  (nth 4 s 0 =? 45) && (nth 7 s 0 =? 45) && (nth 10 s 0 =? 84) && (nth 13 s 0 =? 58) &&
  (nth 16 s 0 =? 58) && ((nth 19 s 0 =? 43) || (nth 19 s 0 =? 45)) && (nth 22 s 0 =? 58) &&
  forallb (fun i => iso_separator i || is_digit (nth i s 0)) (seq 0 25).

Definition device_manifest_is_valid_iso8601_offset (s : bytes) : bool :=
  (length s =? 25)%nat && iso_shape s &&
  valid_calendar_date (digits_at s 0 4 0) (digits_at s 5 2 0) (digits_at s 8 2 0) &&
  negb ((23 <? digits_at s 11 2 0) || (59 <? digits_at s 14 2 0) || (60 <? digits_at s 17 2 0)) &&
  negb ((14 <? digits_at s 20 2 0) || (59 <? digits_at s 23 2 0) ||
        ((digits_at s 20 2 0 =? 14) && negb (digits_at s 23 2 0 =? 0))).

Definition put2 (v : Z) : bytes := [48 + v / 10 mod 10; 48 + v mod 10].

Definition device_manifest_format_iso8601_utc (year mon mday hour min sec : Z) : option bytes :=
  if (year <? 1970) || (2100 <? year) || negb (valid_calendar_date year mon mday) ||
     (hour <? 0) || (23 <? hour) || (min <? 0) || (59 <? min) || (sec <? 0) || (60 <? sec)
  then None else
  let buf := ([48 + year / 1000 mod 10; 48 + year / 100 mod 10; 48 + year / 10 mod 10; 48 + year mod 10] ++
    txt "-" ++ put2 mon ++ txt "-" ++ put2 mday ++ txt "T" ++ put2 hour ++ txt ":" ++ put2 min ++
    txt ":" ++ put2 sec ++ txt "+00:00")%list in
  if device_manifest_is_valid_iso8601_offset buf then Some buf else None.

Definition device_manifest_duration_ms (pcm_bytes : Z) : Z := pcm_bytes / 32.

(** ** Names and texts *)

Definition text_char (c : Z) : bool := negb ((c =? 34) || (c =? 92) || (c <? 32)).

Definition safe_free_text (s : bytes) (max_len : Z) : bool :=
  negb (bool_decide (s = [])) && (zlen s <=? max_len) && forallb text_char s.

Definition valid_filename (name : bytes) : bool :=
  (5 <=? zlen name) && (zlen name <=? 180) &&
  bool_decide (take 11 name = txt "recordings/") &&
  has_suffix RECORDER_WAV_SUFFIX name && negb (has_suffix RECORDER_PART_SUFFIX name) &&
  forallb text_char name.

Definition date_shape (s : bytes) : bool :=
  (length s =? 10)%nat && (nth 4 s 0 =? 45) && (nth 7 s 0 =? 45) &&
  forallb (fun i => (i =? 4)%nat || (i =? 7)%nat || is_digit (nth i s 0)) (seq 0 10).

Definition device_manifest_build_filename (date time recording_id : bytes) (out_size : Z) : option bytes :=
  if out_size =? 0 then None else
  if negb (date_shape date) then None else
  if negb ((length time =? 6)%nat && forallb is_digit time) then None else
  if bool_decide (recording_id = []) || (64 <? zlen recording_id) ||
     negb (forallb (fun c => negb (c =? 47) && text_char c) recording_id) then None else
  match snprintf_fit out_size
          (txt "recordings/" ++ date ++ txt "/" ++ time ++ txt "_" ++ recording_id ++ txt ".wav")%list with
  | None => None
  | Some out => if valid_filename out then Some out else None
  end.

Definition DEVICE_MANIFEST_STATE_FINALIZED : bytes := txt "finalized".
Definition DEVICE_MANIFEST_STATE_RECOVERED : bytes := txt "recovered".

Definition is_entry_state (s : bytes) : bool :=
  bool_decide (s = DEVICE_MANIFEST_STATE_FINALIZED) || bool_decide (s = DEVICE_MANIFEST_STATE_RECOVERED).

(** The fields of an entry, as the document spells them. *)
Record entry := Entry {
  e_id : bytes;
  e_filename : bytes;
  e_started : bytes;
  e_duration : Z;
  e_size : Z;
  e_sha : bytes;
  e_state : bytes;
  e_firmware : bytes;
}.

Definition entry_text (e : entry) : bytes :=
  (jtxt "{'recordingId':'" ++ e_id e ++ jtxt "','filename':'" ++ e_filename e ++
   jtxt "','startedAt':'" ++ e_started e ++ jtxt "','durationMs':" ++ dec_u (e_duration e) ++
   jtxt ",'sizeBytes':" ++ dec_u (e_size e) ++ jtxt ",'sha256':'" ++ e_sha e ++
   jtxt "','sampleRate':" ++ dec_u RECORDER_SAMPLE_RATE_HZ ++
   jtxt ",'bitDepth':" ++ dec_u RECORDER_BITS_PER_SAMPLE ++
   jtxt ",'channels':" ++ dec_u RECORDER_CHANNELS ++ jtxt ",'state':'" ++ e_state e ++
   jtxt "','firmwareVersion':'" ++ e_firmware e ++ jtxt "'}")%list.

(** NULL texts are [None]. *)
Definition device_manifest_build_entry (recording_id filename started_at : bytes)
    (duration_ms size_bytes : Z) (sha256_hex : bytes) (sample_rate_hz bit_depth channels : Z)
    (state : bytes) (firmware_version : option bytes) (out_size : Z) : option bytes :=
  let firmware := default RECORDER_FIRMWARE_VERSION firmware_version in
  if out_size =? 0 then None else
  if negb (device_identity_is_valid_uuid recording_id) then None else
  if negb (valid_filename filename) then None else
  if negb (device_manifest_is_valid_iso8601_offset started_at) then None else
  if negb (device_manifest_is_valid_sha256_hex sha256_hex) then None else
  if negb (is_entry_state state) then None else
  if negb (safe_free_text firmware 32) then None else
  if negb (sample_rate_hz =? RECORDER_SAMPLE_RATE_HZ) || negb (bit_depth =? RECORDER_BITS_PER_SAMPLE) ||
     negb (channels =? RECORDER_CHANNELS) then None else
  if size_bytes <? RECORDER_WAV_HEADER_SIZE then None else
  snprintf_fit out_size (entry_text (Entry recording_id filename started_at duration_ms size_bytes
                                           sha256_hex state firmware)).

(** The document up to its first entry. *)
Definition document_head (device_id updated_at : bytes) : bytes :=
  (jtxt "{'schemaVersion':" ++ dec_u RECORDER_METADATA_SCHEMA_VERSION ++
   jtxt ",'deviceId':'" ++ device_id ++ jtxt "','updatedAt':'" ++ updated_at ++
   jtxt "','recordings':[")%list.

Definition device_manifest_build_empty (device_id updated_at : bytes) (out_size : Z) : option bytes :=
  if out_size =? 0 then None else
  if negb (device_identity_is_valid_uuid device_id) then None else
  if negb (device_manifest_is_valid_iso8601_offset updated_at) then None else
  snprintf_fit out_size (document_head device_id updated_at ++ txt "]}")%list.

(** ** Recording names *)

(** [strstr(s, needle)]: what precedes the first occurrence. *)
Definition before_sub (needle s : bytes) : option bytes :=
  (fun n => take n s) <$> find_sub needle s.

(** What follows the last separator of either kind. *)
Fixpoint last_component (s acc : bytes) : bytes :=
  match s with
  | [] => acc
  | c :: s => if (c =? 47) || (c =? 92) then last_component s s else last_component s acc
  end.

Definition device_manifest_extract_recording_id (wav_path : bytes) (out_size : Z) : option bytes :=
  if (out_size =? 0) || bool_decide (wav_path = []) then None else
  let base := last_component wav_path wav_path in
  if zlen base <? 12 then None else
  if bool_decide (find_sub (txt ".wav") base = None) then None else
  if negb (forallb is_digit (take 6 base)) then None else
  if negb (nth 6 base 0 =? 95) then None else
  match before_sub (txt ".wav") (drop 7 base) with
  | None => None
  | Some id =>
      if (zlen id =? 0) || (out_size <? zlen id + 1) || (64 <? zlen id) then None else
      if forallb (fun c => negb ((c =? 47) || (c =? 92) || (c =? 34) || (c =? 39) || (c <=? 32))) id
      then Some id else None
  end.

(** ** Searching *)

(** [memfind]: the rest of [hay] from the first occurrence on. *)
Definition memfind (hay ndl : bytes) : option bytes :=
  if bool_decide (hay = []) || bool_decide (ndl = []) then None
  else (fun n => drop n hay) <$> find_sub ndl hay.

(** [strchr] on a text without NUL: the rest from [c] on. *)
Fixpoint from_char (c : Z) (s : bytes) : option bytes :=
  match s with
  | [] => None
  | x :: t => if x =? c then Some s else from_char c t
  end.

(** The text before the closing quote; [None] on a backslash or no quote. *)
Fixpoint until_quote (s : bytes) : option bytes :=
  match s with
  | [] => None
  | c :: s => if c =? 34 then Some [] else if c =? 92 then None else cons c <$> until_quote s
  end.

Fixpoint drop_blanks (s : bytes) : bytes :=
  match s with
  | c :: t => if (c =? 32) || (c =? 9) then drop_blanks t else s
  | [] => []
  end.

(** The value of a string field of a NUL-terminated text. *)
Definition json_string_field (doc key : bytes) : option bytes :=
  match memfind doc key with
  | None => None
  | Some at_ =>
      match from_char 58 at_ with
      | Some (_ :: p) =>
          match drop_blanks p with
          | c :: p => if c =? 34 then until_quote p else None
          | [] => None
          end
      | _ => None
      end
  end.

(** ** The strict parser *)

Definition manifest_expect (p literal : bytes) : option bytes :=
  if bool_decide (take (length literal) p = literal) then Some (drop (length literal) p) else None.

Fixpoint string_body (p : bytes) : option (bytes * bytes) :=
  match p with
  | [] => None
  | c :: p =>
      if c =? 34 then Some ([], p)
      else if (c =? 92) || (c <? 32) then None
      else match string_body p with Some (v, rest) => Some (c :: v, rest) | None => None end
  end.

Definition manifest_string (p : bytes) : option (bytes * bytes) :=
  match p with
  | c :: p => if c =? 34 then string_body p else None
  | [] => None
  end.

Definition UINT32_MAX : Z := 4294967295.

Fixpoint uint32_digits (p : bytes) (result : Z) : option (Z * bytes) :=
  match p with
  | c :: p' =>
      if is_digit c then
        let digit := c - 48 in
        if (UINT32_MAX - digit) / 10 <? result then None
        else uint32_digits p' (result * 10 + digit)
      else Some (result, p)
  | [] => Some (result, p)
  end.

Definition manifest_uint32 (p : bytes) : option (Z * bytes) :=
  match p with
  | [] => None
  | c :: p' =>
      if negb (is_digit c) then None else
      if (c =? 48) && match p' with d :: _ => is_digit d | [] => false end then None else
      uint32_digits p 0
  end.

(** A number field of an entry: a comma or a brace follows. *)
Definition entry_number (key doc : bytes) : option Z :=
  match memfind doc key with
  | None => None
  | Some at_ =>
      match manifest_uint32 (drop (length key) at_) with
      | Some (v, c :: _) => if (c =? 44) || (c =? 125) then Some v else None
      | _ => None
      end
  end.

Definition manifest_entry_size (doc : bytes) : option Z := entry_number (jtxt "'sizeBytes':") doc.
Definition manifest_entry_duration (doc : bytes) : option Z := entry_number (jtxt "'durationMs':") doc.

Definition manifest_string_equals (value expected : bytes) : bool := bool_decide (value = expected).

Definition manifest_utc_seconds (s : bytes) : option Z :=
  if negb (device_manifest_is_valid_iso8601_offset s) then None else
  let y := digits_at s 0 4 0 in let m := digits_at s 5 2 0 in let d := digits_at s 8 2 0 in
  let hh := digits_at s 11 2 0 in let mm := digits_at s 14 2 0 in let ss := digits_at s 17 2 0 in
  let oh := digits_at s 20 2 0 in let om := digits_at s 23 2 0 in
  if negb (valid_calendar_date y m d) || ((oh =? 14) && negb (om =? 0)) then None else
  let ya := y - (if m <=? 2 then 1 else 0) in
  let era := if 0 <=? ya then Z.quot ya 400 else Z.quot (ya - 399) 400 in
  let yoe := ya - era * 400 in
  let doy := (153 * (m + (if 2 <? m then -3 else 9)) + 2) / 5 + d - 1 in
  let doe := yoe * 365 + yoe / 4 - yoe / 100 + doy in
  let days := era * 146097 + doe - 719468 in
  Some (days * 86400 + hh * 3600 + mm * 60 + ss +
        (if nth 19 s 0 =? 43 then -1 else 1) * (oh * 3600 + om * 60)).

Definition manifest_start_times_compatible (committed observed : bytes) : bool :=
  match manifest_utc_seconds committed, manifest_utc_seconds observed with
  | Some old_time, Some new_time =>
      let diff := old_time - new_time in (-2 <=? diff) && (diff <=? 2)
  | _, _ => false
  end.

Definition manifest_iso8601 (value : bytes) : bool :=
  (length value =? 25)%nat && device_manifest_is_valid_iso8601_offset value.

(** A literal, then a string or a number. *)
Definition string_field (p literal : bytes) : option (bytes * bytes) :=
  p ← manifest_expect p literal; manifest_string p.

Definition number_field (p literal : bytes) : option (Z * bytes) :=
  p ← manifest_expect p literal; manifest_uint32 p.

(** The size of a whole number of frames, and the duration it stands for. *)
Definition audio_size_ok (duration size : Z) : bool :=
  (RECORDER_WAV_HEADER_SIZE <=? size) &&
  ((size - RECORDER_WAV_HEADER_SIZE) mod RECORDER_BLOCK_ALIGN =? 0) &&
  (duration =? device_manifest_duration_ms (size - RECORDER_WAV_HEADER_SIZE)).

(** One turn of the parser's loop, up to the checks of the copied fields. *)
Definition manifest_entry (p : bytes) : option (entry * bytes) :=
  '(id, p) ← string_field p (jtxt "{'recordingId':");
  if negb (length id =? 36)%nat then None else
  '(name, p) ← string_field p (jtxt ",'filename':");
  if (zlen name =? 0) || (192 <=? zlen name) then None else
  '(started, p) ← string_field p (jtxt ",'startedAt':");
  if negb (manifest_iso8601 started) then None else
  '(duration, p) ← number_field p (jtxt ",'durationMs':");
  '(size, p) ← number_field p (jtxt ",'sizeBytes':");
  if negb (audio_size_ok duration size) then None else
  '(sha, p) ← string_field p (jtxt ",'sha256':");
  if negb (length sha =? 64)%nat then None else
  '(rate, p) ← number_field p (jtxt ",'sampleRate':");
  if negb (rate =? RECORDER_SAMPLE_RATE_HZ) then None else
  '(depth, p) ← number_field p (jtxt ",'bitDepth':");
  if negb (depth =? RECORDER_BITS_PER_SAMPLE) then None else
  '(channels, p) ← number_field p (jtxt ",'channels':");
  if negb (channels =? RECORDER_CHANNELS) then None else
  '(state, p) ← string_field p (jtxt ",'state':");
  if negb (manifest_string_equals state DEVICE_MANIFEST_STATE_FINALIZED ||
           manifest_string_equals state DEVICE_MANIFEST_STATE_RECOVERED) then None else
  '(fw, p) ← string_field p (jtxt ",'firmwareVersion':");
  if (zlen fw =? 0) || (32 <? zlen fw) then None else
  p ← manifest_expect p (txt "}");
  if negb (device_identity_is_valid_uuid id) || negb (valid_filename name) ||
     negb (device_manifest_is_valid_sha256_hex sha) then None else
  Some (Entry id name started duration size sha state fw, p).

Definition id_needle (id : bytes) : bytes := (jtxt "'recordingId':'" ++ id ++ [34])%list.

(** A comma with another entry behind it, or the end of the list. *)
Definition after_entry (p : bytes) : option bytes :=
  match p with
  | c :: p' =>
      if c =? 44 then match p' with d :: _ => if d =? 123 then Some p' else None | [] => None end
      else if c =? 93 then Some p else None
  | [] => Some p
  end.

(** The loop, with the entries it went over; every turn takes at least one
    byte of the document. *)
Fixpoint manifest_entries (fuel : nat) (p : bytes) : option (list entry * bytes) :=
  match p with
  | [] => Some ([], p)
  | c :: _ =>
      if c =? 93 then Some ([], p) else
      match fuel with
      | O => None
      | S fuel =>
          '(e, p) ← manifest_entry p;
          needle ← snprintf_fit 64 (id_needle (e_id e));
          if negb (bool_decide (memfind p needle = None)) then None else
          p ← after_entry p;
          '(es, p) ← manifest_entries fuel p;
          Some (e :: es, p)
      end
  end.

(** The whole parse: the stamp and the entries of the snapshot. *)
Definition manifest_snapshot (doc device_id : bytes) : option (bytes * list entry) :=
  if bool_decide (doc = []) || bool_decide (0 ∈ doc) then None else
  '(version, p) ← number_field doc (jtxt "{'schemaVersion':");
  if negb (version =? RECORDER_METADATA_SCHEMA_VERSION) then None else
  '(id, p) ← string_field p (jtxt ",'deviceId':");
  if negb (manifest_string_equals id device_id) then None else
  '(updated, p) ← string_field p (jtxt ",'updatedAt':");
  if negb (manifest_iso8601 updated) then None else
  p ← manifest_expect p (jtxt ",'recordings':[");
  '(es, p) ← manifest_entries (length doc) p;
  p ← manifest_expect p (txt "]}");
  if bool_decide (p = []) then Some (updated, es) else None.

Definition manifest_snapshot_valid (doc device_id : bytes) : bool :=
  match manifest_snapshot doc device_id with Some _ => true | None => false end.

(** ** The prefix check of [manifest_file_extends] *)

(** The text between the brackets: up to the last two bytes. *)
Definition recordings_text (doc : bytes) : option bytes :=
  key ← memfind doc (jtxt "'recordings':[");
  open ← from_char 91 key;
  let a := drop 1 open in
  if (length a <? 2)%nat then None else Some (take (length a - 2) a).

Definition snapshot_extends (new_doc old_doc device_id : bytes) : bool :=
  manifest_snapshot_valid new_doc device_id && manifest_snapshot_valid old_doc device_id &&
  match recordings_text old_doc, recordings_text new_doc with
  | Some a, Some b =>
      (length a <=? length b)%nat && bool_decide (take (length a) b = a) &&
      ((length a =? 0)%nat || (length a =? length b)%nat || (nth (length a) b 0 =? 44))
  | _, _ => false
  end.

(** ** The append of [device_manifest_upsert_file] *)

Definition DEVICE_MANIFEST_ADMISSION_CEILING_BYTES : Z := 32768.

Definition is_blank (c : Z) : bool := (c =? 10) || (c =? 13) || (c =? 32) || (c =? 9).

Fixpoint blanks (l : bytes) : nat :=
  match l with c :: l => if is_blank c then S (blanks l) else O | [] => O end.

(** Where a suffix of [doc] begins. *)
Definition offset_in (doc suffix : bytes) : nat := (length doc - length suffix)%nat.

Definition append_document (doc updated_at entry_json : bytes) : option bytes :=
  upd_key ← memfind doc (jtxt "'updatedAt'");
  arr_key ← memfind doc (jtxt "'recordings'");
  colon ← from_char 58 upd_key;
  quote ← from_char 34 colon;
  let ts := drop 1 quote in
  ts_end ← from_char 34 ts;
  let ts_q0 := offset_in doc ts in
  let ts_q1 := offset_in doc ts_end in
  if (ts_q1 <=? ts_q0)%nat then None else
  arr ← from_char 91 arr_key;
  let arr_open := offset_in doc arr in
  if negb (ts_q1 <? arr_open)%nat then None else
  let doc_end := (length doc - blanks (reverse doc))%nat in
  if (doc_end <? 2)%nat || negb (nth (doc_end - 1) doc 0 =? 125) || negb (nth (doc_end - 2) doc 0 =? 93)
  then None else
  let arr_close := (doc_end - 2)%nat in
  if (arr_close <=? arr_open)%nat then None else
  let inside := slice (S arr_open) (arr_close - S arr_open) doc in
  let arr_empty := (blanks inside =? length inside)%nat in
  let old_ts_len := Z.of_nat (ts_q1 - ts_q0) in
  let extra := zlen entry_json + (if arr_empty then 0 else 1) in
  if negb (zlen updated_at =? 25) then None else
  let fresh_len := zlen doc - old_ts_len + zlen updated_at + extra in
  if DEVICE_MANIFEST_ADMISSION_CEILING_BYTES <? fresh_len then None else
  let fresh :=
    (take ts_q0 doc ++ updated_at ++ slice ts_q1 (arr_close - ts_q1) doc ++
     (if arr_empty then [] else txt ",") ++ entry_json ++ drop arr_close doc)%list in
  if zlen fresh =? fresh_len then Some fresh else None.
