(* ===== verification/ManifestDoc.v ===== *)
(** * ManifestDoc: the canonical manifest document

    What the strict parser of [ManifestText] accepts, as an abstract document:
    an identity, a stamp and a list of entries, each with one spelling.  The
    parser accepts exactly the spellings of well-formed documents; searching
    for quoted keys in such a text is searching the list of its pieces between
    quotation marks. *)

From S2P Require Import Prelude RecorderConfig DeviceIdentity Sha256 ManifestText.

#[local] Arguments dec_u : simpl never.

(** ** The abstract document *)

Definition entry_ok (e : entry) : bool :=
  device_identity_is_valid_uuid (e_id e) && valid_filename (e_filename e) &&
  manifest_iso8601 (e_started e) && audio_size_ok (e_duration e) (e_size e) &&
  (e_size e <=? UINT32_MAX) && device_manifest_is_valid_sha256_hex (e_sha e) &&
  is_entry_state (e_state e) && safe_free_text (e_firmware e) 32.

Fixpoint entries_text (es : list entry) : bytes :=
  match es with
  | [] => []
  | [e] => entry_text e
  | e :: es => (entry_text e ++ 44 :: entries_text es)%list
  end.

Definition document (device_id updated_at : bytes) (es : list entry) : bytes :=
  (document_head device_id updated_at ++ entries_text es ++ txt "]}")%list.

(** ** The primitives of the parser *)

Lemma manifest_expect_app lit r : manifest_expect (lit ++ r) lit = Some r.
Proof.
  unfold manifest_expect. by rewrite take_app_length, bool_decide_eq_true_2, drop_app_length.
Qed.

Lemma manifest_expect_Some p lit r : manifest_expect p lit = Some r -> p = (lit ++ r)%list.
Proof.
  unfold manifest_expect. case_bool_decide as H; [|done]. intros [= <-].
  rewrite <- H at 1. by rewrite take_drop.
Qed.

Definition is_text (s : bytes) : Prop := forallb text_char s = true.

Lemma string_body_app v r : is_text v -> string_body (v ++ 34 :: r) = Some (v, r).
Proof.
  unfold is_text. induction v as [|c v IH]; intros H; [done|]. cbn in H.
  apply andb_prop in H as [Hc Hv]. cbn. rewrite (IH Hv). unfold text_char in Hc.
  destruct (c =? 34), (c =? 92), (c <? 32); done.
Qed.

Lemma string_body_Some p v r : string_body p = Some (v, r) -> p = (v ++ 34 :: r)%list /\ is_text v.
Proof.
  revert v. induction p as [|c p IH]; intros v; cbn; [done|].
  destruct (c =? 34) eqn:Hq; [intros [= <- <-]; split_bools; by subst|].
  destruct (_ || _) eqn:Ht; [done|]. destruct (string_body p) as [[v' r']|]; [|done].
  intros [= <- <-]. destruct (IH _ eq_refl) as [-> Hv]. split; [done|].
  unfold is_text in *. cbn. rewrite Hv. unfold text_char. rewrite Hq. cbn.
  apply orb_false_elim in Ht as [-> ->]. done.
Qed.

Lemma string_field_app lit v r :
  is_text v -> string_field (lit ++ 34 :: v ++ 34 :: r) lit = Some (v, r).
Proof. intros. unfold string_field. rewrite manifest_expect_app. by apply string_body_app. Qed.

Lemma string_field_Some p lit v r :
  string_field p lit = Some (v, r) -> p = (lit ++ 34 :: v ++ 34 :: r)%list /\ is_text v.
Proof.
  unfold string_field. destruct (manifest_expect p lit) as [q|] eqn:Hp; [|done].
  apply manifest_expect_Some in Hp as ->. cbn. destruct q as [|c q]; [done|]. cbn.
  destruct (Z.eqb_spec c 34) as [->|]; [|done]. intros H. by apply string_body_Some in H as [-> Hv].
Qed.

(** *** Decimal numbers *)

Lemma dec_aux_acc fuel : forall z acc, dec_aux fuel z acc = (dec_aux fuel z [] ++ acc)%list.
Proof.
  induction fuel as [|n IH]; intros z acc; [done|]. cbn. destruct (z <? 10); [done|].
  rewrite IH, (IH _ [_]), <- app_assoc. done.
Qed.

Lemma dec_aux_fuel z : forall f1 f2,
  0 <= z < 10 ^ Z.of_nat f1 -> (0 < f1)%nat -> (f1 <= f2)%nat -> dec_aux f2 z [] = dec_aux f1 z [].
Proof.
  intros f1. revert z. induction f1 as [|f1 IH]; intros z f2 Hz H1 H2; [lia|].
  destruct f2 as [|f2]; [lia|]. cbn. destruct (Z.ltb_spec z 10); [done|].
  rewrite (dec_aux_acc f2), (dec_aux_acc f1). f_equal.
  assert ((0 < f1)%nat) by (destruct f1; [cbn in Hz|]; lia). apply IH; [|lia..].
  rewrite Nat2Z.inj_succ, Z.pow_succ_r in Hz by lia. zlia.
Qed.

(** One more digit. *)
Lemma dec_u_snoc v d :
  0 < v < 10 ^ 19 -> 0 <= d < 10 -> dec_u (v * 10 + d) = (dec_u v ++ [48 + d])%list.
Proof.
  intros Hv Hd. unfold dec_u. rewrite (dec_aux_fuel v 19 20) by (cbn in *; lia).
  change (dec_aux 20 (v * 10 + d) []) with
    (let acc' := [48 + (v * 10 + d) mod 10] in
     if v * 10 + d <? 10 then acc' else dec_aux 19 ((v * 10 + d) / 10) acc').
  cbv zeta. rewrite (proj2 (Z.ltb_ge _ _)) by lia. rewrite (dec_aux_acc 19).
  replace ((v * 10 + d) / 10) with v by zlia. by replace ((v * 10 + d) mod 10) with d by zlia.
Qed.

Lemma dec_u_digit d : 0 <= d < 10 -> dec_u d = [48 + d].
Proof.
  intros Hd. unfold dec_u. cbn. rewrite (proj2 (Z.ltb_lt _ _)) by lia. by rewrite Z.mod_small by lia.
Qed.

Definition no_digit (r : bytes) : Prop := match r with c :: _ => is_digit c = false | [] => True end.

Lemma is_digit_range c : is_digit c = true <-> 48 <= c <= 57.
Proof. unfold is_digit. rewrite andb_true_iff, !Z.leb_le. done. Qed.

(** The digit loop, started behind a number that is not zero. *)
Lemma uint32_digits_Some p : forall v0 v r,
  0 < v0 <= UINT32_MAX -> uint32_digits p v0 = Some (v, r) ->
  (dec_u v0 ++ p)%list = (dec_u v ++ r)%list /\ 0 < v <= UINT32_MAX /\ no_digit r.
Proof.
  induction p as [|c p IH]; intros v0 v r Hv; cbn; [by intros [= <- <-]|].
  destruct (is_digit c) eqn:Hc; [|intros [= <- <-]; by repeat split; try lia].
  apply is_digit_range in Hc. destruct (Z.ltb_spec ((UINT32_MAX - (c - 48)) / 10) v0); [done|].
  assert (v0 * 10 + (c - 48) <= UINT32_MAX) by zlia.
  intros Hp. apply IH in Hp as (Hp & ? & ?); [|lia]. split; [|done]. rewrite <- Hp.
  rewrite dec_u_snoc by (unfold UINT32_MAX in *; lia). rewrite <- app_assoc. cbn.
  by replace (48 + (c - 48)) with c by lia.
Qed.

Lemma uint32_max_step v d : 0 <= d -> v * 10 + d <= UINT32_MAX -> ((UINT32_MAX - d) / 10 <? v) = false.
Proof. intros. apply Z.ltb_ge. zlia. Qed.

Lemma uint32_digits_app v t :
  0 < v <= UINT32_MAX -> uint32_digits (dec_u v ++ t) 0 = uint32_digits t v.
Proof.
  revert t. induction v as [v IH] using (well_founded_induction (Z.lt_wf 0)). intros t Hv.
  assert (Hstep : forall d v0, 0 <= d < 10 -> v0 * 10 + d <= UINT32_MAX ->
    uint32_digits ((48 + d) :: t) v0 = uint32_digits t (v0 * 10 + d)).
  { intros d v0 Hd Hm. cbn. replace (is_digit (48 + d)) with true by (symmetry; apply is_digit_range; lia).
    replace (48 + d - 48) with d by lia. by rewrite uint32_max_step by lia. }
  destruct (Z.ltb_spec v 10).
  - rewrite dec_u_digit by lia. cbn [app]. by rewrite Hstep by lia.
  - assert (Hd : v = v / 10 * 10 + v mod 10) by zlia. rewrite Hd at 1.
    rewrite dec_u_snoc, <- app_assoc by (unfold UINT32_MAX in *; zlia).
    rewrite IH by zlia. cbn [app]. rewrite Hstep by zlia. by rewrite <- Hd.
Qed.

(** No leading zero. *)
Lemma dec_u_head v : 0 < v <= UINT32_MAX -> exists c ds, dec_u v = c :: ds /\ 49 <= c <= 57.
Proof.
  induction v as [v IH] using (well_founded_induction (Z.lt_wf 0)). intros Hv.
  destruct (Z.ltb_spec v 10); [rewrite dec_u_digit by lia; eexists _, _; split; [done|lia]|].
  assert (Hd : v = v / 10 * 10 + v mod 10) by zlia. rewrite Hd, dec_u_snoc by (unfold UINT32_MAX in *; zlia).
  destruct (IH (v / 10)) as (c & ds & -> & Hc); [zlia..|]. by exists c, (ds ++ [48 + v mod 10])%list.
Qed.

Lemma manifest_uint32_app v r :
  0 <= v <= UINT32_MAX -> no_digit r -> manifest_uint32 (dec_u v ++ r) = Some (v, r).
Proof.
  intros Hv Hr. assert (Hend : forall v, uint32_digits r v = Some (v, r)).
  { intros v'. destruct r as [|c r]; [done|]. cbn in *. by rewrite Hr. }
  destruct (Z.eq_dec v 0) as [->|].
  - change (dec_u 0) with [48]. cbn. destruct r as [|c r]; [done|]. cbn in Hr. rewrite Hr. cbn. by rewrite Hr.
  - pose proof (uint32_digits_app v r ltac:(lia)) as Hgo.
    destruct (dec_u_head v ltac:(lia)) as (c & ds & Hds & Hc). rewrite Hds in *.
    unfold manifest_uint32. cbn [app] in *.
    replace (is_digit c) with true by (symmetry; apply is_digit_range; lia).
    replace (c =? 48) with false by lia. cbn [negb andb]. by rewrite Hgo, Hend.
Qed.

Lemma manifest_uint32_Some p v r :
  manifest_uint32 p = Some (v, r) -> p = (dec_u v ++ r)%list /\ 0 <= v <= UINT32_MAX /\ no_digit r.
Proof.
  destruct p as [|c p]; [done|]. unfold manifest_uint32. destruct (is_digit c) eqn:Hc; [|done].
  apply is_digit_range in Hc. cbn [negb]. destruct (Z.eqb_spec c 48) as [->|Hne]; cbn [andb].
  - destruct p as [|d p]; [intros [= <- <-]; repeat split; unfold UINT32_MAX; lia|].
    destruct (is_digit d) eqn:Hd; [done|]. cbn [uint32_digits]. cbn. rewrite Hd. intros [= <- <-].
    repeat split; [unfold UINT32_MAX; lia..|done].
  - cbn [uint32_digits]. replace (is_digit c) with true by (symmetry; apply is_digit_range; lia).
    rewrite uint32_max_step by (unfold UINT32_MAX in *; lia). intros H.
    apply uint32_digits_Some in H as (H & ? & ?); [|unfold UINT32_MAX in *; lia].
    rewrite Z.mul_0_l, Z.add_0_l, dec_u_digit in H by lia. replace (48 + (c - 48)) with c in H by lia.
    repeat split; [done|lia..|done].
Qed.

Lemma number_field_app lit v r :
  0 <= v <= UINT32_MAX -> no_digit r -> number_field (lit ++ dec_u v ++ r) lit = Some (v, r).
Proof. intros. unfold number_field. rewrite manifest_expect_app. by apply manifest_uint32_app. Qed.

Lemma number_field_Some p lit v r :
  number_field p lit = Some (v, r) ->
  p = (lit ++ dec_u v ++ r)%list /\ 0 <= v <= UINT32_MAX /\ no_digit r.
Proof.
  unfold number_field. destruct (manifest_expect p lit) as [q|] eqn:Hp; [|done]. cbn.
  apply manifest_expect_Some in Hp as ->. intros H. by apply manifest_uint32_Some in H as (-> & ? & ?).
Qed.

(** ** Fields are texts *)

Lemma is_text_app a b : is_text (a ++ b) <-> is_text a /\ is_text b.
Proof. unfold is_text. by rewrite forallb_app, andb_true_iff. Qed.

Lemma is_text_forall (P : Z -> bool) s :
  (forall c, P c = true -> text_char c = true) -> forallb P s = true -> is_text s.
Proof. intros HP. unfold is_text. rewrite !forallb_forall. auto. Qed.

Lemma is_text_indices s n :
  length s = n -> (forall i, (i < n)%nat -> text_char (nth i s 0) = true) -> is_text s.
Proof.
  intros <- H. unfold is_text. apply forallb_forall. intros c Hc.
  apply (In_nth _ _ 0) in Hc as (i & Hi & <-). by apply H.
Qed.

Lemma uuid_is_text s : device_identity_is_valid_uuid s = true -> is_text s /\ length s = 36%nat.
Proof.
  unfold device_identity_is_valid_uuid. intros H. apply andb_prop in H as [Hl H]. apply Nat.eqb_eq in Hl.
  split; [|done]. apply (is_text_indices _ _ Hl). intros i Hi. rewrite forallb_forall in H.
  specialize (H i). rewrite in_seq in H. specialize (H ltac:(lia)). unfold uuid_char_ok, is_hex in H.
  unfold text_char. destruct (is_hyphen_index i); cbv iota in H; lia.
Qed.

Lemma iso_is_text s : manifest_iso8601 s = true -> is_text s /\ length s = 25%nat.
Proof.
  unfold manifest_iso8601, device_manifest_is_valid_iso8601_offset. intros H.
  apply andb_prop in H as [Hl H]. apply Nat.eqb_eq in Hl. split; [|done].
  apply (is_text_indices _ _ Hl). intros i Hi.
  assert (Hs : iso_shape s = true) by (by repeat (apply andb_prop in H as [H ?])).
  unfold iso_shape in Hs. apply andb_prop in Hs as [Hs Hd]. rewrite forallb_forall in Hd.
  specialize (Hd i). rewrite in_seq in Hd. specialize (Hd ltac:(lia)). cbn beta in Hd. unfold text_char.
  destruct (is_digit (nth i s 0)) eqn:Hdig; [apply is_digit_range in Hdig; lia|].
  rewrite orb_false_r in Hd. unfold iso_separator in Hd. rewrite !orb_true_iff, !Nat.eqb_eq in Hd.
  assert (i = 4 \/ i = 7 \/ i = 10 \/ i = 13 \/ i = 16 \/ i = 19 \/ i = 22)%nat
    as [->|[->|[->|[->|[->|[->| ->]]]]]] by tauto; lia.
Qed.

Lemma sha_is_text s : device_manifest_is_valid_sha256_hex s = true -> is_text s /\ length s = 64%nat.
Proof.
  unfold device_manifest_is_valid_sha256_hex, sha256_is_valid_hex. intros H.
  apply andb_prop in H as [Hl H]. split; [|unfold zlen in Hl; lia].
  eapply is_text_forall; [|done]. intros c. unfold is_digit, is_lower_hex_letter, text_char. lia.
Qed.

Lemma filename_is_text s :
  valid_filename s = true -> is_text s /\ 5 <= zlen s <= 180 /\ take 11 s = txt "recordings/".
Proof.
  unfold valid_filename. intros H. split_bools. done.
Qed.

Lemma state_is_text s : is_entry_state s = true -> is_text s.
Proof.
  unfold is_entry_state. intros H. apply orb_prop in H as [H|H]; apply bool_decide_eq_true_1 in H as ->;
    reflexivity.
Qed.

Lemma free_text_is_text s n : safe_free_text s n = true -> is_text s /\ 1 <= zlen s <= n.
Proof.
  unfold safe_free_text. intros H. split_bools.
  split; [done|]. destruct s; [done|]. pose proof (zlen_nonneg s). rewrite zlen_cons in *. lia.
Qed.

(** What [entry_ok] says, field by field. *)
Record entry_fields (e : entry) : Prop := EntryFields {
  ef_id : device_identity_is_valid_uuid (e_id e) = true;
  ef_filename : valid_filename (e_filename e) = true;
  ef_started : manifest_iso8601 (e_started e) = true;
  ef_audio : audio_size_ok (e_duration e) (e_size e) = true;
  ef_size : 44 <= e_size e <= UINT32_MAX;
  ef_duration : 0 <= e_duration e <= UINT32_MAX;
  ef_sha : device_manifest_is_valid_sha256_hex (e_sha e) = true;
  ef_state : is_entry_state (e_state e) = true;
  ef_firmware : safe_free_text (e_firmware e) 32 = true;
}.

Lemma entry_ok_fields e : entry_ok e = true <-> entry_fields e.
Proof.
  unfold entry_ok. split.
  - intros H. split_bools. 
    assert (Ha : audio_size_ok (e_duration e) (e_size e) = true) by done.
    unfold audio_size_ok, RECORDER_WAV_HEADER_SIZE, device_manifest_duration_ms in Ha. split_bools.
    split; try done; unfold UINT32_MAX in *; zlia.
  - intros []. rewrite !andb_true_iff. repeat split; try done. lia.
Qed.

(** ** One entry *)

Lemma entry_text_fields e r :
  (entry_text e ++ r)%list =
  (jtxt "{'recordingId':" ++ 34 :: e_id e ++ 34 ::
   jtxt ",'filename':" ++ 34 :: e_filename e ++ 34 ::
   jtxt ",'startedAt':" ++ 34 :: e_started e ++ 34 ::
   jtxt ",'durationMs':" ++ dec_u (e_duration e) ++
   jtxt ",'sizeBytes':" ++ dec_u (e_size e) ++
   jtxt ",'sha256':" ++ 34 :: e_sha e ++ 34 ::
   jtxt ",'sampleRate':" ++ dec_u RECORDER_SAMPLE_RATE_HZ ++
   jtxt ",'bitDepth':" ++ dec_u RECORDER_BITS_PER_SAMPLE ++
   jtxt ",'channels':" ++ dec_u RECORDER_CHANNELS ++
   jtxt ",'state':" ++ 34 :: e_state e ++ 34 ::
   jtxt ",'firmwareVersion':" ++ 34 :: e_firmware e ++ 34 :: txt "}" ++ r)%list.
Proof. unfold entry_text. rewrite <- !app_assoc. reflexivity. Qed.

Lemma manifest_entry_app e r : entry_ok e = true -> manifest_entry (entry_text e ++ r) = Some (e, r).
Proof.
  intros [Hid Hfn Hst Hau Hsz Hdu Hsha Hs Hfw]%entry_ok_fields. rewrite entry_text_fields. unfold manifest_entry.
  destruct (uuid_is_text _ Hid) as [Tid Lid]. destruct (filename_is_text _ Hfn) as (Tfn & Lfn & _).
  destruct (iso_is_text _ Hst) as [Tst _]. destruct (sha_is_text _ Hsha) as [Tsha Lsha].
  destruct (free_text_is_text _ _ Hfw) as [Tfw Lfw]. pose proof (state_is_text _ Hs) as Ts.
  rewrite string_field_app by done. cbn [mbind option_bind]. rewrite Lid. cbn [Nat.eqb negb].
  rewrite string_field_app by done. cbn [mbind option_bind].
  replace ((zlen (e_filename e) =? 0) || (192 <=? zlen (e_filename e))) with false by lia.
  rewrite string_field_app by done. cbn [mbind option_bind]. rewrite Hst. cbn [negb].
  rewrite number_field_app by (done || reflexivity). cbn [mbind option_bind].
  rewrite number_field_app by (reflexivity || lia). cbn [mbind option_bind]. rewrite Hau. cbn [negb].
  rewrite string_field_app by done. cbn [mbind option_bind]. rewrite Lsha. cbn [Nat.eqb negb].
  do 3 (rewrite number_field_app by (done || reflexivity); cbn [mbind option_bind]; rewrite Z.eqb_refl; cbn [negb]).
  rewrite string_field_app by done. cbn [mbind option_bind]. unfold is_entry_state in Hs.
  unfold manifest_string_equals. rewrite Hs. cbn [negb].
  rewrite string_field_app by done. cbn [mbind option_bind].
  replace ((zlen (e_firmware e) =? 0) || (32 <? zlen (e_firmware e))) with false by lia.
  rewrite manifest_expect_app. cbn [mbind option_bind]. rewrite Hid, Hfn, Hsha. cbn. by destruct e.
Qed.

(** Read one step of an option program backwards. *)
Ltac bind_inv H :=
  lazymatch type of H with
  | (if ?b then None else _) = Some _ => destruct b eqn:?; [discriminate H|]
  | (if ?b then _ else None) = Some _ => destruct b eqn:?; [|discriminate H]
  | (?m ≫= _) = Some _ =>
      let Hm := fresh "Hm" in destruct m as [?|] eqn:Hm; [cbn [mbind option_bind] in H|discriminate H]
  | (let '(_, _) := ?p in _) = Some _ => destruct p
  end.

Lemma manifest_entry_Some p e r :
  manifest_entry p = Some (e, r) -> p = (entry_text e ++ r)%list /\ entry_ok e = true.
Proof.
  unfold manifest_entry. intros H. repeat bind_inv H. injection H as <- <-.
  repeat match goal with
  | H : string_field _ _ = Some (_, _) |- _ => apply string_field_Some in H as [-> ?]
  | H : number_field _ _ = Some (_, _) |- _ => apply number_field_Some in H as (-> & ? & ?)
  | H : manifest_expect _ _ = Some _ |- _ => apply manifest_expect_Some in H as ->
  end.
  split_bools. subst. rewrite entry_text_fields. split; [done|].
  apply entry_ok_fields. split; cbn; try done.
  - match goal with H : audio_size_ok _ _ = true |- _ => unfold audio_size_ok in H end.
    unfold RECORDER_WAV_HEADER_SIZE in *. split_bools. lia.
  - unfold safe_free_text. rewrite !andb_true_iff. repeat split; [|lia|done].
    apply negb_true_iff, bool_decide_eq_false_2. by intros ->.
Qed.

(** ** Searching *)

Lemma find_sub_None ndl hay : find_sub ndl hay = None -> forall pre post, hay <> (pre ++ ndl ++ post)%list.
Proof.
  induction hay as [|x t IH]; cbn; case_bool_decide as H; try done; intros Hf pre post Heq.
  - symmetry in Heq. apply app_nil in Heq as [-> Heq]. apply app_nil in Heq as [-> _]. by rewrite take_0 in H.
  - destruct pre as [|y pre]; cbn in Heq.
    + apply H. by rewrite Heq, take_app_length.
    + injection Heq as -> ->. destruct (find_sub ndl (pre ++ ndl ++ post)) eqn:E; [done|]. by apply (IH eq_refl pre post).
Qed.

(** The text joined with quotation marks from its pieces. *)
Fixpoint join34 (ps : list bytes) : bytes :=
  match ps with
  | [] => []
  | [p] => p
  | p :: ps => (p ++ 34 :: join34 ps)%list
  end.

Definition noquote (p : bytes) : Prop := 34 ∉ p.

Lemma join34_cons p q ps : join34 (p :: q :: ps) = (p ++ 34 :: join34 (q :: ps))%list.
Proof. done. Qed.

Definition starts (n' l : bytes) : bool := bool_decide (take (length n') l = n').

(** A quoted key with what follows it, sought among the pieces: the first
    closed piece that is the key. *)
Fixpoint seek (k n' : bytes) (ps : list bytes) : option (list bytes) :=
  match ps with
  | p :: (_ :: _) as rest =>
      if starts n' (join34 rest) && bool_decide (p = k) then Some ps else seek k n' rest
  | _ => None
  end.

Lemma seek_cons k n' p q r :
  seek k n' (p :: q :: r) =
    if starts n' (join34 (q :: r)) && bool_decide (p = k) then Some (p :: q :: r) else seek k n' (q :: r).
Proof. reflexivity. Qed.

Lemma starts_cons c n l : starts (c :: n) (c :: l) = starts n l.
Proof. unfold starts. cbn. apply bool_decide_ext. split; [by intros [=]|by intros ->]. Qed.

Lemma starts_other c d n l : c <> d -> starts (c :: n) (d :: l) = false.
Proof. intros. unfold starts. cbn. apply bool_decide_eq_false_2. by intros [=]. Qed.

(** A quoted piece begins with the quoted key only when it is the key. *)
Lemma starts_quoted k n' p t :
  noquote k -> noquote p ->
  starts (k ++ 34 :: n') (p ++ 34 :: t) = starts n' t && bool_decide (p = k).
Proof.
  unfold noquote. revert p. induction k as [|c k IH]; intros p Hk Hp.
  - destruct p as [|d p]; cbn [app].
    + rewrite starts_cons, bool_decide_eq_true_2, andb_true_r by done. done.
    + apply not_elem_of_cons in Hp as [Hd _]. rewrite starts_other by done.
      by rewrite bool_decide_eq_false_2, andb_false_r by done.
  - apply not_elem_of_cons in Hk as [Hc Hk]. destruct p as [|d p]; cbn [app].
    + rewrite starts_other by done. by rewrite bool_decide_eq_false_2, andb_false_r by done.
    + apply not_elem_of_cons in Hp as [Hd Hp]. destruct (decide (c = d)) as [->|Hcd].
      * rewrite starts_cons, IH by done. f_equal. apply bool_decide_ext. split; [by intros ->|by intros [=]].
      * rewrite starts_other by done. rewrite bool_decide_eq_false_2, andb_false_r; [done|]. by intros [=].
Qed.

Lemma starts_short k n' p : noquote p -> starts (k ++ 34 :: n') p = false.
Proof.
  intros Hp. unfold starts. apply bool_decide_eq_false_2. intros H. apply Hp.
  rewrite <- (take_drop (length (k ++ 34 :: n')) p), H. set_solver.
Qed.

Definition seek_text (ndl hay : bytes) : option bytes := (fun n => drop n hay) <$> find_sub ndl hay.

Lemma seek_text_cons ndl c hay :
  seek_text ndl (c :: hay) = if starts ndl (c :: hay) then Some (c :: hay) else seek_text ndl hay.
Proof.
  unfold seek_text, starts. cbn. destruct (bool_decide _); [done|]. by destruct (find_sub ndl hay).
Qed.

Lemma seek_text_skip n v t : noquote v -> seek_text (34 :: n) (v ++ t) = seek_text (34 :: n) t.
Proof.
  unfold noquote. induction v as [|c v IH]; intros Hv; [done|]. apply not_elem_of_cons in Hv as [Hc Hv].
  cbn [app]. rewrite seek_text_cons, starts_other by done. auto.
Qed.

Lemma seek_text_pieces k n' ps :
  noquote k -> Forall noquote ps ->
  seek_text (34 :: k ++ 34 :: n') (34 :: join34 ps) = (fun ps => 34 :: join34 ps) <$> seek k n' ps.
Proof.
  intros Hk. induction ps as [|p [|q ps] IH]; intros Hps.
  - cbn [join34]. rewrite seek_text_cons, starts_cons. by rewrite starts_short by apply not_elem_of_nil.
  - apply Forall_cons in Hps as [Hp _]. cbn [join34]. rewrite seek_text_cons, starts_cons, starts_short by done.
    rewrite <- (app_nil_r p), seek_text_skip by done. done.
  - apply Forall_cons in Hps as [Hp Hps]. rewrite join34_cons.
    rewrite seek_text_cons, starts_cons, starts_quoted, seek_cons by done.
    destruct (starts _ _ && _); [done|]. rewrite seek_text_skip by done. auto.
Qed.

Lemma memfind_seek hay ndl : hay <> [] -> ndl <> [] -> memfind hay ndl = seek_text ndl hay.
Proof. intros. unfold memfind. by rewrite !bool_decide_eq_false_2 by done. Qed.


(** ** The pieces of a document *)

Definition entry_body (e : entry) : list bytes :=
  [txt "recordingId"; txt ":"; e_id e; txt ","; txt "filename"; txt ":"; e_filename e; txt ",";
   txt "startedAt"; txt ":"; e_started e; txt ",";
   txt "durationMs"; (txt ":" ++ dec_u (e_duration e) ++ txt ",")%list;
   txt "sizeBytes"; (txt ":" ++ dec_u (e_size e) ++ txt ",")%list;
   txt "sha256"; txt ":"; e_sha e; txt ","; txt "sampleRate"; txt ":16000,"; txt "bitDepth"; txt ":16,";
   txt "channels"; txt ":1,"; txt "state"; txt ":"; e_state e; txt ","; txt "firmwareVersion"; txt ":";
   e_firmware e].

(** The pieces behind the first entry. *)
Fixpoint tail_pieces (es : list entry) : list bytes :=
  match es with
  | [] => [txt "}]}"]
  | e :: es => txt "},{" :: entry_body e ++ tail_pieces es
  end.

Definition body_pieces (es : list entry) : list bytes :=
  match es with
  | [] => [txt ":[]}"]
  | e :: es => txt ":[{" :: entry_body e ++ tail_pieces es
  end.

Definition head_pieces (id stamp : bytes) : list bytes :=
  [txt "schemaVersion"; txt ":1,"; txt "deviceId"; txt ":"; id; txt ","; txt "updatedAt"; txt ":"; stamp;
   txt ","; txt "recordings"].

Lemma entry_join e q ps :
  (entry_text e ++ join34 (q :: ps))%list =
    (txt "{" ++ 34 :: join34 (entry_body e ++ (125 :: q) :: ps))%list.
Proof.
  rewrite entry_text_fields.
  transitivity (txt "{" ++ 34 :: join34 (entry_body e) ++ 34 :: 125 :: join34 (q :: ps))%list.
  - unfold entry_body. cbn [join34]. repeat (progress (rewrite <- ?app_assoc; cbn [app])). reflexivity.
  - f_equal. f_equal. unfold entry_body. cbn [join34 app].
    destruct ps; repeat (progress (rewrite <- ?app_assoc; cbn [app])); reflexivity.
Qed.

Lemma entries_join e es :
  (entries_text (e :: es) ++ txt "]}")%list = (txt "{" ++ 34 :: join34 (entry_body e ++ tail_pieces es))%list.
Proof.
  revert e. induction es as [|e' es IH]; intros e.
  - apply (entry_join e (txt "]}") []).
  - change (entries_text (e :: e' :: es)) with (entry_text e ++ 44 :: entries_text (e' :: es))%list.
    rewrite <- app_assoc. cbn [app]. rewrite IH.
    apply (entry_join e (txt ",{") (entry_body e' ++ tail_pieces es)).
Qed.

Lemma document_join id stamp es :
  document id stamp es = (txt "{" ++ 34 :: join34 (head_pieces id stamp ++ body_pieces es))%list.
Proof.
  unfold document, document_head. destruct es as [|e es].
  - repeat (progress (rewrite <- ?app_assoc; cbn [app])). reflexivity.
  - rewrite <- !app_assoc. rewrite entries_join. reflexivity.
Qed.

(** ** No quotation marks inside pieces *)

Lemma is_text_noquote s : is_text s -> noquote s.
Proof.
  unfold is_text, noquote. rewrite forallb_forall. intros H Hin%list_elem_of_In. by apply H in Hin.
Qed.

Lemma pieces_noquote ps : Forall is_text ps -> Forall noquote ps.
Proof. intros H. eapply Forall_impl; [exact H|apply is_text_noquote]. Qed.

Lemma dec_u_is_text v : 0 <= v -> is_text (dec_u v).
Proof.
  intros Hv. unfold is_text. apply forallb_forall. intros c Hc%list_elem_of_In.
  pose proof (dec_u_digits v Hv) as H. rewrite Forall_forall in H. apply H, is_digit_range in Hc.
  unfold text_char. lia.
Qed.

Ltac pieces_text :=
  repeat apply Forall_cons_2; try apply Forall_nil_2; try done;
  repeat (apply is_text_app; split); first [reflexivity|apply dec_u_is_text; lia].

Lemma entry_body_text e : entry_ok e = true -> Forall is_text (entry_body e).
Proof.
  intros [Hid Hfn Hst Hau Hsz Hdu Hsha Hs Hfw]%entry_ok_fields.
  destruct (uuid_is_text _ Hid), (filename_is_text _ Hfn), (iso_is_text _ Hst), (sha_is_text _ Hsha),
    (free_text_is_text _ _ Hfw). pose proof (state_is_text _ Hs). unfold entry_body. pieces_text.
Qed.

Lemma tail_pieces_text es :
  Forall (fun e => entry_ok e = true) es -> Forall is_text (tail_pieces es).
Proof.
  induction 1 as [|e es He Hes IH]; cbn [tail_pieces]; apply Forall_cons_2; try reflexivity; [done|].
  apply Forall_app; split; [by apply entry_body_text|done].
Qed.

Lemma body_pieces_text es :
  Forall (fun e => entry_ok e = true) es -> Forall is_text (body_pieces es).
Proof.
  destruct es as [|e es]; intros H; apply Forall_cons_2; try reflexivity; [done|].
  apply Forall_cons in H as [He Hes].
  apply Forall_app; split; [by apply entry_body_text|by apply tail_pieces_text].
Qed.

Lemma head_pieces_text id stamp : is_text id -> is_text stamp -> Forall is_text (head_pieces id stamp).
Proof. intros. unfold head_pieces. pieces_text. Qed.

(** ** Searching a document *)

Lemma seek_not_key k n' p q r : p <> k -> seek k n' (p :: q :: r) = seek k n' (q :: r).
Proof. intros. by rewrite seek_cons, (bool_decide_eq_false_2 (p = k)), andb_false_r by done. Qed.

Lemma seek_not_next k n' p q r :
  starts n' (join34 (q :: r)) = false -> seek k n' (p :: q :: r) = seek k n' (q :: r).
Proof. intros H. by rewrite seek_cons, H. Qed.

Lemma seek_found k n' q r : starts n' (join34 (q :: r)) = true -> seek k n' (k :: q :: r) = Some (k :: q :: r).
Proof. intros H. by rewrite seek_cons, H, bool_decide_eq_true_2. Qed.

(** Literals differ. *)
Lemma differ (a b : bytes) : bool_decide (a = b) = false -> a <> b.
Proof. apply bool_decide_eq_false_1. Qed.

Lemma differ_head c s (k : bytes) : bool_decide (head k = Some c) = false -> (c :: s) <> k.
Proof. intros H <-. by rewrite bool_decide_eq_true_2 in H. Qed.

(** The text after a literal that does not begin with [c]. *)
Lemma next_not c n q r : (match q with d :: _ => negb (d =? c) | [] => negb (c =? 34) end) = true ->
  r <> [] -> starts (c :: n) (join34 (q :: r)) = false.
Proof.
  intros H Hr. destruct r as [|p r]; [done|]. rewrite join34_cons.
  destruct q as [|d q]; cbn [app]; apply starts_other; split_bools; congruence.
Qed.

Ltac seek_step :=
  first
    [ rewrite seek_not_key by (apply differ; reflexivity)
    | rewrite seek_not_next by (apply next_not; [reflexivity|done])
    | rewrite seek_not_key by (apply differ_head; reflexivity)
    | rewrite seek_not_key by done ].

(** A key with a colon is sought: the identity of an entry comes first. *)
Lemma seek_recording_id n e q ts :
  entry_ok e = true -> match q with d :: _ => negb (d =? 58) | [] => false end = true ->
  seek (txt "recordingId") (58 :: n) (entry_body e ++ q :: ts) =
    if starts n (34 :: join34 (drop 2 (entry_body e ++ q :: ts))) then Some (entry_body e ++ q :: ts)%list
    else seek (txt "recordingId") (58 :: n) (q :: ts).
Proof.
  intros He Hq. unfold entry_body. cbn [app].
  match goal with |- seek _ _ (?k :: ?c :: ?r) = _ => set (rest := r) end.
  assert (Hhead : starts (58 :: n) (join34 (txt ":" :: rest)) = starts n (34 :: join34 rest)).
  { change (join34 (txt ":" :: rest)) with (58 :: 34 :: join34 rest). apply starts_cons. }
  cbn [drop]. rewrite drop_0. destruct (starts n (34 :: join34 rest)) eqn:Hs.
  - rewrite seek_found by by rewrite Hhead. done.
  - rewrite seek_not_next by by rewrite Hhead. clear Hs Hhead. subst rest. repeat seek_step.
    rewrite seek_not_next; [done|]. destruct q as [|d q]; [done|]. destruct ts as [|p ts].
    + cbn. apply starts_other. by split_bools.
    + rewrite join34_cons. apply starts_other. by split_bools.
Qed.

(** The entry with a given identity, and the entries behind it. *)
Fixpoint find_entry (id : bytes) (es : list entry) : option (entry * list entry) :=
  match es with
  | [] => None
  | e :: es => if bool_decide (e_id e = id) then Some (e, es) else find_entry id es
  end.

Lemma find_entry_None id es : find_entry id es = None <-> id ∉ map e_id es.
Proof.
  induction es as [|e es IH]; cbn; [split; [by intros _ ?%elem_of_nil|done]|].
  rewrite not_elem_of_cons. case_bool_decide; naive_solver.
Qed.

Definition id_tail (id : bytes) : bytes := (58 :: 34 :: id ++ [34])%list.

Lemma seek_id_entry id e q ts :
  entry_ok e = true -> noquote id -> match q with d :: _ => negb (d =? 58) | [] => false end = true ->
  seek (txt "recordingId") (id_tail id) (entry_body e ++ q :: ts) =
    if bool_decide (e_id e = id) then Some (entry_body e ++ q :: ts)%list
    else seek (txt "recordingId") (id_tail id) (q :: ts).
Proof.
  intros He Hid Hq. unfold id_tail. rewrite seek_recording_id by done.
  assert (Hs : starts (34 :: id ++ [34]) (34 :: join34 (drop 2 (entry_body e ++ q :: ts))) =
    bool_decide (e_id e = id)).
  { unfold entry_body. cbn [app drop]. rewrite starts_cons, join34_cons, starts_quoted;
      [done|done|].
    apply entry_ok_fields in He as []. by apply is_text_noquote, uuid_is_text. }
  by rewrite Hs.
Qed.

Lemma seek_id_tail id es :
  Forall (fun e => entry_ok e = true) es -> noquote id ->
  seek (txt "recordingId") (id_tail id) (tail_pieces es) =
    (fun r => entry_body r.1 ++ tail_pieces r.2)%list <$> find_entry id es.
Proof.
  intros Hes Hid. induction Hes as [|e es He Hes IH]; [reflexivity|].
  cbn [tail_pieces find_entry].
  assert (Hstep : seek (txt "recordingId") (id_tail id) (entry_body e ++ tail_pieces es) =
    if bool_decide (e_id e = id) then Some (entry_body e ++ tail_pieces es)%list
    else seek (txt "recordingId") (id_tail id) (tail_pieces es)).
  { destruct es as [|e' es]; cbn [tail_pieces]; by apply seek_id_entry. }
  change (entry_body e ++ tail_pieces es)%list with
    (txt "recordingId" :: drop 1 (entry_body e ++ tail_pieces es))%list at 1.
  rewrite seek_not_key by (apply differ; reflexivity).
  change (txt "recordingId" :: drop 1 (entry_body e ++ tail_pieces es))%list with
    (entry_body e ++ tail_pieces es)%list.
  rewrite Hstep. case_bool_decide; [done|]. apply IH.
Qed.

Lemma seek_id_body id es :
  Forall (fun e => entry_ok e = true) es -> noquote id ->
  seek (txt "recordingId") (id_tail id) (body_pieces es) =
    (fun r => entry_body r.1 ++ tail_pieces r.2)%list <$> find_entry id es.
Proof.
  intros Hes Hid. destruct es as [|e es]; [reflexivity|].
  rewrite <- (seek_id_tail id (e :: es)) by done. cbn [body_pieces tail_pieces].
  change (entry_body e ++ tail_pieces es)%list with
    (txt "recordingId" :: drop 1 (entry_body e ++ tail_pieces es))%list.
  by rewrite !seek_not_key by (apply differ; reflexivity).
Qed.

(** ** Soundness of the parser *)

Record wf_document (stamp : bytes) (es : list entry) : Prop := WfDocument {
  wf_stamp : manifest_iso8601 stamp = true;
  wf_entries : Forall (fun e => entry_ok e = true) es;
  wf_ids : NoDup (map e_id es);
}.

Lemma wf_append t0 t1 es e :
  wf_document t0 es -> manifest_iso8601 t1 = true -> entry_ok e = true -> find_entry (e_id e) es = None ->
  wf_document t1 (es ++ [e]).
Proof.
  intros [_ Hes Hnd] Ht1 He Hn%find_entry_None. split; [done|apply Forall_app; by repeat constructor|].
  rewrite map_app. apply NoDup_app. split; [done|]. split; [|apply NoDup_singleton].
  cbn. set_solver.
Qed.

Lemma entry_text_needle e : exists post, entry_text e = (txt "{" ++ id_needle (e_id e) ++ post)%list.
Proof.
  eexists. unfold entry_text, id_needle. rewrite <- !app_assoc. cbn [app].
  instantiate (1 := (jtxt ",'filename':'" ++ _)%list). reflexivity.
Qed.

Lemma entries_text_cons e es :
  entries_text (e :: es) =
    (entry_text e ++ match es with [] => [] | _ => 44 :: entries_text es end)%list.
Proof. destruct es; [by rewrite app_nil_r|done]. Qed.

Lemma entries_text_needle id es :
  id ∈ map e_id es -> exists pre post, entries_text es = (pre ++ id_needle id ++ post)%list.
Proof.
  induction es as [|e es IH]; cbn [map]; [by intros ?%elem_of_nil|].
  rewrite entries_text_cons, elem_of_cons. intros [->|Hin].
  - destruct (entry_text_needle e) as [post ->]. eexists (txt "{"), _. by rewrite <- !app_assoc.
  - destruct es as [|e' es]; [by apply elem_of_nil in Hin|].
    destruct (IH Hin) as (pre & post & ->). exists (entry_text e ++ 44 :: pre)%list, post.
    by rewrite <- app_assoc.
Qed.

Lemma id_needle_length id : zlen (id_needle id) = zlen id + 16.
Proof. unfold id_needle. rewrite !zlen_app, zlen_jtxt, zlen_cons, zlen_nil. cbn. lia. Qed.

Definition closing (r : bytes) : Prop := match r with [] => True | c :: _ => c = 93 end.

(** What follows an entry of a list. *)
Definition more_text (es : list entry) : bytes :=
  match es with [] => [] | _ => 44 :: entries_text es end.

Lemma entries_text_head e es : exists t, entries_text (e :: es) = 123 :: t.
Proof. rewrite entries_text_cons. unfold entry_text. by eexists. Qed.

Lemma after_entry_Some l l0 es r :
  after_entry l = Some l0 -> l0 = (entries_text es ++ r)%list -> closing r -> l = (more_text es ++ r)%list.
Proof.
  assert (Hnil : forall c l, c <> 123 -> c :: l = (entries_text es ++ r)%list -> es = []).
  { intros c l1 Hc Heq. destruct es as [|e es]; [done|]. destruct (entries_text_head e es) as [t Ht].
    rewrite Ht in Heq. by injection Heq. }
  destruct l as [|c l]; cbn.
  - intros [= <-] Heq Hr. destruct es as [|e es]; [done|].
    destruct (entries_text_head e es) as [t Ht]. by rewrite Ht in Heq.
  - destruct (Z.eqb_spec c 44) as [->|].
    + destruct l as [|d l]; [done|]. destruct (Z.eqb_spec d 123) as [->|]; [|done].
      intros [= <-] Heq Hr. destruct es as [|e es]; cbn [more_text app]; [|by rewrite Heq].
      cbn in Heq. subst r. done.
    + destruct (Z.eqb_spec c 93) as [->|]; [|done]. intros [= <-] Heq Hr.
      pose proof (Hnil 93 l ltac:(done) Heq) as ->. exact Heq.
Qed.

Lemma entries_more e es r : (entries_text (e :: es) ++ r)%list = (entry_text e ++ more_text es ++ r)%list.
Proof. rewrite entries_text_cons. by rewrite <- app_assoc. Qed.

Lemma manifest_entries_Some fuel : forall p es r,
  manifest_entries fuel p = Some (es, r) ->
  p = (entries_text es ++ r)%list /\ Forall (fun e => entry_ok e = true) es /\ NoDup (map e_id es) /\ closing r.
Proof.
  induction fuel as [|fuel IH]; intros p es r H.
  - destruct p as [|c p]; cbn in H; [injection H as <- <-; repeat split; constructor|].
    destruct (Z.eqb_spec c 93); [|done]. injection H as <- <-. repeat split; [constructor..|done].
  - destruct p as [|c p]; cbn [manifest_entries] in H; [injection H as <- <-; repeat split; constructor|].
    destruct (Z.eqb_spec c 93); [injection H as <- <-; repeat split; [constructor..|done]|].
    destruct (manifest_entry (c :: p)) as [[e l]|] eqn:He; [cbn [mbind option_bind] in H|done].
    apply manifest_entry_Some in He as [-> He].
    bind_inv H. apply snprintf_fit_Some in Hm as [-> _]. bind_inv H. split_bools.
    destruct (after_entry l) as [l0|] eqn:Ha; [cbn [mbind option_bind] in H|done].
    destruct (manifest_entries fuel l0) as [[es' r']|] eqn:Hes; [cbn [mbind option_bind] in H|done].
    injection H as <- <-. apply IH in Hes as (Hp & Hes & Hnd & Hr).
    pose proof (after_entry_Some _ _ _ _ Ha Hp Hr) as ->. rewrite entries_more. repeat split; try done.
    + by constructor.
    + cbn. constructor; [|done]. intros Hin.
      destruct (entries_text_needle _ _ Hin) as (pre & post & Hneedle).
      destruct es' as [|e' es']; [by apply elem_of_nil in Hin|]. cbn [more_text] in Heqb.
      rewrite memfind_seek in Heqb by done. unfold seek_text in Heqb.
      destruct (find_sub _ _) eqn:Hf in Heqb; [done|].
      apply (find_sub_None _ _ Hf (44 :: pre) (post ++ r')). rewrite Hneedle. cbn. by rewrite <- !app_assoc.
Qed.

Lemma manifest_snapshot_Some doc id stamp es :
  manifest_snapshot doc id = Some (stamp, es) -> doc = document id stamp es /\ wf_document stamp es.
Proof.
  unfold manifest_snapshot. intros H. repeat bind_inv H. injection H as -> ->.
  repeat match goal with
  | H : string_field _ _ = Some (_, _) |- _ => apply string_field_Some in H as [-> ?]
  | H : number_field _ _ = Some (_, _) |- _ => apply number_field_Some in H as (-> & ? & ?)
  | H : manifest_expect _ _ = Some _ |- _ => apply manifest_expect_Some in H as ->
  | H : manifest_entries _ _ = Some _ |- _ => apply manifest_entries_Some in H as (-> & ? & ? & ?)
  end.
  unfold manifest_string_equals in *. split_bools. subst. split; [|by split].
  unfold document, document_head. rewrite <- !app_assoc, app_nil_r. reflexivity.
Qed.

(** ** Completeness of the parser *)

Lemma join34_no_nul ps : Forall is_text ps -> 0 ∉ join34 ps.
Proof.
  assert (H0 : forall p, is_text p -> 0 ∉ p).
  { intros p. unfold is_text. rewrite forallb_forall. intros H Hin%list_elem_of_In. by apply H in Hin. }
  induction ps as [|p [|q ps] IH]; intros H; apply Forall_cons in H as [Hp H] || clear H.
  - apply not_elem_of_nil.
  - by apply H0.
  - rewrite join34_cons, not_elem_of_app, not_elem_of_cons. split; [by apply H0|]. split; [done|by apply IH].
Qed.

Lemma document_text_pieces id stamp es :
  is_text id -> wf_document stamp es -> Forall is_text (head_pieces id stamp ++ body_pieces es)%list.
Proof.
  intros Hid [Hst Hes _]. apply Forall_app. split; [|by apply body_pieces_text].
  apply head_pieces_text; [done|]. by apply iso_is_text.
Qed.

Lemma after_entry_more es : after_entry (more_text es ++ txt "]}") = Some (entries_text es ++ txt "]}")%list.
Proof. destruct es as [|e es]; [done|]. unfold more_text. by destruct (entries_text_head e es) as [t ->]. Qed.

(** No later entry repeats the identity. *)
Lemma later_needle id es :
  Forall (fun e => entry_ok e = true) es -> is_text id -> id ∉ map e_id es ->
  memfind (more_text es ++ txt "]}") (id_needle id) = None.
Proof.
  intros Hes Hid Hnin. assert (Hn : id_needle id = (34 :: txt "recordingId" ++ 34 :: id_tail id)%list) by reflexivity.
  rewrite memfind_seek by (by destruct es). rewrite Hn. destruct es as [|e es].
  - cbn [more_text app]. rewrite <- (app_nil_r (txt "]}")), seek_text_skip; [done|]. by apply is_text_noquote.
  - cbn [more_text app]. rewrite entries_join.
    change (44 :: txt "{" ++ ?t)%list with (txt ",{" ++ t)%list. rewrite seek_text_skip by by apply is_text_noquote.
    rewrite seek_text_pieces.
    + assert (Hs := seek_id_body id (e :: es) Hes (is_text_noquote _ Hid)). cbn [body_pieces] in Hs.
      change (entry_body e ++ tail_pieces es)%list with
        (txt "recordingId" :: drop 1 (entry_body e ++ tail_pieces es))%list in Hs.
      rewrite seek_not_key in Hs by (apply differ; reflexivity).
      change (txt "recordingId" :: drop 1 (entry_body e ++ tail_pieces es))%list with
        (entry_body e ++ tail_pieces es)%list in Hs.
      rewrite Hs. by rewrite (proj2 (find_entry_None _ _) Hnin).
    + by apply is_text_noquote.
    + apply Forall_cons in Hes as [He Hes]. apply pieces_noquote, Forall_app. 
      split; [by apply entry_body_text|by apply tail_pieces_text].
Qed.

Lemma manifest_entries_app fuel : forall es,
  (length es <= fuel)%nat -> Forall (fun e => entry_ok e = true) es -> NoDup (map e_id es) ->
  manifest_entries fuel (entries_text es ++ txt "]}") = Some (es, txt "]}").
Proof.
  induction fuel as [|fuel IH]; intros es Hf Hes Hnd.
  - destruct es as [|e es]; [reflexivity|cbn in Hf; lia].
  - destruct es as [|e es]; [reflexivity|]. cbn in Hf, Hnd.
    apply Forall_cons in Hes as [He Hes]. apply NoDup_cons in Hnd as [Hnin Hnd].
    assert (Hgo : manifest_entries (S fuel) (entries_text (e :: es) ++ txt "]}") =
      '(e, p) ← manifest_entry (entries_text (e :: es) ++ txt "]}");
      needle ← snprintf_fit 64 (id_needle (e_id e));
      if negb (bool_decide (memfind p needle = None)) then None else
      p ← after_entry p;
      '(es, p) ← manifest_entries fuel p;
      Some (e :: es, p)).
    { destruct (entries_text_head e es) as [t ->]. reflexivity. }
    rewrite Hgo, entries_more, manifest_entry_app by done. cbn [mbind option_bind].
    pose proof He as [Hid _ _ _ _ _ _ _ _]%entry_ok_fields. destruct (uuid_is_text _ Hid) as [Tid Lid].
    rewrite snprintf_fit_ok by (rewrite id_needle_length; unfold zlen; lia). cbn [mbind option_bind].
    rewrite later_needle by done. cbn [bool_decide negb]. rewrite bool_decide_eq_true_2 by done. cbn [negb].
    rewrite after_entry_more. cbn [mbind option_bind]. rewrite IH by (done || lia). reflexivity.
Qed.

Lemma entries_length es : (length es <= length (entries_text es))%nat.
Proof.
  induction es as [|e es IH]; [done|]. rewrite entries_text_cons, length_app.
  assert (0 < length (entry_text e))%nat by (destruct (entries_text_head e []) as [t Ht]; cbn [entries_text] in Ht; rewrite Ht; cbn; lia).
  destruct es; cbn in *; lia.
Qed.

Lemma document_length id stamp es : (length es <= length (document id stamp es))%nat.
Proof. unfold document. pose proof (entries_length es). rewrite !length_app. lia. Qed.

Lemma manifest_snapshot_document id stamp es :
  is_text id -> wf_document stamp es -> manifest_snapshot (document id stamp es) id = Some (stamp, es).
Proof.
  intros Hid Hwf. pose proof (document_text_pieces id stamp es Hid Hwf) as Hps. pose proof Hwf as [Hst Hes Hnd].
  unfold manifest_snapshot.
  rewrite (bool_decide_eq_false_2 (document _ _ _ = [])) by by rewrite document_join.
  rewrite (bool_decide_eq_false_2 (0 ∈ _)).
  2:{ rewrite document_join. pose proof (join34_no_nul _ Hps). change (txt "{") with [123].
      cbn [app]. rewrite !not_elem_of_cons. done. }
  cbn [orb].
  assert (Hdoc : document id stamp es =
    (jtxt "{'schemaVersion':" ++ dec_u RECORDER_METADATA_SCHEMA_VERSION ++
     jtxt ",'deviceId':" ++ 34 :: id ++ 34 :: jtxt ",'updatedAt':" ++ 34 :: stamp ++ 34 ::
     jtxt ",'recordings':[" ++ entries_text es ++ txt "]}")%list).
  { unfold document, document_head. rewrite <- !app_assoc. reflexivity. }
  rewrite Hdoc at 1. rewrite number_field_app by (done || (unfold UINT32_MAX, RECORDER_METADATA_SCHEMA_VERSION; lia)).
  cbn [mbind option_bind]. rewrite Z.eqb_refl. cbn [negb].
  rewrite string_field_app by done. cbn [mbind option_bind]. unfold manifest_string_equals.
  rewrite bool_decide_eq_true_2 by done. cbn [negb].
  rewrite string_field_app by by apply iso_is_text. cbn [mbind option_bind]. rewrite Hst. cbn [negb].
  rewrite manifest_expect_app. cbn [mbind option_bind].
  rewrite manifest_entries_app; [|by apply document_length|done..].
  reflexivity.
Qed.

(** ** The two checks of a snapshot *)

(** C25: [manifest_snapshot_valid] accepts exactly the canonical spellings of
    well-formed documents: of this device, with a valid stamp, entries whose
    fields are valid and consistent with each other, and no identity twice.
    One text has one parse; nothing follows the document. *)
Theorem snapshot_valid_iff doc device_id :
  is_text device_id ->
  manifest_snapshot_valid doc device_id = true <->
    exists stamp es, doc = document device_id stamp es /\ wf_document stamp es.
Proof.
  intros Hid. unfold manifest_snapshot_valid. split.
  - destruct (manifest_snapshot doc device_id) as [[stamp es]|] eqn:H; [|done]. intros _.
    exists stamp, es. by apply manifest_snapshot_Some.
  - intros (stamp & es & -> & Hwf). by rewrite manifest_snapshot_document.
Qed.

(** *** The prefix check *)

Lemma recordings_join es :
  (34 :: join34 (txt "recordings" :: body_pieces es))%list =
    (jtxt "'recordings':[" ++ entries_text es ++ txt "]}")%list.
Proof. destruct es as [|e es]; [reflexivity|]. rewrite entries_join. reflexivity. Qed.

Lemma document_memfind id stamp es k n' :
  is_text id -> wf_document stamp es -> noquote k ->
  memfind (document id stamp es) (34 :: k ++ 34 :: n') =
    (fun ps => 34 :: join34 ps) <$> seek k n' (head_pieces id stamp ++ body_pieces es).
Proof.
  intros Hid Hwf Hk. rewrite document_join. rewrite memfind_seek by (by try destruct k).
  rewrite seek_text_skip by by apply is_text_noquote. apply seek_text_pieces; [done|].
  by apply pieces_noquote, document_text_pieces.
Qed.

Lemma recordings_text_document id stamp es :
  is_text id -> wf_document stamp es -> recordings_text (document id stamp es) = Some (entries_text es).
Proof.
  intros Hid Hwf. unfold recordings_text.
  change (jtxt "'recordings':[") with (34 :: txt "recordings" ++ 34 :: txt ":[")%list.
  rewrite document_memfind by (done || by apply is_text_noquote).
  assert (Hs : seek (txt "recordings") (txt ":[") (head_pieces id stamp ++ body_pieces es) =
    Some (txt "recordings" :: body_pieces es)).
  { unfold head_pieces. cbn [app]. repeat seek_step. destruct es as [|e es]; cbn [body_pieces]; by rewrite seek_found. }
  rewrite Hs. cbn [fmap option_fmap option_map mbind option_bind]. rewrite recordings_join.
  change (from_char 91 (jtxt "'recordings':[" ++ ?t)) with (Some (91 :: t)). cbn [mbind option_bind drop].
  rewrite drop_0, length_app. change (length (txt "]}")) with 2%nat.
  rewrite (proj2 (Nat.ltb_ge _ _)) by lia. f_equal. rewrite Nat.add_sub. apply take_app_length.
Qed.

Lemma entry_text_inj e e' r r' :
  entry_ok e = true -> entry_ok e' = true -> (entry_text e ++ r)%list = (entry_text e' ++ r')%list ->
  e = e' /\ r = r'.
Proof.
  intros He He' Heq. pose proof (manifest_entry_app e r He) as H.
  rewrite Heq, manifest_entry_app in H by done. by injection H as -> ->.
Qed.

(** A list of entries whose text begins another's, up to a comma, begins it. *)
Lemma entries_prefix es : forall es' r,
  Forall (fun e => entry_ok e = true) es -> Forall (fun e => entry_ok e = true) es' ->
  match r with c :: _ => es = [] \/ c = 44 | [] => True end ->
  entries_text es' = (entries_text es ++ r)%list -> es `prefix_of` es'.
Proof.
  induction es as [|e es IH]; intros es' r Hes Hes' Hr Heq; [apply prefix_nil|].
  apply Forall_cons in Hes as [He Hes].
  destruct es' as [|e' es'].
  { exfalso. destruct (entries_text_head e es) as [t Ht]. by rewrite Ht in Heq. }
  apply Forall_cons in Hes' as [He' Hes'].
  rewrite entries_more in Heq. rewrite <- (app_nil_r (entries_text (e' :: es'))), entries_more in Heq.
  apply entry_text_inj in Heq as [-> Heq]; [|done..]. apply prefix_cons. rewrite app_nil_r in Heq.
  destruct es as [|e1 es]; [apply prefix_nil|].
  destruct es' as [|e1' es']; [done|]. injection Heq as Heq. apply (IH _ r); try done.
  destruct r; [done|]. right. by destruct Hr.
Qed.

Lemma prefix_entries es es' : es `prefix_of` es' ->
  exists r, entries_text es' = (entries_text es ++ r)%list /\
    match r with c :: _ => es = [] \/ c = 44 | [] => True end.
Proof.
  intros [k ->]. induction es as [|e es IH].
  - exists (entries_text k). split; [done|]. destruct (entries_text k); auto.
  - destruct IH as (r & Heq & Hr). change ((e :: es) ++ k)%list with (e :: (es ++ k)).
    rewrite (entries_text_cons e (es ++ k)), (entries_text_cons e es). destruct es as [|e1 es].
    + destruct k as [|e' k]; [exists []; by rewrite !app_nil_r|].
      exists (44 :: entries_text (e' :: k)). split; [by rewrite app_nil_r|by right].
    + exists r. split; [|destruct r; [done|right; by destruct Hr]].
      rewrite <- app_assoc. f_equal. cbn [app]. f_equal. exact Heq.
Qed.

Lemma extends_prefix id stamp es stamp' es' :
  is_text id -> wf_document stamp es -> wf_document stamp' es' ->
  snapshot_extends (document id stamp' es') (document id stamp es) id = true <-> es `prefix_of` es'.
Proof.
  intros Hid Hwf Hwf'. unfold snapshot_extends, manifest_snapshot_valid.
  rewrite !manifest_snapshot_document, !recordings_text_document by done. cbn [andb].
  destruct Hwf as [_ Hes _], Hwf' as [_ Hes' _]. split.
  - intros H. split_bools.
    apply (entries_prefix _ _ (drop (length (entries_text es)) (entries_text es'))); try done.
    + destruct (drop _ _) as [|c t] eqn:Hd; [done|].
      assert (Hc : nth (length (entries_text es)) (entries_text es') 0 = c).
      { rewrite <- (take_drop (length (entries_text es)) (entries_text es')), Hd.
        rewrite app_nth2, length_take_le by (rewrite ?length_take; apply Nat.leb_le in H; lia).
        by rewrite Nat.sub_diag. }
      apply orb_prop in H0 as [H0|H0]; [|right; rewrite Hc in H0; by apply Z.eqb_eq].
      apply orb_prop in H0 as [H0|H0]; apply Nat.eqb_eq in H0.
      * left. destruct es as [|e es]; [done|]. destruct (entries_text_head e es) as [u Hu].
        by rewrite Hu in H0.
      * apply (f_equal length) in Hd. rewrite length_drop in Hd. cbn in Hd. lia.
    + rewrite <- (take_drop (length (entries_text es)) (entries_text es')) at 1. by f_equal.
  - intros Hp. destruct (prefix_entries _ _ Hp) as (r & -> & Hr). rewrite !andb_true_iff. split; [split|].
    + apply Nat.leb_le. rewrite length_app. lia.
    + apply bool_decide_eq_true_2, take_app_length.
    + destruct r as [|c r]; [rewrite app_nil_r, Nat.eqb_refl; by rewrite orb_true_r|].
      destruct Hr as [->| ->]; [done|]. rewrite app_nth2, Nat.sub_diag by lia. cbn. by rewrite orb_true_r.
Qed.

(** C26: the publication check compares the entries: one snapshot extends
    another exactly when the older entries, unchanged and in order, begin the
    newer ones. *)
Theorem snapshot_extends_iff id stamp es stamp' es' :
  is_text id -> wf_document stamp es -> wf_document stamp' es' ->
  snapshot_extends (document id stamp' es') (document id stamp es) id = true <-> es `prefix_of` es'.
Proof. apply extends_prefix. Qed.

(** ** The append *)

Lemma from_char_skip c v t : c ∉ v -> from_char c (v ++ c :: t) = Some (c :: t).
Proof.
  induction v as [|d v IH]; intros Hv; cbn; [by rewrite Z.eqb_refl|].
  apply not_elem_of_cons in Hv as [Hd Hv]. rewrite (proj2 (Z.eqb_neq d c)) by done. auto.
Qed.

Lemma offset_in_app a b : offset_in (a ++ b) b = length a.
Proof. unfold offset_in. rewrite length_app. lia. Qed.

(** The document around its stamp and its entries. *)
Definition before_stamp (id : bytes) : bytes :=
  (jtxt "{'schemaVersion':" ++ dec_u RECORDER_METADATA_SCHEMA_VERSION ++
   jtxt ",'deviceId':'" ++ id ++ jtxt "','updatedAt':'")%list.

Definition around_entries (stamp inside : bytes) : bytes :=
  (stamp ++ 34 :: jtxt ",'recordings':[" ++ inside ++ txt "]}")%list.

Lemma document_around id stamp es :
  document id stamp es = (before_stamp id ++ around_entries stamp (entries_text es))%list.
Proof.
  unfold document, document_head, before_stamp, around_entries.
  repeat (progress (rewrite <- ?app_assoc; cbn [app])). reflexivity.
Qed.

Lemma value_differs (k v : bytes) : length v <> length k -> v <> k.
Proof. by intros ? ->. Qed.

Lemma seek_updated id stamp es :
  device_identity_is_valid_uuid id = true -> manifest_iso8601 stamp = true ->
  seek (txt "updatedAt") [] (head_pieces id stamp ++ body_pieces es) =
    Some (txt "updatedAt" :: txt ":" :: stamp :: txt "," :: txt "recordings" :: body_pieces es)%list.
Proof.
  intros [_ Hid]%uuid_is_text [_ Hst]%iso_is_text. unfold head_pieces. cbn [app].
  assert (id <> txt "updatedAt") by (apply value_differs; rewrite Hid; done).
  repeat seek_step. by rewrite seek_found.
Qed.

Lemma seek_recordings id stamp es :
  device_identity_is_valid_uuid id = true -> manifest_iso8601 stamp = true ->
  seek (txt "recordings") [] (head_pieces id stamp ++ body_pieces es) =
    Some (txt "recordings" :: body_pieces es).
Proof.
  intros [_ Hid]%uuid_is_text [_ Hst]%iso_is_text. unfold head_pieces. cbn [app].
  assert (id <> txt "recordings") by (apply value_differs; rewrite Hid; done).
  assert (stamp <> txt "recordings") by (apply value_differs; rewrite Hst; done).
  repeat seek_step. destruct es as [|e es]; cbn [body_pieces]; by rewrite seek_found.
Qed.

Lemma entries_text_nil es : bool_decide (entries_text es = []) = bool_decide (es = []).
Proof. destruct es as [|e es]; [done|]. by destruct (entries_text_head e es) as [t ->]. Qed.

Lemma blanks_entries es :
  (blanks (entries_text es) =? length (entries_text es))%nat = bool_decide (entries_text es = []).
Proof. destruct es as [|e es]; [done|]. by destruct (entries_text_head e es) as [t ->]. Qed.

(** The text with the new stamp and the new entry at the end of the list. *)
Definition appended (id stamp : bytes) (es : list entry) (entry_json : bytes) : bytes :=
  (document_head id stamp ++ (entries_text es ++ (if bool_decide (es = []) then [] else txt ",") ++ entry_json) ++
   txt "]}")%list.

Lemma appended_entry id stamp es e : appended id stamp es (entry_text e) = document id stamp (es ++ [e]).
Proof.
  unfold appended, document. f_equal. f_equal. induction es as [|e1 es IH]; [done|].
  change ((e1 :: es) ++ [e])%list with (e1 :: (es ++ [e])). rewrite (entries_text_cons e1 (es ++ [e])).
  rewrite (entries_text_cons e1 es), <- app_assoc. f_equal.
  destruct es as [|e2 es]; [done|]. cbn [app]. f_equal. exact IH.
Qed.

(** The splice, once the stamp and the list have been found. *)
Definition spliced (before stamp mid inside t1 j : bytes) : bytes :=
  (before ++ t1 ++ 34 :: mid ++ 91 :: (inside ++ (if bool_decide (inside = []) then [] else txt ",") ++ j) ++
   txt "]}")%list.

Lemma nth_closing (l : bytes) n : (n < 2)%nat ->
  nth (length (l ++ txt "]}") - S n) (l ++ txt "]}") 0 = nth n [125; 93] 0.
Proof.
  intros Hn. rewrite length_app. change (length (txt "]}")) with 2%nat.
  rewrite app_nth2 by lia. replace (length l + 2 - S n - length l)%nat with (1 - n)%nat by lia.
  by destruct n as [|[|n]]; [..|lia].
Qed.

Lemma blanks_closing (l : bytes) : blanks (reverse (l ++ txt "]}")) = 0%nat.
Proof. by rewrite reverse_app. Qed.

Lemma splice_document B T Q I t1 j :
  zlen T = 25 -> zlen t1 = 25 -> (blanks I =? length I)%nat = bool_decide (I = []) ->
  let doc := (B ++ T ++ 34 :: Q ++ 91 :: I ++ txt "]}")%list in
  let ts_q0 := length B in
  let ts_q1 := length (B ++ T) in
  let arr_open := length (B ++ T ++ 34 :: Q) in
  let arr_close := (length doc - 2)%nat in
  let inside := slice (S arr_open) (arr_close - S arr_open) doc in
  let fresh := (take ts_q0 doc ++ t1 ++ slice ts_q1 (arr_close - ts_q1) doc ++
    (if (blanks inside =? length inside)%nat then [] else txt ",") ++ j ++ drop arr_close doc)%list in
  inside = I /\ fresh = spliced B T Q I t1 j /\
  zlen fresh = zlen doc - Z.of_nat (ts_q1 - ts_q0) + zlen t1 + (zlen j + (if bool_decide (I = []) then 0 else 1)).
Proof.
  intros HS Ht1 HI. cbn zeta.
  set (doc := (B ++ T ++ 34 :: Q ++ 91 :: I ++ txt "]}")%list).
  assert (Hlen : length doc = (length (B ++ T ++ 34%Z :: Q) + 1 + length I + 2)%nat).
  { unfold doc. repeat (rewrite ?length_app; cbn [length]). change (length (txt "]}")) with 2%nat. lia. }
  assert (Hin : slice (S (length (B ++ T ++ 34 :: Q)))
    (length doc - 2 - S (length (B ++ T ++ 34 :: Q))) doc = I).
  { rewrite Hlen. unfold slice.
    replace doc with ((B ++ T ++ 34 :: Q ++ [91]) ++ I ++ txt "]}")%list
      by (unfold doc; repeat (progress (rewrite <- ?app_assoc; cbn [app])); done).
    rewrite drop_app_length' by (repeat (rewrite ?length_app; cbn [length]); lia).
    apply take_app_length'. lia. }
  rewrite Hin, HI.
  assert (Htake : take (length B) doc = B) by (unfold doc; apply take_app_length).
  assert (Hmid : slice (length (B ++ T)) (length doc - 2 - length (B ++ T)) doc = (34 :: Q ++ 91 :: I)%list).
  { rewrite Hlen. unfold slice.
    replace doc with ((B ++ T) ++ (34 :: Q ++ 91 :: I) ++ txt "]}")%list
      by (unfold doc; repeat (progress (rewrite <- ?app_assoc; cbn [app])); done).
    rewrite drop_app_length. apply take_app_length'. repeat (rewrite ?length_app; cbn [length]). lia. }
  assert (Hend : drop (length doc - 2) doc = txt "]}").
  { rewrite Hlen. replace doc with ((B ++ T ++ 34 :: Q ++ 91 :: I) ++ txt "]}")%list
      by (unfold doc; repeat (progress (rewrite <- ?app_assoc; cbn [app])); done).
    apply drop_app_length'. repeat (rewrite ?length_app; cbn [length]). lia. }
  rewrite Htake, Hmid, Hend.
  assert (Hf : (B ++ t1 ++ (34 :: Q ++ 91 :: I) ++ (if bool_decide (I = []) then [] else txt ",") ++ j ++ txt "]}")%list
    = spliced B T Q I t1 j) by (unfold spliced; repeat (progress (rewrite <- ?app_assoc; cbn [app])); done).
  rewrite Hf. split; [done|]. split; [done|]. rewrite <- Hf. unfold zlen in *. rewrite Hlen.
  repeat (rewrite ?length_app; cbn [length]). change (length (txt "]}")) with 2%nat.
  case_bool_decide; cbn [length]; try change (length (txt ",")) with 1%nat; lia.
Qed.

Lemma append_document_eq id t0 es t1 j :
  device_identity_is_valid_uuid id = true -> wf_document t0 es -> zlen t1 = 25 ->
  append_document (document id t0 es) t1 j =
    if DEVICE_MANIFEST_ADMISSION_CEILING_BYTES <? zlen (appended id t1 es j) then None
    else Some (appended id t1 es j).
Proof.
  intros Hid Hwf Ht1. pose proof (uuid_is_text _ Hid) as [Tid _]. pose proof Hwf as [Hst Hes _].
  pose proof (iso_is_text _ Hst) as [Tst Lst]. unfold append_document.
  change (jtxt "'updatedAt'") with (34 :: txt "updatedAt" ++ 34 :: [])%list.
  change (jtxt "'recordings'") with (34 :: txt "recordings" ++ 34 :: [])%list.
  rewrite !document_memfind by (done || by apply is_text_noquote).
  rewrite seek_updated, seek_recordings by done. cbn [fmap option_fmap option_map mbind option_bind].
  set (X := (jtxt ",'recordings':[" ++ entries_text es ++ txt "]}")%list).
  assert (Hupd : (34 :: join34 (txt "updatedAt" :: txt ":" :: t0 :: txt "," :: txt "recordings" :: body_pieces es))%list
    = (jtxt "'updatedAt':'" ++ t0 ++ 34 :: X)%list).
  { pose proof (recordings_join es) as Hr. rewrite !join34_cons. rewrite Hr. reflexivity. }
  rewrite Hupd, recordings_join.
  change (from_char 58 (jtxt "'updatedAt':'" ++ ?t)) with (Some (58 :: 34 :: t)). cbn [mbind option_bind].
  change (from_char 34 (58 :: 34 :: ?t)) with (Some (34 :: t)). cbn [mbind option_bind].
  change (drop 1 (34 :: ?t)) with t.
  rewrite from_char_skip by by apply is_text_noquote. cbn [mbind option_bind].
  change (from_char 91 (jtxt "'recordings':[" ++ ?t)) with (Some (91 :: t)). cbn [mbind option_bind].
  set (B := before_stamp id). set (I := entries_text es). set (Q := jtxt ",'recordings':").
  assert (Hdoc : document id t0 es = (B ++ t0 ++ 34 :: Q ++ 91 :: I ++ txt "]}")%list).
  { rewrite document_around. reflexivity. }
  pose proof (splice_document B t0 Q I t1 j ltac:(unfold zlen; lia) Ht1 (blanks_entries es)) as Hs.
  cbn zeta in Hs. rewrite Hdoc.
  set (doc := (B ++ t0 ++ 34 :: Q ++ 91 :: I ++ txt "]}")%list) in *.
  assert (O1 : offset_in doc (t0 ++ 34 :: X) = length B) by apply offset_in_app.
  assert (O2 : offset_in doc (34 :: X) = length (B ++ t0)).
  { rewrite <- (offset_in_app (B ++ t0) (34 :: X)). f_equal. unfold doc, X. by rewrite <- app_assoc. }
  assert (O3 : offset_in doc (91 :: I ++ txt "]}") = length (B ++ t0 ++ 34 :: Q)).
  { rewrite <- (offset_in_app (B ++ t0 ++ 34 :: Q) (91 :: I ++ txt "]}")). f_equal. unfold doc.
    repeat (progress (rewrite <- ?app_assoc; cbn [app])). done. }
  assert (Hend : exists pre, doc = (pre ++ txt "]}")%list /\ (length (B ++ t0 ++ 34%Z :: Q) < length pre)%nat).
  { exists (B ++ t0 ++ 34 :: Q ++ 91 :: I)%list. split.
    - unfold doc. repeat (progress (rewrite <- ?app_assoc; cbn [app])). done.
    - repeat (rewrite ?length_app; cbn [length]). lia. }
  destruct Hend as (pre & Hpre & Hlen). rewrite O1, O2, O3.
  rewrite (proj2 (Nat.leb_gt _ _)) by (rewrite length_app; lia).
  rewrite (proj2 (Nat.ltb_lt _ _)) by (repeat (rewrite ?length_app; cbn [length]); lia). cbn [negb].
  assert (Hl : length doc = (length pre + 2)%nat) by (by rewrite Hpre, length_app).
  assert (Hb : blanks (reverse doc) = 0%nat) by (rewrite Hpre; apply blanks_closing).
  assert (N1 : nth (length doc - 1) doc 0 = 125) by (rewrite Hpre; apply (nth_closing pre 0); lia).
  assert (N2 : nth (length doc - 2) doc 0 = 93) by (rewrite Hpre; apply (nth_closing pre 1); lia).
  rewrite Hb, Nat.sub_0_r, N1, N2. rewrite (proj2 (Nat.ltb_ge _ _)) by lia. cbn [orb negb Z.eqb Pos.eqb].
  rewrite (proj2 (Nat.leb_gt _ _)) by lia. rewrite Ht1. cbn [Z.eqb Pos.eqb negb].
  destruct Hs as (H1 & H2 & H3). rewrite H1 in *. unfold I in *. rewrite blanks_entries in *.
  rewrite H2 in *. rewrite Ht1 in H3. rewrite H3, Z.eqb_refl.
  assert (Hfr : spliced B t0 Q (entries_text es) t1 j = appended id t1 es j).
  { unfold spliced, appended. rewrite entries_text_nil. unfold B, Q, before_stamp, document_head.
    repeat (progress (rewrite <- ?app_assoc; cbn [app])). reflexivity. }
  rewrite Hfr in *. by rewrite H3.
Qed.

(** What is appended keeps the entries, whatever text is appended. *)
Lemma appended_extends id t1 es j t' es' :
  wf_document t' es' -> Forall (fun e => entry_ok e = true) es -> zlen t1 = 25 ->
  document id t' es' = appended id t1 es j -> t' = t1 /\ es `prefix_of` es'.
Proof.
  intros [Ht' Hes' _] Hes Ht1 Heq. apply iso_is_text in Ht' as [_ Lt'].
  unfold document, appended, document_head in Heq. rewrite <- !app_assoc in Heq.
  do 5 apply app_inv_head in Heq. apply app_inj_1 in Heq as [-> Heq]; [|unfold zlen in Ht1; lia].
  split; [done|]. apply app_inv_head in Heq.
  rewrite 2 app_assoc in Heq. apply app_inv_tail in Heq. rewrite <- app_assoc in Heq.
  eapply entries_prefix; [done..| |exact Heq].
  case_bool_decide as He; cbn [app]; [destruct j; [done|by left]|by right].
Qed.

(** ** Samples *)

Definition sample_entry (rid : bytes) : entry :=
  Entry rid (txt "recordings/2026-01-02/030405_" ++ rid ++ txt ".wav") (txt "2026-01-02T03:04:05+00:00")
        2000 64044 (replicate 64 48) DEVICE_MANIFEST_STATE_FINALIZED RECORDER_FIRMWARE_VERSION.

Definition first_id : bytes := txt "00000000-0000-4000-8000-000000000001".
Definition second_id : bytes := txt "00000000-0000-4000-8000-000000000002".
Definition sample_stamp : bytes := txt "2026-01-02T03:34:05+00:00".

Lemma sample_wf : wf_document sample_stamp [sample_entry first_id].
Proof.
  split; [reflexivity| |apply NoDup_singleton]. apply Forall_cons_2; [vm_compute; reflexivity|done].
Qed.

Lemma sample_wf_empty : wf_document sample_stamp [].
Proof. split; [reflexivity|constructor|apply NoDup_nil_2]. Qed.

Lemma snapshot_valid_iff_witness :
  is_text sample_id /\
  manifest_snapshot_valid (document sample_id sample_stamp [sample_entry first_id]) sample_id = true.
Proof.
  split; [reflexivity|]. apply snapshot_valid_iff; [reflexivity|]. eexists _, _. split; [reflexivity|exact sample_wf].
Defined.

Lemma snapshot_extends_iff_witness :
  snapshot_extends (document sample_id sample_stamp [sample_entry first_id]) (document sample_id sample_stamp [])
    sample_id = true /\
  snapshot_extends (document sample_id sample_stamp []) (document sample_id sample_stamp [sample_entry first_id])
    sample_id <> true.
Proof.
  split.
  - apply (snapshot_extends_iff sample_id sample_stamp [] sample_stamp [sample_entry first_id] eq_refl
      sample_wf_empty sample_wf). apply prefix_nil.
  - intros H. apply (snapshot_extends_iff sample_id sample_stamp [sample_entry first_id] sample_stamp [] eq_refl
      sample_wf sample_wf_empty) in H. by apply prefix_nil_inv in H.
Defined.
