(* ===== verification/ManifestStore.v ===== *)
(** * ManifestStore: the manifest file ([device_manifest.c])

    Reading and checking the file, the publication of a new document through
    the temporary and the backup file, the upsert of an entry, and the
    recovery at boot.  The build with the media sync is modelled.  [malloc]
    draws from the fault plan like any other call. *)

From S2P Require Import Prelude Monad Stdio RecorderConfig Sha256 DeviceIdentity WavRecovery ManifestText.

(** ** Finalized recordings *)

Definition finalized_wav_valid (path : bytes) (total : Z) : io bool :=
  if (total <? RECORDER_WAV_HEADER_SIZE) ||
     negb ((total - RECORDER_WAV_HEADER_SIZE) mod RECORDER_BLOCK_ALIGN =? 0) then ret false else
  let* f := fopen_existing path in
  match f with
  | None => ret false
  | Some h =>
      let* (header, _, h) := fread h (Z.to_nat RECORDER_WAV_HEADER_SIZE) in
      let ok := zlen header =? RECORDER_WAV_HEADER_SIZE in
      let* closed := fclose h in
      if negb closed then ret false else
      ret (ok && tag_at header 0 (txt "RIFF") && (get_u32le (drop 4 header) =? u32 (total - 8)) &&
           tag_at header 8 (txt "WAVEfmt ") && (get_u32le (drop 16 header) =? 16) &&
           (get_u16le (drop 20 header) =? 1) && (get_u16le (drop 22 header) =? RECORDER_CHANNELS) &&
           (get_u32le (drop 24 header) =? RECORDER_SAMPLE_RATE_HZ) &&
           (get_u32le (drop 28 header) =? RECORDER_BYTE_RATE) &&
           (get_u16le (drop 32 header) =? RECORDER_BLOCK_ALIGN) &&
           (get_u16le (drop 34 header) =? RECORDER_BITS_PER_SAMPLE) &&
           tag_at header 36 (txt "data") &&
           (get_u32le (drop 40 header) =? u32 (total - RECORDER_WAV_HEADER_SIZE)))
  end.

(** The digest and the size. *)
Definition device_manifest_hash_wav_file (wav_path : bytes) : io (option (bytes * Z)) :=
  if bool_decide (wav_path = []) || (zlen wav_path <? 5) || negb (has_suffix RECORDER_WAV_SUFFIX wav_path) ||
     has_suffix RECORDER_PART_SUFFIX wav_path then ret None else
  let* st := stat wav_path in
  match st with
  | inr (NFile c) =>
      if (zlen c <? RECORDER_WAV_HEADER_SIZE) || (UINT32_MAX <? zlen c) then ret None else
      let* valid := finalized_wav_valid wav_path (zlen c) in
      if negb valid then ret None else
      let* hex := sha256_file_hex wav_path in
      match hex with
      | None => ret None
      | Some hex =>
          let* after := stat wav_path in
          match after with
          | inr (NFile c') => ret (if zlen c' =? zlen c then Some (hex, zlen c) else None)
          | _ => ret None
          end
      end
  | _ => ret None
  end.

(** ** Reading the manifest *)

Definition malloc : io bool := let* f := next_fault in ret (negb (hit f)).

(** The size [stat] reports; FAT reports zero for a directory. *)
Definition node_size (n : node) : Z := match n with NFile c => zlen c | NDir => 0 end.

Definition read_file_bounded (path : bytes) (max_bytes : Z) : io (option bytes) :=
  if bool_decide (path = []) || (max_bytes =? 0) then ret None else
  let* st := stat path in
  match st with
  | inl _ => ret None
  | inr n =>
      if max_bytes <? node_size n then ret None else
      let* allocated := malloc in
      if negb allocated then ret None else
      let* f := fopen_existing path in
      match f with
      | None => ret None
      | Some h =>
          let* (buf, _, h) := fread h (Z.to_nat (node_size n)) in
          let* closed := fclose h in
          ret (if negb closed || negb (zlen buf =? node_size n) then None else Some buf)
      end
  end.

Definition manifest_file_valid (path device_id : bytes) : io bool :=
  let* doc := read_file_bounded path RECORDER_MANIFEST_MAX_BYTES in
  match doc with
  | None => ret false
  | Some doc => ret (manifest_snapshot_valid doc device_id)
  end.

Definition manifest_file_extends (candidate_path old_path device_id : bytes) : io bool :=
  let* new_doc := read_file_bounded candidate_path RECORDER_MANIFEST_MAX_BYTES in
  match new_doc with
  | None => ret false
  | Some new_doc =>
      let* old_doc := read_file_bounded old_path RECORDER_MANIFEST_MAX_BYTES in
      match old_doc with
      | None => ret false
      | Some old_doc => ret (snapshot_extends new_doc old_doc device_id)
      end
  end.

Definition manifest_backup_path (manifest_path : bytes) : option bytes :=
  snprintf_fit RECORDER_MAX_PATH_LEN (manifest_path ++ txt ".bak")%list.

(** ** Publishing a document *)

(** The complete temporary: written, flushed, synced and closed; a temporary
    that could not be completed is removed. *)
Definition write_tmp (tmp_path doc : bytes) : io bool :=
  let* f := fopen_wb tmp_path in
  match f with
  | None => ret false
  | Some h =>
      let* (wrote, h) := fwrite h doc in
      let* ok := (if wrote then (let* flushed := fflush h in
                                 if negb flushed then ret false else fsync h) else ret false) in
      if negb ok then (fclose h ;;; remove tmp_path ;;; ret false) else
      let* closed := fclose h in
      if negb closed then (remove tmp_path ;;; ret false) else ret true
  end.

(** Retire the backup of the append before, once the published file is known
    to contain it. *)
Definition retire_backup (manifest_path backup device_id : bytes) : io bool :=
  let* st := stat backup in
  match st with
  | inr _ =>
      let* extends := manifest_file_extends manifest_path backup device_id in
      if negb extends then ret false else
      let* e := remove backup in ret (bool_decide (e = None))
  | inl e => ret (bool_decide (e = ENOENT))
  end.

(** The rename where the target may exist. *)
Definition publish (tmp_path manifest_path backup device_id : bytes) (had_final : bool) : io bool :=
  let* e := rename tmp_path manifest_path in
  match e with
  | None => manifest_file_valid manifest_path device_id
  | Some e =>
      if negb had_final || negb (bool_decide (e = EEXIST)) then ret false else
      let* e := rename manifest_path backup in
      match e with
      | Some _ => ret false
      | None =>
          let* e := rename tmp_path manifest_path in
          match e with
          | Some _ =>
              let* st := stat manifest_path in
              if bool_decide (st = inl ENOENT) then (rename backup manifest_path ;;; ret false) else ret false
          | None => manifest_file_extends manifest_path backup device_id
          end
      end
  end.

(** The document lies in memory with its NUL. *)
Definition document_device_id (doc : bytes) : option bytes :=
  match device_identity_parse_device_id (doc ++ [0]) (length doc) with
  | Value id => id
  | Outside => None
  end.

Definition write_tmp_and_rename (tmp_path manifest_path doc : bytes) : io bool :=
  match document_device_id doc with
  | None => ret false
  | Some doc_device_id =>
      if negb (manifest_snapshot_valid doc doc_device_id) then ret false else
      match manifest_backup_path manifest_path with
      | None => ret false
      | Some backup =>
          let* retired := retire_backup manifest_path backup doc_device_id in
          if negb retired then ret false else
          let* st := stat manifest_path in
          match st with
          | inl e =>
              if negb (bool_decide (e = ENOENT)) then ret false else
              let* written := write_tmp tmp_path doc in
              if negb written then ret false else publish tmp_path manifest_path backup doc_device_id false
          | inr _ =>
              let* written := write_tmp tmp_path doc in
              if negb written then ret false else publish tmp_path manifest_path backup doc_device_id true
          end
      end
  end.

(** ** The upsert of an entry *)

Inductive device_manifest_result_t := DEVICE_MANIFEST_OK | DEVICE_MANIFEST_CONFLICT | DEVICE_MANIFEST_ERROR.

#[export] Instance device_manifest_result_eq_dec : EqDecision device_manifest_result_t.
Proof. solve_decision. Defined.

(** The fields the upsert compares. *)
Record entry_key := EntryKey {
  k_id : bytes;
  k_sha : bytes;
  k_filename : bytes;
  k_started : bytes;
  k_size : Z;
  k_duration : Z;
}.

(** The key fields of the entry to store. *)
Definition entry_json_key (entry_json : bytes) : option entry_key :=
  if bool_decide (entry_json = []) || (RECORDER_MANIFEST_ENTRY_MAX <? zlen entry_json) then None else
  id ← json_string_field entry_json (jtxt "'recordingId'");
  if (zlen id =? 0) || (64 <? zlen id) then None else
  sha ← json_string_field entry_json (jtxt "'sha256'");
  if negb (zlen sha =? 64) then None else
  filename ← json_string_field entry_json (jtxt "'filename'");
  if (zlen filename =? 0) || (180 <? zlen filename) then None else
  started ← json_string_field entry_json (jtxt "'startedAt'");
  if negb (zlen started =? 25) then None else
  if negb (device_identity_is_valid_uuid id) || negb (device_manifest_is_valid_sha256_hex sha) ||
     negb (device_manifest_is_valid_iso8601_offset started) || negb (valid_filename filename) then None else
  size ← manifest_entry_size entry_json;
  duration ← manifest_entry_duration entry_json;
  if negb (audio_size_ok duration size) then None else
  Some (EntryKey id sha filename started size duration).

(** The stored entry with the same id, in its scope, against the new one. *)
Definition compare_stored (scope : bytes) (k : entry_key) : device_manifest_result_t :=
  match json_string_field scope (jtxt "'sha256'"), json_string_field scope (jtxt "'filename'"),
        json_string_field scope (jtxt "'startedAt'"), manifest_entry_size scope,
        manifest_entry_duration scope with
  | Some old_sha, Some old_fn, Some old_started, Some old_size, Some old_duration =>
      if negb (zlen old_sha =? 64) || (zlen old_fn =? 0) || (192 <=? zlen old_fn) || negb (zlen old_started =? 25)
      then DEVICE_MANIFEST_ERROR
      else if bool_decide (old_sha = k_sha k) && bool_decide (old_fn = k_filename k) &&
              (old_size =? k_size k) && (old_duration =? k_duration k) &&
              manifest_start_times_compatible old_started (k_started k)
      then DEVICE_MANIFEST_OK else DEVICE_MANIFEST_CONFLICT
  | _, _, _, _, _ => DEVICE_MANIFEST_ERROR
  end.

(** From the entry found to the next one, or to the end. *)
Definition entry_scope (hit_ : bytes) : bytes :=
  match memfind (drop 1 hit_) (jtxt "'recordingId'") with
  | Some next => take (length hit_ - length next) hit_
  | None => hit_
  end.

(** The document has the schema version and the device of the caller. *)
Definition document_is_ours (doc device_id : bytes) : bool :=
  manifest_snapshot_valid doc device_id &&
  match device_identity_parse_schema_version (doc ++ [0]) (length doc) with
  | Value (Some version) => version =? RECORDER_METADATA_SCHEMA_VERSION
  | _ => false
  end &&
  match document_device_id doc with Some stored => bool_decide (stored = device_id) | None => false end.

Definition result_of (ok : bool) : device_manifest_result_t :=
  if ok then DEVICE_MANIFEST_OK else DEVICE_MANIFEST_ERROR.

(** No manifest: one with this single entry. *)
Definition create_with_entry (manifest_path tmp_path device_id updated_at entry_json : bytes) :
    io device_manifest_result_t :=
  let* st := stat manifest_path in
  if negb (bool_decide (st = inl ENOENT)) then ret DEVICE_MANIFEST_ERROR else
  match snprintf_fit RECORDER_MANIFEST_MAX_BYTES
          (document_head device_id updated_at ++ entry_json ++ txt "]}")%list with
  | None => ret DEVICE_MANIFEST_ERROR
  | Some fresh =>
      let* allocated := malloc in
      if negb allocated then ret DEVICE_MANIFEST_ERROR else
      let* ok := write_tmp_and_rename tmp_path manifest_path fresh in ret (result_of ok)
  end.

(** An entry with this id is stored already. *)
Definition probe_stored (hit_ : bytes) (k : entry_key) : io device_manifest_result_t :=
  let* allocated := malloc in
  if negb allocated then ret DEVICE_MANIFEST_ERROR else ret (compare_stored (entry_scope hit_) k).

Definition append_entry (manifest_path tmp_path doc updated_at entry_json : bytes) :
    io device_manifest_result_t :=
  match append_document doc updated_at entry_json with
  | None => ret DEVICE_MANIFEST_ERROR
  | Some fresh =>
      let* allocated := malloc in
      if negb allocated then ret DEVICE_MANIFEST_ERROR else
      let* ok := write_tmp_and_rename tmp_path manifest_path fresh in ret (result_of ok)
  end.

Definition device_manifest_upsert_file (manifest_path tmp_path device_id updated_at entry_json : bytes) :
    io device_manifest_result_t :=
  if bool_decide (manifest_path = []) || bool_decide (tmp_path = []) then ret DEVICE_MANIFEST_ERROR else
  if negb (device_identity_is_valid_uuid device_id) then ret DEVICE_MANIFEST_ERROR else
  if negb (device_manifest_is_valid_iso8601_offset updated_at) then ret DEVICE_MANIFEST_ERROR else
  match entry_json_key entry_json with
  | None => ret DEVICE_MANIFEST_ERROR
  | Some k =>
      let* doc := read_file_bounded manifest_path RECORDER_MANIFEST_MAX_BYTES in
      match doc with
      | None => create_with_entry manifest_path tmp_path device_id updated_at entry_json
      | Some doc =>
          if negb (document_is_ours doc device_id) then ret DEVICE_MANIFEST_ERROR else
          match memfind doc (id_needle (k_id k)) with
          | Some hit_ => probe_stored hit_ k
          | None => append_entry manifest_path tmp_path doc updated_at entry_json
          end
      end
  end.

(** ** Recovery at boot *)

Definition manifest_artifact_exists (path : bytes) : io (option bool) :=
  let* st := stat path in
  ret (match st with
       | inr _ => Some true
       | inl e => if bool_decide (e = ENOENT) then Some false else None
       end).

Definition remove_ok (path : bytes) : io bool :=
  let* e := remove path in ret (bool_decide (e = None)).

(** The backup: restored when the manifest is missing, retired when the
    manifest contains it. The result tells whether a manifest exists. *)
Definition settle_backup (manifest_path backup device_id : bytes) (final_exists : bool) : io (option bool) :=
  let* valid := manifest_file_valid backup device_id in
  if negb valid then ret None else
  if negb final_exists then
    let* e := rename backup manifest_path in
    ret (if bool_decide (e = None) then Some true else None)
  else
    let* extends := manifest_file_extends manifest_path backup device_id in
    if negb extends then ret None else
    let* removed := remove_ok backup in ret (if removed then Some true else None).

(** The published manifest, or a complete temporary of the first one. *)
Definition settle_final (manifest_path tmp_path device_id : bytes) (final_exists tmp_exists : bool) : io bool :=
  if final_exists then
    let* valid := manifest_file_valid manifest_path device_id in
    if negb valid then ret false else
    if tmp_exists then remove_ok tmp_path else ret true
  else
    if negb tmp_exists then ret false else
    let* valid := manifest_file_valid tmp_path device_id in
    if negb valid then ret false else
    let* e := rename tmp_path manifest_path in
    if negb (bool_decide (e = None)) then ret false else manifest_file_valid manifest_path device_id.

Definition device_manifest_recover_tmp (manifest_path tmp_path device_id : bytes) : io bool :=
  if negb (device_identity_is_valid_uuid device_id) then ret false else
  match manifest_backup_path manifest_path with
  | None => ret false
  | Some backup =>
      let* final_exists := manifest_artifact_exists manifest_path in
      match final_exists with None => ret false | Some final_exists =>
      let* tmp_exists := manifest_artifact_exists tmp_path in
      match tmp_exists with None => ret false | Some tmp_exists =>
      let* backup_exists := manifest_artifact_exists backup in
      match backup_exists with None => ret false | Some backup_exists =>
      let* final_exists := (if backup_exists : bool then settle_backup manifest_path backup device_id final_exists
                            else ret (Some final_exists)) in
      match final_exists with
      | None => ret false
      | Some final_exists => settle_final manifest_path tmp_path device_id final_exists tmp_exists
      end end end end
  end.

(** Two more entries still fit below the admission ceiling. *)
Definition device_manifest_has_append_room (manifest_path device_id : bytes) : io bool :=
  let reserve := 2 * RECORDER_MANIFEST_ENTRY_MAX + 64 in
  let* doc := read_file_bounded manifest_path RECORDER_MANIFEST_MAX_BYTES in
  match doc with
  | None => ret false
  | Some doc =>
      ret (manifest_snapshot_valid doc device_id && (zlen doc <=? DEVICE_MANIFEST_ADMISSION_CEILING_BYTES) &&
           (reserve <=? DEVICE_MANIFEST_ADMISSION_CEILING_BYTES - zlen doc))
  end.
