(* ===== verification/ManifestKey.v ===== *)
(** * ManifestKey: the fields the upsert compares

    What the field scanner finds in an entry, alone or inside a document. *)

From S2P Require Import Prelude RecorderConfig DeviceIdentity ManifestText ManifestDoc ManifestStore.

#[local] Arguments dec_u : simpl never.

(** The pieces of an entry up to the digest, with others behind. *)
Definition entry_front (e : entry) : list bytes := take 20 (entry_body e).

Lemma until_quote_app v t : is_text v -> until_quote (v ++ 34 :: t) = Some v.
Proof.
  unfold is_text. induction v as [|c v IH]; intros Hv; [done|]. cbn in Hv.
  apply andb_prop in Hv as [Hc Hv]. unfold text_char in Hc. cbn.
  destruct (c =? 34), (c =? 92); try done. by rewrite IH.
Qed.

Lemma scan_string doc key at_ v t :
  memfind doc key = Some at_ -> from_char 58 at_ = Some (58 :: 34 :: v ++ 34 :: t) -> is_text v ->
  json_string_field doc key = Some v.
Proof. intros Hm Hc Hv. unfold json_string_field. rewrite Hm, Hc. by apply until_quote_app. Qed.

Lemma scan_number doc key at_ v t :
  memfind doc key = Some at_ -> drop (length key) at_ = (dec_u v ++ 44 :: t)%list -> 0 <= v <= UINT32_MAX ->
  entry_number key doc = Some v.
Proof. intros Hm Hd Hv. unfold entry_number. by rewrite Hm, Hd, manifest_uint32_app. Qed.

Section fields.
  Context (e : entry) (He : entry_ok e = true).
  Context (v0 q : bytes) (ts : list bytes) (Hv0 : noquote v0) (Hts : Forall noquote (q :: ts)).

Definition framed : bytes := (v0 ++ 34 :: join34 (entry_front e ++ q :: ts))%list.

Lemma framed_memfind k n' :
  noquote k -> memfind framed (34 :: k ++ 34 :: n') =
    (fun ps => 34 :: join34 ps) <$> seek k n' (entry_front e ++ q :: ts).
Proof.
  intros Hk. unfold framed. rewrite memfind_seek by (by destruct v0).
  rewrite seek_text_skip by done. apply seek_text_pieces; [done|]. apply Forall_app. split; [|done].
  apply Forall_take, pieces_noquote. by apply entry_body_text.
Qed.

(** The values are not keys. *)
Lemma values_differ :
  length (e_id e) = 36%nat /\ length (e_started e) = 25%nat /\ take 11 (e_filename e) = txt "recordings/" /\
  5 <= zlen (e_filename e).
Proof.
  apply entry_ok_fields in He as [Hid Hfn Hst _ _ _ _ _ _].
  destruct (filename_is_text _ Hfn) as (_ & ? & ?). repeat split; try done; [by apply uuid_is_text|by apply iso_is_text|lia].
Qed.

Ltac walk :=
  destruct values_differ as (L1 & L2 & L3 & L4);
  assert (H1 : forall k, (length k <> 36)%nat -> e_id e <> k) by (intros k ? <-; lia);
  assert (H2 : forall k, (length k <> 25)%nat -> e_started e <> k) by (intros k ? <-; lia);
  assert (H3 : forall k, take 11 k <> txt "recordings/" -> e_filename e <> k) by (intros k ? <-; done);
  unfold entry_front, entry_body; cbn [take app];
  repeat first [ rewrite seek_not_key by (apply differ; reflexivity)
               | rewrite seek_not_key by (apply differ_head; reflexivity)
               | rewrite seek_not_key by (apply H1; done)
               | rewrite seek_not_key by (apply H2; done)
               | rewrite seek_not_key by (apply H3; apply differ; reflexivity)
               | rewrite seek_not_next by (apply next_not; [reflexivity|done]) ];
  rewrite seek_found by reflexivity.

Lemma framed_id : json_string_field framed (jtxt "'recordingId'") = Some (e_id e).
Proof.
  eapply scan_string.
  - change (jtxt "'recordingId'") with (34 :: txt "recordingId" ++ 34 :: [])%list.
    rewrite framed_memfind by by apply is_text_noquote. walk. reflexivity.
  - reflexivity.
  - apply entry_ok_fields in He as []. by apply uuid_is_text.
Qed.

Lemma framed_filename : json_string_field framed (jtxt "'filename'") = Some (e_filename e).
Proof.
  eapply scan_string.
  - change (jtxt "'filename'") with (34 :: txt "filename" ++ 34 :: [])%list.
    rewrite framed_memfind by by apply is_text_noquote. walk. reflexivity.
  - reflexivity.
  - apply entry_ok_fields in He as []. by apply filename_is_text.
Qed.

Lemma framed_started : json_string_field framed (jtxt "'startedAt'") = Some (e_started e).
Proof.
  eapply scan_string.
  - change (jtxt "'startedAt'") with (34 :: txt "startedAt" ++ 34 :: [])%list.
    rewrite framed_memfind by by apply is_text_noquote. walk. reflexivity.
  - reflexivity.
  - apply entry_ok_fields in He as []. by apply iso_is_text.
Qed.

Lemma framed_sha : json_string_field framed (jtxt "'sha256'") = Some (e_sha e).
Proof.
  eapply scan_string.
  - change (jtxt "'sha256'") with (34 :: txt "sha256" ++ 34 :: [])%list.
    rewrite framed_memfind by by apply is_text_noquote. walk. reflexivity.
  - reflexivity.
  - apply entry_ok_fields in He as []. by apply sha_is_text.
Qed.

Lemma framed_size : manifest_entry_size framed = Some (e_size e).
Proof.
  apply entry_ok_fields in He as Hf. unfold manifest_entry_size.
  eapply scan_number; [| |pose proof (ef_size _ Hf); lia].
  { change (jtxt "'sizeBytes':") with (34 :: txt "sizeBytes" ++ 34 :: txt ":")%list.
  rewrite framed_memfind by by apply is_text_noquote. walk. cbn [fmap option_fmap option_map].
  rewrite !join34_cons. repeat (progress (rewrite <- ?app_assoc; cbn [app])). reflexivity. }
  reflexivity.
Qed.

Lemma framed_duration : manifest_entry_duration framed = Some (e_duration e).
Proof.
  apply entry_ok_fields in He as Hf. unfold manifest_entry_duration.
  eapply scan_number; [| |pose proof (ef_duration _ Hf); lia].
  { change (jtxt "'durationMs':") with (34 :: txt "durationMs" ++ 34 :: txt ":")%list.
  rewrite framed_memfind by by apply is_text_noquote. walk. cbn [fmap option_fmap option_map].
  rewrite !join34_cons. repeat (progress (rewrite <- ?app_assoc; cbn [app])). reflexivity. }
  reflexivity.
Qed.
End fields.

(** ** An entry alone *)

Lemma entry_text_framed e : entry_ok e = true ->
  exists q ts, entry_text e = framed e (txt "{") q ts /\ Forall noquote (q :: ts).
Proof.
  intros He. exists (txt "sampleRate"), (drop 21 (entry_body e) ++ [txt "}"])%list. split.
  - rewrite <- (app_nil_r (entry_text e)). exact (entry_join e [] []).
  - pose proof (pieces_noquote _ (entry_body_text _ He)) as H.
    change (txt "sampleRate" :: drop 21 (entry_body e) ++ [txt "}"])%list with
      (drop 20 (entry_body e) ++ [txt "}"])%list.
    apply Forall_app. split; [by apply Forall_drop|]. apply Forall_cons_2; [by apply is_text_noquote|done].
Qed.

Lemma entry_text_length e : entry_ok e = true -> zlen (entry_text e) <= RECORDER_MANIFEST_ENTRY_MAX.
Proof.
  intros [Hid Hfn Hst Hau Hsz Hdu Hsha Hs Hfw]%entry_ok_fields.
  apply uuid_is_text in Hid as [_ L1]. apply filename_is_text in Hfn as (_ & L2 & _).
  apply iso_is_text in Hst as [_ L3]. apply sha_is_text in Hsha as [_ L4].
  apply free_text_is_text in Hfw as [_ L5].
  assert (L6 : zlen (e_state e) = 9).
  { unfold is_entry_state in Hs. apply orb_prop in Hs as [Hs|Hs]; apply bool_decide_eq_true_1 in Hs as ->; done. }
  unfold UINT32_MAX in *. pose proof (dec_u_length (e_size e) ltac:(lia)).
  pose proof (dec_u_length (e_duration e) ltac:(lia)).
  unfold entry_text. rewrite !zlen_app, !zlen_jtxt.
  change (zlen (dec_u RECORDER_SAMPLE_RATE_HZ)) with 5. change (zlen (dec_u RECORDER_BITS_PER_SAMPLE)) with 2.
  change (zlen (dec_u RECORDER_CHANNELS)) with 1. unfold zlen in *. rewrite L1, L3, L4. cbn [String.length].
  unfold RECORDER_MANIFEST_ENTRY_MAX. lia.
Qed.

(** The fields of an entry that the upsert compares. *)
Definition key_of (e : entry) : entry_key :=
  EntryKey (e_id e) (e_sha e) (e_filename e) (e_started e) (e_size e) (e_duration e).

Lemma entry_json_key_entry e : entry_ok e = true -> entry_json_key (entry_text e) = Some (key_of e).
Proof.
  intros He. pose proof (entry_text_length e He) as Hlen. unfold entry_json_key.
  rewrite bool_decide_eq_false_2 by by unfold entry_text. rewrite (proj2 (Z.ltb_ge _ _) Hlen). cbn [orb].
  destruct (entry_text_framed e He) as (q & ts & Heq & Hts). rewrite Heq.
  assert (Hv0 : noquote (txt "{")) by by apply is_text_noquote.
  rewrite framed_id, framed_sha, framed_filename, framed_started, framed_size, framed_duration by done.
  apply entry_ok_fields in He as [Hid Hfn Hst Hau Hsz Hdu Hsha Hs Hfw].
  pose proof (uuid_is_text _ Hid) as [_ L1]. pose proof (filename_is_text _ Hfn) as (_ & L2 & _).
  pose proof (iso_is_text _ Hst) as [_ L3]. pose proof (sha_is_text _ Hsha) as [_ L4].
  cbn [mbind option_bind].
  replace (zlen (e_id e)) with 36 by (unfold zlen; lia). replace (zlen (e_sha e)) with 64 by (unfold zlen; lia).
  replace (zlen (e_started e)) with 25 by (unfold zlen; lia). cbn [Z.eqb Z.ltb Pos.eqb negb orb].
  replace ((zlen (e_filename e) =? 0) || (180 <? zlen (e_filename e))) with false by lia.
  unfold manifest_iso8601 in Hst. apply andb_prop in Hst as [_ Hst]. by rewrite Hid, Hsha, Hst, Hfn, Hau.
Qed.

(** ** An entry of a document *)

Lemma join34_app a b : a <> [] -> b <> [] -> join34 (a ++ b) = (join34 a ++ 34 :: join34 b)%list.
Proof.
  intros Ha Hb. induction a as [|p a IH]; [done|]. destruct a as [|q a].
  - cbn [app]. by destruct b.
  - cbn [app]. rewrite !join34_cons. change (q :: (a ++ b))%list with ((q :: a) ++ b)%list.
    rewrite IH by done. by rewrite <- app_assoc.
Qed.

Lemma scope_ends a b :
  a <> [] -> b <> [] -> memfind (drop 1 (34 :: join34 (a ++ b))) (jtxt "'recordingId'") = Some (34 :: join34 b) ->
  entry_scope (34 :: join34 (a ++ b)) = 34 :: join34 a.
Proof.
  intros Ha Hb Hm. unfold entry_scope. rewrite Hm, join34_app by done.
  change (34 :: join34 a ++ 34 :: join34 b)%list with ((34 :: join34 a) ++ (34 :: join34 b))%list.
  rewrite length_app, Nat.add_sub. apply take_app_length.
Qed.

Lemma seek_next_id e t :
  entry_ok e = true -> t <> [] ->
  seek (txt "recordingId") [] (drop 1 (entry_body e) ++ t) =
    if bool_decide (e_firmware e = txt "recordingId") then Some (e_firmware e :: t)
    else seek (txt "recordingId") [] t.
Proof.
  intros He Ht. destruct (values_differ e He) as (L1 & L2 & L3 & L4).
  assert (e_id e <> txt "recordingId") by (intros Hc; rewrite Hc in L1; done).
  assert (e_started e <> txt "recordingId") by (intros Hc; rewrite Hc in L2; done).
  assert (e_filename e <> txt "recordingId") by (intros Hc; rewrite Hc in L3; done).
  apply entry_ok_fields in He as [_ _ _ _ _ _ Hsha Hs _]. apply sha_is_text in Hsha as [_ L5].
  assert (e_sha e <> txt "recordingId") by (intros Hc; rewrite Hc in L5; done).
  assert (e_state e <> txt "recordingId").
  { unfold is_entry_state in Hs. apply orb_prop in Hs as [Hs|Hs]; apply bool_decide_eq_true_1 in Hs as ->; by apply differ. }
  unfold entry_body. cbn [drop app]. repeat seek_step. destruct t as [|p t]; [done|].
  rewrite seek_cons. case_bool_decide as Hf; done.
Qed.

(** The scope of an entry holds its fields up to the digest. *)
Lemma entry_scope_framed e es :
  entry_ok e = true -> Forall (fun e => entry_ok e = true) es ->
  exists q ts, entry_scope (34 :: join34 (entry_body e ++ tail_pieces es)) = framed e [] q ts /\
    Forall noquote (q :: ts).
Proof.
  intros He Hes. pose proof (pieces_noquote _ (entry_body_text _ He)) as Hq.
  pose proof (pieces_noquote _ (tail_pieces_text _ Hes)) as Hqt.
  assert (Htail : tail_pieces es <> []) by by destruct es.
  (* the search behind the entry's own key *)
  assert (Hm : memfind (drop 1 (34 :: join34 (entry_body e ++ tail_pieces es))) (jtxt "'recordingId'") =
    (fun ps => 34 :: join34 ps) <$> seek (txt "recordingId") [] (drop 1 (entry_body e) ++ tail_pieces es)).
  { change (jtxt "'recordingId'") with (34 :: txt "recordingId" ++ 34 :: [])%list. cbn [drop]. rewrite drop_0.
    change (join34 (entry_body e ++ tail_pieces es)) with
      (txt "recordingId" ++ 34 :: join34 (drop 1 (entry_body e) ++ tail_pieces es))%list.
    rewrite memfind_seek by done. rewrite seek_text_skip by by apply is_text_noquote.
    apply seek_text_pieces; [by apply is_text_noquote|]. apply Forall_app. split; [by apply Forall_drop|done]. }
  rewrite seek_next_id in Hm by done. case_bool_decide as Hf.
  - (* the firmware's name stops the scope *)
    change (entry_body e ++ tail_pieces es)%list with
      (take 32 (entry_body e) ++ (e_firmware e :: tail_pieces es))%list in *.
    exists (txt "sampleRate"), (take 11 (drop 21 (entry_body e))).
    rewrite scope_ends by done. split; [done|].
    exact (Forall_take _ 12 _ (Forall_drop _ 20 _ Hq)).
  - destruct es as [|e' es]; cbn [tail_pieces] in *.
    + exists (txt "sampleRate"), (drop 21 (entry_body e) ++ [txt "}]}"])%list. unfold entry_scope.
      cbn [seek fmap option_fmap option_map] in Hm. rewrite Hm. split; [reflexivity|].
      exact (Forall_app_2 _ _ _ (Forall_drop _ 20 _ Hq) Hqt).
    + change (entry_body e' ++ tail_pieces es)%list with
        (txt "recordingId" :: txt ":" :: drop 2 (entry_body e' ++ tail_pieces es))%list in Hm at 2.
      rewrite seek_not_key, seek_found in Hm by (reflexivity || (apply differ; reflexivity)).
      cbn [fmap option_fmap option_map] in Hm.
      replace (entry_body e ++ txt "},{" :: entry_body e' ++ tail_pieces es)%list with
        ((entry_body e ++ [txt "},{"]) ++ entry_body e' ++ tail_pieces es)%list in * by by rewrite <- app_assoc.
      rewrite scope_ends by done.
      exists (txt "sampleRate"), (drop 21 (entry_body e) ++ [txt "},{"])%list. split; [reflexivity|].
      apply (Forall_app_2 _ (drop 20 (entry_body e)) [txt "},{"] (Forall_drop _ 20 _ Hq)).
      apply Forall_cons_2; [by apply is_text_noquote|done].
Qed.

(** The verdict on a stored entry with the id of a new one. *)
Definition same_recording (old new : entry) : bool :=
  bool_decide (e_sha old = e_sha new) && bool_decide (e_filename old = e_filename new) &&
  (e_size old =? e_size new) && (e_duration old =? e_duration new) &&
  manifest_start_times_compatible (e_started old) (e_started new).

Lemma compare_stored_entry old es new :
  entry_ok old = true -> Forall (fun e => entry_ok e = true) es ->
  compare_stored (entry_scope (34 :: join34 (entry_body old ++ tail_pieces es))) (key_of new) =
    if same_recording old new then DEVICE_MANIFEST_OK else DEVICE_MANIFEST_CONFLICT.
Proof.
  intros He Hes. destruct (entry_scope_framed old es He Hes) as (q & ts & -> & Hts).
  assert (Hv0 : noquote []) by apply not_elem_of_nil. unfold compare_stored.
  rewrite framed_sha, framed_filename, framed_started, framed_size, framed_duration by done.
  apply entry_ok_fields in He as [Hid Hfn Hst Hau Hsz Hdu Hsha Hs Hfw].
  pose proof (filename_is_text _ Hfn) as (_ & L2 & _).
  pose proof (iso_is_text _ Hst) as [_ L3]. pose proof (sha_is_text _ Hsha) as [_ L4].
  replace (negb (zlen (e_sha old) =? 64) || (zlen (e_filename old) =? 0) || (192 <=? zlen (e_filename old)) ||
    negb (zlen (e_started old) =? 25)) with false by (unfold zlen in *; lia).
  reflexivity.
Qed.

(** The entry with an id, found by its needle. *)
Lemma document_find_id id stamp es rid :
  device_identity_is_valid_uuid id = true -> is_text rid -> wf_document stamp es ->
  memfind (document id stamp es) (id_needle rid) =
    (fun r => 34 :: join34 (entry_body r.1 ++ tail_pieces r.2)) <$> find_entry rid es.
Proof.
  intros Hid Hrid Hwf. pose proof (uuid_is_text _ Hid) as [Tid Lid]. pose proof Hwf as [Hst Hes _].
  pose proof (iso_is_text _ Hst) as [_ Lst].
  assert (Hn : id_needle rid = (34 :: txt "recordingId" ++ 34 :: id_tail rid)%list) by reflexivity.
  rewrite Hn, document_memfind by (done || by apply is_text_noquote).
  assert (Hs : seek (txt "recordingId") (id_tail rid) (head_pieces id stamp ++ body_pieces es) =
    seek (txt "recordingId") (id_tail rid) (body_pieces es)).
  { assert (id <> txt "recordingId") by (intros Hc; rewrite Hc in Lid; done).
    assert (stamp <> txt "recordingId") by (intros Hc; rewrite Hc in Lst; done).
    unfold head_pieces. cbn [app]. repeat seek_step. destruct es; [reflexivity|]. cbn [body_pieces].
    by rewrite seek_not_key by (apply differ; reflexivity). }
  rewrite Hs, seek_id_body by (done || by apply is_text_noquote). by destruct (find_entry rid es).
Qed.
