(* ===== verification/ManifestCrash.v ===== *)
(** * ManifestCrash: the manifest survives power cuts

    The publication protocol of [ManifestStore] as a refinement of an atomic
    replacement: every state of the card a publication or a recovery goes
    through, under any honest fault plan, is recoverable; losing power in such
    a state, with the unsynced files torn in any way, leaves a recoverable
    state; and recovery without faults ends with the old or the new document,
    whole, and no artifact. *)

From S2P Require Import Prelude Monad Stdio RecorderConfig DeviceIdentity ManifestText ManifestDoc ManifestStore ManifestKey.

(** ** Facts on snapshots *)

Lemma snapshot_valid_document doc id :
  manifest_snapshot_valid doc id = true -> exists stamp es, doc = document id stamp es /\ wf_document stamp es.
Proof.
  unfold manifest_snapshot_valid. destruct (manifest_snapshot doc id) as [[stamp es]|] eqn:H; [|done].
  intros _. exists stamp, es. by apply manifest_snapshot_Some.
Qed.

Lemma snapshot_extends_valid m b id :
  snapshot_extends m b id = true -> manifest_snapshot_valid m id = true /\ manifest_snapshot_valid b id = true.
Proof. unfold snapshot_extends. intros H. by split_bools. Qed.

Section snapshots.
  Context (id : bytes) (Hid : is_text id).

Lemma extends_refl m : manifest_snapshot_valid m id = true -> snapshot_extends m m id = true.
Proof.
  intros (stamp & es & -> & Hwf)%snapshot_valid_document. by apply extends_prefix.
Qed.

Lemma extends_trans a b c :
  snapshot_extends b a id = true -> snapshot_extends c b id = true -> snapshot_extends c a id = true.
Proof.
  intros Hab Hbc. pose proof (snapshot_extends_valid _ _ _ Hab) as [Hb Ha].
  pose proof (snapshot_extends_valid _ _ _ Hbc) as [Hc _].
  apply snapshot_valid_document in Ha as (sa & ea & -> & Wa), Hb as (sb & eb & -> & Wb),
    Hc as (sc & ec & -> & Wc).
  rewrite extends_prefix in * by done. by transitivity eb.
Qed.
End snapshots.

(** ** Reading *)

Definition sized (c : bytes) : Prop := zlen c <= RECORDER_MANIFEST_MAX_BYTES.

Lemma wp_read_manifest path w (Q : option bytes -> world -> Prop) :
  path <> [] ->
  (forall w', keeps w w' ->
     (faultless w -> forall c, w_disk w !! path = Some (NFile c) -> ~ sized c) -> Q None w') ->
  (forall w' c, keeps w w' -> w_disk w !! path = Some (NFile c) -> sized c -> Q (Some c) w') ->
  wp (read_file_bounded path RECORDER_MANIFEST_MAX_BYTES) Q w.
Proof.
  intros Hpath H1 H2. unfold read_file_bounded, malloc. rewrite bool_decide_eq_false_2 by done. cbn [orb].
  change (RECORDER_MANIFEST_MAX_BYTES =? 0) with false. cbv iota.
  apply wp_bind, wp_stat; [intros w1 e Hk Hf|intros w1 Hk Hd|intros w1 n Hk Hd]; cbn beta iota.
  - apply wp_ret, H1; [done|by intros].
  - apply wp_ret, H1; [done|by rewrite Hd].
  - destruct (Z.ltb_spec RECORDER_MANIFEST_MAX_BYTES (node_size n)) as [Hn|Hn].
    + apply wp_ret, H1; [done|]. intros _ c Hc. rewrite Hd in Hc. injection Hc as ->. cbn in Hn.
      unfold sized. lia.
    + wp_prim. destruct (hit f) eqn:Hh; cbn [negb].
      { apply wp_ret, H1; [by eapply keeps_trans|]. intros Hfl. exfalso.
        by apply Hf, (keeps_faultless _ _ Hk). }
      pose proof (keeps_trans _ _ _ Hk Hk0) as Hk2.
      apply wp_bind, wp_fopen_existing; [intros w3 Hk3 Hno|intros w3 c Hk3 Hc]; wp_prim.
      { apply H1; [by eapply keeps_trans|]. intros Hfl c Hc.
        pose proof (Hno (keeps_faultless _ _ Hk2 Hfl)) as Hno'.
        by rewrite (keeps_disk _ _ Hk2), Hc in Hno'. }
      rewrite (keeps_disk _ _ Hk2), Hd in Hc. injection Hc as ->. cbn [node_size] in *.
      apply wp_fread. intros w4 got err Hk4 Hpre Hgot Herr. cbn [h_pos h_path] in *.
      pose proof (keeps_trans _ _ _ Hk2 Hk3) as Hk3'.
      rewrite (keeps_disk _ _ Hk3'), Hd in Hpre, Hgot. cbn [file_content] in Hpre, Hgot.
      rewrite drop_0, take_ge in Hpre, Hgot by (unfold zlen; lia). wp_prim.
      pose proof (keeps_trans _ _ _ Hk3' Hk4) as Hk4'.
      apply wp_fclose. intros w5 closed Hk5 Hcl. wp_prim. pose proof (keeps_trans _ _ _ Hk4' Hk5) as Hk5'.
      destruct (negb closed || negb (zlen got =? zlen c)) eqn:Hb.
      * apply H1; [done|]. intros Hfl c' Hc'. exfalso.
        rewrite Hcl, Hgot, Z.eqb_refl in Hb; [done|by eauto using keeps_faultless..].
      * apply orb_false_elim in Hb as [_ Hb]. apply negb_false_iff, Z.eqb_eq in Hb.
        assert (got = c) as -> by (apply prefix_length_eq; [done|unfold zlen in *; lia]). by apply H2.
Qed.

(** What the checks of a file say. *)
Lemma wp_manifest_file_valid path id w (Q : bool -> world -> Prop) :
  path <> [] ->
  (forall w', keeps w w' ->
     (faultless w -> forall c, w_disk w !! path = Some (NFile c) -> sized c ->
        manifest_snapshot_valid c id = false) -> Q false w') ->
  (forall w' c, keeps w w' -> w_disk w !! path = Some (NFile c) -> sized c ->
     manifest_snapshot_valid c id = true -> Q true w') ->
  wp (manifest_file_valid path id) Q w.
Proof.
  intros Hpath H1 H2. unfold manifest_file_valid. apply wp_bind, wp_read_manifest; [done|..].
  - intros w' Hk Hno. apply wp_ret, H1; [done|]. intros Hf c Hc Hs. by destruct (Hno Hf c Hc).
  - intros w' c Hk Hc Hs. apply wp_ret. destruct (manifest_snapshot_valid c id) eqn:Hv; [by eapply H2|].
    apply H1; [done|]. intros _ c' Hc'. by simplify_eq.
Qed.

Lemma wp_manifest_file_extends new old id w (Q : bool -> world -> Prop) :
  new <> [] -> old <> [] ->
  (forall w', keeps w w' ->
     (faultless w -> forall m b, w_disk w !! new = Some (NFile m) -> w_disk w !! old = Some (NFile b) ->
        sized m -> sized b -> snapshot_extends m b id = false) -> Q false w') ->
  (forall w' m b, keeps w w' -> w_disk w !! new = Some (NFile m) -> w_disk w !! old = Some (NFile b) ->
     sized m -> sized b -> snapshot_extends m b id = true -> Q true w') ->
  wp (manifest_file_extends new old id) Q w.
Proof.
  intros Hn Ho H1 H2. unfold manifest_file_extends. apply wp_bind, wp_read_manifest; [done|..].
  - intros w' Hk Hno. apply wp_ret, H1; [done|]. intros Hf m b Hm _ Hs. by destruct (Hno Hf m Hm).
  - intros w1 m Hk1 Hm Hsm. apply wp_bind, wp_read_manifest; [done|..].
    + intros w' Hk Hno. apply wp_ret, H1; [by eapply keeps_trans|]. intros Hf m' b Hm' Hb _ Hsb.
      rewrite <- (keeps_disk _ _ Hk1) in Hb. by destruct (Hno (keeps_faultless _ _ Hk1 Hf) b Hb).
    + intros w2 b Hk2 Hb Hsb. rewrite (keeps_disk _ _ Hk1) in Hb. apply wp_ret.
      pose proof (keeps_trans _ _ _ Hk1 Hk2).
      destruct (snapshot_extends m b id) eqn:Hv; [by eapply H2|].
      apply H1; [done|]. intros _ m' b' Hm' Hb' _ _. by simplify_eq.
Qed.

Lemma wp_malloc w (Q : bool -> world -> Prop) :
  (forall w' b, keeps w w' -> (b = false -> ~ faultless w) -> Q b w') -> wp malloc Q w.
Proof. intros HQ. unfold malloc. wp_prim. apply HQ; [done|]. destruct (hit f); naive_solver. Qed.

Lemma wp_stat_any path w : wp (stat path) (fun _ w' => keeps w w') w.
Proof. apply wp_stat; eauto. Qed.

(** Nothing but the temporary is written. *)
Lemma wp_write_tmp_other tmp doc w :
  wp (write_tmp tmp doc) (fun _ w' => forall p, p <> tmp -> w_disk w' !! p = w_disk w !! p) w.
Proof.
  unfold write_tmp. wp_auto; worlds; cbn [h_path] in *; intros p Hp;
    rewrite ?lookup_delete_ne, ?lookup_insert_ne by done; done.
Qed.

(** ** Recoverable states *)

Section protocol.
  Context (man tmp bak id : bytes).

  Context (Hman : man <> []) (Htm : tmp <> man) (Htb : tmp <> bak)
          (Hbak : manifest_backup_path man = Some bak)
          (Hid : device_identity_is_valid_uuid id = true).

  (** The card before, and its unsynced files. *)
  Context (d0 : disk) (x0 : gset bytes).

Lemma Hid_text : is_text id.
Proof. by apply uuid_is_text. Qed.

Lemma bak_path : bak = (man ++ txt ".bak")%list.
Proof. clear -Hbak. unfold manifest_backup_path in Hbak. by apply snprintf_fit_Some in Hbak as [-> _]. Qed.

Lemma bak_man : bak <> man.
Proof.
  rewrite bak_path. intros H. apply (f_equal length) in H. rewrite length_app in H. change (length (txt ".bak")) with 4%nat in H. lia.
Qed.

Lemma bak_nonempty : bak <> [].
Proof. rewrite bak_path. by intros [_ ?]%app_nil. Qed.

(** Every other file is as it was, unless it was unsynced then. *)
Definition elsewhere (d : disk) (x : gset bytes) : Prop := forall p, p <> man -> p <> tmp -> p <> bak ->
  (p ∉ x0 -> d !! p = d0 !! p) /\ (p ∈ x -> p ∈ x0).

Ltac other_files H :=
  let p := fresh "p" in intros p ? ? ?; destruct (H p) as [? ?]; [done..|];
  split; [by rewrite ?lookup_insert_ne, ?lookup_delete_ne by done|set_solver].

(** The document [m] under its name, on the medium; a backup it extends may be
    left from an earlier append. *)
Record published (m : bytes) (d : disk) (x : gset bytes) : Prop := Published {
  pub_final : d !! man = Some (NFile m);
  pub_synced : (man ∉ x) /\ (bak ∉ x);
  pub_tmp : d !! tmp <> Some NDir;
  pub_backup : d !! bak = None \/
    exists b, d !! bak = Some (NFile b) /\ sized b /\ snapshot_extends m b id = true;
  pub_else : elsewhere d x;
}.

(** The document [m] under the backup's name only. *)
Record parked (m : bytes) (d : disk) (x : gset bytes) : Prop := Parked {
  park_final : d !! man = None;
  park_backup : d !! bak = Some (NFile m);
  park_synced : (man ∉ x) /\ (bak ∉ x);
  park_tmp : d !! tmp <> Some NDir;
  park_else : elsewhere d x;
}.

Definition good (m : bytes) : Prop := sized m /\ manifest_snapshot_valid m id = true.

(** Between the documents [m0] and [m1]. *)
Definition recoverable (m0 m1 : bytes) (d : disk) (x : gset bytes) : Prop :=
  published m0 d x \/ published m1 d x \/ parked m0 d x.

(** A change of the temporary only. *)
Definition tmp_only (d d' : disk) (x x' : gset bytes) : Prop :=
  (forall p, p <> tmp -> d' !! p = d !! p) /\ d' !! tmp <> Some NDir /\ (forall p, p <> tmp -> p ∈ x' -> p ∈ x).

Lemma elsewhere_tmp d d' x x' : elsewhere d x -> tmp_only d d' x x' -> elsewhere d' x'.
Proof.
  intros H (Hd & _ & Hx) p Hp1 Hp2 Hp3. destruct (H p) as [H1 H2]; [done..|].
  rewrite Hd by done. auto.
Qed.

Lemma published_tmp m d d' x x' : published m d x -> tmp_only d d' x x' -> published m d' x'.
Proof.
  intros [H1 [H2 H2'] H3 H4 H5] Ht. pose proof Ht as (Hd & Hn & Hx).
  split; rewrite ?Hd by done; try done; [|by eapply elsewhere_tmp].
  split; intros Hin; [apply H2|apply H2']; by apply Hx.
Qed.

Lemma parked_tmp m d d' x x' : parked m d x -> tmp_only d d' x x' -> parked m d' x'.
Proof.
  intros [H1 H2 [H3 H3'] H4 H5] Ht. pose proof Ht as (Hd & Hn & Hx).
  split; rewrite ?Hd by done; try done; [|by eapply elsewhere_tmp].
  split; intros Hin; [apply H3|apply H3']; by apply Hx.
Qed.

Lemma tmp_only_write d x c x' : (forall p, p <> tmp -> p ∈ x' -> p ∈ x) ->
  tmp_only d (<[tmp := NFile c]> d) x x'.
Proof. intros Hx. repeat split; [intros; by apply lookup_insert_ne|by rewrite lookup_insert_eq|done]. Qed.

Lemma tmp_only_delete d x x' : (forall p, p <> tmp -> p ∈ x' -> p ∈ x) -> tmp_only d (delete tmp d) x x'.
Proof. intros Hx. repeat split; [intros; by apply lookup_delete_ne|by rewrite lookup_delete_eq|done]. Qed.

Lemma tmp_only_sync d x : d !! tmp <> Some NDir -> tmp_only d d x (x ∖ {[tmp]}).
Proof. clear. intros Hd. repeat split; [done|set_solver]. Qed.

(** The plan is only used up. *)
Definition later (w w' : world) : Prop :=
  (honest_faults w -> honest_faults w') /\ (faultless w -> faultless w').

Lemma later_refl w : later w w.
Proof. done. Qed.

Lemma later_keeps w0 w w' : later w0 w -> keeps w w' -> later w0 w'.
Proof. intros [] []. split; auto. Qed.

Lemma later_moves w0 w d x w' : later w0 w -> moves w d x w' -> later w0 w'.
Proof. intros [] []. split; auto. Qed.

(** What a run that began in [w0] has passed through and where it is. *)
Definition so_far (P : disk -> gset bytes -> Prop) (w0 w : world) : Prop := passes P w0 w /\ later w0 w.

Lemma so_far_keeps P w0 w w' : so_far P w0 w -> keeps w w' -> so_far P w0 w'.
Proof. intros [] Hk. split; eauto using passes_keeps, later_keeps. Qed.

Lemma so_far_moves (P : disk -> gset bytes -> Prop) w0 w d x w' :
  so_far P w0 w -> moves w d x w' -> P d x -> so_far P w0 w'.
Proof. intros [] Hm HP. split; eauto using passes_moves, later_moves. Qed.

Lemma so_far_mono (P P' : disk -> gset bytes -> Prop) w0 w :
  (forall d x, P d x -> P' d x) -> so_far P w0 w -> so_far P' w0 w.
Proof. intros HP []. split; eauto using passes_mono. Qed.

Lemma so_far_now (P : disk -> gset bytes -> Prop) w0 w : so_far P w0 w -> P (w_disk w) (w_dirty w).
Proof. by intros [[] _]. Qed.

(** Removing the temporary, whatever the result. *)
Lemma wp_remove_tmp m w w0 (Q : option errno -> world -> Prop) :
  so_far (published m) w0 w ->
  (forall e w', so_far (published m) w0 w' -> (faultless w -> e = None \/ w_disk w !! tmp = None) ->
     (e = None -> w_disk w' !! tmp = None) -> Q e w') ->
  wp (remove tmp) Q w.
Proof.
  intros Hp HQ. apply wp_remove; [intros w' e Hk Hf|intros w' n Hn Hm]; apply HQ; try done.
  - by eapply so_far_keeps.
  - auto.
  - eapply so_far_moves; [done|done|]. eapply published_tmp; [by apply so_far_now in Hp|].
    apply tmp_only_delete. set_solver.
  - auto.
  - intros _. by rewrite (moves_disk _ _ _ _ Hm), lookup_delete_eq.
Qed.

(** A complete temporary, or a failure that leaves the published file alone. *)
Lemma wp_write_tmp m doc w w0 (Q : bool -> world -> Prop) :
  so_far (published m) w0 w ->
  (forall w', so_far (published m) w0 w' -> ~ faultless w0 -> Q false w') ->
  (forall w', so_far (published m) w0 w' -> w_disk w' !! tmp = Some (NFile doc) ->
     tmp ∉ w_dirty w' -> Q true w') ->
  wp (write_tmp tmp doc) Q w.
Proof.
  intros Hp Hno Hyes. unfold write_tmp. pose proof (so_far_now _ _ _ Hp) as Hpub.
  apply wp_bind, wp_fopen_wb; [intros w1 Hk Hd|intros w1 Hm1].
  { apply wp_ret, Hno; [by eapply so_far_keeps|]. intros Hf. destruct Hp as [_ [_ Hl]].
    by apply (pub_tmp _ _ _ Hpub), Hd, Hl. }
  assert (Hp1 : so_far (published m) w0 w1).
  { eapply so_far_moves; [done|done|]. eapply published_tmp; [done|]. apply tmp_only_write. set_solver. }
  apply wp_bind, wp_fwrite. intros w2 ok stored Hm2 Hpre Hok Hfl. cbn [h_pos h_path] in *.
  assert (Hp2 : so_far (published m) w0 w2).
  { eapply so_far_moves; [done|done|]. eapply published_tmp; [by apply so_far_now in Hp1|].
    apply tmp_only_write. set_solver. }
  assert (Hfail : forall w3 h, so_far (published m) w0 w3 -> ~ faultless w0 ->
    wp (fclose h ;;; remove tmp ;;; ret false) Q w3).
  { intros w3 h Hp3 Hf. apply wp_bind, wp_fclose. intros w4 b Hk4 _.
    eapply wp_bind, wp_remove_tmp; [by eapply so_far_keeps|]. intros e w5 Hp5 _ _. apply wp_ret, Hno; done. }
  assert (Hnot : forall w3, so_far (published m) w0 w3 -> ~ faultless w3 -> ~ faultless w0).
  { intros w3 [_ [_ Hl]] Hn Hf. auto. }
  destruct ok; cbv iota.
  2:{ st_prim. cbn [negb]. apply Hfail; [done|]. apply (Hnot w1 Hp1). intros Hf. by apply Hfl in Hf. }
  rewrite (Hok eq_refl) in *. clear Hok Hfl Hpre stored.
  apply wp_bind, wp_bind, wp_fflush. intros w3 flushed Hk3 Hfl3. pose proof (so_far_keeps _ _ _ _ Hp2 Hk3) as Hp3.
  destruct flushed; cbn [negb].
  2:{ st_prim. cbn [negb]. apply Hfail; [done|]. apply (Hnot w2 Hp2). intros Hf. by apply Hfl3 in Hf. }
  apply wp_fsync; [intros w4 Hk4 Hn4|intros w4 Hm4]; cbn [negb].
  { apply Hfail; [by eapply so_far_keeps|]. by apply (Hnot w3 Hp3). }
  cbn [h_path] in Hm4.
  assert (Hp4 : so_far (published m) w0 w4).
  { eapply so_far_moves; [done|done|]. eapply published_tmp; [by apply so_far_now in Hp3|].
    apply tmp_only_sync. apply (so_far_now _ _ _ Hp3). }
  apply wp_bind, wp_fclose. intros w5 closed Hk5 Hfl5. pose proof (so_far_keeps _ _ _ _ Hp4 Hk5) as Hp5.
  destruct closed; cbn [negb]; st_prim.
  - apply Hyes; [done|..]; rewrite ?(keeps_disk _ _ Hk5), ?(keeps_dirty _ _ Hk5), ?(moves_disk _ _ _ _ Hm4),
      ?(moves_dirty _ _ _ _ Hm4); [|apply not_in_synced].
    rewrite (keeps_disk _ _ Hk3), (moves_disk _ _ _ _ Hm2), lookup_insert_eq.
    rewrite (moves_disk _ _ _ _ Hm1), lookup_insert_eq. cbn [file_content]. by rewrite write_at_nil.
  - eapply wp_remove_tmp; [done|]. intros e w6 Hp6 _ _. st_prim. apply Hno; [done|].
    apply (Hnot w4 Hp4). intros Hf. by apply Hfl5 in Hf.
Qed.

(** Renaming the temporary into place. *)
Lemma published_rename m0 m1 d x :
  published m0 d x \/ parked m0 d x ->
  d !! tmp = Some (NFile m1) -> tmp ∉ x -> sized m0 -> snapshot_extends m1 m0 id = true ->
  published m1 (<[man := NFile m1]> (delete tmp d)) (renamed_dirty tmp man x).
Proof.
  intros Hst Ht Hx Hs Hext. pose proof bak_man as Hbm. unfold renamed_dirty.
  rewrite (bool_decide_eq_false_2 (tmp ∈ x)) by done.
  assert (Hb : d !! bak = None \/
    exists b, d !! bak = Some (NFile b) /\ sized b /\ snapshot_extends m1 b id = true).
  { destruct Hst as [[? ? ? [Hb|(b & Hb & Hsb & Heb)] ?]|[? Hb ? ? ?]]; [by left|right..].
    - exists b. repeat split; try done. by eapply extends_trans; [apply Hid_text|..].
    - by exists m0. }
  assert (He : elsewhere d x /\ bak ∉ x) by (by destruct Hst as [[? [] ? ? ?]|[? ? [] ? ?]]).
  destruct He as [He Hbx]. split; [| | | |other_files He].
  - by rewrite lookup_insert_eq.
  - set_solver.
  - rewrite lookup_insert_ne, lookup_delete_eq by done. done.
  - by rewrite lookup_insert_ne, lookup_delete_ne by done.
Qed.

(** Renaming the published file to the backup's name, and back. *)
Lemma park m d x : published m d x ->
  parked m (<[bak := NFile m]> (delete man d)) (renamed_dirty man bak x).
Proof.
  intros [H1 [H2 H2'] H3 H4 H5]. pose proof bak_man. unfold renamed_dirty.
  rewrite (bool_decide_eq_false_2 (man ∈ x)) by done. split; [| | | |other_files H5].
  - by rewrite lookup_insert_ne, lookup_delete_eq by done.
  - by rewrite lookup_insert_eq.
  - set_solver.
  - by rewrite lookup_insert_ne, lookup_delete_ne by done.
Qed.

Lemma unpark m d x : parked m d x ->
  published m (<[man := NFile m]> (delete bak d)) (renamed_dirty bak man x).
Proof.
  intros [H1 H2 [H3 H3'] H4 H5]. pose proof bak_man. unfold renamed_dirty.
  rewrite (bool_decide_eq_false_2 (bak ∈ x)) by done. split; [| | | |other_files H5].
  - by rewrite lookup_insert_eq.
  - set_solver.
  - by rewrite lookup_insert_ne, lookup_delete_ne by done.
  - left. by rewrite lookup_insert_ne, lookup_delete_eq by done.
Qed.

Lemma unbacked m d x : published m d x -> published m (delete bak d) (x ∖ {[bak]}).
Proof.
  intros [H1 [H2 H2'] H3 H4 H5]. pose proof bak_man. split; [| | | |other_files H5].
  - by rewrite lookup_delete_ne by done.
  - set_solver.
  - by rewrite lookup_delete_ne by done.
  - left. by rewrite lookup_delete_eq.
Qed.

Lemma not_faultless (P : disk -> gset bytes -> Prop) w0 w : so_far P w0 w -> ~ faultless w -> ~ faultless w0.
Proof. intros [_ [_ Hl]] Hn Hf. auto. Qed.

(** The backup left by an earlier append. *)
Lemma wp_retire_backup m w w0 (Q : bool -> world -> Prop) :
  sized m -> so_far (published m) w0 w -> honest_faults w0 ->
  (forall w', so_far (published m) w0 w' -> ~ faultless w0 -> Q false w') ->
  (forall w', so_far (published m) w0 w' -> w_disk w' !! bak = None -> Q true w') ->
  wp (retire_backup man bak id) Q w.
Proof.
  intros Hs Hp Hh Hno Hyes. pose proof (so_far_now _ _ _ Hp) as Hpub. unfold retire_backup.
  apply wp_bind, wp_stat_honest; [by apply Hp|intros w1 e Hk Hf He|intros w1 Hk Hd|intros w1 n Hk Hd];
    pose proof (so_far_keeps _ _ _ _ Hp Hk) as Hp1; cbn beta iota.
  - apply wp_ret. rewrite bool_decide_eq_false_2 by done. apply Hno; [done|]. by apply (not_faultless _ _ _ Hp).
  - apply wp_ret. rewrite bool_decide_eq_true_2 by done. apply Hyes; [done|]. by rewrite (keeps_disk _ _ Hk).
  - destruct (pub_backup _ _ _ Hpub) as [Hb|(b & Hb & Hsb & Heb)]; [by rewrite Hb in Hd|].
    rewrite <- (keeps_disk _ _ Hk) in Hb.
    apply wp_bind, wp_manifest_file_extends; [done|apply bak_nonempty|..].
    + intros w2 Hk2 Hn. cbn [negb]. apply wp_ret, Hno; [by eapply so_far_keeps|].
      eapply not_faultless; [exact Hp1|]. intros Hf.
      pose proof (pub_final _ _ _ (so_far_now _ _ _ Hp1)) as Hm. by rewrite (Hn Hf m b) in Heb.
    + intros w2 m' b' Hk2 Hm' Hb' _ _ _. cbn [negb]. pose proof (so_far_keeps _ _ _ _ Hp1 Hk2) as Hp2.
      apply wp_bind, wp_remove; [intros w3 e Hk3 Hf3|intros w3 n' Hn' Hm3]; apply wp_ret.
      * rewrite bool_decide_eq_false_2 by done. apply Hno; [by eapply so_far_keeps|].
        eapply not_faultless; [exact Hp2|]. intros Hf. specialize (Hf3 Hf).
        by rewrite (keeps_disk _ _ Hk2), Hb in Hf3.
      * rewrite bool_decide_eq_true_2 by done. apply Hyes.
        -- eapply so_far_moves; [done|done|]. apply unbacked. by apply so_far_now in Hp2.
        -- by rewrite (moves_disk _ _ _ _ Hm3), lookup_delete_eq.
Qed.

Lemma weaken_published m0 m1 w0 w : so_far (published m0) w0 w -> so_far (recoverable m0 m1) w0 w.
Proof. apply so_far_mono. intros d x H. by left. Qed.

(** The published document, checked. *)
Lemma wp_check_published m0 m1 w w0 (Q : bool -> world -> Prop) :
  good m1 -> so_far (recoverable m0 m1) w0 w -> published m1 (w_disk w) (w_dirty w) ->
  (forall w', so_far (recoverable m0 m1) w0 w' -> ~ faultless w0 -> Q false w') ->
  (forall w', so_far (recoverable m0 m1) w0 w' -> published m1 (w_disk w') (w_dirty w') -> Q true w') ->
  wp (manifest_file_valid man id) Q w.
Proof.
  intros [Hs Hv] Hp Hpub Hno Hyes. apply wp_manifest_file_valid; [done|intros w1 Hk Hf|intros w1 c Hk Hc _ _].
  - apply Hno; [by eapply so_far_keeps|]. eapply not_faultless; [exact Hp|]. intros Hfl.
    by rewrite (Hf Hfl m1 (pub_final _ _ _ Hpub) Hs) in Hv.
  - apply Hyes; [by eapply so_far_keeps|]. by rewrite (keeps_disk _ _ Hk), (keeps_dirty _ _ Hk).
Qed.

(** The renames, from a complete temporary. *)
Lemma wp_publish m0 m1 w w0 (Q : bool -> world -> Prop) :
  sized m0 -> good m1 -> snapshot_extends m1 m0 id = true ->
  so_far (recoverable m0 m1) w0 w -> published m0 (w_disk w) (w_dirty w) -> w_disk w !! bak = None ->
  w_disk w !! tmp = Some (NFile m1) -> tmp ∉ w_dirty w ->
  (forall w', so_far (recoverable m0 m1) w0 w' -> ~ faultless w0 -> Q false w') ->
  (forall w', so_far (recoverable m0 m1) w0 w' -> published m1 (w_disk w') (w_dirty w') -> Q true w') ->
  wp (publish tmp man bak id true) Q w.
Proof.
  intros Hs0 Hg1 Hext Hp Hpub Hb Ht Htx Hno Hyes. pose proof bak_man as Hbm. unfold publish.
  apply wp_bind, wp_rename; [intros w1 e Hk Hf|intros w1 n Hn _ Hm]; cbn beta iota.
  2:{ rewrite Ht in Hn. injection Hn as <-.
      assert (Hp1 : published m1 (w_disk w1) (w_dirty w1)).
      { rewrite (moves_disk _ _ _ _ Hm), (moves_dirty _ _ _ _ Hm). eapply published_rename; eauto. }
      eapply (wp_check_published m0 m1); [done| |done|done|done].
      eapply so_far_moves; [done|exact Hm|]. right; left.
      by rewrite (moves_disk _ _ _ _ Hm), (moves_dirty _ _ _ _ Hm) in Hp1. }
  pose proof (so_far_keeps _ _ _ _ Hp Hk) as Hp1. cbn [negb orb].
  case_bool_decide as He; cbn [negb]; [|apply wp_ret, Hno; [done|]].
  2:{ apply (not_faultless _ _ _ Hp). intros Hfl. destruct (Hf Hfl) as [Hc|[-> _]]; [by rewrite Ht in Hc|done]. }
  rewrite <- (keeps_disk _ _ Hk) in Hpub, Hb, Ht. rewrite <- (keeps_dirty _ _ Hk) in Hpub, Htx.
  apply wp_bind, wp_rename; [intros w2 e2 Hk2 Hf2|intros w2 n Hn _ Hm2]; cbn beta iota.
  { apply wp_ret, Hno; [by eapply so_far_keeps|]. apply (not_faultless _ _ _ Hp1). intros Hfl.
    destruct (Hf2 Hfl) as [Hc|(_ & [y Hc] & _)]; [by rewrite (pub_final _ _ _ Hpub) in Hc|].
    by rewrite Hb in Hc. }
  rewrite (pub_final _ _ _ Hpub) in Hn. injection Hn as <-.
  pose proof (park _ _ _ Hpub) as Hpark.
  assert (Hp2 : so_far (recoverable m0 m1) w0 w2) by (eapply so_far_moves; [done|exact Hm2|by right; right]).
  assert (Ht2 : w_disk w2 !! tmp = Some (NFile m1)).
  { rewrite (moves_disk _ _ _ _ Hm2), lookup_insert_ne, lookup_delete_ne by done. done. }
  assert (Htx2 : tmp ∉ w_dirty w2).
  { rewrite (moves_dirty _ _ _ _ Hm2). unfold renamed_dirty. case_bool_decide; set_solver. }
  rewrite <- (moves_disk _ _ _ _ Hm2), <- (moves_dirty _ _ _ _ Hm2) in Hpark.
  apply wp_bind, wp_rename; [intros w3 e3 Hk3 Hf3|intros w3 n Hn _ Hm3]; cbn beta iota.
  - pose proof (so_far_keeps _ _ _ _ Hp2 Hk3) as Hp3.
    assert (Hnf : ~ faultless w0).
    { apply (not_faultless _ _ _ Hp2). intros Hfl. destruct (Hf3 Hfl) as [Hc|(_ & [y Hc] & _)];
        [by rewrite Ht2 in Hc|]. by rewrite (park_final _ _ _ Hpark) in Hc. }
    apply wp_bind. eapply wp_mono; [apply (wp_stat_any man)|]. intros r w4 Hk4. cbn beta.
    pose proof (so_far_keeps _ _ _ _ Hp3 Hk4) as Hp4. case_bool_decide; [|by apply wp_ret, Hno].
    rewrite <- (keeps_disk _ _ Hk3), <- (keeps_disk _ _ Hk4), <- (keeps_dirty _ _ Hk3),
      <- (keeps_dirty _ _ Hk4) in Hpark.
    apply wp_bind, wp_rename; [intros w5 e5 Hk5 _|intros w5 n Hn _ Hm5]; apply wp_ret, Hno; try done.
    + by eapply so_far_keeps.
    + rewrite (park_backup _ _ _ Hpark) in Hn. injection Hn as <-.
      eapply so_far_moves; [done|exact Hm5|]. left. by apply unpark.
  - rewrite Ht2 in Hn. injection Hn as <-.
    assert (Hpub3 : published m1 (w_disk w3) (w_dirty w3)).
    { rewrite (moves_disk _ _ _ _ Hm3), (moves_dirty _ _ _ _ Hm3). eapply published_rename; eauto. }
    assert (Hp3 : so_far (recoverable m0 m1) w0 w3).
    { eapply so_far_moves; [done|exact Hm3|]. right; left.
      by rewrite (moves_disk _ _ _ _ Hm3), (moves_dirty _ _ _ _ Hm3) in Hpub3. }
    assert (Hb3 : w_disk w3 !! bak = Some (NFile m0)).
    { rewrite (moves_disk _ _ _ _ Hm3), lookup_insert_ne, lookup_delete_ne by done.
      apply (park_backup _ _ _ Hpark). }
    apply wp_manifest_file_extends; [done|apply bak_nonempty|intros w4 Hk4 Hf4|intros w4 m b Hk4 _ _ _ _ _].
    + apply Hno; [by eapply so_far_keeps|]. apply (not_faultless _ _ _ Hp3). intros Hfl.
      rewrite (Hf4 Hfl m1 m0) in Hext; try done; [by apply pub_final in Hpub3|apply Hg1].
    + apply Hyes; [by eapply so_far_keeps|]. by rewrite (keeps_disk _ _ Hk4), (keeps_dirty _ _ Hk4).
Qed.

Lemma document_parses stamp es rest :
  device_identity_parse_schema_version (document id stamp es ++ rest) (length (document id stamp es)) =
    Value (Some RECORDER_METADATA_SCHEMA_VERSION) /\
  device_identity_parse_device_id (document id stamp es ++ rest) (length (document id stamp es)) = Value (Some id).
Proof.
  pose proof (parse_document id (jtxt ",'updatedAt':'" ++ stamp ++ jtxt "','recordings':[" ++
    entries_text es ++ txt "]}") rest Hid) as H. cbn zeta in H.
  assert (Hd : document id stamp es = (jtxt "{'schemaVersion':1,'deviceId':'" ++ id ++ 34 ::
    jtxt ",'updatedAt':'" ++ stamp ++ jtxt "','recordings':[" ++ entries_text es ++ txt "]}")%list).
  { unfold document, document_head. repeat (progress (rewrite <- ?app_assoc; cbn [app])). reflexivity. }
  by rewrite Hd.
Qed.

Lemma document_is_ours_document stamp es : wf_document stamp es -> document_is_ours (document id stamp es) id = true.
Proof.
  intros Hwf. unfold document_is_ours, document_device_id, manifest_snapshot_valid.
  rewrite manifest_snapshot_document by (done || apply Hid_text).
  destruct (document_parses stamp es [0]) as [-> ->]. by rewrite Z.eqb_refl, bool_decide_eq_true_2.
Qed.

Lemma document_device_id_document stamp es : document_device_id (document id stamp es) = Some id.
Proof. unfold document_device_id. by rewrite (proj2 (document_parses stamp es [0])). Qed.

(** Writing the temporary leaves no backup behind. *)
Lemma wp_write_tmp_frame m doc w w0 (Q : bool -> world -> Prop) :
  so_far (published m) w0 w -> w_disk w !! bak = None ->
  (forall w', so_far (published m) w0 w' -> ~ faultless w0 -> Q false w') ->
  (forall w', so_far (published m) w0 w' -> w_disk w' !! bak = None ->
     w_disk w' !! tmp = Some (NFile doc) -> tmp ∉ w_dirty w' -> Q true w') ->
  wp (write_tmp tmp doc) Q w.
Proof.
  intros Hp Hb Hno Hyes.
  eapply wp_mono; [apply wp_and; [eapply (wp_write_tmp m doc w w0 (fun ok w' => so_far (published m) w0 w' /\
    if ok then w_disk w' !! tmp = Some (NFile doc) /\ tmp ∉ w_dirty w' else ~ faultless w0)); eauto|
    apply (wp_write_tmp_other tmp doc w)]|].
  intros [] w' [[Hp' H] Hd]; [destruct H; apply Hyes; try done|by apply Hno].
  by rewrite Hd.
Qed.

(** The whole publication. *)
Lemma wp_write_tmp_and_rename m0 m1 w (Q : bool -> world -> Prop) :
  sized m0 -> good m1 -> snapshot_extends m1 m0 id = true ->
  published m0 (w_disk w) (w_dirty w) -> honest_faults w ->
  (forall w', so_far (recoverable m0 m1) w w' -> ~ faultless w -> Q false w') ->
  (forall w', so_far (recoverable m0 m1) w w' -> published m1 (w_disk w') (w_dirty w') -> Q true w') ->
  wp (write_tmp_and_rename tmp man m1) Q w.
Proof.
  intros Hs0 Hg1 Hext Hpub Hh Hno Hyes. unfold write_tmp_and_rename.
  destruct Hg1 as [Hs1 Hv1]. pose proof Hv1 as (stamp & es & Hm1 & Hwf)%snapshot_valid_document.
  rewrite Hm1 at 1. rewrite document_device_id_document. cbn iota. rewrite Hv1, Hbak. cbn [negb].
  assert (Hp0 : so_far (published m0) w w) by (split; [by apply passes_refl|done]).
  apply wp_bind. eapply wp_retire_backup; [exact Hs0|exact Hp0|done|..].
  - intros w1 Hp1 Hf. cbn [negb]. apply wp_ret, Hno; [by apply weaken_published|done].
  - intros w1 Hp1 Hb1. cbn [negb].
    apply wp_bind, wp_stat_honest; [by apply Hp1|intros w2 e Hk Hf He|intros w2 Hk Hd|intros w2 n Hk Hd];
      pose proof (so_far_keeps _ _ _ _ Hp1 Hk) as Hp2; cbn beta iota.
    + rewrite bool_decide_eq_false_2 by done. cbn [negb]. apply wp_ret, Hno; [by apply weaken_published|].
      by apply (not_faultless _ _ _ Hp1).
    + pose proof (pub_final _ _ _ (so_far_now _ _ _ Hp1)) as Hc. by rewrite Hd in Hc.
    + rewrite <- (keeps_disk _ _ Hk) in Hb1. apply wp_bind. eapply wp_write_tmp_frame; [exact Hp2|exact Hb1|..].
      * intros w3 Hp3 Hf. cbn [negb]. apply wp_ret, Hno; [by apply weaken_published|done].
      * intros w3 Hp3 Hb3 Ht3 Htx3. cbn [negb].
        eapply (wp_publish m0 m1); [done|done|done|by apply weaken_published| |done..].
        by apply so_far_now in Hp3.
Qed.

(** ** Recovery *)

Lemma wp_artifact_exists path w (Q : option bool -> world -> Prop) :
  honest_faults w ->
  (forall w', keeps w w' -> ~ faultless w -> Q None w') ->
  (forall w' b, keeps w w' -> b = bool_decide (is_Some (w_disk w !! path)) -> Q (Some b) w') ->
  wp (manifest_artifact_exists path) Q w.
Proof.
  intros Hh H1 H2. unfold manifest_artifact_exists.
  apply wp_bind, wp_stat_honest; [done|intros w1 e Hk Hf He|intros w1 Hk Hd|intros w1 n Hk Hd]; apply wp_ret.
  - rewrite bool_decide_eq_false_2 by done. by apply H1.
  - rewrite bool_decide_eq_true_2 by done. apply H2; [done|].
    rewrite Hd. symmetry. apply bool_decide_eq_false_2. by intros [].
  - apply H2; [done|]. rewrite Hd. symmetry. by apply bool_decide_eq_true_2.
Qed.

Lemma wp_remove_ok path w (Q : bool -> world -> Prop) :
  (forall w', keeps w w' -> (faultless w -> w_disk w !! path = None) -> Q false w') ->
  (forall w' n, w_disk w !! path = Some n ->
     moves w (delete path (w_disk w)) (w_dirty w ∖ {[path]}) w' -> Q true w') ->
  wp (remove_ok path) Q w.
Proof.
  intros H1 H2. unfold remove_ok.
  apply wp_bind, wp_remove; [intros w1 e Hk Hf|intros w1 n Hn Hm]; apply wp_ret.
  - rewrite bool_decide_eq_false_2 by done. by apply H1.
  - rewrite bool_decide_eq_true_2 by done. by eapply H2.
Qed.

Section recovery.
  Context (m0 m1 : bytes) (Hg0 : good m0) (Hg1 : good m1) (Hext : snapshot_extends m1 m0 id = true).

Abbreviation safe := (recoverable m0 m1).

(** One of the two documents is published. *)
Definition settled (d : disk) (x : gset bytes) : Prop := exists m, (m = m0 \/ m = m1) /\ published m d x.

Lemma settled_safe d x : settled d x -> safe d x.
Proof. intros (m & [-> | ->] & H); [by left|by right; left]. Qed.

Lemma settled_good d x : settled d x -> exists m, good m /\ published m d x /\ (m = m0 \/ m = m1).
Proof. intros (m & [-> | ->] & H); eauto. Qed.

Lemma wp_settle_backup w w0 n (Q : option bool -> world -> Prop) :
  so_far safe w0 w -> w_disk w !! bak = Some n ->
  (forall w', so_far safe w0 w' -> ~ faultless w0 -> Q None w') ->
  (forall w', so_far safe w0 w' -> settled (w_disk w') (w_dirty w') -> w_disk w' !! bak = None ->
     w_disk w' !! tmp = w_disk w !! tmp -> Q (Some true) w') ->
  wp (settle_backup man bak id (bool_decide (is_Some (w_disk w !! man)))) Q w.
Proof.
  intros Hp Hn Hno Hyes. pose proof bak_man as Hbm. unfold settle_backup.
  assert (Hb : exists b, w_disk w !! bak = Some (NFile b) /\ good b /\
    ((w_disk w !! man = None /\ parked m0 (w_disk w) (w_dirty w) /\ b = m0) \/
     (exists m, (m = m0 \/ m = m1) /\ published m (w_disk w) (w_dirty w) /\ good m /\
        snapshot_extends m b id = true))).
  { destruct (so_far_now _ _ _ Hp) as [H|[H|H]].
    - destruct (pub_backup _ _ _ H) as [Hc|(b & Hb & Hsb & Heb)]; [by rewrite Hc in Hn|].
      exists b. repeat split; [done|done|by apply snapshot_extends_valid in Heb as [_ ?]|]. right. exists m0. auto.
    - destruct (pub_backup _ _ _ H) as [Hc|(b & Hb & Hsb & Heb)]; [by rewrite Hc in Hn|].
      exists b. repeat split; [done|done|by apply snapshot_extends_valid in Heb as [_ ?]|]. right. exists m1. auto.
    - exists m0. split; [apply (park_backup _ _ _ H)|]. split; [done|]. left. split; [apply (park_final _ _ _ H)|done]. }
  destruct Hb as (b & Hb & [Hsb Hvb] & Hcase).
  apply wp_bind, wp_manifest_file_valid; [apply bak_nonempty|intros w1 Hk Hf|intros w1 b' Hk Hb' _ _]; cbn [negb].
  { apply wp_ret, Hno; [by eapply so_far_keeps|]. apply (not_faultless _ _ _ Hp). intros Hfl.
    by rewrite (Hf Hfl b Hb Hsb) in Hvb. }
  pose proof (so_far_keeps _ _ _ _ Hp Hk) as Hp1.
  rewrite <- !(keeps_disk _ _ Hk), <- ?(keeps_dirty _ _ Hk) in *.
  destruct Hcase as [(Hm & Hpark & ->)|(m & Hor & Hpub & [Hsm Hvm] & Hem)].
  - rewrite Hm. rewrite bool_decide_eq_false_2 by by intros []. cbn [negb].
    apply wp_bind, wp_rename; [intros w2 e Hk2 Hf2|intros w2 n' Hn' _ Hm2]; apply wp_ret.
    + rewrite bool_decide_eq_false_2 by done. apply Hno; [by eapply so_far_keeps|].
      apply (not_faultless _ _ _ Hp1). intros Hfl.
      destruct (Hf2 Hfl) as [Hc|(_ & [y Hc] & _)]; [by rewrite Hb in Hc|by rewrite Hm in Hc].
    + rewrite bool_decide_eq_true_2 by done. rewrite Hb in Hn'. injection Hn' as <-.
      pose proof (unpark _ _ _ Hpark) as Hpub. apply Hyes.
      * eapply so_far_moves; [done|exact Hm2|by left].
      * rewrite (moves_disk _ _ _ _ Hm2), (moves_dirty _ _ _ _ Hm2). exists m0. auto.
      * by rewrite (moves_disk _ _ _ _ Hm2), lookup_insert_ne, lookup_delete_eq by done.
      * by rewrite (moves_disk _ _ _ _ Hm2), lookup_insert_ne, lookup_delete_ne by done.
  - rewrite (pub_final _ _ _ Hpub). rewrite bool_decide_eq_true_2 by done. cbn [negb].
    apply wp_bind, wp_manifest_file_extends; [done|apply bak_nonempty|intros w2 Hk2 Hf2|intros w2 m' b2 Hk2 _ _ _ _ _];
      cbn [negb]; pose proof (so_far_keeps _ _ _ _ Hp1 Hk2) as Hp2.
    + apply wp_ret, Hno; [done|]. apply (not_faultless _ _ _ Hp1). intros Hfl.
      by rewrite (Hf2 Hfl m b (pub_final _ _ _ Hpub) Hb Hsm Hsb) in Hem.
    + rewrite <- !(keeps_disk _ _ Hk2), <- ?(keeps_dirty _ _ Hk2) in *.
      apply wp_bind, wp_remove_ok; [intros w3 Hk3 Hf3|intros w3 n3 _ Hm3]; apply wp_ret.
      * apply Hno; [by eapply so_far_keeps|]. apply (not_faultless _ _ _ Hp2). intros Hfl.
        by rewrite (Hf3 Hfl) in Hb.
      * assert (Hset : settled (w_disk w3) (w_dirty w3)).
        { rewrite (moves_disk _ _ _ _ Hm3), (moves_dirty _ _ _ _ Hm3). exists m. split; [done|by apply unbacked]. }
        apply Hyes; [|done|by rewrite (moves_disk _ _ _ _ Hm3), lookup_delete_eq|
          by rewrite (moves_disk _ _ _ _ Hm3), lookup_delete_ne by done].
        eapply so_far_moves; [done|exact Hm3|]. apply settled_safe.
        by rewrite <- (moves_disk _ _ _ _ Hm3), <- (moves_dirty _ _ _ _ Hm3).
Qed.

(** Recovery ends with one document, whole and alone. *)
Definition clean_settled (d : disk) (x : gset bytes) : Prop :=
  settled d x /\ d !! bak = None /\ d !! tmp = None.

Lemma wp_settle_final w w0 (Q : bool -> world -> Prop) :
  so_far safe w0 w -> settled (w_disk w) (w_dirty w) -> w_disk w !! bak = None ->
  (forall w', so_far safe w0 w' -> ~ faultless w0 -> Q false w') ->
  (forall w', so_far safe w0 w' -> clean_settled (w_disk w') (w_dirty w') -> Q true w') ->
  wp (settle_final man tmp id true (bool_decide (is_Some (w_disk w !! tmp)))) Q w.
Proof.
  intros Hp Hset Hb Hno Hyes. unfold settle_final.
  destruct (settled_good _ _ Hset) as (m & [Hsm Hvm] & Hpub & Hor).
  apply wp_bind, wp_manifest_file_valid; [done|intros w1 Hk Hf|intros w1 m' Hk _ _ _]; cbn [negb].
  { apply wp_ret, Hno; [by eapply so_far_keeps|]. apply (not_faultless _ _ _ Hp). intros Hfl.
    by rewrite (Hf Hfl m (pub_final _ _ _ Hpub) Hsm) in Hvm. }
  pose proof (so_far_keeps _ _ _ _ Hp Hk) as Hp1.
  rewrite <- !(keeps_disk _ _ Hk), <- ?(keeps_dirty _ _ Hk) in *.
  case_bool_decide as Ht.
  - apply wp_remove_ok; [intros w2 Hk2 Hf2|intros w2 n2 Hn2 Hm2].
    + apply Hno; [by eapply so_far_keeps|]. apply (not_faultless _ _ _ Hp1). intros Hfl.
      rewrite (Hf2 Hfl) in Ht. by destruct Ht.
    + assert (Hpub2 : published m (w_disk w2) (w_dirty w2)).
      { rewrite (moves_disk _ _ _ _ Hm2), (moves_dirty _ _ _ _ Hm2). eapply published_tmp; [done|].
        apply tmp_only_delete. set_solver. }
      assert (Hset2 : settled (w_disk w2) (w_dirty w2)) by (by exists m).
      apply Hyes.
      * eapply so_far_moves; [done|exact Hm2|]. apply settled_safe.
        by rewrite <- (moves_disk _ _ _ _ Hm2), <- (moves_dirty _ _ _ _ Hm2).
      * split; [done|]. by rewrite (moves_disk _ _ _ _ Hm2), lookup_delete_eq, lookup_delete_ne by done.
  - apply wp_ret, Hyes; [done|]. split; [done|]. split; [done|]. by apply eq_None_not_Some.
Qed.

Lemma wp_recover_tmp w (Q : bool -> world -> Prop) :
  safe (w_disk w) (w_dirty w) -> honest_faults w ->
  (forall w', so_far safe w w' -> ~ faultless w -> Q false w') ->
  (forall w', so_far safe w w' -> clean_settled (w_disk w') (w_dirty w') -> Q true w') ->
  wp (device_manifest_recover_tmp man tmp id) Q w.
Proof.
  intros Hs Hh Hno Hyes. unfold device_manifest_recover_tmp. rewrite Hid, Hbak. cbn [negb].
  assert (Hp : so_far safe w w) by (split; [by apply passes_refl|done]).
  apply wp_bind, wp_artifact_exists; [done|intros w1 Hk1 Hf|intros w1 fe Hk1 ->]; cbn beta iota.
  { apply wp_ret, Hno; [by eapply so_far_keeps|done]. }
  pose proof (so_far_keeps _ _ _ _ Hp Hk1) as Hp1. rewrite <- (keeps_disk _ _ Hk1).
  apply wp_bind, wp_artifact_exists; [apply Hp1, Hh|intros w2 Hk2 Hf|intros w2 te Hk2 ->]; cbn beta iota.
  { apply wp_ret, Hno; [by eapply so_far_keeps|by apply (not_faultless _ _ _ Hp1)]. }
  pose proof (so_far_keeps _ _ _ _ Hp1 Hk2) as Hp2. rewrite <- (keeps_disk _ _ Hk2).
  apply wp_bind, wp_artifact_exists; [apply Hp2, Hh|intros w3 Hk3 Hf|intros w3 be Hk3 ->]; cbn beta iota.
  { apply wp_ret, Hno; [by eapply so_far_keeps|by apply (not_faultless _ _ _ Hp2)]. }
  pose proof (so_far_keeps _ _ _ _ Hp2 Hk3) as Hp3. rewrite <- (keeps_disk _ _ Hk3).
  apply wp_bind. case_bool_decide as Hb.
  - destruct Hb as [n Hb]. eapply wp_settle_backup; [exact Hp3|exact Hb|..].
    + intros w4 Hp4 Hf. by apply wp_ret, Hno.
    + intros w4 Hp4 Hset Hb4 Ht4. cbn beta iota. rewrite <- Ht4. by apply (wp_settle_final w4 w).
  - apply wp_ret. apply eq_None_not_Some in Hb.
    assert (Hset : settled (w_disk w3) (w_dirty w3)).
    { destruct (so_far_now _ _ _ Hp3) as [H|[H|H]]; [exists m0; auto|exists m1; auto|].
      by rewrite (park_backup _ _ _ H) in Hb. }
    destruct (settled_good _ _ Hset) as (m & _ & Hpub & _). rewrite (pub_final _ _ _ Hpub).
    rewrite bool_decide_eq_true_2 by done. by apply (wp_settle_final w3 w).
Qed.
End recovery.

(** ** The upsert *)

Section upsert.
  Context (t0 t1 : bytes) (es : list entry) (e : entry).
  Context (Hwf : wf_document t0 es) (He : entry_ok e = true) (Ht1 : manifest_iso8601 t1 = true).

Abbreviation m0 := (document id t0 es).
Abbreviation m1 := (document id t1 (es ++ [e])).

Lemma m0_valid : manifest_snapshot_valid m0 id = true.
Proof.
  unfold manifest_snapshot_valid. by rewrite manifest_snapshot_document by (done || apply Hid_text).
Qed.

Lemma m1_valid : find_entry (e_id e) es = None -> manifest_snapshot_valid m1 id = true.
Proof.
  intros Hn. unfold manifest_snapshot_valid.
  by rewrite manifest_snapshot_document by (apply Hid_text || by apply (wf_append t0)).
Qed.

Lemma m1_extends : find_entry (e_id e) es = None -> snapshot_extends m1 m0 id = true.
Proof.
  intros Hn. apply extends_prefix; [apply Hid_text|done|by apply (wf_append t0)|by apply prefix_app_r].
Qed.

(** What the upsert may do: nothing, where the entry is stored or does not
    fit; else the replacement of the document. *)
Definition upsert_outcome (w : world) (r : device_manifest_result_t) (w' : world) : Prop :=
  match find_entry (e_id e) es with
  | Some (old, _) =>
      keeps w w' /\
      (r = (if same_recording old e then DEVICE_MANIFEST_OK else DEVICE_MANIFEST_CONFLICT) \/
       r = DEVICE_MANIFEST_ERROR /\ ~ faultless w)
  | None =>
      if DEVICE_MANIFEST_ADMISSION_CEILING_BYTES <? zlen m1 then keeps w w' /\ r = DEVICE_MANIFEST_ERROR
      else so_far (recoverable m0 m1) w w' /\
        (r = DEVICE_MANIFEST_OK /\ published m1 (w_disk w') (w_dirty w') \/
         r = DEVICE_MANIFEST_ERROR /\ ~ faultless w)
  end.

Lemma upsert_error w w' : so_far (published m0) w w' -> keeps w w' -> ~ faultless w ->
  upsert_outcome w DEVICE_MANIFEST_ERROR w'.
Proof.
  intros Hp Hk Hf. unfold upsert_outcome. destruct (find_entry _ _) as [[old rest]|]; [auto|].
  destruct (_ <? _); [auto|]. split; [|auto]. by apply weaken_published.
Qed.

Lemma find_entry_Some rid l old rest : find_entry rid l = Some (old, rest) ->
  Forall (fun e => entry_ok e = true) l -> entry_ok old = true /\ Forall (fun e => entry_ok e = true) rest.
Proof.
  induction l as [|e' l IH]; [done|]. cbn. case_bool_decide.
  - intros [= <- <-] H1. by apply Forall_cons in H1.
  - intros H1 H2. apply IH; [done|]. by apply Forall_cons in H2 as [_ H2].
Qed.

Lemma wp_upsert w :
  tmp <> [] -> sized m0 -> published m0 (w_disk w) (w_dirty w) -> honest_faults w ->
  wp (device_manifest_upsert_file man tmp id t1 (entry_text e)) (upsert_outcome w) w.
Proof.
  intros Htmp Hs0 Hpub Hh. unfold device_manifest_upsert_file.
  rewrite !bool_decide_eq_false_2 by done. cbn [orb]. rewrite Hid. cbn [negb].
  assert (Hiso := Ht1). unfold manifest_iso8601 in Hiso. apply andb_prop in Hiso as [_ Hiso].
  rewrite Hiso. cbn [negb]. rewrite entry_json_key_entry by done.
  assert (Hp0 : so_far (published m0) w w) by (split; [by apply passes_refl|done]).
  apply wp_bind, wp_read_manifest; [done|intros w1 Hk Hf|intros w1 c Hk Hc _]; cbn beta iota;
    pose proof (so_far_keeps _ _ _ _ Hp0 Hk) as Hp1.
  { assert (Hnf : ~ faultless w) by (intros Hfl; exact (Hf Hfl m0 (pub_final _ _ _ Hpub) Hs0)).
    unfold create_with_entry.
    apply wp_bind, wp_stat_honest; [by apply Hp1|intros w2 er Hk2 _ Her|intros w2 Hk2 Hd|intros w2 n Hk2 Hd].
    - rewrite bool_decide_eq_false_2 by congruence. cbn [negb]. apply wp_ret, upsert_error; [|by eapply keeps_trans|done].
      by eapply so_far_keeps.
    - by rewrite (keeps_disk _ _ Hk), (pub_final _ _ _ Hpub) in Hd.
    - rewrite bool_decide_eq_false_2 by done. cbn [negb]. apply wp_ret, upsert_error; [|by eapply keeps_trans|done].
      by eapply so_far_keeps. }
  rewrite (pub_final _ _ _ Hpub) in Hc. injection Hc as <-.
  rewrite document_is_ours_document by done. cbn [negb]. cbn [k_id key_of].
  apply entry_ok_fields in He as Hfields. destruct (uuid_is_text _ (ef_id _ Hfields)) as [Trid _].
  rewrite document_find_id by done. unfold upsert_outcome.
  destruct (find_entry (e_id e) es) as [[old rest]|] eqn:Hfind; cbn [fmap option_fmap option_map].
  - destruct (find_entry_Some _ _ _ _ Hfind (wf_entries _ _ Hwf)) as [Hold Hrest]. cbn [fst snd].
    unfold probe_stored. apply wp_bind, wp_malloc. intros w2 b Hk2 Hb. pose proof (keeps_trans _ _ _ Hk Hk2).
    destruct b; cbn [negb]; apply wp_ret; [|].
    + rewrite compare_stored_entry by done. auto.
    + split; [done|]. right. split; [done|]. intros Hfl. apply Hb; [done|]. by apply Hp1.
  - unfold append_entry. destruct (iso_is_text _ Ht1) as [_ Lt1].
    rewrite append_document_eq by (done || (unfold zlen; lia)). rewrite appended_entry.
    destruct (Z.ltb_spec DEVICE_MANIFEST_ADMISSION_CEILING_BYTES (zlen m1)) as [Hc|Hc]; [by apply wp_ret|].
    apply wp_bind, wp_malloc. intros w2 b Hk2 Hb. pose proof (so_far_keeps _ _ _ _ Hp1 Hk2) as Hp2.
    destruct b; cbn [negb].
    2:{ apply wp_ret. split; [by apply weaken_published|]. right. split; [done|]. intros Hfl.
        apply Hb; [done|]. by apply Hp1. }
    assert (Hg1 : good m1).
    { split; [unfold sized, RECORDER_MANIFEST_MAX_BYTES; unfold DEVICE_MANIFEST_ADMISSION_CEILING_BYTES in Hc; lia|].
      by apply m1_valid. }
    apply wp_bind. pose proof (so_far_now _ _ _ Hp2) as Hpub2.
    eapply (wp_write_tmp_and_rename m0 m1); [done|done|by apply m1_extends|done|by apply Hp2|..].
    + intros w3 Hp3 Hf3. apply wp_ret. split.
      * destruct Hp2 as [Hp2 Hl2], Hp3 as [Hp3 Hl3]. split; [|by split; intros; apply Hl3, Hl2].
        eapply passes_trans; [|exact Hp3]. by eapply passes_mono; [|exact Hp2]; intros; left.
      * right. split; [done|]. intros Hfl. apply Hf3. by apply Hp2.
    + intros w3 Hp3 Hpub3. apply wp_ret. split.
      * destruct Hp2 as [Hp2 Hl2], Hp3 as [Hp3 Hl3]. split; [|by split; intros; apply Hl3, Hl2].
        eapply passes_trans; [|exact Hp3]. by eapply passes_mono; [|exact Hp2]; intros; left.
      * left. done.
Qed.
End upsert.

(** ** Losing power *)

(** What a power cut leaves: files whose bytes were on the medium are as they
    were; an unsynced file has any content or is missing. *)
Definition torn (d : disk) (x : gset bytes) (d' : disk) : Prop :=
  (forall p, p ∉ x -> d' !! p = d !! p) /\ (forall p, p ∈ x -> d' !! p <> Some NDir).

Lemma torn_recoverable m0 m1 d x d' :
  recoverable m0 m1 d x -> torn d x d' -> recoverable m0 m1 d' ∅.
Proof.
  intros Hr [Hd Ht].
  assert (Htmp : d !! tmp <> Some NDir -> d' !! tmp <> Some NDir).
  { intros H. destruct (decide (tmp ∈ x)); [auto|]. by rewrite Hd. }
  assert (Helse : elsewhere d x -> elsewhere d' ∅).
  { intros H p Hp1 Hp2 Hp3. destruct (H p) as [H1 H2]; [done..|]. split; [|set_solver].
    intros Hx0. rewrite Hd; auto. }
  assert (Hpub : forall m, published m d x -> published m d' ∅).
  { intros m [H1 [H2 H2'] H3 H4 H5]. split; rewrite ?Hd by done; try done; auto. }
  destruct Hr as [H|[H|[H1 H2 [H3 H3'] H4 H5]]]; [left; auto|right; left; auto|right; right].
  split; rewrite ?Hd by done; try done; auto.
Qed.

Lemma so_far_visited (P : disk -> gset bytes -> Prop) {A} (m : io A) w s :
  w_hist w = [] -> so_far P w (m w).2 ->
  s ∈ ((w_disk (m w).2, w_dirty (m w).2) :: w_hist (m w).2) -> P s.1 s.2.
Proof.
  intros Hh [[Hnow (l & Hl & Hall)] _] Hs. rewrite Hh, app_nil_r in Hl.
  apply elem_of_cons in Hs as [-> |Hs]; [done|]. rewrite Hl in Hs.
  rewrite Forall_forall in Hall. by apply Hall.
Qed.
End protocol.

(** The states of the card in a run, the last one first. *)
Definition visited {A} (m : io A) (w : world) : list (disk * gset bytes) :=
  (w_disk (m w).2, w_dirty (m w).2) :: w_hist (m w).2.

(** The states in which power can be lost: during an update, and during the
    recoveries after it, each of which may itself meet faults and lose
    power. *)
Inductive cut_states (man tmp id : bytes) {A} (update : io A) (w : world) : disk -> gset bytes -> Prop :=
  | cut_update s : s ∈ visited update w -> cut_states man tmp id update w s.1 s.2
  | cut_recovery d x d' w' s :
      cut_states man tmp id update w d x -> torn d x d' ->
      w_disk w' = d' -> w_dirty w' = ∅ -> w_hist w' = [] -> honest_faults w' ->
      s ∈ visited (device_manifest_recover_tmp man tmp id) w' ->
      cut_states man tmp id update w s.1 s.2.

Arguments cut_update {man tmp id A update w}.
Arguments cut_recovery {man tmp id A update w}.

(** The names of a manifest and its artifacts. *)
Record manifest_names (man tmp bak id : bytes) : Prop := ManifestNames {
  mn_man : man <> [];
  mn_tmp : tmp <> [];
  mn_tmp_man : tmp <> man;
  mn_tmp_bak : tmp <> bak;
  mn_bak : manifest_backup_path man = Some bak;
  mn_id : device_identity_is_valid_uuid id = true;
}.

(** The document [m] is the committed manifest of the card [w]. *)
Definition committed (man tmp bak id m : bytes) (w : world) : Prop :=
  sized m /\ published man tmp bak id (w_disk w) (w_dirty w) m (w_disk w) (w_dirty w).

(** The card [d] holds [m] as its manifest, no artifact, and every other file
    the card [w] had on the medium. *)
Record holds_only (man tmp bak m : bytes) (w : world) (d : disk) : Prop := HoldsOnly {
  ho_manifest : d !! man = Some (NFile m);
  ho_tmp : d !! tmp = None;
  ho_bak : d !! bak = None;
  ho_others : forall p, p <> man -> p <> tmp -> p <> bak -> p ∉ w_dirty w -> d !! p = w_disk w !! p;
}.

Section theorems.
  Context (man tmp bak id : bytes) (Hnames : manifest_names man tmp bak id).
  Context (t0 t1 : bytes) (es : list entry) (e : entry) (w : world).
  Context (Hwf : wf_document t0 es) (He : entry_ok e = true) (Ht1 : manifest_iso8601 t1 = true).
  Context (Hcom : committed man tmp bak id (document id t0 es) w) (Hh : honest_faults w).

Abbreviation safe m := (recoverable man tmp bak id (w_disk w) (w_dirty w) (document id t0 es) m).
Abbreviation update := (device_manifest_upsert_file man tmp id t1 (entry_text e)).

(** The document the update goes to. *)
Lemma update_target : exists m1,
  good id m1 /\ snapshot_extends m1 (document id t0 es) id = true /\
  (m1 = document id t0 es \/ find_entry (e_id e) es = None /\ m1 = document id t1 (es ++ [e])) /\
  so_far (safe m1) w (update w).2.
Proof.
  destruct Hnames as [H1 H2 H3 H4 H5 H6]. destruct Hcom as [Hs Hpub].
  pose proof (wp_upsert man tmp bak id H1 H3 H4 H5 H6 (w_disk w) (w_dirty w) t0 t1 es e Hwf He Ht1 w
    H2 Hs Hpub Hh) as H. unfold wp, upsert_outcome in H.
  assert (Hsame : keeps w (update w).2 -> exists m1,
    good id m1 /\ snapshot_extends m1 (document id t0 es) id = true /\
    (m1 = document id t0 es \/ find_entry (e_id e) es = None /\ m1 = document id t1 (es ++ [e])) /\
    so_far (safe m1) w (update w).2).
  { intros Hk. exists (document id t0 es). pose proof (m0_valid id H6 t0 es Hwf) as Hv.
    split; [by split|]. split; [by apply extends_refl; [apply uuid_is_text|]|]. split; [by left|].
    split; [|split; apply Hk]. eapply passes_keeps; [|exact Hk]. apply passes_refl. by left. }
  assert (Hcases : keeps w (update w).2 \/
    find_entry (e_id e) es = None /\
    zlen (document id t1 (es ++ [e])) <= DEVICE_MANIFEST_ADMISSION_CEILING_BYTES /\
    so_far (safe (document id t1 (es ++ [e]))) w (update w).2).
  { revert H. destruct (find_entry (e_id e) es) as [[old rest]|]; [intros [H _]; by left|].
    destruct (Z.ltb_spec DEVICE_MANIFEST_ADMISSION_CEILING_BYTES (zlen (document id t1 (es ++ [e]))));
      intros [Hrun _]; [by left|by right]. }
  destruct Hcases as [Hk|(Hf & Hc & Hrun)]; [by apply Hsame|].
  exists (document id t1 (es ++ [e])). split; [split|].
  - unfold sized, RECORDER_MANIFEST_MAX_BYTES, DEVICE_MANIFEST_ADMISSION_CEILING_BYTES in *. lia.
  - by apply (m1_valid id H6 t0).
  - split; [by apply (m1_extends id H6)|]. split; [by right|done].
Qed.

Lemma cut_states_safe m1 :
  good id m1 -> snapshot_extends m1 (document id t0 es) id = true -> so_far (safe m1) w (update w).2 ->
  w_hist w = [] -> forall d x, cut_states man tmp id update w d x -> safe m1 d x.
Proof.
  intros Hg Hext Hrun Hhist d x Hcut. destruct Hnames as [H1 H2 H3 H4 H5 H6]. destruct Hcom as [Hs Hpub].
  assert (Hg0 : good id (document id t0 es)) by (split; [done|by apply m0_valid]).
  induction Hcut as [s Hin|d x d' w' s Hcut IH Htorn Hd Hx Hw Hh' Hin].
  - by apply (so_far_visited (safe m1) update w).
  - apply (torn_recoverable man tmp bak id) with (d' := d') in IH; [|done].
    apply (so_far_visited (safe m1) (device_manifest_recover_tmp man tmp id) w'); [done| |done].
    apply (wp_recover_tmp man tmp bak id H1 H3 H4 H5 H6 (w_disk w) (w_dirty w) (document id t0 es) m1 Hg0 Hg Hext w'
      (fun _ w2 => so_far (safe m1) w' w2)); [by rewrite Hd, Hx|done|done|done].
Qed.

(** C9: an update of the manifest is atomic across power cuts. Lose power
    anywhere in it, under any honest plan of faults and with the unsynced files
    torn in any way, any number of times, in the recoveries that follow too:
    a recovery that meets no fault succeeds and leaves one whole document, the
    old one or the old one with the new entry, no temporary and no backup, and
    every other file as it was. *)
Theorem update_survives_power_cuts d x d' over :
  w_hist w = [] -> cut_states man tmp id update w d x -> torn d x d' ->
  let r := device_manifest_recover_tmp man tmp id (World d' ∅ [] over []) in
  r.1 = true /\
  (holds_only man tmp bak (document id t0 es) w (w_disk r.2) \/
   find_entry (e_id e) es = None /\ holds_only man tmp bak (document id t1 (es ++ [e])) w (w_disk r.2)).
Proof.
  intros Hhist Hcut Htorn. destruct update_target as (m1 & Hg & Hext & Hor & Hrun).
  pose proof (cut_states_safe m1 Hg Hext Hrun Hhist _ _ Hcut) as Hsafe.
  destruct Hnames as [H1 H2 H3 H4 H5 H6]. destruct Hcom as [Hs Hpub].
  assert (Hg0 : good id (document id t0 es)) by (split; [done|by apply m0_valid]).
  apply (torn_recoverable man tmp bak id) with (d' := d') in Hsafe; [|done].
  assert (Hgoal : wp (device_manifest_recover_tmp man tmp id) (fun ok w2 => ok = true /\
    (holds_only man tmp bak (document id t0 es) w (w_disk w2) \/
     find_entry (e_id e) es = None /\ holds_only man tmp bak (document id t1 (es ++ [e])) w (w_disk w2)))
    (World d' ∅ [] over [])).
  { apply (wp_recover_tmp man tmp bak id H1 H3 H4 H5 H6 (w_disk w) (w_dirty w) (document id t0 es) m1 Hg0 Hg Hext);
      [done|constructor|by intros w2 _ []|].
    intros w2 _ [(m & Hm & Hp) [Hb Ht]]. split; [done|].
    assert (Hho : holds_only man tmp bak m w (w_disk w2)).
    { split; [apply (pub_final _ _ _ _ _ _ _ _ _ Hp)|done|done|].
      intros p Hp1 Hp2 Hp3. by apply (pub_else _ _ _ _ _ _ _ _ _ Hp). }
    destruct Hm as [-> | ->]; [by left|]. destruct Hor as [-> |[Hf ->]]; [by left|by right]. }
  exact Hgoal.
Qed.

(** C20: without faults the upsert does what it promises: an entry stored
    already is accepted when it is the same recording and refused as a conflict
    when it is not, and a document that would pass the admission ceiling is
    refused, all without touching the card; any other entry becomes the last
    one of the published document. *)
Theorem upsert_exactly_once :
  faultless w ->
  let r := update w in
  match find_entry (e_id e) es with
  | Some (old, _) =>
      w_disk r.2 = w_disk w /\
      r.1 = (if same_recording old e then DEVICE_MANIFEST_OK else DEVICE_MANIFEST_CONFLICT)
  | None =>
      if DEVICE_MANIFEST_ADMISSION_CEILING_BYTES <? zlen (document id t1 (es ++ [e]))
      then w_disk r.2 = w_disk w /\ r.1 = DEVICE_MANIFEST_ERROR
      else r.1 = DEVICE_MANIFEST_OK /\ committed man tmp bak id (document id t1 (es ++ [e])) r.2
  end.
Proof.
  intros Hf. destruct Hnames as [H1 H2 H3 H4 H5 H6]. destruct Hcom as [Hs Hpub].
  pose proof (wp_upsert man tmp bak id H1 H3 H4 H5 H6 (w_disk w) (w_dirty w) t0 t1 es e Hwf He Ht1 w
    H2 Hs Hpub Hh) as H. unfold wp, upsert_outcome in H. cbn zeta.
  destruct (find_entry (e_id e) es) as [[old rest]|] eqn:Hfe.
  - destruct H as [Hk [Hr|[_ Hn]]]; [split; [apply Hk|done]|done].
  - destruct (Z.ltb_spec DEVICE_MANIFEST_ADMISSION_CEILING_BYTES (zlen (document id t1 (es ++ [e])))) as [Hc|Hc].
    + destruct H as [Hk ->]. split; [apply Hk|done].
    + destruct H as [_ [[-> Hp]|[_ Hn]]]; [|done]. split; [done|]. split.
      * unfold sized, RECORDER_MANIFEST_MAX_BYTES, DEVICE_MANIFEST_ADMISSION_CEILING_BYTES in *. lia.
      * destruct Hp. split; try done.
Qed.
End theorems.

(** ** Admission *)

Lemma document_grows id t0 t1 es e :
  manifest_iso8601 t0 = true -> manifest_iso8601 t1 = true -> entry_ok e = true ->
  zlen (document id t1 (es ++ [e])) <= zlen (document id t0 es) + RECORDER_MANIFEST_ENTRY_MAX + 1.
Proof.
  intros [_ H0]%iso_is_text [_ H1]%iso_is_text He. pose proof (entry_text_length e He).
  rewrite <- appended_entry. unfold appended, document, document_head. rewrite !zlen_app.
  assert (zlen t0 = 25 /\ zlen t1 = 25) as [-> ->] by (unfold zlen; lia).
  case_bool_decide; [change (zlen []) with 0|change (zlen (txt ",")) with 1]; lia.
Qed.

Lemma append_fits id t0 es t1 e :
  device_identity_is_valid_uuid id = true -> wf_document t0 es -> manifest_iso8601 t1 = true ->
  zlen (document id t1 (es ++ [e])) <= DEVICE_MANIFEST_ADMISSION_CEILING_BYTES ->
  append_document (document id t0 es) t1 (entry_text e) = Some (document id t1 (es ++ [e])).
Proof.
  intros Hid Hwf Ht1 Hl. pose proof (iso_is_text _ Ht1) as [_ L1].
  rewrite append_document_eq by (done || (unfold zlen; lia)). rewrite appended_entry.
  by rewrite (proj2 (Z.ltb_ge _ _)) by lia.
Qed.

(** C38: the admission check before a recording is enough: when it passes, the
    next two new entries, whatever they are, are both appended; neither
    document is refused at the ceiling. *)
Theorem append_room_suffices man id t0 es w :
  man <> [] -> device_identity_is_valid_uuid id = true -> wf_document t0 es ->
  w_disk w !! man = Some (NFile (document id t0 es)) ->
  (device_manifest_has_append_room man id w).1 = true ->
  forall t1 t2 e1 e2, manifest_iso8601 t1 = true -> manifest_iso8601 t2 = true ->
    entry_ok e1 = true -> entry_ok e2 = true -> find_entry (e_id e1) es = None ->
    append_document (document id t0 es) t1 (entry_text e1) = Some (document id t1 (es ++ [e1])) /\
    append_document (document id t1 (es ++ [e1])) t2 (entry_text e2) = Some (document id t2 (es ++ [e1] ++ [e2])).
Proof.
  intros Hman Hid Hwf Hd Hroom t1 t2 e1 e2 Ht1 Ht2 He1 He2 Hnew.
  assert (Hlen : zlen (document id t0 es) + 2112 <= DEVICE_MANIFEST_ADMISSION_CEILING_BYTES).
  { revert Hroom. assert (Hwp : wp (device_manifest_has_append_room man id) (fun ok _ => ok = true ->
      zlen (document id t0 es) + 2112 <= DEVICE_MANIFEST_ADMISSION_CEILING_BYTES) w); [|exact Hwp].
    unfold device_manifest_has_append_room. apply wp_bind, wp_read_manifest; [done|by intros|].
    intros w' c Hk Hc _. rewrite Hd in Hc. injection Hc as <-. apply wp_ret. intros H. split_bools.
    unfold RECORDER_MANIFEST_ENTRY_MAX, DEVICE_MANIFEST_ADMISSION_CEILING_BYTES in *. lia. }
  pose proof (document_grows id t0 t1 es e1 (wf_stamp _ _ Hwf) Ht1 He1).
  pose proof (document_grows id t1 t2 (es ++ [e1]) e2 Ht1 Ht2 He2). rewrite app_assoc.
  unfold RECORDER_MANIFEST_ENTRY_MAX, DEVICE_MANIFEST_ADMISSION_CEILING_BYTES in *.
  split; apply append_fits; try done; [| |]; unfold DEVICE_MANIFEST_ADMISSION_CEILING_BYTES; try lia.
  by apply (wf_append t0).
Qed.

(** ** A sample card *)

Definition sample_bak : bytes := (RECORDER_MANIFEST_PATH ++ txt ".bak")%list.

Definition sample_card : world :=
  clean_world {[RECORDER_MANIFEST_PATH := NFile (document sample_id sample_stamp [sample_entry first_id])]}.

Definition sample_update : io device_manifest_result_t :=
  device_manifest_upsert_file RECORDER_MANIFEST_PATH RECORDER_MANIFEST_TMP_PATH sample_id sample_stamp
    (entry_text (sample_entry second_id)).

Lemma sample_names :
  manifest_names RECORDER_MANIFEST_PATH RECORDER_MANIFEST_TMP_PATH sample_bak sample_id.
Proof. split; try by apply differ. all: reflexivity. Qed.

Lemma sample_committed :
  committed RECORDER_MANIFEST_PATH RECORDER_MANIFEST_TMP_PATH sample_bak sample_id
    (document sample_id sample_stamp [sample_entry first_id]) sample_card.
Proof.
  split; [vm_compute; discriminate|]. split.
  - apply lookup_singleton_eq.
  - split; apply not_elem_of_empty.
  - intros H. vm_compute in H. discriminate H.
  - left. vm_compute. reflexivity.
  - intros p _ _ _. split; [done|]. intros H. exact H.
Qed.

Lemma sample_honest w : w_faults w = [] -> honest_faults w.
Proof. intros H. unfold honest_faults. rewrite H. constructor. Qed.

(** The card when the new document has been written to the temporary and not
    yet synced, and what is left of it after a power cut there. *)
Definition sample_cut : disk * gset bytes := nth 3 (visited sample_update sample_card) (∅, ∅).
Definition sample_torn : disk := <[RECORDER_MANIFEST_TMP_PATH := NFile (jtxt "{'schemaVer")]> sample_cut.1.

Lemma sample_cut_dirty : RECORDER_MANIFEST_TMP_PATH ∈ sample_cut.2.
Proof. apply (bool_decide_eq_true_1 _). vm_compute. reflexivity. Qed.

Lemma sample_cut_visited : sample_cut ∈ visited sample_update sample_card.
Proof.
  apply list_elem_of_In, nth_In. apply Nat.ltb_lt. vm_compute. reflexivity.
Qed.

Lemma sample_cut_torn : torn sample_cut.1 sample_cut.2 sample_torn.
Proof.
  assert (Hx : sample_cut.2 = {[RECORDER_MANIFEST_TMP_PATH]}) by (apply (bool_decide_eq_true_1 _); vm_compute; reflexivity).
  rewrite Hx. split; intros p Hp.
  - apply lookup_insert_ne. intros <-. by apply Hp, elem_of_singleton.
  - apply elem_of_singleton in Hp as ->. unfold sample_torn. by rewrite lookup_insert_eq.
Qed.

Lemma update_survives_power_cuts_witness :
  RECORDER_MANIFEST_TMP_PATH ∈ sample_cut.2 /\
  (device_manifest_recover_tmp RECORDER_MANIFEST_PATH RECORDER_MANIFEST_TMP_PATH sample_id
     (World sample_torn ∅ [] false [])).1 = true.
Proof.
  split; [exact sample_cut_dirty|].
  exact (proj1 (update_survives_power_cuts _ _ _ _ sample_names sample_stamp sample_stamp
    [sample_entry first_id] (sample_entry second_id) sample_card sample_wf eq_refl eq_refl sample_committed
    (sample_honest sample_card eq_refl) _ _ _ false eq_refl (cut_update sample_cut sample_cut_visited)
    sample_cut_torn)).
Defined.

Lemma upsert_exactly_once_witness :
  faultless sample_card /\ (sample_update sample_card).1 = DEVICE_MANIFEST_OK.
Proof.
  split; [reflexivity|].
  exact (proj1 (upsert_exactly_once _ _ _ _ sample_names sample_stamp sample_stamp
    [sample_entry first_id] (sample_entry second_id) sample_card sample_wf eq_refl eq_refl sample_committed
    (sample_honest sample_card eq_refl) eq_refl)).
Defined.

Lemma append_room_suffices_witness :
  (device_manifest_has_append_room RECORDER_MANIFEST_PATH sample_id sample_card).1 = true /\
  append_document (document sample_id sample_stamp [sample_entry first_id]) sample_stamp
    (entry_text (sample_entry second_id)) =
    Some (document sample_id sample_stamp ([sample_entry first_id] ++ [sample_entry second_id])).
Proof.
  assert (Hroom : (device_manifest_has_append_room RECORDER_MANIFEST_PATH sample_id sample_card).1 = true)
    by (vm_compute; reflexivity).
  split; [exact Hroom|].
  refine (proj1 (append_room_suffices RECORDER_MANIFEST_PATH sample_id sample_stamp [sample_entry first_id]
    sample_card _ eq_refl sample_wf (pub_final _ _ _ _ _ _ _ _ _ (proj2 sample_committed)) Hroom
    sample_stamp sample_stamp (sample_entry second_id) (sample_entry second_id) eq_refl eq_refl eq_refl eq_refl
    eq_refl)).
  by apply differ.
Defined.
