(* ===== verification/ManifestScan.v ===== *)
(** * ManifestScan: the boot scan of finalized recordings ([device_manifest.c])

    [device_manifest_sync_wav_dir] walks the date directories, hashes every
    finalized recording, upserts its entry, and compares the number of entries
    with the number of recordings it indexed. The theorem: a successful scan
    is a complete inventory. *)

From S2P Require Import Prelude Monad Stdio RecorderConfig Sha256 DeviceIdentity WavRecovery ManifestText ManifestDoc ManifestStore ManifestKey ManifestCrash.

(** ** The scan *)

Inductive device_manifest_scan_error_t :=
  | DEVICE_MANIFEST_SCAN_OK
  | DEVICE_MANIFEST_SCAN_INVALID_INPUT
  | DEVICE_MANIFEST_SCAN_DIRECTORY_ERROR
  | DEVICE_MANIFEST_SCAN_WAV_UNREADABLE
  | DEVICE_MANIFEST_SCAN_INDEX_CONFLICT
  | DEVICE_MANIFEST_SCAN_INDEX_WRITE_ERROR
  | DEVICE_MANIFEST_SCAN_MISSING_WAV.

Definition device_manifest_scan_error_name (e : device_manifest_scan_error_t) : bytes :=
  match e with
  | DEVICE_MANIFEST_SCAN_OK => txt "OK"
  | DEVICE_MANIFEST_SCAN_INVALID_INPUT => txt "INVALID_INPUT"
  | DEVICE_MANIFEST_SCAN_DIRECTORY_ERROR => txt "DIRECTORY_ERROR"
  | DEVICE_MANIFEST_SCAN_WAV_UNREADABLE => txt "WAV_UNREADABLE"
  | DEVICE_MANIFEST_SCAN_INDEX_CONFLICT => txt "INDEX_CONFLICT"
  | DEVICE_MANIFEST_SCAN_INDEX_WRITE_ERROR => txt "INDEX_WRITE_ERROR"
  | DEVICE_MANIFEST_SCAN_MISSING_WAV => txt "MISSING_WAV"
  end.

(** The search loop; every find moves past its key. *)
Fixpoint count_keys (fuel : nat) (doc : bytes) (count : Z) : Z :=
  match fuel with
  | O => count
  | S fuel =>
      match memfind doc (jtxt "'recordingId':") with
      | None => count
      | Some p => count_keys fuel (drop 14 p) (u32 (count + 1))
      end
  end.

Definition manifest_recording_count (path device_id : bytes) : io (option Z) :=
  let* doc := read_file_bounded path RECORDER_MANIFEST_MAX_BYTES in
  match doc with
  | None => ret None
  | Some doc =>
      ret (if manifest_snapshot_valid doc device_id then Some (count_keys (S (length doc)) doc 0) else None)
  end.

Definition audience_wav_name (name : bytes) : bool :=
  (5 <=? zlen name) && has_suffix RECORDER_WAV_SUFFIX name && negb (has_suffix RECORDER_PART_SUFFIX name).

Definition split_wav_name (base : bytes) : option bytes :=
  if (zlen base <? 11) || negb (forallb is_digit (take 6 base)) || negb (nth 6 base 0 =? 95) then None
  else Some (take 6 base).

Definition date_dir_has_shape (name : bytes) : bool := date_shape name.

Definition valid_date_dir (name : bytes) : bool :=
  date_dir_has_shape name &&
  valid_calendar_date (digits_at name 0 4 0) (digits_at name 5 2 0) (digits_at name 8 2 0).

(** The counters of a scan, with [s_scan_error]. *)
Record scan_state := ScanState {
  indexed : Z;
  skipped : Z;
  s_scan_error : device_manifest_scan_error_t;
}.

Definition set_error (c : scan_state) (e : device_manifest_scan_error_t) : scan_state :=
  ScanState (indexed c) (skipped c) e.
Definition count_skipped (c : scan_state) : scan_state :=
  ScanState (indexed c) (u32 (skipped c + 1)) (s_scan_error c).
Definition count_indexed (c : scan_state) : scan_state :=
  ScanState (u32 (indexed c + 1)) (skipped c) (s_scan_error c).

(** The start of a recording, from its date directory and its name. *)
Definition started_at (date time6 : bytes) : bytes :=
  (take 4 date ++ txt "-" ++ slice 5 2 date ++ txt "-" ++ slice 8 2 date ++ txt "T" ++ slice 0 2 time6 ++ txt ":" ++
   slice 2 2 time6 ++ txt ":" ++ slice 4 2 time6 ++ txt "+00:00")%list.

(** What [ensure_one_wav] can tell from the names alone: the recording's id
    and start. *)
Definition eligible (date_dir : option bytes) (base : bytes) : option (bytes * bytes) :=
  rec_id ← device_manifest_extract_recording_id base 65;
  if negb (device_identity_is_valid_uuid rec_id) then None else
  date ← date_dir;
  if negb (valid_date_dir date) then None else
  time6 ← split_wav_name base;
  started ← snprintf_fit RECORDER_ISO8601_STR_LEN (started_at date time6);
  if negb (device_manifest_is_valid_iso8601_offset started) then None else Some (rec_id, started).

Definition ensure_one_wav (wav_path rel_filename : bytes) (date_dir : option bytes)
    (base manifest_path tmp_path device_id updated_at state : bytes) (c : scan_state) :
    io (bool * scan_state) :=
  match eligible date_dir base with
  | None => ret (true, count_skipped c)
  | Some (rec_id, started) =>
      let failed e := ret (false, count_skipped (set_error c e)) in
      let* hashed := device_manifest_hash_wav_file wav_path in
      match hashed with
      | None => failed DEVICE_MANIFEST_SCAN_WAV_UNREADABLE
      | Some (sha, size_bytes) =>
          if size_bytes <? RECORDER_WAV_HEADER_SIZE then failed DEVICE_MANIFEST_SCAN_WAV_UNREADABLE else
          let pcm_bytes := size_bytes - RECORDER_WAV_HEADER_SIZE in
          let pcm_bytes := pcm_bytes - pcm_bytes mod RECORDER_BYTES_PER_SAMPLE in
          let duration := device_manifest_duration_ms pcm_bytes in
          let* allocated := malloc in
          if negb allocated then failed DEVICE_MANIFEST_SCAN_INDEX_WRITE_ERROR else
          match device_manifest_build_entry rec_id rel_filename started duration size_bytes sha
                  RECORDER_SAMPLE_RATE_HZ RECORDER_BITS_PER_SAMPLE RECORDER_CHANNELS state None
                  RECORDER_MANIFEST_ENTRY_MAX with
          | None => failed DEVICE_MANIFEST_SCAN_INDEX_WRITE_ERROR
          | Some entry_json =>
              let* r := device_manifest_upsert_file manifest_path tmp_path device_id updated_at entry_json in
              match r with
              | DEVICE_MANIFEST_OK => ret (true, count_indexed c)
              | DEVICE_MANIFEST_CONFLICT => failed DEVICE_MANIFEST_SCAN_INDEX_CONFLICT
              | DEVICE_MANIFEST_ERROR => failed DEVICE_MANIFEST_SCAN_INDEX_WRITE_ERROR
              end
          end
      end
  end.

Definition closedir : io bool := let* f := next_fault in ret (negb (hit f)).

(** How a walk ends: to its end, on a directory error, or on a recording that
    could not be indexed. *)
Inductive walk := WalkDone | WalkDirectoryError | WalkRecordingError.

(** The files of one date directory. *)
Fixpoint walk_date (child date : bytes) (names : list bytes) (failed_readdir : bool)
    (manifest_path tmp_path device_id updated_at state : bytes) (c : scan_state) : io (walk * scan_state) :=
  match names with
  | [] => ret (if failed_readdir then WalkDirectoryError else WalkDone, c)
  | name :: rest =>
      let next c := walk_date child date rest failed_readdir manifest_path tmp_path device_id updated_at state c in
      if is_dot name then next c else
      if negb (audience_wav_name name) then next c else
      match snprintf_fit RECORDER_MAX_PATH_LEN (child ++ txt "/" ++ name)%list,
            snprintf_fit 192 (txt "recordings/" ++ date ++ txt "/" ++ name)%list with
      | Some wav, Some rel =>
          let* (ok, c) := ensure_one_wav wav rel (Some date) name manifest_path tmp_path device_id updated_at state c in
          if negb ok then ret (WalkRecordingError, c) else next c
      | _, _ => ret (WalkDirectoryError, c)
      end
  end.

(** The recordings directory. *)
Fixpoint walk_recordings (recordings_dir : bytes) (names : list bytes) (failed_readdir : bool)
    (manifest_path tmp_path device_id updated_at state : bytes) (c : scan_state) : io (walk * scan_state) :=
  match names with
  | [] => ret (if failed_readdir then WalkDirectoryError else WalkDone, c)
  | name :: rest =>
      let next c := walk_recordings recordings_dir rest failed_readdir manifest_path tmp_path device_id
                      updated_at state c in
      if is_dot name then next c else
      match snprintf_fit RECORDER_MAX_PATH_LEN (recordings_dir ++ txt "/" ++ name)%list with
      | None => ret (WalkDirectoryError, c)
      | Some child =>
          let* st := stat child in
          match st with
          | inl _ => ret (WalkDirectoryError, c)
          | inr n =>
              let is_dir := negb (is_file (Some n)) in
              if date_dir_has_shape name && (negb (valid_date_dir name) || negb is_dir)
              then ret (WalkDirectoryError, c) else
              if is_dir then
                if negb (valid_date_dir name) then next c else
                let* sub := list_dir child in
                match sub with
                | None => ret (WalkDirectoryError, c)
                | Some (subnames, sub_failed) =>
                    let* (r, c) := walk_date child name subnames sub_failed manifest_path tmp_path device_id
                                     updated_at state c in
                    let* closed := closedir in
                    match r with
                    | WalkDone => if negb closed then ret (WalkDirectoryError, c) else next c
                    | r => ret (r, c)
                    end
                end
              else next (if audience_wav_name name then count_skipped c else c)
          end
      end
  end.

Record sync_result := SyncResult {
  sync_ok : bool;
  out_added : Z;
  out_skipped : Z;
  last_scan_error : device_manifest_scan_error_t;
  last_scan_indexed : Z;
}.

Definition sync_failed (e : device_manifest_scan_error_t) (out_skipped : Z) : sync_result :=
  SyncResult false 0 out_skipped e 0.

Definition device_manifest_sync_wav_dir (recordings_dir manifest_path tmp_path device_id updated_at state : bytes) :
    io sync_result :=
  if bool_decide (recordings_dir = []) || bool_decide (manifest_path = []) || bool_decide (tmp_path = []) ||
     negb (device_identity_is_valid_uuid device_id) ||
     negb (device_manifest_is_valid_iso8601_offset updated_at) || negb (is_entry_state state)
  then ret (sync_failed DEVICE_MANIFEST_SCAN_INVALID_INPUT 0) else
  let* before := manifest_recording_count manifest_path device_id in
  match before with
  | None => ret (sync_failed DEVICE_MANIFEST_SCAN_INDEX_WRITE_ERROR 0)
  | Some before_count =>
      let* dir := list_dir recordings_dir in
      match dir with
      | None => ret (sync_failed DEVICE_MANIFEST_SCAN_DIRECTORY_ERROR 0)
      | Some (names, failed_readdir) =>
          let* (r, c) := walk_recordings recordings_dir names failed_readdir manifest_path tmp_path device_id
                           updated_at state (ScanState 0 0 DEVICE_MANIFEST_SCAN_OK) in
          let* closed := closedir in
          match r with
          | WalkDirectoryError => ret (sync_failed DEVICE_MANIFEST_SCAN_DIRECTORY_ERROR 0)
          | WalkRecordingError => ret (sync_failed (s_scan_error c) (skipped c))
          | WalkDone =>
              if negb closed then ret (sync_failed DEVICE_MANIFEST_SCAN_DIRECTORY_ERROR 0) else
              let* after := manifest_recording_count manifest_path device_id in
              match after with
              | None => ret (sync_failed DEVICE_MANIFEST_SCAN_INDEX_WRITE_ERROR 0)
              | Some after_count =>
                  if negb (after_count =? indexed c) || (after_count <? before_count)
                  then ret (sync_failed DEVICE_MANIFEST_SCAN_MISSING_WAV (skipped c))
                  else ret (SyncResult true (u32 (after_count - before_count)) (skipped c) (s_scan_error c) (indexed c))
              end
          end
      end
  end.

(** ** Counting *)

Lemma seek_key_tail k n' e t :
  entry_ok e = true -> t <> [] -> k = txt "recordingId" -> n' = txt ":" ->
  match t with (d :: _) :: _ => negb (d =? 58) | _ => false end = true ->
  seek k n' (drop 2 (entry_body e) ++ t) = seek k n' t.
Proof.
  intros He Ht -> -> Hd. destruct (values_differ e He) as (L1 & L2 & L3 & L4).
  unfold entry_body. cbn [drop app]. repeat seek_step. destruct t as [|[|d q] ts]; [done..|].
  rewrite seek_not_next; [done|]. destruct ts as [|p ts]; [|rewrite join34_cons]; apply starts_other; by split_bools.
Qed.

Lemma seek_recording_key_tail es :
  Forall (fun e => entry_ok e = true) es ->
  seek (txt "recordingId") (txt ":") (tail_pieces es) =
    match es with [] => None | e :: es => Some (entry_body e ++ tail_pieces es)%list end.
Proof.
  intros Hes. destruct es as [|e es]; [reflexivity|]. cbn [tail_pieces].
  change (entry_body e ++ tail_pieces es)%list with
    (txt "recordingId" :: txt ":" :: drop 2 (entry_body e ++ tail_pieces es))%list.
  rewrite seek_not_key by (apply differ; reflexivity).
  rewrite seek_found; [done|]. by destruct es.
Qed.

(** The count from behind a key. *)
Lemma count_keys_behind es : forall e fuel n,
  entry_ok e = true -> Forall (fun e => entry_ok e = true) es -> (length es < fuel)%nat ->
  0 <= n -> n + zlen es < 4294967296 ->
  count_keys fuel (34 :: join34 (drop 2 (entry_body e) ++ tail_pieces es)) n = n + zlen es.
Proof.
  induction es as [|e' es IH]; intros e fuel n He Hes Hf Hn Hb; destruct fuel as [|fuel]; try (cbn in Hf; lia);
    cbn [count_keys];
    change (jtxt "'recordingId':") with (34 :: txt "recordingId" ++ 34 :: txt ":")%list.
  - rewrite memfind_seek by done.
    rewrite seek_text_pieces; [|by apply is_text_noquote|].
    2:{ apply pieces_noquote, Forall_app. split; [by apply Forall_drop, entry_body_text|by apply tail_pieces_text]. }
    rewrite seek_key_tail by done. rewrite zlen_nil. cbn. lia.
  - pose proof Hes as [He' Hes']%Forall_cons. rewrite memfind_seek by done.
    rewrite seek_text_pieces; [|by apply is_text_noquote|].
    2:{ apply pieces_noquote, Forall_app. split; [by apply Forall_drop, entry_body_text|by apply tail_pieces_text]. }
    rewrite seek_key_tail by done. rewrite seek_recording_key_tail by done.
    cbn [fmap option_fmap option_map].
    change (drop 14 (34 :: join34 (entry_body e' ++ tail_pieces es))) with
      (34 :: join34 (drop 2 (entry_body e') ++ tail_pieces es)).
    rewrite zlen_cons in Hb. pose proof (zlen_nonneg es). rewrite u32_small by lia.
    rewrite IH; [rewrite zlen_cons; lia|done|done|cbn in Hf; lia|lia|lia].
Qed.

Lemma count_keys_document id stamp es :
  device_identity_is_valid_uuid id = true -> wf_document stamp es -> zlen es < 4294967296 ->
  count_keys (S (length (document id stamp es))) (document id stamp es) 0 = zlen es.
Proof.
  intros Hid Hwf Hb. pose proof (uuid_is_text _ Hid) as [Tid Lid]. pose proof Hwf as [Hst Hes _].
  pose proof (iso_is_text _ Hst) as [_ Lst]. cbn [count_keys].
  change (jtxt "'recordingId':") with (34 :: txt "recordingId" ++ 34 :: txt ":")%list at 1.
  rewrite document_memfind by (done || by apply is_text_noquote).
  assert (Hs : seek (txt "recordingId") (txt ":") (head_pieces id stamp ++ body_pieces es) =
    match es with [] => None | e :: es => Some (entry_body e ++ tail_pieces es)%list end).
  { rewrite <- seek_recording_key_tail by done.
    assert (id <> txt "recordingId") by (intros Hc; rewrite Hc in Lid; done).
    assert (stamp <> txt "recordingId") by (intros Hc; rewrite Hc in Lst; done).
    unfold head_pieces. cbn [app]. repeat seek_step. destruct es as [|e es]; [reflexivity|]. cbn [body_pieces tail_pieces].
    change (entry_body e ++ tail_pieces es)%list with (txt "recordingId" :: drop 1 (entry_body e ++ tail_pieces es))%list.
    by rewrite !seek_not_key by (apply differ; reflexivity). }
  rewrite Hs. destruct es as [|e es]; [reflexivity|]. cbn [fmap option_fmap option_map].
  apply Forall_cons in Hes as [He Hes].
  change (drop 14 (34 :: join34 (entry_body e ++ tail_pieces es))) with
    (34 :: join34 (drop 2 (entry_body e) ++ tail_pieces es)).
  pose proof (zlen_nonneg es). rewrite zlen_cons in *. pose proof (document_length id stamp (e :: es)).
  rewrite count_keys_behind; [|done|done|cbn in *; lia|done|change (u32 (0 + 1)) with 1; lia].
  change (u32 (0 + 1)) with 1. lia.
Qed.

Lemma wp_recording_count man id w (Q : option Z -> world -> Prop) :
  man <> [] -> device_identity_is_valid_uuid id = true ->
  (forall w', keeps w w' -> Q None w') ->
  (forall w' stamp es, keeps w w' -> w_disk w !! man = Some (NFile (document id stamp es)) ->
     wf_document stamp es -> Q (Some (zlen es)) w') ->
  wp (manifest_recording_count man id) Q w.
Proof.
  intros Hman Hid H1 H2. unfold manifest_recording_count.
  apply wp_bind, wp_read_manifest; [done|intros w' Hk _|intros w' c Hk Hc Hs]; apply wp_ret; [by apply H1|].
  destruct (manifest_snapshot_valid c id) eqn:Hv; [|by apply H1].
  apply snapshot_valid_document in Hv as (stamp & es & -> & Hwf).
  rewrite count_keys_document; [by eapply H2|done|done|].
  pose proof (document_length id stamp es). unfold sized, RECORDER_MANIFEST_MAX_BYTES, zlen in *. lia.
Qed.

(** ** Hashing a recording *)

Lemma wp_finalized_wav_valid path total w :
  wp (finalized_wav_valid path total) (fun ok w' => keeps w w' /\
    (ok = true -> 44 <= total /\ (total - RECORDER_WAV_HEADER_SIZE) mod RECORDER_BLOCK_ALIGN = 0)) w.
Proof.
  unfold finalized_wav_valid. destruct (_ || _) eqn:Hb; [by apply wp_ret|]. split_bools.
  assert (Hok : 44 <= total /\ (total - RECORDER_WAV_HEADER_SIZE) mod RECORDER_BLOCK_ALIGN = 0)
    by (unfold RECORDER_WAV_HEADER_SIZE in *; auto).
  wp_auto; split; eauto using keeps_trans.
Qed.

(** What a digest stands for. *)
Definition hash_of (c hex : bytes) (size : Z) : Prop :=
  hex = sha256_to_hex (sha256_spec c) /\ size = zlen c /\ 44 <= size <= UINT32_MAX /\
  (size - RECORDER_WAV_HEADER_SIZE) mod RECORDER_BLOCK_ALIGN = 0.

Lemma wp_hash_wav_file wav w :
  wp (device_manifest_hash_wav_file wav) (fun r w' => keeps w w' /\
    match r with
    | Some (hex, size) => device_manifest_is_valid_sha256_hex hex = true /\
        exists c, w_disk w !! wav = Some (NFile c) /\ hash_of c hex size
    | None => True
    end) w.
Proof.
  unfold device_manifest_hash_wav_file. destruct (_ || _); [by apply wp_ret|].
  apply wp_bind, wp_stat; [intros w1 e Hk _|intros w1 Hk Hd|intros w1 n Hk Hd]; cbn beta iota; [by apply wp_ret..|].
  destruct n as [c|]; [|by apply wp_ret]. destruct (_ || _) eqn:Hb; [by apply wp_ret|]. split_bools.
  apply wp_bind. eapply wp_mono; [apply wp_finalized_wav_valid|]. intros valid w2 [Hk2 Hv]. cbn beta.
  pose proof (keeps_trans _ _ _ Hk Hk2) as Hk2'.
  destruct valid; cbn [negb]; [|by apply wp_ret]. destruct (Hv eq_refl) as [Hlo Hmod].
  apply wp_bind. eapply wp_mono; [apply wp_sha256_file_hex|]. intros hex w3 (Hk3 & Hh & _). cbn beta.
  pose proof (keeps_trans _ _ _ Hk2' Hk3) as Hk3'.
  destruct hex as [hex|]; [|by apply wp_ret]. destruct (Hh hex eq_refl) as (Hvalid & c' & Hc' & Heq).
  rewrite (keeps_disk _ _ Hk2'), Hd in Hc'. injection Hc' as <-.
  apply wp_bind. eapply wp_mono; [apply wp_stat_any|]. intros r w4 Hk4. cbn beta.
  pose proof (keeps_trans _ _ _ Hk3' Hk4).
  destruct r as [e|[c''|]]; [by apply wp_ret| |by apply wp_ret].
  apply wp_ret. destruct (zlen c'' =? zlen c); [|done]. split_and!; try done. exists c. unfold hash_of. split_and!; try done; unfold RECORDER_WAV_HEADER_SIZE in *; lia.
Qed.

(** ** What the upsert leaves alone *)

Definition only (ps : list bytes) (w w' : world) : Prop := forall p, p ∉ ps -> w_disk w' !! p = w_disk w !! p.

Lemma only_refl ps w : only ps w w.
Proof. done. Qed.

Lemma only_trans ps w1 w2 w3 : only ps w1 w2 -> only ps w2 w3 -> only ps w1 w3.
Proof. intros H1 H2 p Hp. by rewrite H2, H1. Qed.

Lemma only_keeps ps w w1 w2 : only ps w w1 -> keeps w1 w2 -> only ps w w2.
Proof. intros H Hk p Hp. rewrite (keeps_disk _ _ Hk). auto. Qed.

Section alone.
  Context (man tmp bak : bytes).

Abbreviation mine := [man; tmp; bak].

Lemma only_tmp w w' : (forall p, p <> tmp -> w_disk w' !! p = w_disk w !! p) -> only mine w w'.
Proof. intros H p Hp. apply H. set_solver. Qed.

Lemma only_moves ps w w1 d x w2 : only ps w w1 -> moves w1 d x w2 ->
  (forall p, p ∉ ps -> d !! p = w_disk w1 !! p) -> only ps w w2.
Proof. intros H Hm Hd p Hp. rewrite (moves_disk _ _ _ _ Hm), Hd by done. auto. Qed.

Lemma wp_read_keeps path max w : wp (read_file_bounded path max) (fun _ w' => keeps w w') w.
Proof. unfold read_file_bounded, malloc. wp_auto; eauto 10 using keeps_trans, keeps_refl. Qed.

Lemma wp_valid_keeps path id w : wp (manifest_file_valid path id) (fun _ w' => keeps w w') w.
Proof.
  unfold manifest_file_valid. apply wp_bind. eapply wp_mono; [apply wp_read_keeps|].
  intros [doc|] w1 Hk; by apply wp_ret.
Qed.

Lemma wp_extends_keeps new old id w : wp (manifest_file_extends new old id) (fun _ w' => keeps w w') w.
Proof.
  unfold manifest_file_extends. apply wp_bind. eapply wp_mono; [apply wp_read_keeps|].
  intros [doc|] w1 Hk; [|by apply wp_ret]. apply wp_bind. eapply wp_mono; [apply wp_read_keeps|].
  intros [doc'|] w2 Hk2; apply wp_ret; by eapply keeps_trans.
Qed.

Lemma wp_rename_only old new w w0 (Q : option errno -> world -> Prop) :
  old ∈ mine -> new ∈ mine -> only mine w0 w -> (forall e w', only mine w0 w' -> Q e w') -> wp (rename old new) Q w.
Proof.
  intros Ho Hn H HQ. apply wp_rename; [intros w1 e Hk _|intros w1 n _ _ Hm]; apply HQ; [by eapply only_keeps|].
  eapply only_moves; [done|done|]. intros p Hp. rewrite lookup_insert_ne, lookup_delete_ne; [done|set_solver..].
Qed.

Lemma wp_remove_only path w w0 (Q : option errno -> world -> Prop) :
  path ∈ mine -> only mine w0 w -> (forall e w', only mine w0 w' -> Q e w') -> wp (remove path) Q w.
Proof.
  intros Ho H HQ. apply wp_remove; [intros w1 e Hk _|intros w1 n _ Hm]; apply HQ; [by eapply only_keeps|].
  eapply only_moves; [done|done|]. intros p Hp. rewrite lookup_delete_ne; [done|set_solver].
Qed.

Lemma wp_retire_only id w w0 : only mine w0 w -> wp (retire_backup man bak id) (fun _ w' => only mine w0 w') w.
Proof.
  intros H. unfold retire_backup. apply wp_bind. eapply wp_mono; [apply wp_stat_any|]. intros r w1 Hk.
  destruct r as [e|n]; [apply wp_ret; by eapply only_keeps|].
  apply wp_bind. eapply wp_mono; [apply wp_extends_keeps|]. intros ok w2 Hk2.
  assert (H2 : only mine w0 w2) by eauto using only_keeps. destruct ok; cbn [negb]; [|by apply wp_ret].
  apply wp_bind. apply (wp_remove_only bak w2 w0); [set_solver|done|]. intros e w3 H3. by apply wp_ret.
Qed.

Lemma wp_publish_only id b w w0 : only mine w0 w ->
  wp (publish tmp man bak id b) (fun _ w' => only mine w0 w') w.
Proof.
  intros H. unfold publish. apply wp_bind, (wp_rename_only _ _ w w0); [set_solver..|done|]. intros e w1 H1.
  destruct e as [e|].
  2:{ eapply wp_mono; [apply wp_valid_keeps|]. intros; by eapply only_keeps. }
  destruct (_ || _); [by apply wp_ret|]. apply wp_bind, (wp_rename_only _ _ w1 w0); [set_solver..|done|].
  intros [e2|] w2 H2; [by apply wp_ret|]. apply wp_bind, (wp_rename_only _ _ w2 w0); [set_solver..|done|].
  intros [e3|] w3 H3.
  - apply wp_bind. eapply wp_mono; [apply wp_stat_any|]. intros r w4 Hk. pose proof (only_keeps _ _ _ _ H3 Hk) as H4.
    cbn beta. case_bool_decide; [|by apply wp_ret].
    apply wp_bind, (wp_rename_only _ _ w4 w0); [set_solver..|done|]. intros; by apply wp_ret.
  - eapply wp_mono; [apply wp_extends_keeps|]. intros; by eapply only_keeps.
Qed.

Lemma wp_write_only doc w w0 : manifest_backup_path man = Some bak -> only mine w0 w ->
  wp (write_tmp_and_rename tmp man doc) (fun _ w' => only mine w0 w') w.
Proof.
  intros Hbak H. unfold write_tmp_and_rename. destruct (document_device_id doc) as [id|]; [|by apply wp_ret].
  destruct (manifest_snapshot_valid doc id); cbn [negb]; [|by apply wp_ret]. rewrite Hbak.
  apply wp_bind. eapply wp_mono; [by apply wp_retire_only|]. intros ok w1 H1. cbn beta.
  destruct ok; cbn [negb]; [|by apply wp_ret].
  apply wp_bind. eapply wp_mono; [apply wp_stat_any|]. intros r w2 Hk2. pose proof (only_keeps _ _ _ _ H1 Hk2) as H2.
  assert (Hwrite : forall b, wp (let* written := write_tmp tmp doc in
      if negb written then ret false else publish tmp man bak id b) (fun _ w' => only mine w0 w') w2).
  { intros b. apply wp_bind. eapply wp_mono; [apply wp_write_tmp_other|]. intros written w3 H3. cbn beta.
    assert (H3' : only mine w0 w3) by (eapply only_trans; [exact H2|by apply only_tmp]).
    destruct written; cbn [negb]; [by apply wp_publish_only|by apply wp_ret]. }
  destruct r as [e|n]; [|apply Hwrite]. destruct (negb _); [by apply wp_ret|apply Hwrite].
Qed.

(** Only the manifest and its artifacts are written, whatever is on the card
    and whatever fails. *)
Lemma wp_upsert_only id t1 json w :
  manifest_backup_path man = Some bak ->
  wp (device_manifest_upsert_file man tmp id t1 json) (fun _ w' => only mine w w') w.
Proof.
  intros Hbak. unfold device_manifest_upsert_file.
  destruct (_ || _); [by apply wp_ret|]. destruct (negb _); [by apply wp_ret|].
  destruct (negb _); [by apply wp_ret|]. destruct (entry_json_key json) as [k|]; [|by apply wp_ret].
  apply wp_bind. eapply wp_mono; [apply wp_read_keeps|]. intros doc w1 Hk. cbn beta.
  assert (H1 : only mine w w1) by (eapply only_keeps; [apply only_refl|done]).
  destruct doc as [doc|].
  - destruct (negb _); [by apply wp_ret|]. destruct (memfind _ _) as [at_|].
    + unfold probe_stored. apply wp_bind, wp_malloc. intros w2 b Hk2 _. pose proof (only_keeps _ _ _ _ H1 Hk2).
      destruct (negb b); by apply wp_ret.
    + unfold append_entry. destruct (append_document _ _ _) as [fresh|]; [|by apply wp_ret].
      apply wp_bind, wp_malloc. intros w2 b Hk2 _. pose proof (only_keeps _ _ _ _ H1 Hk2).
      destruct (negb b); [by apply wp_ret|]. apply wp_bind. eapply wp_mono; [by apply wp_write_only|].
      intros; by apply wp_ret.
  - unfold create_with_entry. apply wp_bind. eapply wp_mono; [apply wp_stat_any|]. intros r w2 Hk2.
    pose proof (only_keeps _ _ _ _ H1 Hk2) as H2. cbn beta. destruct (negb _); [by apply wp_ret|].
    destruct (snprintf_fit _ _) as [fresh|]; [|by apply wp_ret].
    apply wp_bind, wp_malloc. intros w3 b Hk3 _. pose proof (only_keeps _ _ _ _ H2 Hk3).
    destruct (negb b); [by apply wp_ret|]. apply wp_bind. eapply wp_mono; [by apply wp_write_only|].
    intros; by apply wp_ret.
Qed.
End alone.

(** ** The inventory *)

Lemma iso_valid s : device_manifest_is_valid_iso8601_offset s = true -> manifest_iso8601 s = true.
Proof.
  intros H. unfold manifest_iso8601. rewrite H, andb_true_r.
  unfold device_manifest_is_valid_iso8601_offset in H. by split_bools.
Qed.

(** An entry that builds for a hashed recording is a valid entry. *)
Lemma build_entry_ok rid rel started size sha state json :
  device_manifest_is_valid_sha256_hex sha = true -> 44 <= size <= UINT32_MAX ->
  (size - RECORDER_WAV_HEADER_SIZE) mod RECORDER_BLOCK_ALIGN = 0 ->
  let pcm := size - RECORDER_WAV_HEADER_SIZE in
  device_manifest_build_entry rid rel started
    (device_manifest_duration_ms (pcm - pcm mod RECORDER_BYTES_PER_SAMPLE)) size sha RECORDER_SAMPLE_RATE_HZ
    RECORDER_BITS_PER_SAMPLE RECORDER_CHANNELS state None RECORDER_MANIFEST_ENTRY_MAX = Some json ->
  exists e, entry_ok e = true /\ json = entry_text e /\
    e_id e = rid /\ e_filename e = rel /\ e_sha e = sha /\ e_size e = size.
Proof.
  intros Hsha Hsize Hmod. cbn zeta. unfold device_manifest_build_entry. cbn [from_option].
  rewrite !Z.eqb_refl. cbn [negb orb]. destruct (_ =? 0); [done|].
  destruct (device_identity_is_valid_uuid rid) eqn:Hid; cbn [negb]; [|done].
  destruct (valid_filename rel) eqn:Hfn; cbn [negb]; [|done].
  destruct (device_manifest_is_valid_iso8601_offset started) eqn:Hst; cbn [negb]; [|done].
  rewrite Hsha. cbn [negb]. destruct (is_entry_state state) eqn:Hs; cbn [negb]; [|done].
  destruct (negb _) eqn:Hfw; [done|]. apply negb_false_iff in Hfw. destruct (_ <? _); [done|].
  replace (RECORDER_BYTES_PER_SAMPLE) with RECORDER_BLOCK_ALIGN by reflexivity. rewrite Hmod, Z.sub_0_r.
  intros [-> _]%snprintf_fit_Some. eexists. split; [|by split_and!].
  apply entry_ok_fields. split; cbn [e_id e_filename e_started e_duration e_size e_sha e_state e_firmware]; try done.
  - by apply iso_valid.
  - unfold audio_size_ok. rewrite Hmod, !Z.eqb_refl, !andb_true_r. unfold RECORDER_WAV_HEADER_SIZE. lia.
  - unfold device_manifest_duration_ms, RECORDER_WAV_HEADER_SIZE, UINT32_MAX in *. zlia.
Qed.

Lemma find_entry_in rid l old rest : find_entry rid l = Some (old, rest) -> old ∈ l.
Proof.
  induction l as [|e l IH]; [done|]. cbn. case_bool_decide; [intros [= <- <-]|]; set_solver.
Qed.

(** *** Directory listings *)

Lemma entry_of_path dir p n : entry_of dir p = Some n -> p = (dir ++ [47] ++ n)%list.
Proof.
  unfold entry_of. case_bool_decide as H; [|done]. destruct (_ || _); [done|]. intros [= <-].
  rewrite app_assoc. rewrite <- H at 1. by rewrite take_drop.
Qed.

Lemma entries_nodup dir d : NoDup (entries dir d).
Proof.
  unfold entries. pose proof (NoDup_fst_map_to_list d) as Hnd. induction (map_to_list d) as [|[p n] l IH]; [constructor|].
  cbn in Hnd. apply NoDup_cons in Hnd as [Hp Hnd]. cbn. destruct (entry_of dir p) as [x|] eqn:Hx; [|by apply IH].
  constructor; [|by apply IH]. intros Hin. apply list_elem_of_omap in Hin as ([p' n'] & Hin & Hx').
  apply entry_of_path in Hx as ->. apply entry_of_path in Hx' as Heq. cbn in Heq. subst p'.
  apply Hp. apply list_elem_of_fmap. by exists ((dir ++ [47] ++ x)%list, n').
Qed.

(** Every file of a directory is listed. *)
Lemma entries_in dir d n x :
  d !! (dir ++ txt "/" ++ n)%list = Some x -> n <> [] -> 47 ∉ n -> n ∈ entries dir d.
Proof.
  intros Hd Hn H47. unfold entries. apply list_elem_of_omap. exists ((dir ++ txt "/" ++ n)%list, x).
  split; [by apply elem_of_map_to_list|]. unfold entry_of. cbn [fst]. change (txt "/" ++ n)%list with ([47] ++ n)%list.
  rewrite app_assoc, take_app_length, drop_app_length. rewrite bool_decide_eq_true_2 by done.
  by rewrite !bool_decide_eq_false_2.
Qed.

Lemma wp_list_dir_names path w :
  wp (list_dir path) (fun r w' => keeps w w' /\
    match r with
    | Some (names, failed) => NoDup names /\ (failed = false -> names = entries path (w_disk w))
    | None => True
    end) w.
Proof.
  unfold list_dir. wp_prim. destruct (hit f); [by wp_prim|].
  destruct (w_disk w0 !! path) as [[c|]|]; try by wp_prim. wp_prim. split; [by eapply keeps_trans|].
  rewrite (keeps_disk _ _ Hk). destruct f0; [|split; [apply entries_nodup|done]]. split; [|done].
  apply sublist_NoDup with (entries path (w_disk w)); [apply entries_nodup|]. apply sublist_take.
Qed.

(** A recording is named by its date directory and its file name. *)
Abbreviation recording := (bytes * bytes)%type.

Definition rel_of (f : recording) : bytes := (txt "recordings/" ++ f.1 ++ txt "/" ++ f.2)%list.
Definition wav_of (recordings_dir : bytes) (f : recording) : bytes :=
  ((recordings_dir ++ txt "/" ++ f.1) ++ txt "/" ++ f.2)%list.

Lemma rel_of_inj f g : length f.1 = length g.1 -> rel_of f = rel_of g -> f = g.
Proof.
  destruct f as [d n], g as [d' n']. unfold rel_of. cbn [fst snd]. intros Hl H.
  apply app_inv_head in H. apply app_inj_1 in H as [-> H]; [|done]. by apply app_inv_head in H as ->.
Qed.

(** The entry [e] describes the recording [f] of the card [w]. *)
Definition describes (recordings_dir : bytes) (w : world) (f : recording) (e : entry) : Prop :=
  e_filename e = rel_of f /\
  exists c, w_disk w !! wav_of recordings_dir f = Some (NFile c) /\ hash_of c (e_sha e) (e_size e).

(** A recording no inventory may miss: a canonical name in a date directory. *)
Record indexable (recordings_dir : bytes) (w : world) (f : recording) : Prop := Indexable {
  ix_date : valid_date_dir f.1 = true;
  ix_dir : w_disk w !! (recordings_dir ++ txt "/" ++ f.1)%list = Some NDir;
  ix_wav : audience_wav_name f.2 = true;
  ix_name : 47 ∉ f.2;
  ix_file : is_Some (w_disk w !! wav_of recordings_dir f);
  ix_eligible : is_Some (eligible (Some f.1) f.2);
}.

Lemma valid_date_length name : valid_date_dir name = true -> length name = 10%nat.
Proof. unfold valid_date_dir, date_dir_has_shape, date_shape. intros H. split_bools. by apply Nat.eqb_eq. Qed.

Lemma valid_date_text name : valid_date_dir name = true -> 47 ∉ name.
Proof.
  intros H Hin. pose proof (valid_date_length _ H) as Hl. apply list_elem_of_lookup in Hin as [i Hi].
  pose proof (lookup_lt_Some _ _ _ Hi) as Hlt. apply (nth_lookup_Some _ _ 0) in Hi.
  unfold valid_date_dir, date_dir_has_shape, date_shape in H. split_bools.
  match goal with H : forallb _ (seq 0 10) = true |- _ => rewrite forallb_forall in H; specialize (H i); rename H into Hall end.
  rewrite Hi in Hall. unfold is_true in Hall. specialize (Hall ltac:(apply in_seq; lia)).
  rewrite orb_false_r in Hall. apply orb_prop in Hall as [->%Nat.eqb_eq| ->%Nat.eqb_eq]; rewrite Hi in *; discriminate.
Qed.

Lemma not_dot name : (2 < length name)%nat -> is_dot name = false.
Proof.
  intros H. unfold is_dot. destruct name as [|a [|b [|c name]]]; cbn in H; try lia.
  apply orb_false_intro; apply bool_decide_eq_false_2; discriminate.
Qed.

Lemma audience_length name : audience_wav_name name = true -> (2 < length name)%nat.
Proof. unfold audience_wav_name, zlen. intros H. split_bools. lia. Qed.

Lemma nodup_map_inj {A B} (f : A -> B) l x y : NoDup (map f l) -> x ∈ l -> y ∈ l -> f x = f y -> x = y.
Proof.
  induction l as [|a l IH]; cbn; [by intros _ ?%elem_of_nil|].
  intros [Ha Hl]%NoDup_cons [->|Hx]%elem_of_cons [->|Hy]%elem_of_cons Hf; try done.
  - exfalso. apply Ha. rewrite Hf. apply list_elem_of_fmap. by exists y.
  - exfalso. apply Ha. rewrite <- Hf. apply list_elem_of_fmap. by exists x.
  - by apply IH.
Qed.

Lemma pigeonhole {A} (l k : list A) :
  NoDup l -> (forall x, x ∈ l -> x ∈ k) -> (length k <= length l)%nat -> NoDup k /\ forall x, x ∈ k -> x ∈ l.
Proof.
  intros Hl Hin Hlen. apply NoDup_ListNoDup in Hl.
  assert (Hincl : incl l k) by (intros x Hx; apply list_elem_of_In, Hin; by apply list_elem_of_In). split.
  - apply NoDup_ListNoDup. by eapply NoDup_incl_NoDup.
  - intros x Hx. apply list_elem_of_In. apply (NoDup_length_incl Hl Hlen Hincl). by apply list_elem_of_In.
Qed.

Lemma same_file a b : Some (NFile a) = Some (NFile b) -> a = b.
Proof. congruence. Qed.

(** A document has one reading. *)
Lemma document_inj id t es t' es' :
  device_identity_is_valid_uuid id = true -> wf_document t es -> wf_document t' es' ->
  document id t es = document id t' es' -> t = t' /\ es = es'.
Proof.
  intros [Hid _]%uuid_is_text Hwf Hwf' Heq.
  pose proof (manifest_snapshot_document id t es Hid Hwf) as H.
  rewrite Heq, manifest_snapshot_document in H by done. split; congruence.
Qed.

Section inventory.
  Context (rd man tmp bak id t1 state : bytes) (Hnames : manifest_names man tmp bak id).
  Context (Ht1 : manifest_iso8601 t1 = true).
  Context (Hrd : forall p, (rd ++ txt "/" ++ p)%list ∉ [man; tmp; bak]).
  Context (w0 : world) (es0 : list entry).

(** The scan so far: the recordings seen are described by the committed
    manifest, which extends the first one, and nothing else was touched. *)
Record scanned (seen : list recording) (c : scan_state) (w : world) : Prop := Scanned {
  sc_manifest : exists t es, committed man tmp bak id (document id t es) w /\ wf_document t es /\
    es0 `prefix_of` es /\ forall f, f ∈ seen -> exists e, e ∈ es /\ describes rd w0 f e;
  sc_nodup : NoDup seen;
  sc_dates : Forall (fun f => length f.1 = 10%nat) seen;
  sc_indexed : indexed c = u32 (zlen seen);
  sc_only : only [man; tmp; bak] w0 w;
  sc_honest : honest_faults w;
}.

Lemma wav_apart f : wav_of rd f ∉ [man; tmp; bak].
Proof. unfold wav_of. rewrite <- !app_assoc. apply Hrd. Qed.

Lemma committed_keeps m w w' : committed man tmp bak id m w -> keeps w w' -> committed man tmp bak id m w'.
Proof.
  intros [Hs [H1 H2 H3 H4 H5]] Hk. split; [done|]. rewrite (keeps_disk _ _ Hk), (keeps_dirty _ _ Hk).
  by split.
Qed.

Lemma committed_published m d0 x0 w : sized m ->
  published man tmp bak id d0 x0 m (w_disk w) (w_dirty w) -> committed man tmp bak id m w.
Proof. intros Hs [H1 H2 H3 H4 H5]. split; [done|]. by split. Qed.

Lemma scanned_keeps seen c w w' : scanned seen c w -> keeps w w' -> scanned seen c w'.
Proof.
  intros [(t & es & Hc & H) H2 H3 H4 H5 H6] Hk. split; try done.
  - exists t, es. split; [by eapply committed_keeps|done].
  - by eapply only_keeps.
  - by apply (keeps_honest _ _ Hk).
Qed.

Lemma scanned_counters seen c c' w : scanned seen c w -> indexed c' = indexed c -> scanned seen c' w.
Proof. intros [] Hi. split; try done. congruence. Qed.

Lemma u32_snoc (seen : list recording) f : u32 (u32 (zlen seen) + 1) = u32 (zlen (f :: seen)).
Proof. rewrite u32_add_l, zlen_cons. f_equal. lia. Qed.

(** One recording. *)
Lemma wp_ensure_one seen c f w :
  scanned seen c w -> f ∉ seen -> length f.1 = 10%nat ->
  wp (ensure_one_wav (wav_of rd f) (rel_of f) (Some f.1) f.2 man tmp id t1 state c)
    (fun '(ok, c') w' => ok = true ->
       eligible (Some f.1) f.2 = None /\ scanned seen c' w' \/ scanned (f :: seen) c' w') w.
Proof.
  intros Hsc Hnew Hdate. unfold ensure_one_wav.
  destruct (eligible _ _) as [[rid started]|]; [|apply wp_ret; left; split; [done|by eapply scanned_counters]].
  apply wp_bind. eapply wp_mono; [apply wp_hash_wav_file|]. intros [[sha size]|] w1 [Hk Hh]; cbn beta iota;
    [|by apply wp_ret]. destruct Hh as (Hsha & c0 & Hc0 & Hhash).
  destruct (_ <? _); [by apply wp_ret|]. apply wp_bind, wp_malloc. intros w2 b Hk2 _.
  destruct b; cbn [negb]; [|by apply wp_ret]. pose proof (keeps_trans _ _ _ Hk Hk2) as Hk12.
  pose proof (scanned_keeps _ _ _ _ Hsc Hk12) as Hsc2.
  destruct (device_manifest_build_entry _ _ _ _ _ _ _ _ _ _ _ _) as [json|] eqn:Hb; [|by apply wp_ret].
  pose proof Hhash as (_ & _ & Hsize & Hmod).
  destruct (build_entry_ok _ _ _ _ _ _ _ Hsha Hsize Hmod Hb) as (e & He & -> & Hid & Hfn & Hes & Hez).
  destruct (sc_manifest _ _ _ Hsc2) as (t & es & Hcom & Hwf & Hpre & Hall).
  destruct Hnames as [N1 N2 N3 N4 N5 N6]. destruct Hcom as [Hs Hpub].
  apply wp_bind. eapply wp_mono; [apply wp_and; [apply (wp_upsert man tmp bak id N1 N3 N4 N5 N6 (w_disk w2) (w_dirty w2)
    t t1 es e Hwf He Ht1 w2 N2 Hs Hpub (sc_honest _ _ _ Hsc2))|apply (wp_upsert_only man tmp bak id t1 (entry_text e) w2 N5)]|].
  intros r w3 [Hout Honly]. destruct r; [|by apply wp_ret..]. apply wp_ret. intros _. right.
  assert (Hdesc : forall e', e_filename e' = rel_of f -> e_sha e' = sha -> e_size e' = size -> describes rd w0 f e').
  { intros e' H1 H2 H3. split; [done|]. exists c0. rewrite H2, H3. split; [|done].
    rewrite <- (sc_only _ _ _ Hsc); [done|apply wav_apart]. }
  assert (Hdoc : exists t' es', committed man tmp bak id (document id t' es') w3 /\ wf_document t' es' /\
    es `prefix_of` es' /\ (exists e', e' ∈ es' /\ describes rd w0 f e') /\ honest_faults w3).
  { unfold upsert_outcome in Hout. destruct (find_entry (e_id e) es) as [[old rest]|] eqn:Hfe.
    - destruct Hout as [Hk3 [Hr|[? _]]]; [|done]. destruct (same_recording old e) eqn:Hsame; [|done].
      exists t, es. split; [by eapply committed_keeps|]. split; [done|]. split; [done|]. split.
      + exists old. split; [by eapply find_entry_in|]. unfold same_recording in Hsame. split_bools.
        apply Hdesc; congruence.
      + apply (keeps_honest _ _ Hk3), (sc_honest _ _ _ Hsc2).
    - destruct (Z.ltb_spec DEVICE_MANIFEST_ADMISSION_CEILING_BYTES (zlen (document id t1 (es ++ [e]))));
        [by destruct Hout|]. destruct Hout as [[_ [Hl _]] [[_ Hp]|[? _]]]; [|done].
      exists t1, (es ++ [e])%list. split; [|split; [by apply (wf_append t)|
        split; [by apply prefix_app_r|split]]].
      + eapply committed_published; [|exact Hp]. unfold sized, RECORDER_MANIFEST_MAX_BYTES, DEVICE_MANIFEST_ADMISSION_CEILING_BYTES in *. lia.
      + exists e. split; [set_solver|]. by apply Hdesc.
      + apply Hl, (sc_honest _ _ _ Hsc2). }
  destruct Hdoc as (t' & es' & Hcom' & Hwf' & Hpre' & Hf & Hh3). split.
  - exists t', es'. split; [done|]. split; [done|]. split; [by transitivity es|].
    intros g [->|Hg]%elem_of_cons; [done|]. destruct (Hall g Hg) as (e' & He' & Hd'). exists e'. split; [|done].
    by eapply elem_of_prefix.
  - by constructor; [|apply Hsc].
  - by constructor; [|apply Hsc].
  - cbn [count_indexed indexed]. rewrite (sc_indexed _ _ _ Hsc). apply u32_snoc.
  - eapply only_trans; [apply Hsc2|done].
  - done.
Qed.

Lemma snprintf_path n s s' : snprintf_fit n s = Some s' -> s' = s.
Proof. by intros [-> _]%snprintf_fit_Some. Qed.

(** What a complete walk over [mine] leaves: nothing seen is forgotten, only
    recordings of [mine] are new, and every indexable one of them is seen. *)
Definition walked (mine : recording -> Prop) (seen : list recording) (failed : bool) (r : walk * scan_state)
    (w : world) : Prop :=
  r.1 = WalkDone -> failed = false /\ exists seen', scanned seen' r.2 w /\
    (forall f, f ∈ seen -> f ∈ seen') /\ (forall f, f ∈ seen' -> f ∈ seen \/ mine f) /\
    forall f, indexable rd w0 f -> mine f -> f ∈ seen'.

Lemma walked_more (mine mine' : recording -> Prop) seen seen2 failed r w :
  walked mine seen failed r w ->
  (forall f, f ∈ seen2 -> f ∈ seen) -> (forall f, f ∈ seen -> f ∈ seen2 \/ mine' f) ->
  (forall f, mine f -> mine' f) -> (forall f, indexable rd w0 f -> mine' f -> mine f \/ f ∈ seen) ->
  walked mine' seen2 failed r w.
Proof.
  intros H H1 H2 H3 H4 Hr. destruct (H Hr) as (Hf & seen' & Hs & Ha & Hb & Hc). split; [done|].
  exists seen'. split; [done|]. split; [auto|]. split; intros f Hi; [|intros Hm; destruct (H4 f Hi Hm); auto].
  destruct (Hb f Hi) as [Hin|]; [destruct (H2 f Hin)|]; auto.
Qed.

Lemma walked_end mine seen failed c w :
  scanned seen c w -> (forall f, indexable rd w0 f -> ~ mine f) ->
  walked mine seen failed (if failed then WalkDirectoryError else WalkDone, c) w.
Proof.
  intros Hsc Hm Hr. destruct failed; [done|]. split; [done|]. exists seen. split; [done|]. split; [done|].
  split; [auto|]. intros f Hi Hf. by destruct (Hm f Hi).
Qed.

Lemma walked_failed mine seen failed r c w : r <> WalkDone -> walked mine seen failed (r, c) w.
Proof. by intros Hr ?. Qed.

(** The files of a date directory. *)
Lemma wp_walk_date date failed names : forall seen c w,
  length date = 10%nat -> NoDup names -> scanned seen c w ->
  (forall f, f ∈ seen -> f.1 = date -> f.2 ∉ names) ->
  wp (walk_date (rd ++ txt "/" ++ date) date names failed man tmp id t1 state c)
    (walked (fun f => f.1 = date /\ f.2 ∈ names) seen failed) w.
Proof.
  induction names as [|name names IH]; intros seen c w Hdate Hnd Hsc Hnew; cbn [walk_date].
  { apply wp_ret, walked_end; [done|]. by intros f _ [_ ?%elem_of_nil]. }
  apply NoDup_cons in Hnd as [Hname Hnd].
  assert (Hskip : forall w' c', scanned seen c' w' -> ~ indexable rd w0 (date, name) ->
    wp (walk_date (rd ++ txt "/" ++ date) date names failed man tmp id t1 state c')
      (walked (fun f => f.1 = date /\ f.2 ∈ name :: names) seen failed) w').
  { intros w' c' Hsc' Hno. eapply wp_mono; [apply IH; [done|done|exact Hsc'|]|].
    - intros f Hf Hd Hin. apply (Hnew f Hf Hd). set_solver.
    - intros r w2 H. apply (walked_more _ _ _ _ _ _ _ H); [auto|auto|set_solver|].
      intros [d n] Hi [Hd [Hn|Hn]%elem_of_cons]; cbn in *; subst; [by destruct Hno|by left]. }
  destruct (is_dot name) eqn:Hdot.
  { apply Hskip; [done|]. intros Hi. rewrite not_dot in Hdot; [done|]. apply audience_length, Hi. }
  destruct (audience_wav_name name) eqn:Hwavname; cbn [negb].
  2:{ apply Hskip; [done|]. intros Hi. pose proof (ix_wav _ _ _ Hi). cbn in *. congruence. }
  destruct (snprintf_fit RECORDER_MAX_PATH_LEN _) as [wav|] eqn:Hwav; [|by apply wp_ret, walked_failed].
  destruct (snprintf_fit 192 _) as [rel|] eqn:Hrel; [|by apply wp_ret, walked_failed].
  apply snprintf_path in Hwav as ->. apply snprintf_path in Hrel as ->.
  change ((rd ++ txt "/" ++ date) ++ txt "/" ++ name)%list with (wav_of rd (date, name)).
  change (txt "recordings/" ++ date ++ txt "/" ++ name)%list with (rel_of (date, name)).
  assert (Hfresh : (date, name) ∉ seen) by (intros Hin; apply (Hnew _ Hin eq_refl); set_solver).
  apply wp_bind. eapply wp_mono; [apply (wp_ensure_one seen c (date, name)); done|].
  intros [ok c'] w' Hok. cbn beta iota. destruct ok; cbn [negb]; [|by apply wp_ret, walked_failed].
  destruct (Hok eq_refl) as [[Hel Hsc']|Hsc'].
  { apply Hskip; [done|]. intros Hi. destruct (ix_eligible _ _ _ Hi). congruence. }
  eapply wp_mono; [apply (IH ((date, name) :: seen) c' w'); try done|].
  - intros f [->|Hf]%elem_of_cons Hd; [done|]. intros Hin. apply (Hnew f Hf Hd). set_solver.
  - intros r w2 H. apply (walked_more _ _ _ _ _ _ _ H); [set_solver| |set_solver|].
    + intros f [->|Hf]%elem_of_cons; [right; set_solver|by left].
    + intros [d n] Hi [Hd [Hn|Hn]%elem_of_cons]; cbn in *; [right|by left]. subst. set_solver.
Qed.

Lemma scanned_lookup seen c w p : scanned seen c w -> w_disk w !! (rd ++ txt "/" ++ p)%list = w_disk w0 !! (rd ++ txt "/" ++ p)%list.
Proof. intros Hsc. by apply (sc_only _ _ _ Hsc), Hrd. Qed.

(** The listing of a date directory holds its indexable recordings. *)
Lemma listed_indexable seen c w names date f :
  scanned seen c w -> names = entries (rd ++ txt "/" ++ date) (w_disk w) -> indexable rd w0 f -> f.1 = date ->
  f.2 ∈ names.
Proof.
  intros Hsc -> [_ _ Hw Hn [x Hx] _] <-. apply (entries_in _ _ _ x); [|intros E; rewrite E in Hw; discriminate Hw|done].
  change (wav_of rd f) with ((rd ++ txt "/" ++ f.1) ++ txt "/" ++ f.2)%list in Hx.
  rewrite <- !app_assoc in *. by rewrite (scanned_lookup _ _ _ _ Hsc).
Qed.

(** The whole tree. *)
Lemma wp_walk_recordings failed names : forall seen c w,
  NoDup names -> scanned seen c w -> (forall f, f ∈ seen -> f.1 ∉ names) ->
  wp (walk_recordings rd names failed man tmp id t1 state c) (walked (fun f => f.1 ∈ names) seen failed) w.
Proof.
  induction names as [|name names IH]; intros seen c w Hnd Hsc Hnew; cbn [walk_recordings].
  { apply wp_ret, walked_end; [done|]. by intros f _ ?%elem_of_nil. }
  apply NoDup_cons in Hnd as [Hname Hnd].
  assert (Hskip : forall w' c', scanned seen c' w' -> (forall f, indexable rd w0 f -> f.1 <> name) ->
    wp (walk_recordings rd names failed man tmp id t1 state c')
      (walked (fun f => f.1 ∈ name :: names) seen failed) w').
  { intros w' c' Hsc' Hno. eapply wp_mono; [apply (IH seen); [done|exact Hsc'|]|].
    - intros f Hf Hin. apply (Hnew f Hf). set_solver.
    - intros r w2 H. apply (walked_more _ _ _ _ _ _ _ H); [auto|auto|set_solver|].
      intros f Hi [Hn|Hn]%elem_of_cons; [by destruct (Hno f Hi)|by left]. }
  destruct (is_dot name) eqn:Hdot.
  { apply Hskip; [done|]. intros f Hi Hf. rewrite not_dot in Hdot; [done|].
    rewrite <- Hf, (valid_date_length _ (ix_date _ _ _ Hi)). lia. }
  destruct (snprintf_fit _ _) as [child|] eqn:Hchild; [|by apply wp_ret, walked_failed].
  apply snprintf_path in Hchild as ->.
  apply wp_bind, wp_stat; [intros w1 e Hk _; by apply wp_ret, walked_failed|
    intros w1 Hk _; by apply wp_ret, walked_failed|intros w1 n Hk Hn]; cbn beta iota.
  rewrite (scanned_lookup _ _ _ _ Hsc) in Hn. pose proof (scanned_keeps _ _ _ _ Hsc Hk) as Hsc1.
  destruct (_ && _); [by apply wp_ret, walked_failed|]. destruct (negb (is_file _)) eqn:Hdir.
  2:{ apply Hskip; [destruct (audience_wav_name name); [by eapply scanned_counters|done]|].
      intros f Hi Hf. pose proof (ix_dir _ _ _ Hi) as Hd. rewrite Hf, Hn in Hd. by injection Hd as ->. }
  destruct (valid_date_dir name) eqn:Hdate; cbn [negb].
  2:{ apply Hskip; [done|]. intros f Hi Hf. pose proof (ix_date _ _ _ Hi). congruence. }
  apply wp_bind. eapply wp_mono; [apply wp_list_dir_names|]. intros [[subs sub_failed]|] w2 [Hk2 Hnds]; cbn beta iota;
    [|by apply wp_ret, walked_failed]. destruct Hnds as [Hnds Hsubs].
  pose proof (scanned_keeps _ _ _ _ Hsc1 Hk2) as Hsc2.
  apply wp_bind. eapply wp_mono; [apply (wp_walk_date name sub_failed subs seen); try done; [by apply valid_date_length|]|].
  { intros f Hf Hd. exfalso. apply (Hnew f Hf). rewrite Hd. set_solver. }
  intros [r c'] w3 Hr. cbn beta iota. apply wp_bind. unfold closedir. wp_prim.
  destruct r; [|by apply wp_ret, walked_failed..]. destruct (negb (negb (hit f))); [by apply wp_ret, walked_failed|].
  destruct (Hr eq_refl) as (-> & seen' & Hs' & Hold & Hin & Hmine).
  eapply wp_mono; [apply (IH seen'); [done|by eapply scanned_keeps|]|].
  - intros g Hg. destruct (Hin g Hg) as [H|[-> _]]; [|done]. intros Hn'. apply (Hnew g H). set_solver.
  - intros r w5 H. apply (walked_more _ _ _ _ _ _ _ H); [done| |set_solver|].
    + intros g Hg. destruct (Hin g Hg) as [?|[-> _]]; [by left|right; set_solver].
    + intros g Hi [Hn'|Hn']%elem_of_cons; [right|by left]. apply Hmine; [done|]. split; [done|].
      by apply (listed_indexable _ _ _ _ name _ Hsc1 (Hsubs eq_refl)).
Qed.

Lemma indexable_before seen c w f : scanned seen c w -> indexable rd w f -> indexable rd w0 f.
Proof.
  intros Hsc [H1 H2 H3 H4 H5 H6]. split; try done; [by rewrite <- (scanned_lookup _ _ _ _ Hsc)|].
  by rewrite <- (sc_only _ _ _ Hsc) by apply wav_apart.
Qed.

(** As many entries as recordings seen: each entry is one of them. *)
Lemma inventory_pigeonhole seen es w c :
  scanned seen c w -> (forall f, f ∈ seen -> exists e, e ∈ es /\ describes rd w0 f e) ->
  zlen es = u32 (zlen seen) -> zlen es < 4294967296 ->
  length es = length seen /\ NoDup (map e_filename es) /\
  forall e, e ∈ es -> exists f, describes rd w0 f e.
Proof.
  intros Hsc Hall Hcount Hsmall.
  assert (Hrels : NoDup (map rel_of seen)).
  { apply NoDup_fmap_2_strong; [|apply Hsc]. intros f g Hf Hg. apply rel_of_inj.
    pose proof (sc_dates _ _ _ Hsc) as Hd. rewrite Forall_forall in Hd. by rewrite (Hd f Hf), (Hd g Hg). }
  assert (Hin : forall x, x ∈ map rel_of seen -> x ∈ map e_filename es).
  { intros x (f & -> & Hf)%list_elem_of_fmap. destruct (Hall f Hf) as (e & He & <- & _).
    apply list_elem_of_fmap. by exists e. }
  assert (Hle : (length seen <= length es)%nat).
  { pose proof (NoDup_incl_length (proj1 (NoDup_ListNoDup _) Hrels) (l' := map e_filename es)) as H.
    rewrite !length_map in H. apply H. intros x Hx. apply list_elem_of_In, Hin. by apply list_elem_of_In. }
  assert (Hlen : length es = length seen) by (rewrite u32_small in Hcount by (unfold zlen in *; lia); unfold zlen in *; lia).
  destruct (pigeonhole (map rel_of seen) (map e_filename es) Hrels Hin) as [Hnd Hback]; [rewrite !length_map; lia|].
  split; [done|]. split; [done|]. intros e He.
  destruct (proj1 (list_elem_of_fmap _ _ _) (Hback (e_filename e) ltac:(apply list_elem_of_fmap; by exists e)))
    as (f & Hf & Hseen).
  destruct (Hall f Hseen) as (e' & He' & Hd'). exists f.
  assert (e' = e) as <-; [|done]. apply (nodup_map_inj e_filename es); try done. destruct Hd' as [-> _]. done.
Qed.

(** The count decides: a scan that saw every indexable recording and as many
    recordings as there are entries has the inventory. *)
Lemma scanned_inventory seen c w stamp es :
  scanned seen c w -> w_disk w !! man = Some (NFile (document id stamp es)) -> wf_document stamp es ->
  zlen es = indexed c -> (forall f, indexable rd w0 f -> f ∈ seen) ->
  exists t es', committed man tmp bak id (document id t es') w /\ wf_document t es' /\ es0 `prefix_of` es' /\
    u32 (zlen es - zlen es0) = zlen es' - zlen es0 /\ indexed c = zlen es' /\ NoDup (map e_filename es') /\
    (forall e, e ∈ es' -> exists f, describes rd w f e) /\
    forall f, indexable rd w f -> exists e, e ∈ es' /\ describes rd w f e.
Proof.
  intros Hsc Hd Hwf Hcount Hidx. destruct Hnames as [_ _ _ _ _ N6].
  destruct (sc_manifest _ _ _ Hsc) as (t & es' & Hcom & Hwf' & Hpre & Hall). pose proof Hcom as [Hs Hpub].
  assert (es' = es) as ->.
  { rewrite (pub_final _ _ _ _ _ _ _ _ _ Hpub) in Hd. by apply same_file in Hd as [_ ->]%(document_inj id). }
  assert (Hsmall : zlen es < 4294967296).
  { pose proof (document_length id t es). unfold sized, RECORDER_MANIFEST_MAX_BYTES, zlen in *. lia. }
  pose proof Hcount as Hseen. rewrite (sc_indexed _ _ _ Hsc) in Hseen.
  destruct (inventory_pigeonhole seen es w c Hsc Hall Hseen Hsmall) as (Hlen & Hfn & Hdesc).
  assert (zlen es0 <= zlen es) by (destruct Hpre as [k ->]; rewrite zlen_app; pose proof (zlen_nonneg k); lia).
  assert (Hlater : forall f e, describes rd w0 f e -> describes rd w f e).
  { intros g e [Hf1 (c0 & Hc0 & Hh0)]. split; [done|]. exists c0. split; [|done].
    by rewrite (sc_only _ _ _ Hsc) by apply wav_apart. }
  exists t, es. do 3 (split; [done|]). split; [apply u32_small; pose proof (zlen_nonneg es0); lia|].
  split; [done|]. split; [done|]. split; [intros e He; destruct (Hdesc e He) as (g & Hg); eauto|].
  intros g Hg. apply (indexable_before _ _ _ _ Hsc) in Hg.
  destruct (Hall g (Hidx g Hg)) as (e & He & Hde). by exists e; eauto.
Qed.

(** C14: a successful scan is a complete inventory. Whatever fails on the way,
    when the scan reports success the committed manifest extends the one it
    began with by exactly the number of entries it reports; every canonical
    recording of the card has an entry with its size and its SHA-256, and every
    entry, old or new, names a recording that is on the card with the size and
    the SHA-256 the entry gives, no two entries the same one; nothing on the
    card but the manifest and its artifacts was changed. *)
Theorem sync_inventory_complete t0 :
  committed man tmp bak id (document id t0 es0) w0 -> wf_document t0 es0 -> honest_faults w0 -> rd <> [] ->
  is_entry_state state = true ->
  wp (device_manifest_sync_wav_dir rd man tmp id t1 state)
    (fun r w' => sync_ok r = true ->
       only [man; tmp; bak] w0 w' /\
       exists t es, committed man tmp bak id (document id t es) w' /\ wf_document t es /\
         es0 `prefix_of` es /\ out_added r = zlen es - zlen es0 /\ last_scan_indexed r = zlen es /\
         NoDup (map e_filename es) /\
         (forall e, e ∈ es -> exists f, describes rd w' f e) /\
         forall f, indexable rd w' f -> exists e, e ∈ es /\ describes rd w' f e) w0.
Proof.
  intros Hcom Hwf Hh Hrd0 Hst. destruct Hnames as [N1 N2 N3 N4 N5 N6].
  unfold device_manifest_sync_wav_dir. rewrite !bool_decide_eq_false_2 by done. rewrite N6, Hst.
  assert (Hiso := Ht1). unfold manifest_iso8601 in Hiso. apply andb_prop in Hiso as [_ Hiso]. rewrite Hiso.
  cbn [negb orb].
  assert (Hsc0 : scanned [] (ScanState 0 0 DEVICE_MANIFEST_SCAN_OK) w0).
  { split; try done; [|constructor..]. exists t0, es0. split; [done|]. split; [done|]. split; [done|]. set_solver. }
  apply wp_bind, wp_recording_count; [done|done|by intros; apply wp_ret|intros w1 stamp0 es Hk1 Hd Hwf0].
  destruct Hcom as [Hs Hpub]. rewrite (pub_final _ _ _ _ _ _ _ _ _ Hpub) in Hd.
  apply same_file in Hd as [<- <-]%(document_inj id); [|done..].
  apply wp_bind. eapply wp_mono; [apply wp_list_dir_names|]. intros [[names failed]|] w2 [Hk2 Hnd]; cbn beta iota;
    [|by apply wp_ret]. destruct Hnd as [Hnd Hnames']. pose proof (keeps_trans _ _ _ Hk1 Hk2) as Hk.
  apply wp_bind. eapply wp_mono; [apply (wp_walk_recordings failed names []); [done|by eapply scanned_keeps|set_solver]|].
  intros [r c] w3 Hr. cbn beta iota. apply wp_bind. unfold closedir. wp_prim.
  destruct r; [|by apply wp_ret..]. destruct (negb (negb (hit f))); [by apply wp_ret|].
  destruct (Hr eq_refl) as (-> & seen & Hsc & _ & _ & Hidx). specialize (Hnames' eq_refl).
  rewrite (keeps_disk _ _ Hk1) in Hnames'. cbn [snd] in Hsc.
  pose proof (scanned_keeps _ _ _ _ Hsc Hk0) as Hsc4.
  apply wp_bind, wp_recording_count; [done|done|by intros; apply wp_ret|intros w5 stamp es Hk5 Hd5 Hwf5].
  destruct (_ || _) eqn:Hcmp; [by apply wp_ret|]. apply wp_ret. intros _. cbn [out_added last_scan_indexed].
  pose proof (scanned_keeps _ _ _ _ Hsc4 Hk5) as Hsc5. split; [apply Hsc5|].
  rewrite <- (keeps_disk _ _ Hk5) in Hd5. apply orb_false_elim in Hcmp as [Hcount _].
  apply negb_false_iff, Z.eqb_eq in Hcount.
  apply (scanned_inventory seen c w5 stamp es Hsc5 Hd5 Hwf5 Hcount).
  intros g Hg. apply Hidx; [done|]. subst names.
  apply (entries_in _ _ _ NDir); [apply Hg| |apply valid_date_text, Hg].
  intros E. pose proof (valid_date_length _ (ix_date _ _ _ Hg)) as Hl. by rewrite E in Hl.
Qed.
End inventory.

(** ** A sample scan *)

Definition sample_recording : recording := (txt "2026-01-02", txt "030405_" ++ second_id ++ txt ".wav")%list.

(** One sample of audio behind a finalized header. *)
Definition sample_wav : bytes := (WavPart.wav_part_build_header 2 16000 1 16 ++ [1; 2])%list.

(** An empty manifest and one recording that it does not know. *)
Definition scan_card : world := clean_world
  (<[RECORDER_MANIFEST_PATH := NFile (document sample_id sample_stamp [])]>
   (<[RECORDER_RECORDINGS_DIR := NDir]>
    (<[(RECORDER_RECORDINGS_DIR ++ txt "/" ++ sample_recording.1)%list := NDir]>
     {[wav_of RECORDER_RECORDINGS_DIR sample_recording := NFile sample_wav]}))).

Definition sample_scan : io sync_result :=
  device_manifest_sync_wav_dir RECORDER_RECORDINGS_DIR RECORDER_MANIFEST_PATH RECORDER_MANIFEST_TMP_PATH sample_id
    sample_stamp DEVICE_MANIFEST_STATE_FINALIZED.

Lemma sample_dir_apart p :
  (RECORDER_RECORDINGS_DIR ++ txt "/" ++ p)%list ∉ [RECORDER_MANIFEST_PATH; RECORDER_MANIFEST_TMP_PATH; sample_bak].
Proof.
  rewrite !not_elem_of_cons. repeat split; try discriminate. apply not_elem_of_nil.
Qed.

Lemma scan_committed :
  committed RECORDER_MANIFEST_PATH RECORDER_MANIFEST_TMP_PATH sample_bak sample_id
    (document sample_id sample_stamp []) scan_card.
Proof.
  split; [vm_compute; discriminate|]. split.
  - apply lookup_insert_eq.
  - split; apply not_elem_of_empty.
  - intros H. vm_compute in H. discriminate H.
  - left. vm_compute. reflexivity.
  - intros p _ _ _. split; [done|]. intros H. exact H.
Qed.

Lemma sync_inventory_complete_witness :
  sync_ok (sample_scan scan_card).1 = true /\ out_added (sample_scan scan_card).1 = 1 /\
  only [RECORDER_MANIFEST_PATH; RECORDER_MANIFEST_TMP_PATH; sample_bak] scan_card (sample_scan scan_card).2.
Proof.
  assert (Hok : sync_ok (sample_scan scan_card).1 = true) by (vm_compute; reflexivity).
  split; [exact Hok|]. split; [vm_compute; reflexivity|].
  refine (proj1 (sync_inventory_complete RECORDER_RECORDINGS_DIR _ _ _ _ sample_stamp
    DEVICE_MANIFEST_STATE_FINALIZED sample_names eq_refl sample_dir_apart scan_card [] sample_stamp scan_committed
    sample_wf_empty (sample_honest scan_card eq_refl) _ eq_refl Hok)).
  by apply differ.
Defined.
