(* ===== verification/SdMount.v ===== *)
(** * SdMount: the card between device and host ([sd_mount.c])

    The flags of the file are shared by the writer task, the coordinator and
    the callbacks of the USB stack: every critical section, every read of a
    flag and every platform call is one atomic step of a thread.  SPI, the SD
    driver and the storage object of esp_tinyusb are a class of operations on
    a state [H] of their own. *)

From stdpp Require Import functions.
From S2P Require Import Prelude Monad Nvs RecorderConfig WavRotation Interleave.
Open Scope prog_scope.

(** ** The static variables *)

(** [s_card] stands for the descriptor holding an initialised card, [s_storage]
    for the handle not being NULL. *)
Inductive sd_flag :=
  | s_card
  | s_storage
  | s_bus_init
  | s_sdspi_init
  | s_device_init
  | s_msc_driver_init
  | s_mounted
  | s_usb_release_requested
  | s_device_fs_released.

#[export] Instance sd_flag_eq_dec : EqDecision sd_flag.
Proof. solve_decision. Defined.

Abbreviation sd_state := (sd_flag -> bool).

(** ** The platform *)

Inductive tinyusb_msc_mount_point_t := TINYUSB_MSC_STORAGE_MOUNT_USB | TINYUSB_MSC_STORAGE_MOUNT_APP.

#[export] Instance mount_point_eq_dec : EqDecision tinyusb_msc_mount_point_t.
Proof. solve_decision. Defined.

Inductive tinyusb_msc_event_id_t :=
  | TINYUSB_MSC_EVENT_MOUNT_START
  | TINYUSB_MSC_EVENT_MOUNT_COMPLETE
  | TINYUSB_MSC_EVENT_MOUNT_FAILED
  | TINYUSB_MSC_EVENT_FORMAT_REQUIRED
  | TINYUSB_MSC_EVENT_FORMAT_FAILED.

Record tinyusb_msc_event_t := MscEvent {
  msc_event_id : tinyusb_msc_event_id_t;
  msc_event_mount_point : tinyusb_msc_mount_point_t;
}.

(** The two callbacks the firmware gives the storage driver. *)
Inductive storage_callback := sd_mount_terminal_storage_event | usb_storage_event_cb.

(** What [mkdir] reports, with the [errno] the code tells apart. *)
Inductive mkdir_result := MkdirDone | MkdirExists | MkdirFailed.

(** [host_reach] holds while a storage object is on the USB side. *)
Class StoragePlatform (H : Type) := {
  spi_bus_initialize : st H esp_err_t;
  spi_bus_free : st H esp_err_t;
  sdspi_host_init : st H esp_err_t;
  sdspi_host_deinit : st H esp_err_t;
  sdspi_host_init_device : st H esp_err_t;
  sdspi_host_remove_device : st H esp_err_t;
  sdmmc_card_init : st H esp_err_t;
  make_directory : bytes -> st H mkdir_result;
  tinyusb_msc_install_driver : storage_callback -> st H esp_err_t;
  tinyusb_msc_uninstall_driver : st H esp_err_t;
  tinyusb_msc_new_storage_sdmmc : tinyusb_msc_mount_point_t -> st H esp_err_t;
  tinyusb_msc_delete_storage : st H esp_err_t;
  tinyusb_msc_set_storage_callback : storage_callback -> st H esp_err_t;
  (** one stretch of [tinyusb_msc_set_storage_mount_point]: up to the next
      event for the callback, or up to the return *)
  set_mount_point_progress : tinyusb_msc_mount_point_t -> st H (tinyusb_msc_event_t + esp_err_t);
  host_reach : H -> bool;
}.

(** The operation never puts the storage on the USB side. *)
Definition no_reach {H X} `{StoragePlatform H} (m : st H X) : Prop :=
  forall h, host_reach (m h).2 = true -> host_reach h = true.

(** Only a switch to the USB side reaches it; a deleted storage object is on
    no side. *)
Class StorageLaws (H : Type) `{StoragePlatform H} := {
  spi_bus_initialize_reach : no_reach spi_bus_initialize;
  spi_bus_free_reach : no_reach spi_bus_free;
  sdspi_host_init_reach : no_reach sdspi_host_init;
  sdspi_host_deinit_reach : no_reach sdspi_host_deinit;
  sdspi_host_init_device_reach : no_reach sdspi_host_init_device;
  sdspi_host_remove_device_reach : no_reach sdspi_host_remove_device;
  sdmmc_card_init_reach : no_reach sdmmc_card_init;
  make_directory_reach : forall p, no_reach (make_directory p);
  install_driver_reach : forall c, no_reach (tinyusb_msc_install_driver c);
  uninstall_driver_reach : no_reach tinyusb_msc_uninstall_driver;
  new_storage_reach : no_reach (tinyusb_msc_new_storage_sdmmc TINYUSB_MSC_STORAGE_MOUNT_APP);
  delete_storage_reach : no_reach tinyusb_msc_delete_storage;
  delete_storage_ok : forall h, (tinyusb_msc_delete_storage h).1 = ESP_OK ->
    host_reach (tinyusb_msc_delete_storage h).2 = false;
  set_callback_reach : forall c, no_reach (tinyusb_msc_set_storage_callback c);
}.

(** The world of the threads holds the flags and the platform. *)
Class SdHost (W H : Type) := {
  on_sd : forall {X}, st sd_state X -> st W X;
  on_hw : forall {X}, st H X -> st W X;
}.

Definition RECORDER_M5DAYLOG_DIR : bytes := txt "/sdcard/M5DAYLOG".

Section sd_mount.
Context {W H : Type} `{StoragePlatform H, SdHost W H}.

Abbreviation task := (@prog W).

(** ** Atomic steps *)

(** What stands between [portENTER_CRITICAL] and [portEXIT_CRITICAL]. *)
Definition critical {X} (m : st sd_state X) : task X := Atomic (fun _ => on_sd m) Done.

Definition call {X} (m : st H X) : task X := Atomic (fun _ => on_hw m) Done.

Definition flag (f : sd_flag) : task bool := critical (get (fun s => s f)).

Definition set_flag (f : sd_flag) (b : bool) : task unit := critical (modify (fun s => <[f := b]> s)).

(** ** The functions *)

(** [mkdir (dir, 0755) != 0 && errno != EEXIST], negated *)
Definition dir_there (dir : bytes) : task bool :=
  r <- call (make_directory dir);
  Done (match r with MkdirFailed => false | _ => true end).

Definition ensure_recording_dirs : task esp_err_t :=
  ok <- dir_there RECORDER_M5DAYLOG_DIR;
  if negb ok then Done ESP_FAIL else
  ok <- dir_there RECORDER_RECORDINGS_DIR;
  if negb ok then Done ESP_FAIL else
  ok <- dir_there RECORDER_QUARANTINE_DIR;
  if negb ok then Done ESP_FAIL else
  Done ESP_OK.

Definition sd_mount_raw_cleanup : task unit :=
  device_init <- flag s_device_init;
  when device_init (call sdspi_host_remove_device ;;' set_flag s_device_init false) ;;'
  (sdspi_init <- flag s_sdspi_init;
   when sdspi_init (call sdspi_host_deinit ;;' set_flag s_sdspi_init false) ;;'
   (bus_init <- flag s_bus_init;
    when bus_init (call spi_bus_free ;;' set_flag s_bus_init false) ;;'
    set_flag s_card false)).

Definition sd_mount_install_msc_driver : task esp_err_t :=
  init <- flag s_msc_driver_init;
  if (init : bool) then Done ESP_OK else
  err <- call (tinyusb_msc_install_driver sd_mount_terminal_storage_event);
  when (is_ok err) (set_flag s_msc_driver_init true) ;;'
  Done err.

Definition sd_mount_create_storage (mount_point : tinyusb_msc_mount_point_t) : task esp_err_t :=
  init <- flag s_msc_driver_init;
  storage <- (if negb init then Done true else flag s_storage);
  if (storage : bool) then Done ESP_ERR_INVALID_STATE else
  err <- call (tinyusb_msc_new_storage_sdmmc mount_point);
  if negb (is_ok err) then set_flag s_storage false ;;' Done err else
  set_flag s_storage true ;;' Done ESP_OK.

Definition sd_mount_is_mounted : task bool := flag s_mounted.

(** The last stretch of [sd_mount_unmount]: the driver, the mount, the bus. *)
Definition unmount_driver : task unit :=
  init <- flag s_msc_driver_init;
  err <- (if (init : bool) then call tinyusb_msc_uninstall_driver else Done ESP_OK);
  if negb (is_ok err) then Done tt else
  when init (set_flag s_msc_driver_init false) ;;'
  critical (modify (fun s => <[s_mounted := false]> (<[s_device_fs_released := true]> s))) ;;'
  sd_mount_raw_cleanup.

Definition sd_mount_unmount : task unit :=
  usb_release <- critical (fun s =>
    (s s_usb_release_requested,
     if s s_usb_release_requested then <[s_device_fs_released := true]> s else s));
  if (usb_release : bool) then Done tt else
  storage <- flag s_storage;
  err <- (if (storage : bool) then
            call (tinyusb_msc_set_storage_callback sd_mount_terminal_storage_event) ;;'
            call tinyusb_msc_delete_storage
          else Done ESP_OK);
  if negb (is_ok err) then Done tt else
  when storage (set_flag s_storage false) ;;'
  unmount_driver.

(** [sd_mount_recordings] once the card answers: the storage on the
    application's side, and the directories. *)
Definition mount_storage : task esp_err_t :=
  err <- sd_mount_install_msc_driver;
  if negb (is_ok err) then sd_mount_raw_cleanup ;;' Done err else
  err <- sd_mount_create_storage TINYUSB_MSC_STORAGE_MOUNT_APP;
  if negb (is_ok err) then
    call tinyusb_msc_uninstall_driver ;;'
    set_flag s_msc_driver_init false ;;'
    sd_mount_raw_cleanup ;;' Done err
  else
  critical (modify (fun s =>
    <[s_mounted := true]> (<[s_usb_release_requested := false]>
      (<[s_device_fs_released := false]> s)))) ;;'
  (err <- ensure_recording_dirs;
   if negb (is_ok err) then sd_mount_unmount ;;' Done err else Done ESP_OK).

Definition sd_mount_recordings : task esp_err_t :=
  mounted <- sd_mount_is_mounted;
  if (mounted : bool) then ensure_recording_dirs else
  storage <- flag s_storage;
  if (storage : bool) then Done ESP_ERR_INVALID_STATE else
  err <- call spi_bus_initialize;
  if negb (is_ok err) then Done err else
  set_flag s_bus_init true ;;'
  (err <- call sdspi_host_init;
   if negb (is_ok err) then sd_mount_raw_cleanup ;;' Done err else
   set_flag s_sdspi_init true ;;'
   (err <- call sdspi_host_init_device;
    if negb (is_ok err) then sd_mount_raw_cleanup ;;' Done err else
    set_flag s_device_init true ;;'
    set_flag s_card false ;;'
    (err <- call sdmmc_card_init;
     if negb (is_ok err) then sd_mount_raw_cleanup ;;' Done err else
     set_flag s_card true ;;' mount_storage))).

Definition sd_mount_device_fs_released : task bool := flag s_device_fs_released.

(** [!sd_mount_is_mounted () || sd_mount_device_fs_released ()] *)
Definition fs_not_ours : task bool :=
  mounted <- sd_mount_is_mounted;
  if negb mounted then Done true else sd_mount_device_fs_released.

(** The text of a date directory, when its name has the shape of one. *)
Definition date_dir (date_yyyy_mm_dd : bytes) : option bytes :=
  if valid_date date_yyyy_mm_dd
  then snprintf_fit RECORDER_MAX_PATH_LEN (RECORDER_RECORDINGS_DIR ++ txt "/" ++ date_yyyy_mm_dd)
  else None.

Definition sd_mount_ensure_date_dir (date_yyyy_mm_dd : option bytes) : task esp_err_t :=
  not_ours <- fs_not_ours;
  if (not_ours : bool) then Done ESP_ERR_INVALID_STATE else
  match date_yyyy_mm_dd ≫= date_dir with
  | None => Done ESP_ERR_INVALID_ARG
  | Some dir => ok <- dir_there dir; Done (if (ok : bool) then ESP_OK else ESP_FAIL)
  end.

Definition sd_mount_ensure_quarantine_dir : task esp_err_t :=
  not_ours <- fs_not_ours;
  if (not_ours : bool) then Done ESP_ERR_INVALID_STATE else
  ok <- dir_there RECORDER_QUARANTINE_DIR;
  Done (if (ok : bool) then ESP_OK else ESP_FAIL).

Definition sd_mount_release_for_usb : task esp_err_t :=
  critical (fun s =>
    if negb (s s_mounted) || negb (s s_storage) || s s_usb_release_requested
    then (ESP_ERR_INVALID_STATE, s)
    else (ESP_OK, <[s_usb_release_requested := true]> (<[s_device_fs_released := false]> s))).

(** [tinyusb_msc_set_storage_mount_point]: [on_event] is the callback the
    storage driver holds, called on every event. *)
Definition set_storage_mount_point (on_event : tinyusb_msc_event_t -> task unit)
    (mount_point : tinyusb_msc_mount_point_t) : task esp_err_t :=
  Loop (fun _ : unit =>
    r <- call (set_mount_point_progress mount_point);
    match r with inl event => on_event event ;;' again tt | inr err => leave err end) tt Done.

Definition transfer_ready (mounted : bool) : task bool :=
  critical (get (fun s =>
    eqb (s s_mounted) mounted && s s_usb_release_requested && s s_device_fs_released)).

Definition sd_mount_transfer_to_usb (on_event : tinyusb_msc_event_t -> task unit) : task esp_err_t :=
  ready <- transfer_ready true;
  ready <- (if (ready : bool) then flag s_storage else Done false);
  if negb ready then Done ESP_ERR_INVALID_STATE else
  err <- set_storage_mount_point on_event TINYUSB_MSC_STORAGE_MOUNT_USB;
  if negb (is_ok err) then Done err else
  release_ready <- transfer_ready false;
  Done (if (release_ready : bool) then ESP_OK else ESP_ERR_INVALID_STATE).

Definition sd_mount_release_usb_storage : task esp_err_t :=
  ready <- transfer_ready false;
  ready <- (if (ready : bool) then flag s_storage else Done false);
  ready <- (if (ready : bool) then flag s_msc_driver_init else Done false);
  if negb ready then Done ESP_ERR_INVALID_STATE else
  err <- call tinyusb_msc_delete_storage;
  if negb (is_ok err) then Done err else
  set_flag s_storage false ;;'
  (err <- call tinyusb_msc_uninstall_driver;
   if negb (is_ok err) then Done err else
   set_flag s_msc_driver_init false ;;'
   Done ESP_OK).

Definition sd_mount_note_usb_owned : task unit :=
  critical (modify (fun s =>
    if s s_usb_release_requested && s s_device_fs_released then <[s_mounted := false]> s else s)).
End sd_mount.

(** ** Mounting *)

(** The boot: one task, nothing but the flags and the platform. *)
#[export] Instance boot_host (H : Type) : SdHost (sd_state * H) H := {
  on_sd X m w := let (x, s) := m w.1 in (x, (s, w.2));
  on_hw X m w := let (x, h) := m w.2 in (x, (w.1, h));
}.

Section mounting.
Context {H : Type} `{StoragePlatform H}.

Abbreviation boot_world := (sd_state * H)%type.

(** Every flag as the static initialisers leave it. *)
Definition initial_flags : sd_state := fun _ => false.

(** What a mounted card holds. *)
Definition mounted_flags : sd_state := fun f =>
  negb (bool_decide (f = s_usb_release_requested)) && negb (bool_decide (f = s_device_fs_released)).

(** The platform refused to give the storage object or the driver back. *)
Definition refuses_release : Prop :=
  exists h, (tinyusb_msc_delete_storage h).1 <> ESP_OK \/ (tinyusb_msc_uninstall_driver h).1 <> ESP_OK.

(** A call, or a critical section. *)
Lemma runs_call {X} (m : st H X) (Q : X -> boot_world -> Prop) s h :
  (forall x h', m h = (x, h') -> Q x (s, h')) -> runs (call m) Q (s, h).
Proof. intros HQ. apply runs_atomic. cbn. destruct (m h) as [x h'] eqn:E. by apply HQ. Qed.

Lemma runs_critical {X} (m : st sd_state X) (Q : X -> boot_world -> Prop) s h :
  Q (m s).1 ((m s).2, h) -> runs (critical m) Q (s, h).
Proof. intros HQ. apply runs_atomic. cbn. by destruct (m s). Qed.

Lemma runs_when (b : bool) (p : @prog boot_world unit) (Q : unit -> boot_world -> Prop) w :
  (if b then runs p Q w else Q tt w) -> runs (when b p) Q w.
Proof. by destruct b. Qed.

(** The flags of the bus and the card. *)
Definition raw_flag (f : sd_flag) : bool :=
  match f with s_card | s_bus_init | s_sdspi_init | s_device_init => true | _ => false end.

(** The next step of a run; a call of the platform is a case split on its
    result, when that is an error code. *)
Ltac runs_step :=
  cbn beta iota; cbn [fst snd is_ok negb];
  lazymatch goal with
  | |- runs (pbind _ _) _ _ => apply runs_bind
  | |- runs (Done _) _ _ => apply runs_done
  | |- runs (call _) _ _ => let x := fresh "err" in intros; apply runs_call; intros x ? ?
  | |- runs (when _ _) _ _ => apply runs_when
  | |- runs (set_flag _ _) _ _ => apply runs_critical
  | |- runs (flag _) _ _ => apply runs_critical
  | |- runs (critical _) _ _ => apply runs_critical
  end; cbv [get modify]; cbn [fst snd];
  rewrite ?fn_lookup_insert; rewrite ?fn_lookup_insert_ne by done.

(** Flag by flag. *)
Ltac by_flag :=
  let f := fresh "f" in
  intros f; destruct f; cbn; rewrite ?fn_lookup_insert; rewrite ?fn_lookup_insert_ne by done; auto.

Lemma runs_raw_cleanup (Q : unit -> boot_world -> Prop) s h :
  (forall s' h', (forall f, s' f = negb (raw_flag f) && s f) -> Q tt (s', h')) ->
  runs sd_mount_raw_cleanup Q (s, h).
Proof.
  intros HQ. unfold sd_mount_raw_cleanup. do 3 runs_step.
  destruct (s s_device_init) eqn:E1; repeat runs_step;
  (destruct (s s_sdspi_init) eqn:E2; repeat runs_step);
  (destruct (s s_bus_init) eqn:E3; repeat runs_step); apply HQ; by_flag.
Qed.
(** Nothing is held: every flag is clear, [s_device_fs_released] apart. *)
Definition nothing_held (s : sd_state) : Prop := forall f, f <> s_device_fs_released -> s f = false.

(** What a failed mount may leave. *)
Definition failed_mount (s : sd_state) : Prop :=
  nothing_held s \/ (s s_mounted = true /\ refuses_release).

Lemma refuses_delete h err h' :
  tinyusb_msc_delete_storage h = (err, h') -> is_ok err = false -> refuses_release.
Proof. intros E Herr. exists h. left. rewrite E. by destruct err. Qed.

Lemma refuses_uninstall h err h' :
  tinyusb_msc_uninstall_driver h = (err, h') -> is_ok err = false -> refuses_release.
Proof. intros E Herr. exists h. right. rewrite E. by destruct err. Qed.

Lemma runs_dir_there d (Q : bool -> boot_world -> Prop) s h :
  (forall b h', Q b (s, h')) -> runs (dir_there d) Q (s, h).
Proof. intros HQ. unfold dir_there. do 3 runs_step. apply HQ. Qed.

Lemma runs_dirs (Q : esp_err_t -> boot_world -> Prop) s h :
  (forall r h', Q r (s, h')) -> runs ensure_recording_dirs Q (s, h).
Proof.
  intros HQ. unfold ensure_recording_dirs.
  do 3 (runs_step; apply runs_dir_there; intros [] ?; cbn [negb]; [|by apply runs_done]).
  by apply runs_done.
Qed.

Lemma failed_after_cleanup (Q : esp_err_t -> boot_world -> Prop) err s h :
  err <> ESP_OK -> (forall f, raw_flag f = false -> s f = false) ->
  (forall s' h', nothing_held s' -> Q err (s', h')) ->
  runs (sd_mount_raw_cleanup ;;' Done err) Q (s, h).
Proof.
  intros Herr Hs HQ. runs_step. apply runs_raw_cleanup. intros s' h' Hs'. runs_step. apply HQ.
  intros f _. rewrite Hs'. destruct (raw_flag f) eqn:E; [done|]. by apply Hs.
Qed.

(** Unmounting a mounted card that is not promised to the host. *)
Lemma runs_unmount (Q : unit -> boot_world -> Prop) s h :
  (forall f, s f = mounted_flags f) ->
  (forall s' h', failed_mount s' -> Q tt (s', h')) ->
  runs sd_mount_unmount Q (s, h).
Proof.
  intros Hs HQ. assert (Hr : s s_usb_release_requested = false) by (by rewrite Hs).
  assert (Hst : s s_storage = true) by (by rewrite Hs).
  assert (Hd : s s_msc_driver_init = true) by (by rewrite Hs).
  assert (Hm : s s_mounted = true) by (by rewrite Hs).
  unfold sd_mount_unmount, unmount_driver. do 2 runs_step. rewrite Hr. do 2 runs_step.
  rewrite Hst. repeat runs_step. destruct (is_ok err0) eqn:E1; cbn [negb]; cycle 1.
  { runs_step. apply HQ. right. split; [done|]. by eapply refuses_delete. }
  repeat runs_step. rewrite Hd. repeat runs_step. destruct (is_ok err1) eqn:E2; cbn [negb]; cycle 1.
  { runs_step. apply HQ. right. rewrite fn_lookup_insert_ne by done.
    split; [done|]. by eapply refuses_uninstall. }
  repeat runs_step. apply runs_raw_cleanup. intros s2 h2 Hs2. apply HQ. left. intros f Hf.
  rewrite Hs2. destruct f; try done; cbn; rewrite ?fn_lookup_insert; rewrite ?fn_lookup_insert_ne by done;
    by rewrite ?fn_lookup_insert, ?Hs.
Qed.

Lemma runs_mount_storage (Q : esp_err_t -> boot_world -> Prop) s h :
  (forall f, s f = raw_flag f) ->
  (forall s' h', (forall f, s' f = mounted_flags f) -> Q ESP_OK (s', h')) ->
  (forall err s' h', err <> ESP_OK -> failed_mount s' -> Q err (s', h')) ->
  runs mount_storage Q (s, h).
Proof.
  intros Hs Hok Hfail. unfold mount_storage, sd_mount_install_msc_driver, sd_mount_create_storage.
  repeat runs_step. rewrite (Hs s_msc_driver_init : s _ = false). repeat runs_step.
  destruct (is_ok err) eqn:E1; repeat runs_step; rewrite ?E1; cbn [negb]; cycle 1.
  { apply failed_after_cleanup; [by destruct err|intros f Hf; by rewrite Hs|].
    intros s1 h1 Hn. apply Hfail; [by destruct err|by left]. }
  repeat runs_step. rewrite (Hs s_storage : s _ = false). repeat runs_step.
  destruct (is_ok err0) eqn:E2; cbn [negb]; repeat runs_step; rewrite ?E2; cbn [negb]; cycle 1.
  { repeat runs_step. apply runs_raw_cleanup. intros s1 h1 Hs1. runs_step.
    apply Hfail; [by destruct err0|]. left. intros f _. rewrite Hs1.
    destruct f; cbn; rewrite ?fn_lookup_insert; rewrite ?fn_lookup_insert_ne by done;
      by rewrite ?fn_lookup_insert, ?Hs. }
  apply runs_dirs. intros r h1.
  match goal with |- runs _ _ (?s1, _) => assert (Hm : forall f, s1 f = mounted_flags f) end.
  { intros f. destruct f; rewrite ?fn_lookup_insert; rewrite ?fn_lookup_insert_ne by done;
      by rewrite ?fn_lookup_insert, ?Hs. }
  destruct (is_ok r) eqn:E3; cbn [negb]; [runs_step; by apply Hok|].
  runs_step. apply runs_unmount; [done|]. intros s2 h2 H2'. runs_step.
  apply Hfail; [by destruct r|done].
Qed.

End mounting.
