(* ===== verification/UsbOwnership.v ===== *)
(** * UsbOwnership: who owns the card ([usb_msc_ownership.c])

    The variables of the file are shared by the coordinator, the CDC worker and
    the task of the USB stack that runs the callbacks.  Every access to one of
    them is an atomic step; an NVS transaction is one step, because the mutex
    of [recorder_nvs.c] serializes it.  Logging and [vTaskDelay] touch no
    state.  [note] records what happened in a history that the code cannot
    read; the theorems are about that history. *)

From stdpp Require Import functions.
From S2P Require Import Prelude Monad Nvs ShutdownArmed Interleave SdMount.
Open Scope prog_scope.

(** ** The static variables *)

(** [s_publish_fs_released] is the file's own [s_device_fs_released];
    [s_physical_session_cutoff] stands for the hook not being NULL. *)
Inductive usb_flag :=
  | s_initialized
  | s_starting
  | s_started
  | s_storage_usb_owned
  | s_host_owned
  | s_release_pending
  | s_release_waiting_response
  | s_provisional_attached
  | s_publish_triggered
  | s_prepare_disconnected
  | s_transfer_authorized
  | s_host_session_detached
  | s_physical_session_cutoff
  | s_wav_finalized
  | s_manifest_committed
  | s_publish_fs_released.

#[export] Instance usb_flag_eq_dec : EqDecision usb_flag.
Proof. solve_decision. Defined.

Inductive trace_var :=
  | s_trace_session
  | s_trace_start_stop_requests
  | s_trace_start_stop_completions
  | s_trace_prevent_allow_completions
  | s_trace_sync_cache_completions
  | s_trace_last_start_stop_power
  | s_trace_last_start_stop_flags
  | s_trace_last_control_opcode
  | s_trace_last_control_byte4
  | s_trace_update_seq
  | s_trace_flushed_seq.

#[export] Instance trace_var_eq_dec : EqDecision trace_var.
Proof. solve_decision. Defined.

(** [s_usb_events] is NULL or holds event bits. *)
Record usb_state := UsbState {
  s_usb_events : option Z;
  usb_flags : usb_flag -> bool;
  s_release_attempt_id : bytes;
  trace : trace_var -> Z;
}.

Definition set_events (e : option Z) (u : usb_state) : usb_state :=
  UsbState e (usb_flags u) (s_release_attempt_id u) (trace u).
Definition set_usb_flag (f : usb_flag) (b : bool) (u : usb_state) : usb_state :=
  UsbState (s_usb_events u) (<[f := b]> (usb_flags u)) (s_release_attempt_id u) (trace u).
Definition set_attempt (id : bytes) (u : usb_state) : usb_state :=
  UsbState (s_usb_events u) (usb_flags u) id (trace u).
Definition set_trace (v : trace_var) (z : Z) (u : usb_state) : usb_state :=
  UsbState (s_usb_events u) (usb_flags u) (s_release_attempt_id u) (<[v := z]> (trace u)).

Definition USB_BIT_ATTACH : Z := 1.
Definition USB_BIT_HOST_OWNED : Z := 4.
Definition USB_BIT_RELEASE_REQUESTED : Z := 8.
Definition USB_BIT_RELEASE_QUIESCED : Z := 16.
Definition USB_BIT_FAILED : Z := 32.
Definition USB_BIT_HOST_REATTACHED : Z := 64.
Definition USB_PUBLIC_BITS : Z := 125.

Definition USB_SCSI_CMD_TEST_UNIT_READY : Z := 0.
Definition USB_SCSI_CMD_START_STOP_UNIT : Z := 27.
Definition USB_SCSI_CMD_PREVENT_ALLOW : Z := 30.
Definition USB_SCSI_CMD_SYNCHRONIZE_CACHE_10 : Z := 53.
Definition USB_SCSI_CMD_SYNCHRONIZE_CACHE_16 : Z := 145.
Definition USB_MSC_RELEASE_ATTEMPT_MAX_BYTES : Z := 64.

Inductive usb_msc_ownership_event_t :=
  | USB_MSC_EVENT_NONE
  | USB_MSC_EVENT_ATTACH
  | USB_MSC_EVENT_HOST_OWNED
  | USB_MSC_EVENT_HOST_REATTACHED
  | USB_MSC_EVENT_RELEASE_REQUESTED
  | USB_MSC_EVENT_RELEASE_QUIESCED
  | USB_MSC_EVENT_FAILED.

Inductive usb_msc_release_storage_result_t :=
  | USB_MSC_RELEASE_STORAGE_ACCEPTED
  | USB_MSC_RELEASE_STORAGE_INVALID_ARGS
  | USB_MSC_RELEASE_STORAGE_WRONG_STATE
  | USB_MSC_RELEASE_STORAGE_CONFLICT.

(** [event->id] of the USB stack. *)
Inductive tinyusb_event_id_t := TINYUSB_EVENT_ATTACHED | TINYUSB_EVENT_DETACHED | TINYUSB_EVENT_SUSPENDED.

(** What the history records: a backend command admitted, the gate closed for
    a release attempt, its response completed, the storage switch begun, the
    stack stopped, the lifecycle byte armed, the gate open again. *)
Inductive usb_note :=
  | Admitted_io
  | GateClosed (id : bytes)
  | AnswerSent (id : bytes)
  | ResponseCompleted (id : bytes)
  | SwitchBegun
  | StackStopped
  | ShutdownCommitted
  | GateReopened.

(** ** The platform: the USB stack, and the callbacks of esp_tinyusb the linker
    wraps *)
Class UsbPlatform (H : Type) `{StoragePlatform H} := {
  event_group_create : st H bool;
  tinyusb_driver_install : st H esp_err_t;
  tinyusb_driver_uninstall : st H esp_err_t;
  tud_connect : st H bool;
  tud_disconnect : st H bool;
  (** sense key NOT READY, additional sense code MEDIUM NOT PRESENT *)
  tud_msc_set_sense : Z -> st H bool;
  real_test_unit_ready : Z -> st H bool;
  (** block count and block size *)
  real_capacity : Z -> st H (Z * Z);
  real_read10 : Z -> Z -> Z -> Z -> st H Z;
  real_write10 : Z -> Z -> Z -> bytes -> st H Z;
  real_start_stop : Z -> Z -> bool -> bool -> st H bool;
}.

Class UsbPlatformLaws (H : Type) `{UsbPlatform H} := {
  event_group_create_reach : no_reach event_group_create;
  driver_install_reach : no_reach tinyusb_driver_install;
  driver_uninstall_reach : no_reach tinyusb_driver_uninstall;
  tud_connect_reach : no_reach tud_connect;
  tud_disconnect_reach : no_reach tud_disconnect;
  set_sense_reach : forall lun, no_reach (tud_msc_set_sense lun);
  real_test_unit_ready_reach : forall lun, no_reach (real_test_unit_ready lun);
  real_capacity_reach : forall lun, no_reach (real_capacity lun);
  real_read10_reach : forall lun lba o n, no_reach (real_read10 lun lba o n);
  real_write10_reach : forall lun lba o d, no_reach (real_write10 lun lba o d);
  real_start_stop_reach : forall lun p s l, no_reach (real_start_stop lun p s l);
}.

(** The world of the threads holds the variables and the history. *)
Class UsbHost (W : Type) := {
  on_usb : forall {X}, st usb_state X -> st W X;
  on_history : usb_note -> st W unit;
}.

Section ownership.
Context {W H N B : Type} `{UsbPlatform H, SdHost W H, NvsOps N B, NvsHost W N, UsbHost W}.

Abbreviation task := (@prog W).

(** ** Atomic steps *)

Definition usb {X} (m : st usb_state X) : task X := Atomic (fun _ => on_usb m) Done.

(** A step that the history records, depending on its result. *)
Definition usb_noted {X} (m : st usb_state X) (event : X -> option usb_note) : task X :=
  Atomic (fun _ =>
    let* x := on_usb m in
    match event x with Some ev => on_history ev ;;; ret x | None => ret x end) Done.

Definition note (ev : usb_note) : task unit := Atomic (fun _ => on_history ev) Done.

Definition settings {X} (m : st (nvs_env N) X) : task X := Atomic (fun _ => on_nvs m) Done.

Definition up (f : usb_flag) : task bool := usb (get (fun u => usb_flags u f)).
Definition down (f : usb_flag) : task bool := negated (up f).
Definition store (f : usb_flag) (b : bool) : task unit := usb (modify (set_usb_flag f b)).

Definition no_events : task bool :=
  usb (get (fun u => match s_usb_events u with None => true | Some _ => false end)).

Definition or_bits (bits : Z) (u : usb_state) : usb_state :=
  set_events ((fun b => Z.lor b bits) <$> s_usb_events u) u.
Definition clear_bits (bits : Z) (u : usb_state) : usb_state :=
  set_events ((fun b => Z.ldiff b bits) <$> s_usb_events u) u.

Definition xEventGroupSetBits (bits : Z) : task unit := usb (modify (or_bits bits)).
Definition xEventGroupClearBits (bits : Z) : task unit := usb (modify (clear_bits bits)).

Definition trace_load (v : trace_var) : task Z := usb (get (fun u => trace u v)).
Definition trace_store (v : trace_var) (z : Z) : task unit := usb (modify (set_trace v z)).
Definition trace_add (v : trace_var) : task Z :=
  usb (fun u => (u32 (trace u v + 1), set_trace v (u32 (trace u v + 1)) u)).

Definition usb_fail : task unit :=
  null <- no_events; when (negb null) (xEventGroupSetBits USB_BIT_FAILED).

(** ** The diagnostic trace *)

Definition usb_scsi_trace_u8 (value : Z) : Z := if 255 <? value then 255 else u8 value.

Definition usb_scsi_trace_mark_dirty : task unit := trace_add s_trace_update_seq ;;' Done tt.

Definition usb_scsi_trace_begin_session : task unit :=
  trace_add s_trace_session ;;'
  trace_store s_trace_start_stop_requests 0 ;;'
  trace_store s_trace_start_stop_completions 0 ;;'
  trace_store s_trace_prevent_allow_completions 0 ;;'
  trace_store s_trace_sync_cache_completions 0 ;;'
  trace_store s_trace_last_start_stop_power 0 ;;'
  trace_store s_trace_last_start_stop_flags 0 ;;'
  trace_store s_trace_last_control_opcode 0 ;;'
  trace_store s_trace_last_control_byte4 0 ;;'
  usb_scsi_trace_mark_dirty.

Definition usb_scsi_trace_note_start_stop_request (power_condition : Z) (start load_eject : bool) :
    task unit :=
  host_owned <- up s_host_owned;
  if negb host_owned then Done tt else
  let flags := Z.lor (if load_eject then 2 else 0) (if start then 1 else 0) in
  let power := Z.land power_condition 15 in
  trace_add s_trace_start_stop_requests ;;'
  trace_store s_trace_last_start_stop_power power ;;'
  trace_store s_trace_last_start_stop_flags flags ;;'
  trace_store s_trace_last_control_opcode USB_SCSI_CMD_START_STOP_UNIT ;;'
  trace_store s_trace_last_control_byte4 (Z.lor (u32 (Z.shiftl power 4)) flags) ;;'
  usb_scsi_trace_mark_dirty.

(** The counter a completed command belongs to. *)
Definition completion_counter (opcode : Z) : option trace_var :=
  if opcode =? USB_SCSI_CMD_START_STOP_UNIT then Some s_trace_start_stop_completions else
  if opcode =? USB_SCSI_CMD_PREVENT_ALLOW then Some s_trace_prevent_allow_completions else
  if (opcode =? USB_SCSI_CMD_SYNCHRONIZE_CACHE_10) || (opcode =? USB_SCSI_CMD_SYNCHRONIZE_CACHE_16)
  then Some s_trace_sync_cache_completions else None.

(** [scsi_cmd] is the command block; [None] is NULL. *)
Definition usb_scsi_trace_note_command_complete (scsi_cmd : option bytes) : task unit :=
  host_owned <- up s_host_owned;
  match scsi_cmd with
  | Some cmd =>
    match completion_counter (nth 0 cmd 0) with
    | Some counter =>
      if negb host_owned then Done tt else
      trace_add counter ;;'
      trace_store s_trace_last_control_opcode (nth 0 cmd 0) ;;'
      trace_store s_trace_last_control_byte4 (nth 4 cmd 0) ;;'
      usb_scsi_trace_mark_dirty
    | None => Done tt
    end
  | None => Done tt
  end.

(** The keys in the order they are written, with the counters they hold. *)
Definition trace_keys : list (bytes * trace_var) :=
  [(txt "scsi_session", s_trace_session);
   (txt "scsi_ss_req", s_trace_start_stop_requests);
   (txt "scsi_ss_done", s_trace_start_stop_completions);
   (txt "scsi_ss_power", s_trace_last_start_stop_power);
   (txt "scsi_ss_flags", s_trace_last_start_stop_flags);
   (txt "scsi_pa_done", s_trace_prevent_allow_completions);
   (txt "scsi_sync_done", s_trace_sync_cache_completions);
   (txt "scsi_last_op", s_trace_last_control_opcode);
   (txt "scsi_last_b4", s_trace_last_control_byte4)].

(** The order in which the counters are read. *)
Definition trace_reads : list trace_var :=
  [s_trace_session; s_trace_start_stop_requests; s_trace_start_stop_completions;
   s_trace_prevent_allow_completions; s_trace_sync_cache_completions;
   s_trace_last_start_stop_power; s_trace_last_start_stop_flags;
   s_trace_last_control_opcode; s_trace_last_control_byte4].

Fixpoint read_trace (vars : list trace_var) (seen : trace_var -> Z) : task (trace_var -> Z) :=
  match vars with
  | [] => Done seen
  | v :: vars => z <- trace_load v; read_trace vars (<[v := z]> seen)
  end.

(** [TRACE_SET_U8] for every entry: the first failure ends the writes. *)
Fixpoint write_trace (entries : list (bytes * Z)) : st N esp_err_t :=
  match entries with
  | [] => ret ESP_OK
  | (key, value) :: entries =>
      let* err := nvs_set (k_namespace, key) (NvsU8 (usb_scsi_trace_u8 value)) in
      if is_ok err then write_trace entries else ret err
  end.

Definition trace_entries (seen : trace_var -> Z) : list (bytes * Z) :=
  (txt "scsi_valid", 1) :: map (fun kv => (kv.1, seen kv.2)) trace_keys.

Definition usb_msc_ownership_flush_scsi_trace : task esp_err_t :=
  initialized <- up s_initialized;
  if negb initialized then Done ESP_ERR_INVALID_STATE else
  seq <- trace_load s_trace_update_seq;
  flushed <- trace_load s_trace_flushed_seq;
  if seq =? flushed then Done ESP_OK else
  seen <- read_trace trace_reads (fun _ => 0);
  err <- settings (nvs_transaction k_namespace (write_trace (trace_entries seen)));
  if negb (is_ok err) then Done err else
  now <- trace_load s_trace_update_seq;
  when (now =? seq) (trace_store s_trace_flushed_seq seq) ;;'
  Done ESP_OK.

(** ** The callbacks of the storage driver and of the USB stack *)

(** [event] is not NULL: the driver passes its own. *)
Definition storage_event (event : tinyusb_msc_event_t) : task unit :=
  null <- no_events;
  if (null : bool) then Done tt else
  match msc_event_id event with
  | TINYUSB_MSC_EVENT_MOUNT_START =>
      unexpected <- first_true
        [Done (negb (bool_decide (msc_event_mount_point event = TINYUSB_MSC_STORAGE_MOUNT_APP)));
         down s_publish_triggered; down s_transfer_authorized;
         up s_storage_usb_owned; up s_host_owned; up s_release_pending;
         negated sd_mount_is_mounted;
         down s_wav_finalized; down s_manifest_committed; down s_publish_fs_released];
      when unexpected usb_fail
  | TINYUSB_MSC_EVENT_MOUNT_COMPLETE =>
      authorized <- (if decide (msc_event_mount_point event = TINYUSB_MSC_STORAGE_MOUNT_USB)
                     then up s_transfer_authorized else Done false);
      if (authorized : bool) then sd_mount_note_usb_owned ;;' store s_storage_usb_owned true
      else usb_fail
  | _ => usb_fail
  end.

Definition run_storage_callback (c : storage_callback) (event : tinyusb_msc_event_t) : task unit :=
  match c with
  | sd_mount_terminal_storage_event => Done tt
  | usb_storage_event_cb => storage_event event
  end.

Definition usb_attached : task unit :=
  usb_owned <- up s_storage_usb_owned;
  if negb usb_owned then
    (bad <- first_true
       [down s_initialized;
        started <- up s_started; (if (started : bool) then Done false else down s_starting);
        up s_host_owned; up s_release_pending; up s_publish_triggered;
        up s_provisional_attached; negated sd_mount_is_mounted];
     if (bad : bool) then usb_fail else store s_provisional_attached true)
  else
  host_owned <- up s_host_owned;
  if negb host_owned then
    (bad <- first_true
       [down s_initialized;
        started <- up s_started; (if (started : bool) then Done false else down s_starting);
        down s_publish_triggered; down s_prepare_disconnected;
        up s_release_pending; sd_mount_is_mounted];
     if (bad : bool) then call tud_disconnect ;;' usb_fail else
     store s_host_owned true ;;'
     usb_scsi_trace_begin_session ;;'
     store s_provisional_attached false ;;'
     store s_prepare_disconnected false ;;'
     xEventGroupSetBits USB_BIT_HOST_OWNED)
  else
  bad <- first_true [up s_release_pending; sd_mount_is_mounted];
  if (bad : bool) then call tud_disconnect ;;' usb_fail
  else (up s_host_session_detached ;;' Done tt).

(** [cutoff] is the hook the coordinator installed. *)
Definition usb_detached (cutoff : task unit) : task unit :=
  settled <- first_true
    [up s_storage_usb_owned; up s_host_owned; down s_provisional_attached; up s_publish_triggered];
  if negb settled then store s_provisional_attached false else
  host_owned <- up s_host_owned;
  if negb host_owned then Done tt else
  store s_host_session_detached true ;;'
  (hooked <- up s_physical_session_cutoff; when hooked cutoff).

(** [None] is a NULL event. *)
Definition usb_device_event_cb (cutoff : task unit) (event : option tinyusb_event_id_t) : task unit :=
  match event with
  | None => Done tt
  | Some id =>
    null <- no_events;
    if (null : bool) then Done tt else
    match id with
    | TINYUSB_EVENT_ATTACHED => usb_attached
    | TINYUSB_EVENT_SUSPENDED => up s_host_owned ;;' Done tt
    | TINYUSB_EVENT_DETACHED => usb_detached cutoff
    end
  end.

Definition usb_note_initial_msc_command_complete : task bool :=
  bad <- first_true
    [down s_initialized;
     started <- up s_started; (if (started : bool) then Done false else down s_starting);
     down s_provisional_attached; up s_storage_usb_owned; up s_host_owned;
     up s_release_pending; up s_publish_triggered; negated sd_mount_is_mounted];
  if (bad : bool) then Done false else
  store s_publish_triggered true ;;'
  xEventGroupSetBits USB_BIT_ATTACH ;;'
  Done true.

Definition tud_msc_scsi_complete_cb (scsi_cmd : option bytes) : task unit :=
  match scsi_cmd with
  | None => Done tt
  | Some cmd =>
    published <- first_true
      [up s_storage_usb_owned; down s_provisional_attached; up s_publish_triggered];
    if negb published then
      if nth 0 cmd 0 =? USB_SCSI_CMD_TEST_UNIT_READY
      then usb_note_initial_msc_command_complete ;;' Done tt else Done tt
    else
    settled <- first_true
      [down s_host_owned; down s_host_session_detached; up s_release_pending; sd_mount_is_mounted];
    when (negb settled)
      (store s_host_session_detached false ;;' xEventGroupSetBits USB_BIT_HOST_REATTACHED) ;;'
    usb_scsi_trace_note_command_complete scsi_cmd
  end.

(** ** Releasing the storage *)

Definition attempt_char (c : Z) : bool :=
  ((65 <=? c) && (c <=? 90)) || ((97 <=? c) && (c <=? 122)) || is_digit c ||
  (c =? 46) || (c =? 95) || (c =? 58) || (c =? 45).

(** [None] is NULL. *)
Definition usb_release_attempt_id_valid (value : option bytes) : bool :=
  match value with
  | None => false
  | Some id =>
      negb (zlen id =? 0) && (zlen id <=? USB_MSC_RELEASE_ATTEMPT_MAX_BYTES) && forallb attempt_char id
  end.

Definition usb_msc_ownership_release_command_admission_open : task bool :=
  negated (first_true
    [down s_initialized; down s_started; down s_storage_usb_owned; down s_host_owned;
     sd_mount_is_mounted; up s_release_pending]).

(** The compare-exchange of [s_release_pending] from false to true. *)
Definition close_gate (id : bytes) : task bool :=
  usb_noted (fun u => if usb_flags u s_release_pending then (false, u)
                      else (true, set_usb_flag s_release_pending true u))
            (fun closed => if closed then Some (GateClosed id) else None).

Definition usb_msc_ownership_accept_release_storage (release_attempt_id : option bytes) :
    task usb_msc_release_storage_result_t :=
  if negb (usb_release_attempt_id_valid release_attempt_id)
  then Done USB_MSC_RELEASE_STORAGE_INVALID_ARGS else
  let id := default [] release_attempt_id in
  wrong <- first_true
    [down s_initialized; down s_started; down s_storage_usb_owned; down s_host_owned;
     sd_mount_is_mounted];
  if (wrong : bool) then Done USB_MSC_RELEASE_STORAGE_WRONG_STATE else
  closed <- close_gate id;
  if negb closed then Done USB_MSC_RELEASE_STORAGE_CONFLICT else
  usb (modify (set_attempt id)) ;;'
  store s_release_waiting_response true ;;'
  Done USB_MSC_RELEASE_STORAGE_ACCEPTED.

Definition attempt_is (id : bytes) : task bool :=
  usb (get (fun u => bool_decide (s_release_attempt_id u = id))).

Definition usb_msc_ownership_release_response_complete (release_attempt_id : option bytes) : task bool :=
  let id := default [] release_attempt_id in
  refused <- first_true
    [Done (negb (usb_release_attempt_id_valid release_attempt_id));
     down s_release_pending; down s_release_waiting_response;
     down s_initialized; down s_started; down s_host_owned; negated (attempt_is id)];
  if (refused : bool) then Done false else
  store s_release_waiting_response false ;;'
  usb_noted (modify (or_bits USB_BIT_RELEASE_REQUESTED)) (fun _ => Some (ResponseCompleted id)) ;;'
  Done true.

Definition wrap_tud_msc_start_stop_cb (lun power_condition : Z) (start load_eject : bool) : task bool :=
  usb_scsi_trace_note_start_stop_request power_condition start load_eject ;;'
  call (real_start_stop lun power_condition start load_eject).

Definition usb_msc_reject_post_eject_command (lun : Z) : task unit :=
  call (tud_msc_set_sense lun) ;;' Done tt.

(** The gate every wrapped callback reads first: true lets the command on to
    the backend. *)
Definition gate_admits : task bool :=
  usb_noted (get (fun u => negb (usb_flags u s_release_pending)))
            (fun admitted => if admitted then Some Admitted_io else None).

Definition wrap_tud_msc_test_unit_ready_cb (lun : Z) : task bool :=
  admitted <- gate_admits;
  if (admitted : bool) then call (real_test_unit_ready lun) else
  usb_msc_reject_post_eject_command lun ;;' Done false.

Definition wrap_tud_msc_capacity_cb (lun : Z) : task (Z * Z) :=
  admitted <- gate_admits;
  if (admitted : bool) then call (real_capacity lun) else
  usb_msc_reject_post_eject_command lun ;;' Done (0, 0).

Definition wrap_tud_msc_read10_cb (lun lba offset bufsize : Z) : task Z :=
  admitted <- gate_admits;
  if (admitted : bool) then call (real_read10 lun lba offset bufsize) else
  usb_msc_reject_post_eject_command lun ;;' Done (-1).

Definition wrap_tud_msc_write10_cb (lun lba offset : Z) (buffer : bytes) : task Z :=
  admitted <- gate_admits;
  if (admitted : bool) then call (real_write10 lun lba offset buffer) else
  usb_msc_reject_post_eject_command lun ;;' Done (-1).

(** ** The lifecycle *)

(** The statics after a successful [usb_msc_ownership_init]; the trace and the
    three publication proofs keep their values. *)
Definition usb_msc_ownership_init : task esp_err_t :=
  initialized <- up s_initialized;
  if (initialized : bool) then Done ESP_OK else
  mounted <- sd_mount_is_mounted;
  if negb mounted then Done ESP_ERR_INVALID_STATE else
  created <- call event_group_create;
  usb (modify (set_events (if (created : bool) then Some 0 else None))) ;;'
  if negb created then Done ESP_ERR_NO_MEM else
  err <- call (tinyusb_msc_set_storage_callback usb_storage_event_cb);
  if negb (is_ok err) then usb (modify (set_events None)) ;;' Done err else
  store s_starting false ;;'
  store s_started false ;;'
  store s_storage_usb_owned false ;;'
  store s_host_owned false ;;'
  store s_release_pending false ;;'
  store s_release_waiting_response false ;;'
  usb (modify (set_attempt [])) ;;'
  store s_provisional_attached false ;;'
  store s_publish_triggered false ;;'
  store s_prepare_disconnected false ;;'
  store s_transfer_authorized false ;;'
  store s_host_session_detached false ;;'
  store s_physical_session_cutoff false ;;'
  store s_initialized true ;;'
  Done ESP_OK.

(** [cutoff] is whether the hook is not NULL. *)
Definition usb_msc_ownership_set_physical_session_cutoff (cutoff : bool) : task esp_err_t :=
  if negb cutoff then Done ESP_ERR_INVALID_ARG else
  bad <- first_true [down s_initialized; up s_started; up s_starting];
  if (bad : bool) then Done ESP_ERR_INVALID_STATE else
  store s_physical_session_cutoff true ;;' Done ESP_OK.

Definition usb_msc_ownership_start : task esp_err_t :=
  bad <- first_true
    [down s_initialized; negated sd_mount_is_mounted; up s_storage_usb_owned; up s_host_owned;
     up s_release_pending; up s_starting];
  if (bad : bool) then Done ESP_ERR_INVALID_STATE else
  started <- up s_started;
  if (started : bool) then Done ESP_OK else
  store s_starting true ;;'
  (err <- call tinyusb_driver_install;
   when (is_ok err) (store s_started true) ;;'
   store s_starting false ;;'
   Done err).

(** The bit that is served, and its event. *)
Definition select_event (bits : Z) : Z * usb_msc_ownership_event_t :=
  let has bit := negb (Z.land bits bit =? 0) in
  if has USB_BIT_FAILED then (USB_BIT_FAILED, USB_MSC_EVENT_FAILED) else
  if has USB_BIT_ATTACH then (USB_BIT_ATTACH, USB_MSC_EVENT_ATTACH) else
  if has USB_BIT_HOST_OWNED then (USB_BIT_HOST_OWNED, USB_MSC_EVENT_HOST_OWNED) else
  if has USB_BIT_HOST_REATTACHED then (USB_BIT_HOST_REATTACHED, USB_MSC_EVENT_HOST_REATTACHED) else
  if has USB_BIT_RELEASE_REQUESTED then (USB_BIT_RELEASE_REQUESTED, USB_MSC_EVENT_RELEASE_REQUESTED) else
  if has USB_BIT_RELEASE_QUIESCED then (USB_BIT_RELEASE_QUIESCED, USB_MSC_EVENT_RELEASE_QUIESCED) else
  (0, USB_MSC_EVENT_NONE).

(** The wait ends when a bit is set or the time is up: either way it reads the
    bits there are at that moment. *)
Definition usb_msc_ownership_wait_event : task usb_msc_ownership_event_t :=
  null <- no_events;
  if (null : bool) then Done USB_MSC_EVENT_FAILED else
  bits <- usb (get (fun u => default 0 (s_usb_events u)));
  let '(selected, event) := select_event bits in
  when (negb (selected =? 0)) (xEventGroupClearBits selected) ;;'
  Done event.

Definition usb_msc_ownership_begin_prepare : task esp_err_t :=
  bad <- first_true
    [down s_initialized;
     started <- up s_started; (if (started : bool) then Done false else down s_starting);
     down s_provisional_attached; down s_publish_triggered;
     up s_storage_usb_owned; up s_host_owned; up s_release_pending; negated sd_mount_is_mounted];
  if (bad : bool) then Done ESP_ERR_INVALID_STATE else
  disconnected <- up s_prepare_disconnected;
  if (disconnected : bool) then Done ESP_OK else
  ok <- call tud_disconnect;
  if negb ok then usb_fail ;;' Done ESP_FAIL else
  store s_prepare_disconnected true ;;' Done ESP_OK.

(** [usb_msc_publish] once its gate is passed. *)
Definition publish_transfer (wav_finalized manifest_committed device_fs_released : bool) : task bool :=
  err <- settings shutdown_armed_mark_host_unresolved;
  if negb (is_ok err) then usb_fail ;;' Done false else
  store s_wav_finalized wav_finalized ;;'
  store s_manifest_committed manifest_committed ;;'
  store s_publish_fs_released device_fs_released ;;'
  store s_transfer_authorized true ;;'
  note SwitchBegun ;;'
  (err <- sd_mount_transfer_to_usb (run_storage_callback usb_storage_event_cb);
   store s_transfer_authorized false ;;'
   (bad <- first_true [Done (negb (is_ok err)); down s_storage_usb_owned; sd_mount_is_mounted];
    if (bad : bool) then usb_fail ;;' Done false else
    connected <- call tud_connect;
    if negb connected then usb_fail ;;' Done false else Done true)).

Definition usb_msc_publish (wav_finalized manifest_committed device_fs_released : bool) : task bool :=
  bad <- first_true
    [Done (negb wav_finalized || negb manifest_committed || negb device_fs_released);
     no_events; up s_storage_usb_owned; up s_host_owned; up s_release_pending;
     down s_provisional_attached; down s_publish_triggered; down s_prepare_disconnected;
     negated sd_mount_is_mounted];
  if (bad : bool) then usb_fail ;;' Done false else
  publish_transfer wav_finalized manifest_committed device_fs_released.

Definition usb_msc_ownership_note_prepare_complete
    (wav_finalized manifest_committed device_fs_released : bool) : task esp_err_t :=
  initialized <- up s_initialized;
  if negb initialized then Done ESP_ERR_INVALID_STATE else
  ok <- usb_msc_publish wav_finalized manifest_committed device_fs_released;
  Done (if (ok : bool) then ESP_OK else ESP_ERR_INVALID_STATE).

(** [usb_msc_ownership_complete_release_quiesce] once the byte is armed. *)
Definition quiesce_reset : task unit :=
  store s_storage_usb_owned false ;;'
  store s_host_owned false ;;'
  usb_noted (modify (set_usb_flag s_release_pending false)) (fun _ => Some GateReopened) ;;'
  store s_release_waiting_response false ;;'
  usb (modify (set_attempt [])) ;;'
  store s_provisional_attached false ;;'
  store s_publish_triggered false ;;'
  store s_prepare_disconnected false ;;'
  store s_transfer_authorized false ;;'
  store s_host_session_detached false ;;'
  xEventGroupClearBits (Z.lor (Z.lor USB_BIT_ATTACH USB_BIT_HOST_OWNED)
    (Z.lor USB_BIT_HOST_REATTACHED USB_BIT_RELEASE_REQUESTED)) ;;'
  xEventGroupSetBits USB_BIT_RELEASE_QUIESCED.

Definition usb_msc_ownership_complete_release_quiesce : task esp_err_t :=
  bad <- first_true
    [down s_initialized; down s_started; down s_storage_usb_owned; down s_host_owned;
     down s_release_pending; up s_release_waiting_response; sd_mount_is_mounted];
  if (bad : bool) then Done ESP_ERR_INVALID_STATE else
  err <- call tinyusb_driver_uninstall;
  if negb (is_ok err) then usb_fail ;;' Done err else
  note StackStopped ;;'
  store s_started false ;;'
  (err <- sd_mount_release_usb_storage;
   if negb (is_ok err) then usb_fail ;;' Done err else
   err <- settings shutdown_armed_commit;
   if negb (is_ok err) then usb_fail ;;' Done err else
   note ShutdownCommitted ;;'
   quiesce_reset ;;'
   Done ESP_OK).

Definition usb_msc_ownership_is_host_owned : task bool := up s_host_owned.
End ownership.
