(* ===== verification/Recorder.v ===== *)
(** * Recorder: the tasks of the recorder ([main.c])

    The writer, the capture and the battery task share the pipeline, the
    lifecycle machine and the event bits.  A critical section of [s_rec_lock]
    or [s_state_lock] is one atomic step, and so is one operation of a
    component on the card: the tasks work on different files, the event log
    under the state lock and everything else in the writer.  The mutexes and
    the event group are created once; waiting for one cannot fail.  The
    variables that only the writer uses are its local state ([segment]).
    Logging and stack measurements touch no state. *)

From stdpp Require Import functions.
From S2P Require Import Prelude Monad Nvs Stdio RecorderConfig RecorderState.
From S2P Require Import PcmPipeline WavPart WavRotation WavRecovery WakeRecovery DeviceIdentity.
From S2P Require Import ManifestText ManifestStore ManifestScan Interleave SdMount.
Open Scope prog_scope.

(** ** The shared variables *)

Inductive task_name := rec_writer | rec_capture | rec_battery | rec_base | rec_usb.

#[export] Instance task_name_eq_dec : EqDecision task_name.
Proof. solve_decision. Defined.

(** [spawned] is the kernel's: the tasks that were created.  The locks and the
    event group are NULL until the boot creates them. *)
Record recorder := RecorderVars {
  s_pipeline : pcm_pipeline_t;
  s_rec_lock : bool;
  s_state_lock : bool;
  s_rec_events : option Z;
  s_rec_state : recorder_state_machine_t;
  s_state_events_ready : bool;
  s_status_led_ready : bool;
  s_last_battery_mv : Z;
  s_device_id : bytes;
  s_seg_rec_id : bytes;
  card : Stdio.world;
  spawned : task_name -> bool;
}.

Definition set_pipeline (p : pcm_pipeline_t) (r : recorder) : recorder :=
  RecorderVars p (s_rec_lock r) (s_state_lock r) (s_rec_events r) (s_rec_state r)
    (s_state_events_ready r) (s_status_led_ready r) (s_last_battery_mv r) (s_device_id r)
    (s_seg_rec_id r) (card r) (spawned r).
Definition set_locks (rec_lock state_lock : bool) (r : recorder) : recorder :=
  RecorderVars (s_pipeline r) rec_lock state_lock (s_rec_events r) (s_rec_state r)
    (s_state_events_ready r) (s_status_led_ready r) (s_last_battery_mv r) (s_device_id r)
    (s_seg_rec_id r) (card r) (spawned r).
Definition set_rec_events (e : option Z) (r : recorder) : recorder :=
  RecorderVars (s_pipeline r) (s_rec_lock r) (s_state_lock r) e (s_rec_state r)
    (s_state_events_ready r) (s_status_led_ready r) (s_last_battery_mv r) (s_device_id r)
    (s_seg_rec_id r) (card r) (spawned r).
Definition set_machine (m : recorder_state_machine_t) (r : recorder) : recorder :=
  RecorderVars (s_pipeline r) (s_rec_lock r) (s_state_lock r) (s_rec_events r) m
    (s_state_events_ready r) (s_status_led_ready r) (s_last_battery_mv r) (s_device_id r)
    (s_seg_rec_id r) (card r) (spawned r).
Definition set_events_ready (b : bool) (r : recorder) : recorder :=
  RecorderVars (s_pipeline r) (s_rec_lock r) (s_state_lock r) (s_rec_events r) (s_rec_state r)
    b (s_status_led_ready r) (s_last_battery_mv r) (s_device_id r)
    (s_seg_rec_id r) (card r) (spawned r).
Definition set_led_ready (b : bool) (r : recorder) : recorder :=
  RecorderVars (s_pipeline r) (s_rec_lock r) (s_state_lock r) (s_rec_events r) (s_rec_state r)
    (s_state_events_ready r) b (s_last_battery_mv r) (s_device_id r)
    (s_seg_rec_id r) (card r) (spawned r).
Definition set_battery (mv : Z) (r : recorder) : recorder :=
  RecorderVars (s_pipeline r) (s_rec_lock r) (s_state_lock r) (s_rec_events r) (s_rec_state r)
    (s_state_events_ready r) (s_status_led_ready r) mv (s_device_id r)
    (s_seg_rec_id r) (card r) (spawned r).
Definition set_device_id (id : bytes) (r : recorder) : recorder :=
  RecorderVars (s_pipeline r) (s_rec_lock r) (s_state_lock r) (s_rec_events r) (s_rec_state r)
    (s_state_events_ready r) (s_status_led_ready r) (s_last_battery_mv r) id
    (s_seg_rec_id r) (card r) (spawned r).
Definition set_seg_rec_id (id : bytes) (r : recorder) : recorder :=
  RecorderVars (s_pipeline r) (s_rec_lock r) (s_state_lock r) (s_rec_events r) (s_rec_state r)
    (s_state_events_ready r) (s_status_led_ready r) (s_last_battery_mv r) (s_device_id r)
    id (card r) (spawned r).
Definition set_card (c : Stdio.world) (r : recorder) : recorder :=
  RecorderVars (s_pipeline r) (s_rec_lock r) (s_state_lock r) (s_rec_events r) (s_rec_state r)
    (s_state_events_ready r) (s_status_led_ready r) (s_last_battery_mv r) (s_device_id r)
    (s_seg_rec_id r) c (spawned r).
Definition set_spawned (t : task_name) (r : recorder) : recorder :=
  RecorderVars (s_pipeline r) (s_rec_lock r) (s_state_lock r) (s_rec_events r) (s_rec_state r)
    (s_state_events_ready r) (s_status_led_ready r) (s_last_battery_mv r) (s_device_id r)
    (s_seg_rec_id r) (card r) (<[t := true]> (spawned r)).

Definition REC_BIT_SLOT_FULL : Z := 1.
Definition REC_BIT_STOP : Z := 2.
Definition REC_BIT_WRITER_READY : Z := 4.
Definition REC_BIT_RECORDING_READY : Z := 8.
Definition REC_BIT_WRITER_FINALIZED : Z := 16.
Definition REC_BIT_CAPTURE_DONE : Z := 32.
Definition REC_BIT_BATTERY_DONE : Z := 64.
Definition REC_TASK_DONE_MASK : Z := 112.

Definition RECORDER_FLUSH_EVERY_CHUNKS : Z := 4.
Definition DEVICE_MANIFEST_HEAP_ADMISSION_BYTES : Z :=
  3 * DEVICE_MANIFEST_ADMISSION_CEILING_BYTES + 32768.
Definition RECORDER_DEVICE_JSON_PATH : bytes := txt "/sdcard/M5DAYLOG/device.json".
Definition k_m5daylog_prefix : bytes := txt "/sdcard/M5DAYLOG/".

(** What the history records: of the segments of this session, each named by
    the path of its finished file, with the card's files at their opening and
    finalization; that the writer is gone, with the card as it was then; the
    bytes of each read of the microphone; and each buffer the writer gave to
    the sink, with the sink's answer. *)
Inductive rec_note :=
  | SegmentOpened (wav : bytes) (files : disk)
  | SegmentFinalized (wav : bytes) (files : disk)
  | SegmentRecorded (wav : bytes)
  | WriterGone (left_behind : Stdio.world)
  | MicRead (got : bytes)
  | AudioWritten (ok : bool) (chunk : bytes).

(** ** The platform *)

(** The fields of [struct tm] the code reads. *)
Record tm := Tm { tm_year : Z; tm_mon : Z; tm_mday : Z; tm_hour : Z; tm_min : Z; tm_sec : Z }.

(** Clocks, random numbers, memory and space; the microphone, the battery and
    the light, whose drivers are components of their own. *)
Class RecorderPlatform (P : Type) := {
  time_now : st P Z;
  localtime_r : Z -> st P tm;
  xTaskGetTickCount : st P Z;
  configTICK_RATE_HZ : Z;
  esp_timer_get_time : st P Z;
  hw_random : st P Z;
  semaphore_create : st P bool;
  rec_event_group_create : st P bool;
  task_create : task_name -> st P bool;
  heap_free_size : st P Z;
  heap_largest_free_block : st P Z;
  (** result, total and free bytes *)
  esp_vfs_fat_info : st P (esp_err_t * Z * Z);
  pdm_capture_init : st P esp_err_t;
  (** [None] is [ESP_ERR_TIMEOUT]; the bytes read *)
  pdm_capture_read : st P (option esp_err_t * bytes);
  (** events and dropped bytes *)
  pdm_capture_drain_overflow : st P (Z * Z);
  pdm_capture_stop_and_drain_final : st P (esp_err_t * (Z * Z));
  pdm_capture_deinit : st P esp_err_t;
  recorder_power_init : st P esp_err_t;
  recorder_power_read_battery_mv : st P (esp_err_t * Z);
  recorder_power_deinit : st P unit;
  recorder_status_led_init : st P esp_err_t;
  recorder_status_led_set_state : recorder_state_t -> st P esp_err_t;
}.

(** The world of the threads holds the variables, the platform, the history. *)
Class RecHost (W P : Type) := {
  on_rec : forall {X}, st recorder X -> st W X;
  on_dev : forall {X}, st P X -> st W X;
  on_rec_history : rec_note -> st W unit;
}.

(** The world holds the context of task87_wake_recovery.c, with the clock
    correction's state [R] and the settings. *)
Class WakeHost (W R N : Type) := {
  on_wake : forall {X}, st (wake_world R N) X -> st W X;
}.

Section recorder.
Context {W H P R N : Type} `{StoragePlatform H, SdHost W H, RecorderPlatform P, RecHost W P}.
Context `{NvsOps N bytes, NvsHost W N, RtcFlush R N, WakeHost W R N}.

(** The random numbers of [device_identity.c]. *)
Context (nvs_random : st N Z).

Abbreviation task := (@prog W).

(** ** Atomic steps *)

(** A critical section, or one component operation. *)
Definition locked {X} (m : st W X) : task X := Atomic (fun _ => m) Done.

Definition rec {X} (m : st recorder X) : task X := locked (on_rec m).
Definition dev {X} (m : st P X) : task X := locked (on_dev m).
Definition rec_note_step (n : rec_note) : task unit := locked (on_rec_history n).

(** A note that quotes the card's files. *)
Definition files_note_step (n : disk -> rec_note) : task unit :=
  locked (let* files := on_rec (get (fun r => w_disk (card r))) in on_rec_history (n files)).

(** An operation on the card. *)
Definition on_card {X} (m : io X) : st recorder X := fun r =>
  let (x, c) := m (card r) in (x, set_card c r).
Definition on_card_task {X} (m : io X) : task X := rec (on_card m).

Definition rec_or_bits (bits : Z) : task unit :=
  rec (modify (fun r => set_rec_events ((fun b => Z.lor b bits) <$> s_rec_events r) r)).

(** ** Stopping *)

Definition recorder_request_stop : task unit := rec_or_bits (Z.lor REC_BIT_STOP REC_BIT_SLOT_FULL).

Definition recorder_stop_requested : task bool :=
  rec (get (fun r => match s_rec_events r with
                     | None => true
                     | Some b => negb (Z.land b REC_BIT_STOP =? 0)
                     end)).

Definition recorder_request_safe_stop : task unit := recorder_request_stop.
Definition recorder_request_usb_stop : task unit := recorder_request_stop.
Definition recorder_request_low_battery_stop : task unit := recorder_request_stop.

(** ** Dates and times *)

Definition default_date_time : bytes * bytes := (txt "1970-01-01", txt "000000").

(** The texts of the broken-down time, when it is one. *)
Definition date_time_of (t : tm) : bytes * bytes :=
  let year := tm_year t + 1900 in
  let mon := tm_mon t + 1 in
  if (year <? 2020) || (9999 <? year) || (mon <? 1) || (12 <? mon) ||
     (tm_mday t <? 1) || (31 <? tm_mday t) || (tm_hour t <? 0) || (23 <? tm_hour t) ||
     (tm_min t <? 0) || (59 <? tm_min t) || (tm_sec t <? 0) || (60 <? tm_sec t)
  then default_date_time
  else ((pad4 year ++ txt "-" ++ pad2 mon ++ txt "-" ++ pad2 (tm_mday t))%list,
        (pad2 (tm_hour t) ++ pad2 (tm_min t) ++ pad2 (tm_sec t))%list).

(** The date and the time. *)
Definition recorder_current_date_time : st P (bytes * bytes) :=
  let* now := time_now in
  if now <? 1577836800 then ret default_date_time else
  let* t := localtime_r now in
  ret (date_time_of t).

Definition recorder_iso8601_from_parts (date time6 : bytes) : option bytes :=
  match snprintf_fit RECORDER_ISO8601_STR_LEN
    (take 4 date ++ txt "-" ++ slice 5 2 date ++ txt "-" ++ slice 8 2 date ++ txt "T" ++
     slice 0 2 time6 ++ txt ":" ++ slice 2 2 time6 ++ txt ":" ++ slice 4 2 time6 ++ txt "+00:00")%list with
  | Some out => if device_manifest_is_valid_iso8601_offset out then Some out else None
  | None => None
  end.

Definition recorder_current_iso8601 : st P (option bytes) :=
  let* (date, time6) := recorder_current_date_time in
  ret (recorder_iso8601_from_parts date time6).

Definition recorder_rotate_reason_str (reason : wav_rotate_reason_t) : bytes :=
  match reason with
  | WAV_ROTATE_TIME_30MIN => txt "time-30min"
  | WAV_ROTATE_MIDNIGHT => txt "midnight"
  | WAV_ROTATE_USB => txt "usb"
  | WAV_ROTATE_LOW_BATTERY => txt "low-battery"
  | WAV_ROTATE_STOP_REQUEST => txt "stop-request"
  | WAV_ROTATE_NONE => txt "none"
  end.

Definition recorder_new_recording_id : st P (option bytes) :=
  let* rand16 := random16 hw_random in
  ret (device_identity_format_uuid_v4 rand16).

(** ** The lifecycle machine *)

Definition recorder_set_events_ready (ready : bool) : task unit :=
  rec (modify (fun r => if s_state_lock r then set_events_ready ready r else r)).

Definition recorder_current_state : task recorder_state_t :=
  rec (get (fun r => if s_state_lock r then state (s_rec_state r) else RECORDER_STATE_ERROR)).

(** What the critical section of [recorder_transition_state] leaves in its
    local variables. *)
Record transition_outcome := Outcome {
  transition_ok : bool;
  changed : bool;
  event_write_failed : bool;
}.

(** The event of a change, appended to the log. *)
Definition append_state_event (from next : recorder_state_t) (reason : recorder_reason_t)
    (battery_mv : Z) : st W bool :=
  let* timestamp := on_dev recorder_current_iso8601 in
  on_rec (fun r =>
    on_card (recorder_state_append_event RECORDER_EVENTS_PATH (default [] timestamp) from next reason
               (if 0 <? battery_mv then battery_mv else s_last_battery_mv r)) r).

Definition transition_locked (next : recorder_state_t) (reason : recorder_reason_t)
    (battery_mv : Z) : st W transition_outcome :=
  let* (from, ready) := on_rec (get (fun r => (s_rec_state r, s_state_events_ready r))) in
  let moved := negb (bool_decide (state from = next)) in
  let '(ok, candidate) := recorder_state_transition from next reason in
  (if 0 <? battery_mv then on_rec (modify (set_battery battery_mv)) else ret tt) ;;;
  if ok && moved && ready then
    let* appended := append_state_event (state from) next reason battery_mv in
    if (appended : bool)
    then on_rec (modify (set_machine candidate)) ;;; ret (Outcome ok moved false)
    else on_rec (modify (fun r =>
           set_machine (recorder_state_transition (s_rec_state r) RECORDER_STATE_ERROR
                          RECORDER_REASON_SD_WRITE).2 r)) ;;;
         ret (Outcome ok moved true)
  else
    (if ok then on_rec (modify (set_machine candidate)) else ret tt) ;;;
    ret (Outcome ok moved false).

Definition show_state (s : recorder_state_t) : task unit :=
  ready <- rec (get s_status_led_ready);
  when ready (dev (recorder_status_led_set_state s) ;;' Done tt).

Definition recorder_transition_state (next : recorder_state_t) (reason : recorder_reason_t)
    (battery_mv : Z) : task bool :=
  outcome <- locked (let* lock := on_rec (get s_state_lock) in
                     if negb lock then ret None
                     else let* o := transition_locked next reason battery_mv in ret (Some o));
  match outcome with
  | None => Done false
  | Some o =>
    if event_write_failed o then
      recorder_request_stop ;;' show_state RECORDER_STATE_ERROR ;;' Done false
    else if negb (transition_ok o) then Done false else
    when (changed o) (show_state next) ;;' Done true
  end.

Definition recorder_enter_error (reason : recorder_reason_t) : task unit :=
  recorder_transition_state RECORDER_STATE_ERROR reason 0 ;;' recorder_request_stop.

(** ** The manifest *)

(** The recording of a finished file, from its path, hash and size. *)
Definition wav_entry (rel rec_id started_at state sha : bytes) (size_bytes : Z) : option bytes :=
  let pcm_bytes := size_bytes - RECORDER_WAV_HEADER_SIZE in
  let pcm_bytes := pcm_bytes - pcm_bytes mod RECORDER_BYTES_PER_SAMPLE in
  device_manifest_build_entry rec_id rel started_at (device_manifest_duration_ms pcm_bytes)
    size_bytes sha RECORDER_SAMPLE_RATE_HZ RECORDER_BITS_PER_SAMPLE RECORDER_CHANNELS state None
    RECORDER_MANIFEST_ENTRY_MAX.

Definition recorder_manifest_record_wav (wav_path rec_id started_at state : bytes) : task bool :=
  if negb (bool_decide (take (length k_m5daylog_prefix) wav_path = k_m5daylog_prefix))
  then Done false else
  let rel := drop (length k_m5daylog_prefix) wav_path in
  now <- dev recorder_current_iso8601;
  match now with
  | None => Done false
  | Some manifest_now =>
    hashed <- on_card_task (device_manifest_hash_wav_file wav_path);
    match hashed with
    | None => Done false
    | Some (sha, size_bytes) =>
      if size_bytes <? RECORDER_WAV_HEADER_SIZE then Done false else
      match wav_entry rel rec_id started_at state sha size_bytes with
      | None => Done false
      | Some entry =>
        device_id <- rec (get s_device_id);
        r <- on_card_task (device_manifest_upsert_file RECORDER_MANIFEST_PATH
               RECORDER_MANIFEST_TMP_PATH device_id manifest_now entry);
        Done (match r with DEVICE_MANIFEST_OK => true | _ => false end)
      end
    end
  end.

Definition recorder_recordings_tree_pristine : io bool :=
  let* dir := list_dir RECORDER_RECORDINGS_DIR in
  match dir with
  | None => ret false
  | Some (names, failed_readdir) =>
      let* closed := closedir in
      ret (forallb is_dot names && negb failed_readdir && closed)
  end.

(** No manifest artifact is there, for certain. *)
Fixpoint no_artifacts (paths : list bytes) : io bool :=
  match paths with
  | [] => ret true
  | path :: paths =>
      let* st := stat path in
      match st with
      | inl ENOENT => no_artifacts paths
      | _ => ret false
      end
  end.

(** [recorder_ensure_manifest_exists] once no manifest is certain: a blank one. *)
Definition write_blank_manifest (empty : bytes) : io bool :=
  let* out := fopen_wb RECORDER_MANIFEST_TMP_PATH in
  match out with
  | None => ret false
  | Some h =>
      let* (wrote, h) := fwrite h empty in
      let* flushed := if wrote then fflush h else ret false in
      if negb flushed then let* _ := fclose h in ret false else
      let* synced := fsync h in
      if negb synced then let* _ := fclose h in ret false else
      let* closed := fclose h in
      if negb closed then ret false else
      let* r := rename RECORDER_MANIFEST_TMP_PATH RECORDER_MANIFEST_PATH in
      ret (bool_decide (r = None))
  end.

Definition ensure_manifest (device_id manifest_now : bytes) : io bool :=
  let* recovered := device_manifest_recover_tmp RECORDER_MANIFEST_PATH RECORDER_MANIFEST_TMP_PATH device_id in
  if (recovered : bool) then ret true else
  let* blank := no_artifacts [RECORDER_MANIFEST_PATH; RECORDER_MANIFEST_TMP_PATH;
                              (RECORDER_MANIFEST_PATH ++ txt ".bak")%list] in
  if negb blank then ret false else
  let* pristine := recorder_recordings_tree_pristine in
  if negb pristine then ret false else
  match device_manifest_build_empty device_id manifest_now 256 with
  | None => ret false
  | Some empty => write_blank_manifest empty
  end.

Definition recorder_ensure_manifest_exists : task bool :=
  now <- dev recorder_current_iso8601;
  match now with
  | None => Done false
  | Some manifest_now =>
      device_id <- rec (get s_device_id);
      on_card_task (ensure_manifest device_id manifest_now)
  end.

Definition min_free : Z :=
  RECORDER_ROTATION_PAYLOAD_BYTES + RECORDER_WAV_HEADER_SIZE +
  3 * RECORDER_MANIFEST_MAX_BYTES + RECORDER_BUFFER_BYTES.

Definition recorder_can_admit_segment : task bool :=
  device_id <- rec (get s_device_id);
  room <- on_card_task (device_manifest_has_append_room RECORDER_MANIFEST_PATH device_id);
  if negb room then Done false else
  heap <- dev heap_free_size;
  block <- (if heap <? DEVICE_MANIFEST_HEAP_ADMISSION_BYTES then Done 0 else dev heap_largest_free_block);
  if block <? DEVICE_MANIFEST_ADMISSION_CEILING_BYTES + 1 then Done false else
  info <- dev esp_vfs_fat_info;
  let '(err, total_bytes, free_bytes) := info in
  Done (is_ok err && negb (total_bytes =? 0) && negb (free_bytes <? min_free)).

(** ** The battery task *)

(** [xEventGroupWaitBits] without clearing, for any of [bits]: what it read. *)
Definition wait_any (bits : Z) : task Z :=
  Loop (fun _ : unit =>
    b <- rec (get (fun r => default 0 (s_rec_events r)));
    if Z.land b bits =? 0 then again tt else leave b) tt Done.

(** The deletion hook: the bit of the task, and nothing more of it runs. *)
Definition done_bit (t : task_name) : Z :=
  match t with
  | rec_writer => REC_BIT_WRITER_FINALIZED
  | rec_capture => REC_BIT_CAPTURE_DONE
  | rec_battery => REC_BIT_BATTERY_DONE
  | rec_base | rec_usb => 0
  end.

Definition recorder_task49_delete (t : task_name) : task unit := rec_or_bits (done_bit t).

(** One sample; [None] ends the loop. *)
Definition battery_pass (low_samples : Z) : task (Z + unit) :=
  stop <- recorder_stop_requested;
  if (stop : bool) then leave tt else
  r <- dev recorder_power_read_battery_mv;
  let '(err, battery_mv) := r in
  if negb (is_ok err) then recorder_enter_error RECORDER_REASON_INTERNAL ;;' leave tt else
  let low_samples := if battery_mv <=? RECORDER_LOW_BATTERY_MV then u32 (low_samples + 1) else 0 in
  if RECORDER_LOW_BATTERY_CONFIRM_SAMPLES <=? low_samples then
    (ok <- recorder_transition_state RECORDER_STATE_LOW_BATTERY_STOP RECORDER_REASON_LOW_BATTERY battery_mv;
     (if negb ok then recorder_enter_error RECORDER_REASON_INTERNAL
      else recorder_request_low_battery_stop) ;;' leave tt)
  else again low_samples.

Definition recorder_battery_task : task unit :=
  bits <- wait_any (Z.lor REC_BIT_RECORDING_READY REC_BIT_STOP);
  if negb (Z.land bits REC_BIT_STOP =? 0) || (Z.land bits REC_BIT_RECORDING_READY =? 0)
  then recorder_task49_delete rec_battery else
  err <- dev recorder_power_init;
  if negb (is_ok err) then
    recorder_enter_error RECORDER_REASON_INTERNAL ;;' recorder_task49_delete rec_battery
  else
  Loop battery_pass 0 (fun _ : unit =>
    dev recorder_power_deinit ;;' recorder_task49_delete rec_battery).

(** ** The capture task *)

Definition on_pipeline (f : pcm_pipeline_t -> pcm_pipeline_t) : task unit :=
  rec (modify (fun r => set_pipeline (f (s_pipeline r)) r)).

Definition pending (snap : Z * Z) : bool := negb (snap.1 =? 0) || negb (snap.2 =? 0).

(** A timeout, or a read shorter than the buffer of 4096 bytes. *)
Definition read_stalled (err : option esp_err_t) (got : bytes) : bool :=
  match err with None => true | Some e => is_ok e && (zlen got <? 4096) end.

(** The counters of a read, stalls and proven losses. *)
Definition account_read (stalled : bool) (snap : Z * Z) (p : pcm_pipeline_t) : pcm_pipeline_t :=
  let p := if stalled && negb (pending snap) then pcm_pipeline_note_read_stall p else p in
  if pending snap then pcm_pipeline_note_driver_overflow p snap.1 snap.2 else p.

(** The critical section of a read that is kept: what was lost, and whether a
    slot is full. *)
Definition store_read (stalled : bool) (snap : Z * Z) (got : bytes) : st recorder (bool * bool) := fun r =>
  let p := account_read stalled snap (s_pipeline r) in
  let '(dropped, p) :=
    if negb (zlen got =? 0) && negb (pending snap)
    then default (0, p) (pcm_pipeline_produce p got) else (0, p) in
  ((negb (dropped =? 0), pcm_pipeline_has_full p), set_pipeline p r).

(** A read of the microphone: its result and bytes. *)
Definition mic_read : task (option esp_err_t * bytes) :=
  locked (let* r := on_dev pdm_capture_read in on_rec_history (MicRead r.2) ;;; ret r).

Definition capture_pass (_ : unit) : task (unit + unit) :=
  stop <- recorder_stop_requested;
  if (stop : bool) then leave tt else
  r <- mic_read;
  let '(err, got) := r in
  snap <- dev pdm_capture_drain_overflow;
  if (match err with Some e => negb (is_ok e) | None => false end : bool) then
    when (pending snap) (on_pipeline (fun p => pcm_pipeline_note_driver_overflow p snap.1 snap.2)) ;;'
    recorder_enter_error RECORDER_REASON_I2S_READ ;;' leave tt
  else
  stop <- recorder_stop_requested;
  if (stop : bool) then
    on_pipeline (account_read (read_stalled err got) snap) ;;'
    when (pending snap) (recorder_enter_error RECORDER_REASON_DMA_OVERRUN) ;;' leave tt
  else
  r <- rec (store_read (read_stalled err got) snap got);
  let '(buffer_loss, full) := r in
  if pending snap then recorder_enter_error RECORDER_REASON_DMA_OVERRUN ;;' leave tt else
  if (buffer_loss : bool) then recorder_enter_error RECORDER_REASON_BUFFER_OVERFLOW ;;' leave tt else
  when full (rec_or_bits REC_BIT_SLOT_FULL) ;;' again tt.

(** The teardown: the last overflow evidence, the stop, the driver. *)
Definition capture_teardown : task unit :=
  r <- dev pdm_capture_stop_and_drain_final;
  let '(stop_err, snap) := r in
  (if negb (is_ok stop_err) then
     interim <- dev pdm_capture_drain_overflow;
     when (pending interim) (on_pipeline (fun p => pcm_pipeline_note_driver_overflow p interim.1 interim.2)) ;;'
     recorder_enter_error RECORDER_REASON_I2S_READ
   else when (pending snap)
     (on_pipeline (fun p => pcm_pipeline_note_driver_overflow p snap.1 snap.2) ;;'
      recorder_enter_error RECORDER_REASON_DMA_OVERRUN)) ;;'
  recorder_request_stop ;;'
  (err <- dev pdm_capture_deinit;
   Loop (fun s : esp_err_t * Z =>
     let '(deinit_err, attempt) := s in
     if is_ok deinit_err then leave tt else
     when (attempt mod 20 =? 0) (recorder_enter_error RECORDER_REASON_INTERNAL) ;;'
     (deinit_err <- dev pdm_capture_deinit; again (deinit_err, u32 (attempt + 1)))) (err, 0)
   (fun _ : unit => recorder_request_stop ;;' recorder_task49_delete rec_capture)).

Definition recorder_capture_task : task unit :=
  bits <- wait_any (Z.lor REC_BIT_WRITER_READY REC_BIT_STOP);
  if negb (Z.land bits REC_BIT_STOP =? 0) || (Z.land bits REC_BIT_WRITER_READY =? 0)
  then recorder_task49_delete rec_capture else
  err <- dev pdm_capture_init;
  if negb (is_ok err) then
    recorder_enter_error RECORDER_REASON_MIC_INIT ;;' recorder_task49_delete rec_capture
  else
  ok <- recorder_transition_state RECORDER_STATE_RECORDING RECORDER_REASON_NONE 0;
  (if negb ok then recorder_enter_error RECORDER_REASON_INTERNAL
   else rec_or_bits REC_BIT_RECORDING_READY) ;;'
  Loop capture_pass tt (fun _ : unit => capture_teardown).

(** ** The writer task *)

(** What the writer alone uses: the sink, the rotation state, the paths, the
    date and start of the segment, its bytes and start tick, and the chunks
    since the last flush. *)
Record segment := Segment {
  sink : sd_pcm_sink_t;
  seg_state : wav_rotation_state_t;
  seg_wav : bytes;
  seg_date : bytes;
  seg_started : bytes;
  seg_bytes : Z;
  seg_start_tick : Z;
  since_flush : Z;
}.

Definition with_sink (k : sd_pcm_sink_t) (g : segment) : segment :=
  Segment k (seg_state g) (seg_wav g) (seg_date g) (seg_started g) (seg_bytes g)
    (seg_start_tick g) (since_flush g).
Definition with_state (k : sd_pcm_sink_t) (t : wav_rotation_state_t) (g : segment) : segment :=
  Segment k t (seg_wav g) (seg_date g) (seg_started g) (seg_bytes g) (seg_start_tick g) (since_flush g).
Definition with_started (b : bytes) (g : segment) : segment :=
  Segment (sink g) (seg_state g) (seg_wav g) (seg_date g) b (seg_bytes g) (seg_start_tick g) (since_flush g).
Definition with_counts (bytes_ chunks : Z) (g : segment) : segment :=
  Segment (sink g) (seg_state g) (seg_wav g) (seg_date g) (seg_started g) bytes_ (seg_start_tick g) chunks.

Definition empty_sink : sd_pcm_sink_t := Sink (WavPart None 0 0 0 0 false) false 0 0 0.
Definition no_segment : segment := Segment empty_sink (RotState [] [] false false) [] [] [] 0 0 0.

Definition note_sd_error : task unit := on_pipeline pcm_pipeline_note_sd_error.

(** The start of a segment at [date] and [time6], on the sink of [g]: the new
    segment, or the reason it failed.  The identity of the recording changes
    before the part file is open; a failure keeps what changed. *)
Definition open_segment (date time6 : bytes) (g : segment) : task (segment * option recorder_reason_t) :=
  new_id <- dev recorder_new_recording_id;
  match new_id, recorder_iso8601_from_parts date time6 with
  | Some rec_id, Some started =>
    rec (modify (set_seg_rec_id rec_id)) ;;'
    (let g := with_started started g in
     match wav_rotation_build_part_path RECORDER_MAX_PATH_LEN date time6 rec_id,
           wav_rotation_build_wav_path RECORDER_MAX_PATH_LEN date time6 rec_id with
     | Some part, Some wav =>
       err <- sd_mount_ensure_date_dir (Some date);
       if negb (is_ok err) then Done (g, Some RECORDER_REASON_SD_WRITE) else
       admitted <- recorder_can_admit_segment;
       if negb admitted then Done (g, Some RECORDER_REASON_MANIFEST) else
       opened <- on_card_task (sd_pcm_sink_open (sink g) part);
       let '(ok, k) := opened in
       if negb ok then Done (with_sink k g, Some RECORDER_REASON_SD_WRITE) else
       files_note_step (SegmentOpened wav) ;;'
       (tick <- dev xTaskGetTickCount;
        Done (Segment k (wav_rotation_state_init part wav) wav date started 0 tick 0, None))
     | _, _ => Done (g, Some RECORDER_REASON_INTERNAL)
     end)
  | None, _ => Done (g, Some RECORDER_REASON_MANIFEST)
  | _, None => Done (with_started [] g, Some RECORDER_REASON_MANIFEST)
  end.

Definition finalize_segment (g : segment) : task (bool * segment) :=
  r <- on_card_task (wav_rotation_finalize_once (seg_state g) (sink g));
  let '(ok, t, k) := r in
  when ok (files_note_step (SegmentFinalized (seg_wav g))) ;;'
  Done (ok, with_state k t g).

Definition record_segment (g : segment) : task bool :=
  rec_id <- rec (get s_seg_rec_id);
  ok <- recorder_manifest_record_wav (seg_wav g) rec_id (seg_started g) DEVICE_MANIFEST_STATE_FINALIZED;
  when ok (rec_note_step (SegmentRecorded (seg_wav g))) ;;'
  Done ok.

(** Finalize and record; the reason of the first failure. *)
Definition finish_segment (g : segment) : task (segment * option recorder_reason_t) :=
  r <- finalize_segment g;
  let '(ok, g) := r in
  if negb ok then note_sd_error ;;' Done (g, Some RECORDER_REASON_FINALIZE) else
  ok <- record_segment g;
  if negb ok then note_sd_error ;;' Done (g, Some RECORDER_REASON_MANIFEST) else
  Done (g, None).

(** The write of slot [i], which no other task touches while it is full. *)
Definition write_slot (k : sd_pcm_sink_t) (i : bool) (t0 t1 : Z) : task (bool * sd_pcm_sink_t) :=
  locked (let* chunk := on_rec (get (fun r =>
            take (Z.to_nat RECORDER_BUFFER_BYTES) (data (slot (s_pipeline r) i)))) in
          let* r := on_rec (on_card (sd_pcm_sink_write_chunk k chunk t0 t1)) in
          on_rec_history (AudioWritten r.1 chunk) ;;; ret r).

(** One full slot: peek under the lock, write without it, release under the
    lock.  The sink reads the clock around its write; the card does not depend
    on the clock, so both reads are taken before it.  [inr] leaves the inner loop with the value of [running]. *)
Definition drain_pass (g : segment) : task (segment + (segment * bool)) :=
  i <- rec (get (fun r => full_index (s_pipeline r)));
  match i with
  | None => leave (g, true)
  | Some i =>
    t0 <- dev esp_timer_get_time;
    t1 <- dev esp_timer_get_time;
    written <- write_slot (sink g) i t0 t1;
    let '(ok, k) := written in
    let g := with_sink k g in
    if negb ok then
      note_sd_error ;;' recorder_enter_error RECORDER_REASON_SD_WRITE ;;' leave (g, false)
    else
    on_pipeline (fun p => pcm_pipeline_release_full (pcm_pipeline_note_sd_write p (u32 (t1 - t0)))) ;;'
    (let chunks := u32 (since_flush g + 1) in
     let total := u32 (seg_bytes g + RECORDER_BUFFER_BYTES) in
     if chunks <? RECORDER_FLUSH_EVERY_CHUNKS then again (with_counts total chunks g) else
     let g := with_counts total 0 g in
     flushed <- on_card_task (sd_pcm_sink_flush (sink g));
     let '(ok, k) := flushed in
     let g := with_sink k g in
     if negb ok then
       note_sd_error ;;' recorder_enter_error RECORDER_REASON_SD_FLUSH ;;' leave (g, false)
     else again g)
  end.

(** The rotation at the end of a pass: the segment and [running]. *)
Definition rotate_if_due (g : segment) : task (segment * bool) :=
  now <- dev recorder_current_date_time;
  now_tick <- dev xTaskGetTickCount;
  let elapsed_sec := u32 (u32 (now_tick - seg_start_tick g) / configTICK_RATE_HZ) in
  let date_changed := negb (bool_decide (now.1 = seg_date g)) in
  match wav_rotation_should_rotate elapsed_sec (seg_bytes g) date_changed
          (Some (RotateEvents false false false)) with
  | WAV_ROTATE_USB | WAV_ROTATE_LOW_BATTERY | WAV_ROTATE_STOP_REQUEST => Done (g, false)
  | WAV_ROTATE_NONE => Done (g, true)
  | WAV_ROTATE_TIME_30MIN | WAV_ROTATE_MIDNIGHT =>
    finished <- finish_segment g;
    match finished with
    | (g, Some reason) => recorder_enter_error reason ;;' Done (g, false)
    | (g, None) =>
      now <- dev recorder_current_date_time;
      opened <- open_segment now.1 now.2 g;
      match opened with
      | (g, Some reason) => recorder_enter_error reason ;;' Done (g, false)
      | (g, None) => Done (g, true)
      end
    end
  end.

(** One pass of the outer loop. *)
Definition writer_pass (g : segment) : task (segment + segment) :=
  rec (modify (fun r => set_rec_events ((fun b => Z.ldiff b REC_BIT_SLOT_FULL) <$> s_rec_events r) r)) ;;'
  Loop drain_pass g (fun drained =>
    let '(g, running) := drained in
    stop <- recorder_stop_requested;
    if (stop : bool) then leave g else
    rotated <- rotate_if_due g;
    let '(g, running') := rotated in
    if negb running' then leave g else
    stop <- recorder_stop_requested;
    if (stop : bool) || negb running then leave g else again g).

(** Nothing but the deletion hook follows. *)
Definition writer_gone : task unit :=
  locked (let* c := on_rec (get card) in on_rec_history (WriterGone c)).

(** The end of the writer, behind the loop. *)
Definition writer_finish (g : segment) : task unit :=
  finished <- finish_segment g;
  match finished with
  | (_, Some reason) => recorder_enter_error reason
  | (_, None) => Done tt
  end ;;'
  recorder_current_state ;;'
  recorder_set_events_ready false ;;'
  sd_mount_unmount ;;'
  writer_gone ;;'
  recorder_task49_delete rec_writer.

(** A boot step failed behind the mount. *)
Definition writer_abandon (reason : recorder_reason_t) : task unit :=
  recorder_enter_error reason ;;'
  recorder_set_events_ready false ;;'
  sd_mount_unmount ;;'
  writer_gone ;;'
  recorder_task49_delete rec_writer.

(** [recorder_task87_manifest_sync_wav_dir] *)
Definition recorder_task87_manifest_sync_wav_dir (device_id updated_at : bytes) : task bool :=
  r <- on_card_task (device_manifest_sync_wav_dir RECORDER_RECORDINGS_DIR RECORDER_MANIFEST_PATH
         RECORDER_MANIFEST_TMP_PATH device_id updated_at DEVICE_MANIFEST_STATE_RECOVERED);
  if negb (sync_ok r) then Done false else
  pending_ <- locked (on_wake task87_wake_recovery_pending);
  if negb pending_ then Done true else
  err <- locked (on_wake (task87_wake_recovery_complete_device_recovery RECORDER_EVENTS_PATH));
  Done (is_ok err).

(** The recovery of the card: the quarantine directory, the scan, the index. *)
Definition writer_recover (device_id : bytes) : task (option recorder_reason_t) :=
  err <- sd_mount_ensure_quarantine_dir;
  if negb (is_ok err) then Done (Some RECORDER_REASON_SD_WRITE) else
  scanned <- on_card_task (wav_recovery_scan_recordings RECORDER_RECORDINGS_DIR
               RECORDER_QUARANTINE_DIR (Some RECORDER_EVENTS_PATH));
  if negb scanned.1 then Done (Some RECORDER_REASON_RECOVERY) else
  now <- dev recorder_current_iso8601;
  match now with
  | None => Done (Some RECORDER_REASON_MANIFEST)
  | Some manifest_now =>
      ok <- recorder_task87_manifest_sync_wav_dir device_id manifest_now;
      Done (if (ok : bool) then None else Some RECORDER_REASON_MANIFEST)
  end.

(** An out-of-bounds read of the parsers of device.json counts as a refusal. *)
Definition device_json_accepted (r : checked bool * bytes) : bool :=
  match r.1 with Value b => b | Outside => false end.

Definition writer_identify : task (bytes + recorder_reason_t) :=
  r <- locked (on_nvs (on_platform (device_identity_ensure_device_id nvs_random)));
  let '(err, device_id) := r in
  rec (modify (set_device_id device_id)) ;;'
  if negb (is_ok err) then Done (inr RECORDER_REASON_MANIFEST) else
  json <- on_card_task (device_identity_ensure_device_json RECORDER_DEVICE_JSON_PATH device_id None None
            (replicate (Z.to_nat LOCAL_SIZE) 0));
  if negb (device_json_accepted json) then Done (inr RECORDER_REASON_MANIFEST) else
  ok <- recorder_ensure_manifest_exists;
  if negb ok then Done (inr RECORDER_REASON_MANIFEST) else Done (inl device_id).

Definition recorder_writer_task : task unit :=
  err <- sd_mount_recordings;
  if negb (is_ok err) then
    recorder_enter_error RECORDER_REASON_SD_MOUNT ;;'
    writer_gone ;;' recorder_task49_delete rec_writer
  else
  recorder_set_events_ready true ;;'
  (ok <- recorder_transition_state RECORDER_STATE_RECOVER RECORDER_REASON_RECOVERY 0;
   if negb ok then writer_abandon RECORDER_REASON_INTERNAL else
   identity <- writer_identify;
   match identity with
   | inr reason => writer_abandon reason
   | inl device_id =>
     recovered <- writer_recover device_id;
     match recovered with
     | Some reason => writer_abandon reason
     | None =>
       now <- dev recorder_current_date_time;
       rec (modify (set_seg_rec_id [])) ;;'
       (opened <- open_segment now.1 now.2 no_segment;
        match opened with
        | (_, Some reason) => writer_abandon reason
        | (g, None) =>
          rec_or_bits REC_BIT_WRITER_READY ;;'
          Loop writer_pass g writer_finish
        end)
     end
   end).

(** ** The boot *)

(** A task runs from its creation on. *)
Definition after_creation (t : task_name) (body : task unit) : task unit :=
  Loop (fun _ : unit =>
    created <- rec (get (fun r => spawned r t));
    if (created : bool) then leave tt else again tt) tt (fun _ : unit => body).

(** [xTaskCreate (...) == pdPASS] *)
Definition create_task (t : task_name) : task bool :=
  ok <- dev (task_create t);
  when ok (rec (modify (set_spawned t))) ;;' Done ok.

(** The last part of [app_main]: the three tasks. *)
Definition create_tasks : task unit :=
  ok <- create_task rec_writer;
  if negb ok then recorder_enter_error RECORDER_REASON_INTERNAL else
  ok <- create_task rec_capture;
  if negb ok then recorder_enter_error RECORDER_REASON_INTERNAL else
  ok <- create_task rec_battery;
  if negb ok then recorder_enter_error RECORDER_REASON_INTERNAL else Done tt.

(** [app_main] of [main.c]: [hold_err] is the result of
    [recorder_power_enable_hold].  The idle loop at its end only logs. *)
Definition recorder_base_app_main (slot0 slot1 : bytes) (hold_err : esp_err_t) : task unit :=
  rec (modify (fun r => set_machine recorder_state_machine_init r)) ;;'
  rec (modify (fun r => set_pipeline (pcm_pipeline_init slot0 slot1) r)) ;;'
  (lock <- dev semaphore_create;
   rec (modify (fun r => set_locks (s_rec_lock r) lock r)) ;;'
   if negb lock then Done tt else
   events <- dev rec_event_group_create;
   rec (modify (set_rec_events (if (events : bool) then Some 0 else None))) ;;'
   if negb events then
     recorder_transition_state RECORDER_STATE_ERROR RECORDER_REASON_INTERNAL 0 ;;' Done tt
   else if negb (is_ok hold_err) then recorder_enter_error RECORDER_REASON_INTERNAL else
   lock <- dev semaphore_create;
   rec (modify (fun r => set_locks lock (s_state_lock r) r)) ;;'
   if negb lock then recorder_enter_error RECORDER_REASON_INTERNAL else
   err <- dev recorder_status_led_init;
   if negb (is_ok err) then recorder_enter_error RECORDER_REASON_INTERNAL else
   rec (modify (set_led_ready true)) ;;' create_tasks).
End recorder.
