(* ===== verification/ManifestBoot.v ===== *)
(** * ManifestBoot: the first manifest of a card

    What [recorder_ensure_manifest_exists] of [main.c] makes of a card without a
    manifest, over any number of boots, each of which may meet faults and lose
    power at any point.  The states it passes through are [bootable]: no
    manifest and no backup, or one whole manifest of this device. *)

From S2P Require Import Prelude Monad Stdio RecorderConfig ManifestText ManifestDoc ManifestStore.
From S2P Require Import WavRecovery RecoveryScan ManifestCrash ManifestScan DeviceIdentity Interleave SdMount Recorder.

Abbreviation man := RECORDER_MANIFEST_PATH.
Abbreviation tmp := RECORDER_MANIFEST_TMP_PATH.
Abbreviation bak := (RECORDER_MANIFEST_PATH ++ txt ".bak")%list.

Lemma boot_names id : device_identity_is_valid_uuid id = true -> manifest_names man tmp bak id.
Proof. intros Hid. split; try by apply differ. all: done. Qed.

Section boot.
Context (id : bytes) (Hid : device_identity_is_valid_uuid id = true).

(** The card before the first boot, and its unsynced files. *)
Context (d0 : disk) (x0 : gset bytes).

Abbreviation published := (published man tmp bak id d0 x0).
Abbreviation recoverable := (recoverable man tmp bak id d0 x0).
Abbreviation elsewhere := (elsewhere man tmp bak d0 x0).

Lemma tmp_man : tmp <> man.
Proof. by apply differ. Qed.
Lemma tmp_bak : tmp <> bak.
Proof. by apply differ. Qed.
Lemma bak_is_not_man : bak <> man.
Proof. by apply (bak_man man bak). Qed.

#[local] Hint Resolve tmp_man tmp_bak bak_is_not_man : core.

(** No manifest and no backup. *)
Record unborn (d : disk) (x : gset bytes) : Prop := Unborn {
  unborn_final : d !! man = None;
  unborn_backup : d !! bak = None;
  unborn_synced : (man ∉ x) /\ (bak ∉ x);
  unborn_tmp : d !! tmp <> Some NDir;
  unborn_else : elsewhere d x;
}.

Definition bootable (d : disk) (x : gset bytes) : Prop :=
  unborn d x \/ exists m, good id m /\ recoverable m m d x.

Lemma unborn_tmp_only d d' x x' : unborn d x -> tmp_only tmp d d' x x' -> unborn d' x'.
Proof.
  intros [H1 H2 [H3 H3'] H4 H5] Ht. pose proof Ht as (Hd & Hn & Hx).
  split; rewrite ?Hd by done; try done; [|by eapply elsewhere_tmp].
  split; intros Hin; [apply H3|apply H3']; by apply Hx.
Qed.

(** The temporary becomes the manifest. *)
Lemma born m d x :
  unborn d x -> d !! tmp = Some (NFile m) -> tmp ∉ x ->
  published m (<[man := NFile m]> (delete tmp d)) (renamed_dirty tmp man x).
Proof.
  intros [H1 H2 [H3 H3'] H4 H5] Ht Hx. unfold renamed_dirty. rewrite (bool_decide_eq_false_2 (tmp ∈ x)) by done.
  split.
  - by rewrite lookup_insert_eq.
  - set_solver.
  - by rewrite lookup_insert_ne, lookup_delete_eq by done.
  - left. by rewrite lookup_insert_ne, lookup_delete_ne by done.
  - intros p Hp1 Hp2 Hp3. destruct (H5 p) as [H6 H7]; [done..|]. split; [|set_solver].
    by rewrite lookup_insert_ne, lookup_delete_ne by done.
Qed.

Lemma published_bootable m d x : good id m -> published m d x -> bootable d x.
Proof. intros Hg Hp. right. exists m. split; [done|by left]. Qed.

Lemma torn_bootable d x d' : bootable d x -> torn d x d' -> bootable d' ∅.
Proof.
  intros [[H1 H2 [H3 H3'] H4 H5]|(m & Hg & Hr)] Ht.
  - left. destruct Ht as [Hd Hn]. split; rewrite ?Hd by done; try done.
    + destruct (decide (tmp ∈ x)) as [Hin|Hout]; [by apply Hn|by rewrite Hd].
    + intros p Hp1 Hp2 Hp3. destruct (H5 p) as [H6 H7]; [done..|]. split; [|set_solver].
      intros Hx0. rewrite Hd; auto.
  - right. exists m. split; [done|]. by eapply torn_recoverable.
Qed.

(** *** The recovery *)

(** One whole manifest of this device and no artifact. *)
Definition settled_alone (d : disk) (x : gset bytes) : Prop :=
  exists m, good id m /\ published m d x /\ d !! bak = None /\ d !! tmp = None.

(** Where the run that began in [w0] got: to a manifest, or to a failure; a
    failure without a fault has changed nothing, for there is no manifest. *)
Definition recovery_outcome (w0 : world) (ok : bool) (w : world) : Prop :=
  so_far bootable w0 w /\
  (ok = true -> settled_alone (w_disk w) (w_dirty w) /\
     (unborn (w_disk w0) (w_dirty w0) -> is_Some (w_disk w0 !! tmp))) /\
  (ok = false -> faultless w0 -> keeps w0 w /\ unborn (w_disk w0) (w_dirty w0)).

Lemma begin_bootable w : bootable (w_disk w) (w_dirty w) -> so_far bootable w w.
Proof. intros Hb. split; [by apply passes_refl|done]. Qed.

Lemma unborn_failure w w' :
  unborn (w_disk w) (w_dirty w) -> keeps w w' -> recovery_outcome w false w'.
Proof.
  intros Hu Hk. split; [by eapply so_far_keeps; [apply begin_bootable; left|]|]. by split.
Qed.

Lemma faulty_failure w w' : so_far bootable w w' -> ~ faultless w -> recovery_outcome w false w'.
Proof. intros Hs Hf. split; [done|]. split; [done|]. by intros _ ?. Qed.

(** A temporary left by an earlier boot: promoted when it is a whole manifest of
    this device, else left alone. *)
Lemma wp_promote w w1 :
  unborn (w_disk w) (w_dirty w) -> tmp ∉ w_dirty w -> keeps w w1 ->
  wp (settle_final man tmp id false (bool_decide (is_Some (w_disk w !! tmp)))) (recovery_outcome w) w1.
Proof.
  intros Hu Hx Hk1. unfold settle_final. case_bool_decide as Ht; cbn [negb].
  2:{ apply wp_ret. by apply unborn_failure. }
  apply wp_bind, wp_manifest_file_valid; [done|intros w2 Hk2 _|intros w2 m Hk2 Hm Hs Hv]; cbn [negb];
    pose proof (keeps_trans _ _ _ Hk1 Hk2) as Hk.
  { apply wp_ret. by apply unborn_failure. }
  rewrite (keeps_disk _ _ Hk1) in Hm. assert (Hg : good id m) by done.
  pose proof (born m _ _ Hu Hm Hx) as Hborn.
  apply wp_bind, wp_rename; [intros w3 e Hk3 Hf3|intros w3 n Hn _ Hm3].
  { rewrite bool_decide_eq_false_2 by done. cbn [negb]. apply wp_ret, unborn_failure; [done|].
    by eapply keeps_trans. }
  rewrite bool_decide_eq_true_2 by done. cbn [negb].
  rewrite (keeps_disk _ _ Hk) in Hn, Hm3. rewrite (keeps_dirty _ _ Hk) in Hm3. rewrite Hm in Hn. injection Hn as <-.
  assert (Hso : so_far bootable w w3).
  { eapply so_far_moves; [eapply so_far_keeps; [apply begin_bootable; by left|exact Hk]|exact Hm3|by eapply published_bootable]. }
  apply wp_manifest_file_valid; [done|intros w4 Hk4 Hf4|intros w4 m4 Hk4 _ _ _].
  - apply faulty_failure; [by eapply so_far_keeps|]. apply (not_faultless _ _ _ Hso). intros Hfl.
    rewrite (Hf4 Hfl m) in Hv; [done| |done]. by rewrite (moves_disk _ _ _ _ Hm3), lookup_insert_eq.
  - split; [by eapply so_far_keeps|]. split; [|done]. intros _. split; [|by intros _]. exists m.
    rewrite (keeps_disk _ _ Hk4), (keeps_dirty _ _ Hk4), (moves_disk _ _ _ _ Hm3), (moves_dirty _ _ _ _ Hm3).
    split; [done|]. split; [done|]. rewrite !lookup_insert_ne, lookup_delete_eq, lookup_delete_ne by done.
    by split; [apply unborn_backup in Hu|].
Qed.

Lemma wp_recover_unborn w :
  unborn (w_disk w) (w_dirty w) -> tmp ∉ w_dirty w -> honest_faults w ->
  wp (device_manifest_recover_tmp man tmp id) (recovery_outcome w) w.
Proof.
  intros Hu Hx Hh. unfold device_manifest_recover_tmp. rewrite Hid. cbn [negb].
  change (manifest_backup_path man) with (Some bak). cbv iota.
  apply wp_bind, wp_artifact_exists; [done|intros w1 Hk1 _|intros w1 fe Hk1 ->]; cbn beta iota.
  { apply wp_ret. by apply unborn_failure. }
  rewrite (unborn_final _ _ Hu). rewrite bool_decide_eq_false_2 by by intros [].
  apply wp_bind, wp_artifact_exists; [by apply Hk1|intros w2 Hk2 _|intros w2 te Hk2 ->]; cbn beta iota;
    pose proof (keeps_trans _ _ _ Hk1 Hk2) as Hk12.
  { apply wp_ret. by apply unborn_failure. }
  apply wp_bind, wp_artifact_exists; [by apply Hk12|intros w3 Hk3 _|intros w3 be Hk3 ->]; cbn beta iota;
    pose proof (keeps_trans _ _ _ Hk12 Hk3) as Hk123.
  { apply wp_ret. by apply unborn_failure. }
  rewrite (keeps_disk _ _ Hk12), (unborn_backup _ _ Hu). rewrite bool_decide_eq_false_2 by by intros [].
  apply wp_bind, wp_ret. rewrite (keeps_disk _ _ Hk1). by apply wp_promote.
Qed.

Lemma wp_recover_bootable w :
  bootable (w_disk w) (w_dirty w) -> tmp ∉ w_dirty w -> honest_faults w ->
  wp (device_manifest_recover_tmp man tmp id) (recovery_outcome w) w.
Proof.
  intros [Hu|(m & Hg & Hr)] Hx Hh; [by apply wp_recover_unborn|].
  destruct (boot_names id Hid) as [H1 H2 H3 H4 H5 H6].
  assert (Hext : snapshot_extends m m id = true) by (apply extends_refl; [by apply uuid_is_text|apply Hg]).
  assert (Hsub : forall w', so_far (recoverable m m) w w' -> so_far bootable w w').
  { intros w'. apply so_far_mono. intros d x Hd. right. by exists m. }
  eapply (wp_recover_tmp man tmp bak id H1 H3 H4 H5 H6 d0 x0 m m Hg Hg Hext); [done|done|..].
  - intros w' Hs Hf. apply faulty_failure; auto.
  - intros w' Hs [(m' & Hor & Hp) [Hb Ht]]. split; [auto|]. split; [|done]. intros _.
    split; [exists m; by assert (m' = m) as -> by tauto|]. intros [Hm Hk _ _ _]. exfalso.
    destruct Hr as [H|[H|H]]; [..|by rewrite (park_backup _ _ _ _ _ _ _ _ H) in Hk];
      by rewrite (pub_final _ _ _ _ _ _ _ _ _ H) in Hm.
Qed.

(** *** The blank manifest *)

Lemma write_blank_tmp w0 w d x w' :
  so_far bootable w0 w -> unborn (w_disk w) (w_dirty w) -> moves w d x w' ->
  tmp_only tmp (w_disk w) d (w_dirty w) x -> so_far bootable w0 w' /\ unborn (w_disk w') (w_dirty w').
Proof.
  intros Hs Hu Hm Ht. pose proof (unborn_tmp_only _ _ _ _ Hu Ht) as Hu'.
  split; [eapply so_far_moves; [done|done|by left]|]. by rewrite (moves_disk _ _ _ _ Hm), (moves_dirty _ _ _ _ Hm).
Qed.

(** Published whole, or not at all. *)
Definition blank_outcome (m : bytes) (w0 : world) (ok : bool) (w : world) : Prop :=
  so_far bootable w0 w /\ (faultless w0 -> ok = true) /\
  (ok = true -> published m (w_disk w) (w_dirty w) /\ w_disk w !! bak = None /\ w_disk w !! tmp = None).

Lemma blank_failure m w0 w : so_far bootable w0 w -> ~ faultless w0 -> blank_outcome m w0 false w.
Proof. intros Hs Hf. by split_and!. Qed.

Lemma wp_write_blank m w0 w :
  good id m -> so_far bootable w0 w -> unborn (w_disk w) (w_dirty w) ->
  wp (write_blank_manifest m) (blank_outcome m w0) w.
Proof.
  intros Hg Hs Hu. unfold write_blank_manifest.
  apply wp_bind, wp_fopen_wb; [intros w1 Hk1 Hd1|intros w1 Hm1]; cbn beta iota.
  { apply wp_ret, blank_failure; [by eapply so_far_keeps|]. apply (not_faultless _ _ _ Hs). intros Hf.
    by apply (unborn_tmp _ _ Hu), Hd1. }
  destruct (write_blank_tmp _ _ _ _ _ Hs Hu Hm1) as [Hs1 Hu1]; [apply tmp_only_write; set_solver|].
  apply wp_bind, wp_fwrite. intros w2 wrote stored Hm2 _ Hall Hfl2. cbn [h_pos h_path] in *.
  destruct (write_blank_tmp _ _ _ _ _ Hs1 Hu1 Hm2) as [Hs2 Hu2]; [apply tmp_only_write; set_solver|].
  assert (Hclose : forall w3 h, so_far bootable w0 w3 -> ~ faultless w0 ->
    wp (let* _ := fclose h in ret false) (blank_outcome m w0) w3).
  { intros w3 h Hs3 Hf. apply wp_bind, wp_fclose. intros w4 b Hk4 _.
    apply wp_ret, blank_failure; [by eapply so_far_keeps|done]. }
  destruct wrote; cbv iota.
  2:{ apply wp_bind, wp_ret. cbn [negb]. apply Hclose; [done|]. apply (not_faultless _ _ _ Hs1). intros Hf.
      by specialize (Hfl2 Hf). }
  rewrite (Hall eq_refl) in *. clear Hall Hfl2 stored.
  apply wp_bind, wp_fflush. intros w3 flushed Hk3 Hfl3. pose proof (so_far_keeps _ _ _ _ Hs2 Hk3) as Hs3.
  destruct flushed; cbn [negb].
  2:{ apply Hclose; [done|]. apply (not_faultless _ _ _ Hs2). intros Hf. by specialize (Hfl3 Hf). }
  assert (Hu3 : unborn (w_disk w3) (w_dirty w3)) by (by rewrite (keeps_disk _ _ Hk3), (keeps_dirty _ _ Hk3)).
  apply wp_bind, wp_fsync; [intros w4 Hk4 Hn4|intros w4 Hm4]; cbn [negb].
  { apply Hclose; [by eapply so_far_keeps|]. by apply (not_faultless _ _ _ Hs3). }
  cbn [h_path] in Hm4.
  destruct (write_blank_tmp _ _ _ _ _ Hs3 Hu3 Hm4) as [Hs4 Hu4]; [apply tmp_only_sync, Hu3|].
  assert (Ht4 : w_disk w4 !! tmp = Some (NFile m)).
  { rewrite (moves_disk _ _ _ _ Hm4), (keeps_disk _ _ Hk3), (moves_disk _ _ _ _ Hm2), lookup_insert_eq.
    rewrite (moves_disk _ _ _ _ Hm1), lookup_insert_eq. cbn [file_content]. by rewrite write_at_nil. }
  assert (Hx4 : tmp ∉ w_dirty w4) by (rewrite (moves_dirty _ _ _ _ Hm4); apply not_in_synced).
  clear Hm1 Hm2 Hk3 Hm4.
  apply wp_bind, wp_fclose. intros w5 closed Hk5 Hfl5. pose proof (so_far_keeps _ _ _ _ Hs4 Hk5) as Hs5.
  destruct closed; cbn [negb].
  2:{ apply wp_ret, blank_failure; [done|]. apply (not_faultless _ _ _ Hs4). intros Hf. by specialize (Hfl5 Hf). }
  rewrite <- (keeps_disk _ _ Hk5) in Hu4, Ht4. rewrite <- (keeps_dirty _ _ Hk5) in Hu4, Hx4.
  apply wp_bind, wp_rename; [intros w6 e Hk6 Hf6|intros w6 n Hn _ Hm6]; apply wp_ret.
  - rewrite bool_decide_eq_false_2 by done. apply blank_failure; [by eapply so_far_keeps|].
    apply (not_faultless _ _ _ Hs5). intros Hf. destruct (Hf6 Hf) as [Hc|(_ & [y Hc] & _)]; [by rewrite Ht4 in Hc|].
    by rewrite (unborn_final _ _ Hu4) in Hc.
  - rewrite bool_decide_eq_true_2 by done. rewrite Ht4 in Hn. injection Hn as <-.
    pose proof (born m _ _ Hu4 Ht4 Hx4) as Hborn.
    split; [eapply so_far_moves; [done|exact Hm6|by eapply published_bootable]|]. split; [done|]. intros _.
    rewrite (moves_disk _ _ _ _ Hm6), (moves_dirty _ _ _ _ Hm6). split; [done|].
    rewrite !lookup_insert_ne, lookup_delete_eq, lookup_delete_ne by done. by split; [apply unborn_backup in Hu4|].
Qed.

(** *** The boot *)

Lemma wp_no_artifacts paths w (Q : bool -> world -> Prop) :
  honest_faults w ->
  (forall w', keeps w w' -> (faultless w -> Exists (fun p => is_Some (w_disk w !! p)) paths) -> Q false w') ->
  (forall w', keeps w w' -> Forall (fun p => w_disk w !! p = None) paths -> Q true w') ->
  wp (no_artifacts paths) Q w.
Proof.
  revert w Q. induction paths as [|p paths IH]; intros w Q Hh Hno Hyes; cbn [no_artifacts].
  { apply wp_ret, Hyes; [done|constructor]. }
  apply wp_bind, wp_stat_honest; [done|intros w1 e Hk Hf He|intros w1 Hk Hd|intros w1 n Hk Hd]; cbn beta iota.
  - destruct e; try done; apply wp_ret, Hno; try done; by intros ?.
  - apply IH; [by apply Hk|intros w2 Hk2 Hex|intros w2 Hk2 Hall].
    + apply Hno; [by eapply keeps_trans|]. intros Hf. apply Exists_cons_tl. rewrite <- (keeps_disk _ _ Hk).
      by apply Hex, Hk.
    + apply Hyes; [by eapply keeps_trans|]. constructor; [done|]. by rewrite (keeps_disk _ _ Hk) in Hall.
  - apply wp_ret, Hno; [done|]. intros _. apply Exists_cons_hd. by exists n.
Qed.

(** The directory of the recordings is there and empty. *)
Definition pristine (d : disk) : Prop :=
  d !! RECORDER_RECORDINGS_DIR = Some NDir /\ forallb is_dot (entries RECORDER_RECORDINGS_DIR d) = true.

Lemma wp_pristine w :
  wp recorder_recordings_tree_pristine
    (fun b w' => keeps w w' /\ (faultless w -> pristine (w_disk w) -> b = true)) w.
Proof.
  unfold recorder_recordings_tree_pristine, list_dir, closedir. wp_prim.
  destruct (hit f) eqn:Hh; [wp_prim; split; [done|]; naive_solver|]. rewrite (keeps_disk _ _ Hk).
  destruct (w_disk w !! RECORDER_RECORDINGS_DIR) as [[c|]|] eqn:Hd;
    try (wp_prim; split; [done|]; intros _ [Hc _]; congruence).
  wp_prim. pose proof (keeps_trans _ _ _ Hk Hk0) as Hk1.
  destruct f0; wp_prim; (split; [exact (keeps_trans _ _ _ Hk1 Hk2)|]); intros Hfl [_ Hdot].
  - by destruct (Hf0 eq_refl (keeps_faultless _ _ Hk Hfl)).
  - rewrite Hdot. destruct (hit f0) eqn:Hh'; [|done].
    by destruct (Hf1 eq_refl (keeps_faultless _ _ Hk1 Hfl)).
Qed.

Lemma build_empty_document now m :
  device_manifest_build_empty id now 256 = Some m -> m = document id now [] /\ good id m.
Proof.
  unfold device_manifest_build_empty. rewrite Hid. cbn [Z.eqb negb].
  destruct (device_manifest_is_valid_iso8601_offset now) eqn:Hiso; cbn [negb]; [|done].
  intros [-> Hs]%snprintf_fit_Some. change (document_head id now ++ txt "]}")%list with (document id now []) in *.
  split; [done|]. split; [unfold sized, RECORDER_MANIFEST_MAX_BYTES; lia|].
  unfold manifest_snapshot_valid. rewrite manifest_snapshot_document; [done|by apply uuid_is_text|].
  split; [by apply iso_valid|constructor..].
Qed.

Lemma build_empty_fits now :
  device_manifest_is_valid_iso8601_offset now = true ->
  device_manifest_build_empty id now 256 = Some (document id now []).
Proof.
  intros Hiso. unfold device_manifest_build_empty. rewrite Hid, Hiso. cbn [Z.eqb negb].
  apply snprintf_fit_ok. destruct (iso_is_text now) as [_ Hn]; [by apply iso_valid|].
  destruct (uuid_is_text id Hid) as [_ Hi]. unfold document, document_head, zlen.
  rewrite !length_app, Hn, Hi. vm_compute. reflexivity.
Qed.

(** A boot: the card has one whole manifest and no artifact, or the boot failed;
    a failure without a fault has changed nothing, and is none on a card
    without artifacts whose recordings are empty. *)
Definition boot_outcome (now : bytes) (w : world) (ok : bool) (w' : world) : Prop :=
  so_far bootable w w' /\
  (ok = true -> settled_alone (w_disk w') (w_dirty w')) /\
  (ok = false -> faultless w -> keeps w w' /\ unborn (w_disk w) (w_dirty w)) /\
  (faultless w -> unborn (w_disk w) (w_dirty w) -> w_disk w !! tmp = None -> pristine (w_disk w) ->
   device_manifest_is_valid_iso8601_offset now = true ->
   ok = true /\ w_disk w' !! man = Some (NFile (document id now []))).

Lemma failed_boot now w w' :
  so_far bootable w w' -> ~ faultless w -> boot_outcome now w false w'.
Proof. intros Hs Hf. split_and!; [done|done|by intros _ ?|by intros ?]. Qed.

Lemma idle_boot now w w' :
  so_far bootable w w' -> (faultless w -> keeps w w' /\ unborn (w_disk w) (w_dirty w)) ->
  (faultless w -> w_disk w !! tmp = None -> pristine (w_disk w) ->
   device_manifest_is_valid_iso8601_offset now = true -> False) ->
  boot_outcome now w false w'.
Proof. intros Hs Hk Hno. split_and!; [done|done|auto|]. intros Hf _ Ht Hp Hi. by destruct Hno. Qed.

Lemma unborn_bootable d x : bootable d x -> d !! man = None -> d !! bak = None -> unborn d x.
Proof.
  intros [Hu|(m & _ & [H|[H|H]])] Hm Hb; [done|..].
  - by rewrite (pub_final _ _ _ _ _ _ _ _ _ H) in Hm.
  - by rewrite (pub_final _ _ _ _ _ _ _ _ _ H) in Hm.
  - by rewrite (park_backup _ _ _ _ _ _ _ _ H) in Hb.
Qed.

Lemma wp_ensure_manifest now w :
  bootable (w_disk w) (w_dirty w) -> tmp ∉ w_dirty w -> honest_faults w ->
  wp (ensure_manifest id now) (boot_outcome now w) w.
Proof.
  intros Hb Hx Hh. unfold ensure_manifest. apply wp_bind.
  eapply wp_mono; [by apply wp_recover_bootable|]. intros recovered w1 (Hs1 & Hyes & Hno).
  destruct recovered; cbv iota.
  { apply wp_ret. destruct (Hyes eq_refl) as [Halone Htmp]. split_and!; [done..|]. intros _ Hu Ht.
    destruct (Htmp Hu) as [n Hn]. congruence. }
  assert (Hnf : ~ faultless w1 -> ~ faultless w) by by apply (not_faultless bootable w w1).
  apply wp_bind, wp_no_artifacts; [by apply Hs1|intros w2 Hk2 Hex|intros w2 Hk2 Hall]; cbn [negb];
    pose proof (so_far_keeps _ _ _ _ Hs1 Hk2) as Hs2.
  { apply wp_ret, idle_boot; [done| |].
    - intros Hf. destruct (Hno eq_refl Hf) as [Hk1 Hu]. split; [by eapply keeps_trans|done].
    - intros Hf Ht _ _. destruct (Hno eq_refl Hf) as [Hk1 Hu].
      specialize (Hex (keeps_faultless _ _ Hk1 Hf)). rewrite (keeps_disk _ _ Hk1) in Hex.
      rewrite !Exists_cons, Exists_nil in Hex. rewrite (unborn_final _ _ Hu), (unborn_backup _ _ Hu), Ht in Hex.
      by destruct Hex as [[]|[[]|[[]|[]]]]. }
  apply Forall_cons in Hall as [Hm Hall]. apply Forall_cons in Hall as [Ht Hall].
  apply Forall_cons in Hall as [Hbk _].
  assert (Hu : unborn (w_disk w2) (w_dirty w2)).
  { rewrite <- (keeps_disk _ _ Hk2) in Hm, Hbk. apply unborn_bootable; [by apply so_far_now in Hs2|done|done]. }
  apply wp_bind. eapply wp_mono; [apply wp_pristine|]. intros empty_ w3 [Hk3 Hp3].
  pose proof (so_far_keeps _ _ _ _ Hs2 Hk3) as Hs3.
  assert (Hback : faultless w -> keeps w w3 /\ unborn (w_disk w) (w_dirty w)).
  { intros Hf. destruct (Hno eq_refl Hf) as [Hk1 Huw]. split; [|done].
    eapply keeps_trans; [exact Hk1|by eapply keeps_trans]. }
  destruct empty_; cbn [negb].
  2:{ apply wp_ret, idle_boot; [done|done|]. intros Hf _ Hp _. destruct (Hno eq_refl Hf) as [Hk1 _].
      pose proof (keeps_trans _ _ _ Hk1 Hk2) as Hk12. rewrite <- (keeps_disk _ _ Hk12) in Hp.
      by specialize (Hp3 (keeps_faultless _ _ Hk12 Hf) Hp). }
  destruct (device_manifest_build_empty id now 256) as [m|] eqn:Hm0.
  2:{ apply wp_ret, idle_boot; [done|done|]. intros _ _ _ Hi. by rewrite build_empty_fits in Hm0. }
  destruct (build_empty_document _ _ Hm0) as [-> Hg].
  eapply wp_mono; [apply (wp_write_blank _ w); [done|done|]|].
  { by rewrite (keeps_disk _ _ Hk3), (keeps_dirty _ _ Hk3). }
  intros ok w4 (Hs4 & Hfl & Hpub). split_and!; [done| | |].
  - intros Ho. destruct (Hpub Ho) as (? & ? & ?). by exists (document id now []).
  - intros Ho Hf. by rewrite (Hfl Hf) in Ho.
  - intros Hf _ _ _ _. split; [by apply Hfl|]. by apply (pub_final _ _ _ _ _ _ _ _ _ (proj1 (Hpub (Hfl Hf)))).
Qed.
End boot.

(** ** Losing power *)

(** The states in which power can be lost in the boots of a card, each of which
    may meet faults, until the manifest is there. *)
Inductive boots (id : bytes) (w : world) : disk -> gset bytes -> Prop :=
  | boots_begin : boots id w (w_disk w) (w_dirty w)
  | boots_cut d x w' now s :
      boots id w d x -> torn d x (w_disk w') -> w_dirty w' = ∅ -> w_hist w' = [] -> honest_faults w' ->
      s ∈ visited (ensure_manifest id now) w' ->
      boots id w s.1 s.2.

Arguments boots_begin {id w}.
Arguments boots_cut {id w}.

(** A card that has no manifest yet. *)
Record no_manifest (w : world) : Prop := NoManifest {
  nm_final : w_disk w !! man = None;
  nm_backup : w_disk w !! bak = None;
  nm_synced : (man ∉ w_dirty w) /\ (bak ∉ w_dirty w);
  nm_tmp : w_disk w !! tmp <> Some NDir;
}.

Section theorem.
Context (id : bytes) (Hid : device_identity_is_valid_uuid id = true) (w : world) (Hw : no_manifest w).

Abbreviation bootable := (bootable id (w_disk w) (w_dirty w)).

Lemma boots_bootable d x : boots id w d x -> bootable d x.
Proof.
  induction 1 as [|d x w' now s _ IH Htorn Hx Hh Hf Hs].
  - left. destruct Hw. by split.
  - apply (torn_bootable id (w_disk w) (w_dirty w)) in Htorn; [|done]. rewrite <- Hx in Htorn.
    apply (so_far_visited bootable (ensure_manifest id now) w'); [done| |done].
    apply (wp_ensure_manifest id Hid _ _ now w'); [done|rewrite Hx; set_solver|done].
Qed.

(** C10: the first manifest of a card is never torn.  Lose power anywhere in any
    number of boots of a card without a manifest, under any honest plan of
    faults and with the unsynced files torn in any way; then let a boot meet no
    fault.  It succeeds with one whole manifest of this device, without
    temporary and backup, every other file as it was; or it fails, has changed
    nothing, and there is no manifest.  When the cut left no temporary and the
    recordings are empty it succeeds with the blank manifest. *)
Theorem first_manifest_is_whole d x d' over now :
  boots id w d x -> torn d x d' ->
  let r := ensure_manifest id now (World d' ∅ [] over []) in
  (if r.1 then exists m, manifest_snapshot_valid m id = true /\ holds_only man tmp bak m w (w_disk r.2)
   else w_disk r.2 = d' /\ d' !! man = None /\ d' !! bak = None) /\
  (d' !! man = None -> d' !! bak = None -> d' !! tmp = None -> pristine d' ->
   device_manifest_is_valid_iso8601_offset now = true ->
   r.1 = true /\ w_disk r.2 !! man = Some (NFile (document id now []))).
Proof.
  intros Hb%boots_bootable Ht r. pose proof (torn_bootable id _ _ _ _ _ Hb Ht) as Hb'.
  assert (Hout : boot_outcome id (w_disk w) (w_dirty w) now (World d' ∅ [] over []) r.1 r.2).
  { apply (wp_ensure_manifest id Hid _ _ now (World d' ∅ [] over [])); [done|apply not_elem_of_empty|constructor]. }
  destruct Hout as (_ & Hyes & Hno & Hblank). split.
  - destruct r.1.
    + destruct (Hyes eq_refl) as (m & [_ Hv] & Hp & Hbk & Htm). exists m. split; [done|].
      split; [by destruct Hp|done|done|]. intros p Hp1 Hp2 Hp3 Hp4.
      by apply (pub_else _ _ _ _ _ _ _ _ _ Hp p).
    + destruct (Hno eq_refl eq_refl) as [Hk Hu]. split; [by destruct Hk|]. by destruct Hu.
  - intros Hm Hbk Htm Hp Hi. apply Hblank; try done. by apply unborn_bootable with id.
Qed.
End theorem.

(** ** Witness: power lost in the first boot *)

Definition new_card : world := clean_world
  (<[RECORDER_M5DAYLOG_DIR := NDir]> (<[RECORDER_RECORDINGS_DIR := NDir]> ∅)).

Definition first_boot : io bool := ensure_manifest sample_id sample_stamp.

(** The card when half of the boot is done: the temporary is written, not synced. *)
Definition first_cut : disk * gset bytes := nth 2 (visited first_boot new_card) (∅, ∅).
Definition lost_tmp : disk := delete tmp first_cut.1.

Lemma first_cut_dirty : first_cut.2 = {[tmp]}.
Proof. apply (bool_decide_eq_true_1 _). vm_compute. reflexivity. Qed.

Lemma first_cut_visited : first_cut ∈ visited first_boot new_card.
Proof. apply list_elem_of_In, nth_In. apply Nat.ltb_lt. vm_compute. reflexivity. Qed.

Lemma first_cut_torn : torn first_cut.1 first_cut.2 lost_tmp.
Proof.
  rewrite first_cut_dirty. split; intros p Hp.
  - apply lookup_delete_ne. intros <-. by apply Hp, elem_of_singleton.
  - apply elem_of_singleton in Hp as ->. unfold lost_tmp. by rewrite lookup_delete_eq.
Qed.

Lemma new_card_blank : no_manifest new_card.
Proof.
  split; try (vm_compute; reflexivity); [split; apply not_elem_of_empty|].
  intros H. vm_compute in H. discriminate H.
Qed.

Lemma first_boots : boots sample_id new_card first_cut.1 first_cut.2.
Proof.
  apply (boots_cut (w_disk new_card) (w_dirty new_card) new_card sample_stamp).
  - apply boots_begin.
  - split; [done|]. by intros p Hp%elem_of_empty.
  - done.
  - done.
  - constructor.
  - apply first_cut_visited.
Qed.

Lemma first_manifest_is_whole_witness :
  first_cut.1 !! tmp = Some (NFile (document sample_id sample_stamp [])) /\
  (first_boot (World lost_tmp ∅ [] false [])).1 = true /\
  w_disk (first_boot (World lost_tmp ∅ [] false [])).2 !! man = Some (NFile (document sample_id sample_stamp [])).
Proof.
  split; [vm_compute; reflexivity|].
  refine (proj2 (first_manifest_is_whole sample_id eq_refl new_card new_card_blank first_cut.1 first_cut.2
    lost_tmp false sample_stamp first_boots first_cut_torn) _ _ _ _ _); try (vm_compute; reflexivity).
  split; vm_compute; reflexivity.
Defined.
