(* ===== verification/CdcSession.v ===== *)
(** * CdcSession: the sessions of the PC link ([usb_cdc_protocol.c])

    The functions the coordinator and the callbacks of the USB stack use to
    close, reset and open a session, over the session gate of SessionGate.
    Waking the worker task touches no state. *)

From stdpp Require Import functions.
From S2P Require Import Prelude Monad Nvs Interleave.
From S2P Require SessionGate.
Open Scope prog_scope.

(** [s_worker] stands for the handle not being NULL. *)
Inductive cdc_flag :=
  | s_worker
  | s_connected
  | s_reset_line
  | s_cdc_initialized
  | s_cdc_started
  | s_open_requested.

#[export] Instance cdc_flag_eq_dec : EqDecision cdc_flag.
Proof. solve_decision. Defined.

Record cdc_state := CdcState {
  cdc_flags : cdc_flag -> bool;
  s_session_gate : SessionGate.gate_world;
  s_cdc_tx_completed : Z;
}.

Definition set_cdc_flag (f : cdc_flag) (b : bool) (c : cdc_state) : cdc_state :=
  CdcState (<[f := b]> (cdc_flags c)) (s_session_gate c) (s_cdc_tx_completed c).
Definition set_gate (g : SessionGate.gate_world) (c : cdc_state) : cdc_state :=
  CdcState (cdc_flags c) g (s_cdc_tx_completed c).
Definition count_tx_completed (c : cdc_state) : cdc_state :=
  CdcState (cdc_flags c) (s_session_gate c) (u32 (s_cdc_tx_completed c + 1)).

(** The tasks and the clock of FreeRTOS, the CDC class driver of esp_tinyusb,
    and the endpoints of TinyUSB.  A read gives at most the bytes asked for, or
    [None] for an error; a descriptor may be NULL. *)
Class CdcPlatform (P : Type) := {
  create_worker_task : st P bool;
  pdMS_TO_TICKS : Z -> Z;
  cdc_xTaskGetTickCount : st P Z;
  cdc_vTaskDelay : Z -> st P unit;
  tinyusb_cdcacm_init : st P esp_err_t;
  tinyusb_cdcacm_read : Z -> st P (option bytes);
  tinyusb_cdcacm_write_queue : bytes -> st P Z;
  tinyusb_cdcacm_write_queue_char : Z -> st P Z;
  tinyusb_cdcacm_write_flush : Z -> st P esp_err_t;
  CFG_TUD_CDC_TX_BUFSIZE : Z;
  tud_cdc_n_write_available : st P Z;
  usbd_edpt_busy : Z -> st P bool;
  tud_descriptor_configuration_cb : st P (option bytes);
}.

(** The world of the threads holds the variables and the platform, and notes
    the release attempt whose response the host has in full. *)
Class CdcHost (W P : Type) := {
  on_cdc : forall {X}, st cdc_state X -> st W X;
  on_cdc_platform : forall {X}, st P X -> st W X;
  on_answer_sent : bytes -> st W unit;
}.

Section cdc_session.
Context {W P : Type} `{CdcPlatform P, CdcHost W P}.

Abbreviation task := (@prog W).

Definition cdc {X} (m : st cdc_state X) : task X := Atomic (fun _ => on_cdc m) Done.
Definition cdc_up (f : cdc_flag) : task bool := cdc (get (fun c => cdc_flags c f)).
Definition cdc_store (f : cdc_flag) (b : bool) : task unit := cdc (modify (set_cdc_flag f b)).

(** A function of the gate, on [s_session_gate]. *)
Definition on_session_gate {X} (m : st SessionGate.gate_world X) : st W X :=
  on_cdc (fun c => let (x, g) := m (s_session_gate c) in (x, set_gate g c)).
Definition gate_call {X} (p : @prog SessionGate.gate_world X) : task X :=
  lift (fun _ => on_session_gate) p.

Definition tud_cdc_tx_complete_cb (itf : Z) : task unit :=
  if itf =? 0 then cdc (modify count_tx_completed) else Done tt.

(** [event] is not NULL; the line states of [event->line_state_changed_data]. *)
Definition usb_cdc_line_state_callback (dtr rts : bool) : task unit :=
  cdc_store s_connected (dtr || rts) ;;' cdc_store s_reset_line true ;;' cdc_up s_worker ;;' Done tt.

Definition usb_cdc_rx_callback : task unit :=
  cdc_store s_connected true ;;'
  gate_call SessionGate.usb_cdc_session_gate_note_rx ;;'
  cdc_up s_worker ;;' Done tt.

Definition usb_cdc_protocol_close_session : task unit :=
  cdc_store s_open_requested false ;;'
  cdc_store s_connected false ;;'
  cdc_store s_reset_line true ;;'
  gate_call SessionGate.usb_cdc_session_gate_close.

Definition usb_cdc_protocol_reset_session : task unit :=
  cdc_store s_open_requested false ;;'
  cdc_store s_connected false ;;'
  cdc_store s_reset_line true ;;'
  gate_call SessionGate.usb_cdc_session_gate_reset ;;'
  gate_call SessionGate.usb_cdc_session_gate_note_rx ;;'
  cdc_up s_worker ;;' Done tt.

Definition usb_cdc_protocol_open_session : task unit :=
  cdc_store s_open_requested true ;;'
  cdc_store s_reset_line true ;;'
  (worker <- cdc_up s_worker;
   if negb worker then Done tt else
   Loop (fun _ : unit =>
     requested <- cdc_up s_open_requested;
     opened <- (if (requested : bool) then gate_call SessionGate.usb_cdc_session_gate_open else Done true);
     if (opened : bool) then leave tt else again tt) tt Done).

(** [config_ok]: the configuration has its device id and every callback. *)
Definition usb_cdc_protocol_init (config_ok : bool) : task esp_err_t :=
  if negb config_ok then Done ESP_ERR_INVALID_ARG else
  initialized <- cdc_up s_cdc_initialized;
  if (initialized : bool) then Done ESP_OK else
  cdc (modify (set_gate SessionGate.start_world)) ;;'
  cdc_store s_cdc_initialized true ;;' Done ESP_OK.

Definition usb_cdc_protocol_start : task esp_err_t :=
  initialized <- cdc_up s_cdc_initialized;
  if negb initialized then Done ESP_ERR_INVALID_STATE else
  started <- cdc_up s_cdc_started;
  if (started : bool) then Done ESP_OK else
  created <- Atomic (fun _ => on_cdc_platform create_worker_task) Done;
  cdc_store s_worker created ;;'
  (if negb created then Done ESP_ERR_NO_MEM else
   err <- Atomic (fun _ => on_cdc_platform tinyusb_cdcacm_init) Done;
   if negb (is_ok err) then cdc_store s_worker false ;;' Done err else
   cdc_store s_cdc_started true ;;'
   (open_requested <- cdc_up s_open_requested;
    when open_requested usb_cdc_protocol_open_session ;;' Done ESP_OK)).
End cdc_session.
