(* ===== verification/UsbDescriptor.v ===== *)
(** * UsbDescriptor: the bulk-IN endpoint of the PC link ([cdc_bulk_in_endpoint])

    The walk over the active USB configuration descriptor in
    [usb_cdc_protocol.c].  Every read of the descriptor is a lookup that may
    fall outside of it; the theorems say that none does, and that on a
    configuration made of whole descriptors the walk finds the first bulk-IN
    endpoint of a CDC data interface in its alternate setting 0. *)

From S2P Require Import Prelude.

(** The constants of the USB specification that TinyUSB names. *)
Definition TUSB_DESC_CONFIGURATION : Z := 2.
Definition TUSB_DESC_INTERFACE : Z := 4.
Definition TUSB_DESC_ENDPOINT : Z := 5.
Definition TUSB_CLASS_CDC_DATA : Z := 10.
Definition TUSB_XFER_BULK : Z := 2.

(** ** The walk *)

(** [desc[i]]; [None] is a read outside of the descriptor. *)
Definition byte_at (desc : bytes) (i : Z) : option Z := desc !! Z.to_nat i.

(** The body of the loop: the endpoint to return, or whether the walk is
    inside a CDC data interface behind this descriptor. *)
Definition visit (desc : bytes) (offset size : Z) (cdc_data_interface : bool) : option (Z + bool) :=
  type ← byte_at desc (offset + 1);
  if type =? TUSB_DESC_INTERFACE then
    if size <? 9 then Some (inl 0) else
    class ← byte_at desc (offset + 5);
    if negb (class =? TUSB_CLASS_CDC_DATA) then Some (inr false) else
    alternate ← byte_at desc (offset + 3);
    Some (inr (alternate =? 0))
  else if cdc_data_interface && (type =? TUSB_DESC_ENDPOINT) then
    if size <? 7 then Some (inl 0) else
    address ← byte_at desc (offset + 2);
    if Z.land address 128 =? 0 then Some (inr true) else
    attributes ← byte_at desc (offset + 3);
    Some (if Z.land attributes 3 =? TUSB_XFER_BULK then inl address else inr true)
  else Some (inr cdc_data_interface).

(** The loop; each pass moves by two bytes or more, so [total] passes are
    enough, and running out of them also gives [None]. *)
Fixpoint walk_descriptors (fuel : nat) (desc : bytes) (total offset : Z) (cdc_data_interface : bool) :
    option Z :=
  if negb (offset <? total) then Some 0 else
  match fuel with
  | O => None
  | S fuel =>
      size ← byte_at desc offset;
      if (size <? 2) || (total - offset <? size) then Some 0 else
      seen ← visit desc offset size cdc_data_interface;
      match seen with
      | inl address => Some address
      | inr inside => walk_descriptors fuel desc total (offset + size) inside
      end
  end.

(** A [None] descriptor is a NULL pointer. *)
Definition cdc_bulk_in_endpoint (descriptor : option bytes) : option Z :=
  match descriptor with
  | None => Some 0
  | Some desc =>
      length_ ← byte_at desc 0;
      if length_ <? 9 then Some 0 else
      type ← byte_at desc 1;
      if negb (type =? TUSB_DESC_CONFIGURATION) then Some 0 else
      low ← byte_at desc 2;
      high ← byte_at desc 3;
      let total := Z.lor low (Z.shiftl high 8) in
      if (total <? 9) || (1024 <? total) then Some 0 else
      walk_descriptors (Z.to_nat total) desc total 0 false
  end.

(** ** No read outside of the descriptor *)

Lemma byte_at_in desc i : 0 <= i < zlen desc -> exists b, byte_at desc i = Some b.
Proof. intros Hi. apply lookup_lt_is_Some_2. unfold zlen in Hi. lia. Qed.

(** What the walk needs of the memory behind the pointer: the length byte, and
    as many bytes as a configuration descriptor says it has. *)
Definition readable (desc : bytes) : Prop :=
  1 <= zlen desc /\
  (9 <= nth 0 desc 0 -> 9 <= zlen desc /\ Z.lor (nth 2 desc 0) (Z.shiftl (nth 3 desc 0) 8) <= zlen desc).

Lemma visit_reads desc offset size inside :
  0 <= offset -> 2 <= size -> offset + size <= zlen desc ->
  exists r, visit desc offset size inside = Some r.
Proof.
  intros H0 H2 Hs. unfold visit.
  destruct (byte_at_in desc (offset + 1)) as [ty ->]; [lia|]. cbn.
  destruct (ty =? _).
  - destruct (size <? 9) eqn:E; [by eexists|]. apply Z.ltb_ge in E.
    destruct (byte_at_in desc (offset + 5)) as [cl ->]; [lia|]. cbn.
    destruct (negb _); [by eexists|].
    destruct (byte_at_in desc (offset + 3)) as [al ->]; [lia|]. by eexists.
  - destruct (_ && _); [|by eexists].
    destruct (size <? 7) eqn:E; [by eexists|]. apply Z.ltb_ge in E.
    destruct (byte_at_in desc (offset + 2)) as [ad ->]; [lia|]. cbn.
    destruct (_ =? 0); [by eexists|].
    destruct (byte_at_in desc (offset + 3)) as [at_ ->]; [lia|]. by eexists.
Qed.

Lemma walk_reads fuel : forall desc total offset inside,
  0 <= offset -> total - offset <= 2 * Z.of_nat fuel -> total <= zlen desc ->
  exists r, walk_descriptors fuel desc total offset inside = Some r.
Proof.
  induction fuel as [|fuel IH]; intros desc total offset inside H0 Hf Ht; cbn [walk_descriptors];
    destruct (offset <? total) eqn:E; cbn [negb]; try by eexists.
  { apply Z.ltb_lt in E. lia. }
  apply Z.ltb_lt in E. destruct (byte_at_in desc offset) as [size ->]; [lia|]. cbn.
  destruct ((size <? 2) || _) eqn:Hs; [by eexists|].
  apply orb_false_iff in Hs as [Hs1 Hs2]. apply Z.ltb_ge in Hs1, Hs2.
  destruct (visit_reads desc offset size inside) as [[a|inside'] ->]; [lia..|by eexists|]. cbn.
  apply IH; lia.
Qed.

(** The walk always ends, without a read outside of the descriptor, whatever
    its bytes are. *)
Theorem endpoint_walk_stays_inside desc :
  readable desc -> exists address, cdc_bulk_in_endpoint (Some desc) = Some address.
Proof.
  intros [H1 Hread]. unfold cdc_bulk_in_endpoint.
  assert (Hnth : forall i, 0 <= i < zlen desc -> byte_at desc i = Some (nth (Z.to_nat i) desc 0)).
  { intros i Hi. destruct (byte_at_in desc i Hi) as [b Hb]. rewrite nth_lookup. unfold byte_at in *.
    by rewrite Hb. }
  rewrite (Hnth 0) by lia. cbn. destruct (_ <? 9) eqn:E; [by eexists|]. apply Z.ltb_ge in E.
  destruct (Hread E) as [H9 Htot]. rewrite (Hnth 1) by lia. cbn. destruct (negb _); [by eexists|].
  rewrite (Hnth 2), (Hnth 3) by lia. cbn.
  destruct (_ || _) eqn:Ht; [by eexists|]. apply walk_reads; [done| |done].
  apply orb_false_iff in Ht as [Ht _]. apply Z.ltb_ge in Ht. lia.
Qed.

(** ** What the walk finds *)

(** A configuration as a sequence of whole descriptors, each as long as its
    first byte says, an interface descriptor of 9 bytes or more and an endpoint
    descriptor of 7 or more. *)
Definition whole_descriptor (d : bytes) : Prop :=
  2 <= zlen d /\ nth 0 d 0 = zlen d /\
  (nth 1 d 0 = TUSB_DESC_INTERFACE -> 9 <= zlen d) /\
  (nth 1 d 0 = TUSB_DESC_ENDPOINT -> 7 <= zlen d).

(** The configuration descriptor at the head gives the length of all. *)
Definition configuration (head : bytes) (ds : list bytes) : Prop :=
  Forall whole_descriptor (head :: ds) /\ 9 <= zlen head /\ nth 1 head 0 = TUSB_DESC_CONFIGURATION /\
  Z.lor (nth 2 head 0) (Z.shiftl (nth 3 head 0) 8) = zlen (concat (head :: ds)) /\
  zlen (concat (head :: ds)) <= 1024.

(** A CDC data interface in its alternate setting 0. *)
Definition data_interface (d : bytes) : bool :=
  (nth 5 d 0 =? TUSB_CLASS_CDC_DATA) && (nth 3 d 0 =? 0).
Definition bulk_in (d : bytes) : bool :=
  negb (Z.land (nth 2 d 0) 128 =? 0) && (Z.land (nth 3 d 0) 3 =? TUSB_XFER_BULK).

(** The first bulk-IN endpoint behind such an interface and before the next
    interface, or 0. *)
Fixpoint find_bulk_in (ds : list bytes) (inside : bool) : Z :=
  match ds with
  | [] => 0
  | d :: ds =>
      if nth 1 d 0 =? TUSB_DESC_INTERFACE then find_bulk_in ds (data_interface d)
      else if inside && (nth 1 d 0 =? TUSB_DESC_ENDPOINT) && bulk_in d then nth 2 d 0
      else find_bulk_in ds inside
  end.

Lemma byte_at_middle pre d post i :
  0 <= i < zlen d -> byte_at (pre ++ d ++ post) (zlen pre + i) = Some (nth (Z.to_nat i) d 0).
Proof.
  intros Hi. unfold byte_at, zlen in *. rewrite lookup_app_r by lia.
  replace (Z.to_nat _ - length pre)%nat with (Z.to_nat i) by lia.
  rewrite lookup_app_l by lia. rewrite nth_lookup.
  destruct (lookup_lt_is_Some_2 d (Z.to_nat i)) as [b Hb]; [lia|]. by rewrite Hb.
Qed.

Lemma visit_finds pre d post inside :
  whole_descriptor d ->
  visit (pre ++ d ++ post) (zlen pre) (zlen d) inside =
  Some (if nth 1 d 0 =? TUSB_DESC_INTERFACE then inr (data_interface d)
        else if inside && (nth 1 d 0 =? TUSB_DESC_ENDPOINT) && bulk_in d then inl (nth 2 d 0)
        else inr inside).
Proof.
  intros (H2 & _ & Hi & He). unfold visit. rewrite (byte_at_middle _ _ _ 1) by lia. cbn.
  change (Z.to_nat 1) with 1%nat. destruct (nth 1 d 0 =? TUSB_DESC_INTERFACE) eqn:E1.
  - apply Z.eqb_eq in E1. specialize (Hi E1). rewrite (proj2 (Z.ltb_ge _ _)) by lia.
    rewrite (byte_at_middle _ _ _ 5) by lia. cbn. unfold data_interface.
    change (Z.to_nat 5) with 5%nat. destruct (nth 5 d 0 =? _); cbn; [|done].
    rewrite (byte_at_middle _ _ _ 3) by lia. done.
  - destruct inside; cbn [andb]; [|done].
    destruct (nth 1 d 0 =? TUSB_DESC_ENDPOINT) eqn:E2; cbn [andb]; [|done].
    apply Z.eqb_eq in E2. specialize (He E2). rewrite (proj2 (Z.ltb_ge _ _)) by lia.
    rewrite (byte_at_middle _ _ _ 2) by lia. cbn. change (Z.to_nat 2) with 2%nat. unfold bulk_in.
    destruct (Z.land (nth 2 d 0) 128 =? 0); cbn [negb andb]; [done|].
    rewrite (byte_at_middle _ _ _ 3) by lia. cbn. change (Z.to_nat 3) with 3%nat.
    by destruct (_ =? TUSB_XFER_BULK).
Qed.

Lemma walk_finds ds : forall fuel pre post total inside,
  Forall whole_descriptor ds -> total = zlen pre + zlen (concat ds) ->
  zlen (concat ds) <= 2 * Z.of_nat fuel ->
  walk_descriptors fuel (pre ++ concat ds ++ post) total (zlen pre) inside = Some (find_bulk_in ds inside).
Proof.
  induction ds as [|d ds IH]; intros fuel pre post total inside Hds Ht Hf.
  { destruct fuel; cbn [walk_descriptors concat app find_bulk_in]; cbn [concat] in Ht; unfold zlen in *;
      cbn in Ht; by rewrite (proj2 (Z.ltb_ge _ _)) by lia. }
  apply Forall_cons in Hds as [Hd Hds]. destruct (Hd) as (H2 & Hlen & _ & _).
  cbn [concat] in *. rewrite zlen_app in Ht, Hf.
  assert (Hrest : 0 <= zlen (concat ds)) by apply zlen_nonneg.
  destruct fuel as [|fuel]; [lia|]. cbn [walk_descriptors].
  rewrite (proj2 (Z.ltb_lt _ _)) by lia. cbn [negb]. rewrite <- (app_assoc d).
  pose proof (byte_at_middle pre d (concat ds ++ post) 0 ltac:(lia)) as Hsize.
  rewrite Z.add_0_r in Hsize. rewrite Hsize. cbn. change (Z.to_nat 0) with 0%nat. rewrite Hlen.
  rewrite (proj2 (Z.ltb_ge _ 2)), (proj2 (Z.ltb_ge _ (zlen d))) by lia. cbn [orb].
  rewrite visit_finds by done. cbn.
  assert (Hnext : forall inside', walk_descriptors fuel (pre ++ d ++ concat ds ++ post) total (zlen pre + zlen d)
      inside' = Some (find_bulk_in ds inside')).
  { intros inside'. rewrite app_assoc, <- zlen_app. apply IH; [done| |]; rewrite ?zlen_app; lia. }
  destruct (nth 1 d 0 =? TUSB_DESC_INTERFACE); [by rewrite Hnext|].
  destruct (inside && _ && bulk_in d); [done|]. by rewrite Hnext.
Qed.

(** C36: the endpoint whose transfer the release waits for is the right one: on a
    configuration made of whole descriptors, whatever lies behind it in
    memory, the walk returns the address of the first bulk-IN endpoint of a
    CDC data interface in its alternate setting 0, or 0 when there is none. *)
Theorem bulk_in_endpoint_found head ds junk :
  configuration head ds ->
  cdc_bulk_in_endpoint (Some (concat (head :: ds) ++ junk)%list) = Some (find_bulk_in (head :: ds) false).
Proof.
  intros (Hall & H9 & Htype & Htot & Hmax). pose proof Hall as [Hhead _]%Forall_cons.
  destruct Hhead as (_ & Hlen & _).
  pose proof (zlen_nonneg (concat ds)) as Hn. assert (Hz : zlen (concat (head :: ds)) = zlen head + zlen (concat ds))
    by apply zlen_app.
  assert (Hbyte : forall i, 0 <= i < zlen head ->
    byte_at (concat (head :: ds) ++ junk) i = Some (nth (Z.to_nat i) head 0)).
  { intros i Hi. cbn [concat]. rewrite <- app_assoc. apply (byte_at_middle [] head); done. }
  remember (find_bulk_in (head :: ds) false) as answer eqn:Ha.
  unfold cdc_bulk_in_endpoint. rewrite (Hbyte 0) by lia. cbn -[concat]. change (Z.to_nat 0) with 0%nat. rewrite Hlen.
  rewrite (proj2 (Z.ltb_ge _ 9)) by lia. rewrite (Hbyte 1) by lia. cbn -[concat].
  change (Z.to_nat 1) with 1%nat. rewrite Htype. cbn -[concat].
  rewrite (Hbyte 2), (Hbyte 3) by lia. cbn -[concat].
  change (Z.to_nat 2) with 2%nat. change (Z.to_nat 3) with 3%nat. rewrite Htot.
  rewrite (proj2 (Z.ltb_ge _ 9)), (proj2 (Z.ltb_ge 1024 _)) by lia. cbn -[concat].
  rewrite Ha. apply (walk_finds (head :: ds) _ [] junk); [done|done|lia].
Qed.

(** Witness: the composite MSC and CDC configuration, cut to the interfaces. *)
Definition sample_head : bytes := [9; 2; 64; 0; 3; 1; 0; 128; 50].
Definition sample_descriptors : list bytes :=
  [[9; 4; 0; 0; 2; 8; 6; 80; 0]; [7; 5; 1; 2; 64; 0; 0]; [7; 5; 129; 2; 64; 0; 0];
   [9; 4; 2; 0; 2; 10; 0; 0; 0]; [7; 5; 3; 2; 64; 0; 0]; [7; 5; 131; 2; 64; 0; 0]; [9; 4; 3; 0; 0; 255; 0; 0; 0]].

Lemma bulk_in_endpoint_found_witness :
  cdc_bulk_in_endpoint (Some (concat (sample_head :: sample_descriptors) ++ [1; 2; 3])%list) = Some 131.
Proof.
  refine (eq_trans (bulk_in_endpoint_found sample_head sample_descriptors [1; 2; 3] _) eq_refl).
  unfold configuration. split; [|repeat split; vm_compute; congruence].
  repeat (apply Forall_cons; split); [..|apply Forall_nil; exact I];
    (split; [vm_compute; congruence|]; split; [reflexivity|]; split; intros; vm_compute in *; congruence).
Defined.
