(* ===== verification/CdcWorker.v ===== *)
(** * CdcWorker: the worker task of the PC link ([usb_cdc_protocol.c])

    The receive loop: batches of bytes from the CDC class driver, the framer,
    the admission of each command in its session, the request core, the
    response with the wait for its last transfer, and the report of an
    accepted release.  The request core and the response writer are the
    functions of CdcCore and CdcTx, run by calls: each of their callbacks is a
    step, or a program, of the worker.  A notification of the task is not
    modelled: a pass of the loop may begin at any time, which allows every
    order the notifications allow. *)

From S2P Require Import Prelude Monad Nvs Interleave Calls CdcSession.
From S2P Require Import UsbDescriptor.
From S2P Require SessionGate CdcCore CdcTx.
Open Scope prog_scope.

Definition CDC_RX_CHUNK_BYTES : Z := 256.
Definition CDC_RESPONSE_BYTES : Z := 768.
Definition CDC_RELEASE_TX_COMPLETE_TIMEOUT_MS : Z := 500.
Definition CDC_RELEASE_HOST_READ_GRACE_MS : Z := 150.

(** The callbacks of the request core, and what they answer. *)
Inductive core_call :=
  | CallStatus
  | CallSetTime (requested_time : bytes)
  | CallRelease (release_attempt_id : bytes).

Inductive core_reply :=
  | NoReply
  | StatusReply (status : option CdcCore.usb_cdc_protocol_status_t)
  | SetTimeReply (r : CdcCore.usb_cdc_set_time_result_t * bytes)
  | ReleaseReply (r : CdcCore.usb_cdc_release_result_t).

Abbreviation core_script := (@script core_call core_reply).

(** The configuration the request core sees; it uses no other callback. *)
Definition core_config (device_id : bytes) : CdcCore.usb_cdc_protocol_config_t core_script :=
  CdcCore.CdcConfig core_script (Some device_id)
    (Some (let* r := ask NoReply CallStatus in
           ret (match r with StatusReply s => s | _ => None end)))
    (Some (fun time =>
       let* r := ask NoReply (CallSetTime time) in
       ret (match r with SetTimeReply a => a | _ => (CdcCore.USB_CDC_SET_TIME_INTERNAL_ERROR, []) end)))
    (Some (fun id =>
       let* r := ask NoReply (CallRelease id) in
       ret (match r with ReleaseReply a => a | _ => CdcCore.USB_CDC_RELEASE_WRONG_STATE end)))
    None None.

(** The calls of the response writer: [cdc_tx_*] and [cdc_release_*]. *)
Inductive tx_call :=
  | TxConnected
  | TxCurrent (response_generation : Z)
  | TxQueue (data : bytes)
  | TxQueueChar (value : Z)
  | TxFlush (timeout_ms : Z)
  | TxWait
  | TxDescriptor
  | TxCompleted
  | TxAvailable
  | TxBusy (ep_in : Z)
  | TxNow
  | TxDelay (ticks : Z).

Inductive tx_reply :=
  | TxNothing
  | TxBool (b : bool)
  | TxNumber (n : Z)
  | TxPointer (p : option bytes).

Abbreviation tx_script := (@script tx_call tx_reply).

Definition tx_ask_bool (q : tx_call) : st tx_script bool :=
  let* r := ask TxNothing q in ret (match r with TxBool b => b | _ => false end).
Definition tx_ask_number (q : tx_call) : st tx_script Z :=
  let* r := ask TxNothing q in ret (match r with TxNumber n => n | _ => 0 end).
Definition tx_ask_pointer (q : tx_call) : st tx_script (option bytes) :=
  let* r := ask TxNothing q in ret (match r with TxPointer p => p | _ => None end).
Definition tx_ask (q : tx_call) : st tx_script unit := let* _ := ask TxNothing q in ret tt.

(** What the worker keeps between two batches. *)
Record receiver := Receiver {
  rx_framer : CdcCore.usb_cdc_protocol_framer_t;
  frame_generation : Z;
}.

Definition reset_framer (r : receiver) : receiver :=
  Receiver (CdcCore.usb_cdc_protocol_framer_reset (rx_framer r)) (frame_generation r).

Section worker.
Context {W P : Type} `{CdcPlatform P, CdcHost W P}.
Context (J : Type) `{!CdcCore.Cjson J}.

Abbreviation task := (@prog W).

(** [s_config], all of whose pointers [usb_cdc_protocol_init] tested: the text
    behind [device_id], and the callbacks as programs. *)
Record worker_config := WorkerConfig {
  cfg_device_id : task bytes;
  cfg_status_provider : task (option CdcCore.usb_cdc_protocol_status_t);
  cfg_set_time : bytes -> task (CdcCore.usb_cdc_set_time_result_t * bytes);
  cfg_release_accept : bytes -> task CdcCore.usb_cdc_release_result_t;
  cfg_release_response_complete : bytes -> task bool;
  cfg_command_admission_open : task bool;
}.

Context (s_config : worker_config).

Definition transport {X} (m : st P X) : task X := Atomic (fun _ => on_cdc_platform m) Done.
Definition answer_sent (release_attempt_id : bytes) : task unit :=
  Atomic (fun _ => on_answer_sent release_attempt_id) Done.
Definition cdc_down (f : cdc_flag) : task bool := negated (cdc_up f).

(** ** The response *)

Definition cdc_tx_session_is_current (response_generation : Z) : task bool :=
  gate_call (SessionGate.usb_cdc_session_gate_snapshot_is_current
               (SessionGate.Snapshot response_generation true)).

Definition cdc_tx_completed : task Z := cdc (get s_cdc_tx_completed).

Definition perform_tx (q : tx_call) : task tx_reply :=
  match q with
  | TxConnected => b <- cdc_up s_connected; Done (TxBool b)
  | TxCurrent generation => b <- cdc_tx_session_is_current generation; Done (TxBool b)
  | TxQueue data => n <- transport (tinyusb_cdcacm_write_queue data); Done (TxNumber n)
  | TxQueueChar value => n <- transport (tinyusb_cdcacm_write_queue_char value); Done (TxNumber n)
  | TxFlush ms =>
      err <- transport (tinyusb_cdcacm_write_flush (pdMS_TO_TICKS ms)); Done (TxBool (is_ok err))
  | TxWait => transport (cdc_vTaskDelay 1) ;;' Done TxNothing
  | TxDescriptor => d <- transport tud_descriptor_configuration_cb; Done (TxPointer d)
  | TxCompleted => n <- cdc_tx_completed; Done (TxNumber n)
  | TxAvailable => n <- transport tud_cdc_n_write_available; Done (TxNumber n)
  | TxBusy ep => b <- transport (usbd_edpt_busy ep); Done (TxBool b)
  | TxNow => n <- transport cdc_xTaskGetTickCount; Done (TxNumber n)
  | TxDelay ticks => transport (cdc_vTaskDelay ticks) ;;' Done TxNothing
  end.

Definition cdc_release_wait_sample (ep_in : Z) : st tx_script (option (Z * bool * bool)) :=
  let* after := tx_ask_number TxCompleted in
  let* available := tx_ask_number TxAvailable in
  let* busy := tx_ask_bool (TxBusy ep_in) in
  ret (Some (after, available =? CFG_TUD_CDC_TX_BUFSIZE, busy)).

Definition cdc_release_await_endpoint (fuel : nat) (generation tx_completed_before timeout_ms : Z) :
    st tx_script bool :=
  let* desc := tx_ask_pointer TxDescriptor in
  let ep_in := default 0 (cdc_bulk_in_endpoint desc) in
  if ep_in =? 0 then ret false else
  let* r := CdcTx.usb_cdc_tx_wait_final_in fuel (Some (CdcTx.FinalWaitOps tx_script
              (Some (tx_ask_bool (TxCurrent generation)))
              (Some (cdc_release_wait_sample ep_in))
              (Some (tx_ask_number TxNow))
              (Some (fun ticks => tx_ask (TxDelay ticks)))
              tx_completed_before (pdMS_TO_TICKS timeout_ms)
              (pdMS_TO_TICKS CDC_RELEASE_HOST_READ_GRACE_MS))) in
  ret (default false r).

Definition cdc_tx_ops (fuel : nat) (generation tx_completed_before : Z) (release_accepted : bool) :
    CdcTx.usb_cdc_tx_ops_t tx_script :=
  CdcTx.TxOps tx_script
    (Some (tx_ask_bool TxConnected))
    (Some (fun g => tx_ask_bool (TxCurrent g)))
    (Some (fun data => tx_ask_number (TxQueue data)))
    (Some (fun value => tx_ask_number (TxQueueChar value)))
    (Some (fun ms => tx_ask_bool (TxFlush ms)))
    (Some (tx_ask TxWait))
    (if release_accepted
     then Some (cdc_release_await_endpoint fuel generation tx_completed_before) else None)
    CDC_RELEASE_TX_COMPLETE_TIMEOUT_MS 20 250.

(** The writer on the replies so far: every pass of its loops makes a call. *)
Definition write_script (response : bytes) (len generation before : Z) (release_accepted : bool)
    (rs : list tx_reply) : st tx_script (option bool) :=
  let fuel := (2 + length rs)%nat in
  CdcTx.usb_cdc_tx_write_response fuel (Some (cdc_tx_ops fuel generation before release_accepted))
    (Some response) len generation.

Definition cdc_write_response (response : bytes) (len response_generation : Z) (release_accepted : bool) :
    task bool :=
  before <- (if release_accepted then cdc_tx_completed else Done 0);
  sent <- by_calls (write_script response len response_generation before release_accepted) perform_tx;
  Done (default false sent).

(** ** One command *)

Definition perform_core (q : core_call) : task core_reply :=
  match q with
  | CallStatus => s <- cfg_status_provider s_config; Done (StatusReply s)
  | CallSetTime time => r <- cfg_set_time s_config time; Done (SetTimeReply r)
  | CallRelease id => r <- cfg_release_accept s_config id; Done (ReleaseReply r)
  end.

Definition process_frame (frame_line : option bytes) (frame_len : Z) :
    task (Z * option bytes * CdcCore.usb_cdc_protocol_effect_t) :=
  device <- cfg_device_id s_config;
  by_calls (fun _ => CdcCore.usb_cdc_protocol_process_line (J := J) frame_line frame_len CDC_RESPONSE_BYTES
                       (Some (core_config device))) perform_core.

(** The report of a release whose response is complete. *)
Definition complete_release (effect : CdcCore.usb_cdc_protocol_effect_t) (response_complete : bool) :
    task bool :=
  by_calls (fun _ => CdcTx.usb_cdc_tx_complete_accepted_release
                       (CdcCore.release_accepted effect) response_complete
                       (Some (CdcCore.release_attempt_id effect)) (Some (ask false)))
    (cfg_release_response_complete s_config).

(** Between the begin and the end of a command, and the report behind it. *)
Definition execute_frame (generation : Z) (frame_line : option bytes) (frame_len : Z) : task unit :=
  answer <- process_frame frame_line frame_len;
  let '(response_len, response, effect) := answer in
  connected <- (if 0 <? response_len then cdc_up s_connected else Done false);
  response_complete <-
    (if (connected : bool)
     then cdc_write_response (default [] response) response_len generation (CdcCore.release_accepted effect)
     else Done false);
  when (response_complete && CdcCore.release_accepted effect)
    (answer_sent (CdcCore.release_attempt_id effect)) ;;'
  gate_call SessionGate.usb_cdc_session_gate_command_end ;;'
  complete_release effect response_complete ;;' Done tt.

(** ** The receive loop *)

Definition reset_if_asked (r : receiver) : task receiver :=
  asked <- cdc_up s_reset_line;
  if (asked : bool) then cdc_store s_reset_line false ;;' Done (reset_framer r) else Done r.

(** One pass of the loop over the bytes of a batch. *)
Definition byte_pass (batch : SessionGate.usb_cdc_session_snapshot_t) (s : bytes * receiver) :
    task ((bytes * receiver) + receiver) :=
  let r := s.2 in
  match s.1 with
  | [] => leave r
  | byte :: rest =>
      refused <- first_true
        [cdc_up s_reset_line; cdc_down s_connected;
         negated (gate_call (SessionGate.usb_cdc_session_gate_snapshot_is_current batch));
         negated (cfg_command_admission_open s_config)];
      if (refused : bool) then cdc_store s_reset_line false ;;' leave (reset_framer r) else
      let generation :=
        if (CdcCore.line_len (rx_framer r) =? 0) && negb (CdcCore.oversized (rx_framer r))
        then SessionGate.snap_generation batch else frame_generation r in
      let '(result, (frame_line, frame_len), framer) :=
        CdcCore.usb_cdc_protocol_framer_feed (rx_framer r) byte in
      let r := Receiver framer generation in
      match result with
      | CdcCore.USB_CDC_PROTOCOL_FRAME_NONE => again (rest, r)
      | _ =>
          begun <- gate_call (SessionGate.usb_cdc_session_gate_command_begin generation);
          if negb begun then again (rest, r) else
          execute_frame generation frame_line frame_len ;;'
          (admitted <- cfg_command_admission_open s_config;
           if (admitted : bool) then again (rest, r) else leave (reset_framer r))
      end
  end.

(** One pass of the [do] loop. *)
Definition batch_pass (r : receiver) : task (receiver + receiver) :=
  batch <- gate_call SessionGate.usb_cdc_session_gate_snapshot;
  discard_epoch <- gate_call SessionGate.usb_cdc_session_gate_rx_discard_epoch;
  got <- transport (tinyusb_cdcacm_read CDC_RX_CHUNK_BYTES);
  match got with
  | None => leave r
  | Some [] =>
      gate_call (SessionGate.usb_cdc_session_gate_mark_rx_drained discard_epoch) ;;' leave r
  | Some chunk =>
      r <- reset_if_asked r;
      refused <- first_true
        [cdc_down s_connected;
         negated (gate_call (SessionGate.usb_cdc_session_gate_snapshot_is_current batch));
         gate_call SessionGate.usb_cdc_session_gate_should_discard_rx;
         negated (cfg_command_admission_open s_config)];
      if (refused : bool) then again (reset_framer r) else
      Loop (byte_pass batch) (chunk, r) (fun r => again r)
  end.

Definition worker_pass (r : receiver) : task (receiver + unit) :=
  r <- reset_if_asked r;
  Loop batch_pass r (fun r => again r).

Definition usb_cdc_worker_task : task unit :=
  Loop worker_pass
    (Receiver (CdcCore.usb_cdc_protocol_framer_init (CdcCore.Framer [] 0 false)) 0) Done.
End worker.

(** ** The request core, call by call *)

(** Over callbacks that are single steps, the worker's run of the request core
    is the request core. *)
Section core_exact.
Context {W J : Type} `{!CdcCore.Cjson J}.
Context (cfg : CdcCore.usb_cdc_protocol_config_t W) (device : bytes)
  (status : st W (option CdcCore.usb_cdc_protocol_status_t))
  (set_time : bytes -> st W (CdcCore.usb_cdc_set_time_result_t * bytes))
  (release : bytes -> st W CdcCore.usb_cdc_release_result_t).

Definition answer_core (q : core_call) : st W core_reply :=
  match q with
  | CallStatus => let* s := status in ret (StatusReply s)
  | CallSetTime time => let* r := set_time time in ret (SetTimeReply r)
  | CallRelease id => let* r := release id in ret (ReleaseReply r)
  end.

Abbreviation follows_core := (follows (Q := core_call) answer_core).

Lemma follows_answer {X} q (f : core_reply -> X) (m : st W X) :
  (forall w, m w = bind (answer_core q) (fun r => ret (f r)) w) ->
  follows_core (let* r := ask NoReply q in ret (f r)) m.
Proof.
  intros Hm. destruct (follows_bind answer_core (ask NoReply q) (answer_core q) (fun r => ret (f r))
    (fun r => ret (f r)) (follows_ask _ _ q) (fun r => follows_ret _ _)) as [Hs Hw].
  split; [done|]. intros w. rewrite Hm. apply Hw.
Qed.

Lemma follows_status :
  follows_core (let* r := ask NoReply CallStatus in
                ret (match r with StatusReply s => s | _ => None end)) status.
Proof. apply follows_answer. intros w. unfold bind, answer_core, bind, ret. by destruct (status w). Qed.

Lemma follows_set_time time :
  follows_core (let* r := ask NoReply (CallSetTime time) in
                ret (match r with SetTimeReply a => a | _ => (CdcCore.USB_CDC_SET_TIME_INTERNAL_ERROR, []) end))
    (set_time time).
Proof. apply follows_answer. intros w. unfold bind, answer_core, bind, ret. by destruct (set_time time w). Qed.

Lemma follows_release id :
  follows_core (let* r := ask NoReply (CallRelease id) in
                ret (match r with ReleaseReply a => a | _ => CdcCore.USB_CDC_RELEASE_WRONG_STATE end))
    (release id).
Proof. apply follows_answer. intros w. unfold bind, answer_core, bind, ret. by destruct (release id w). Qed.

Context (Hdevice : CdcCore.device_id cfg = Some device)
  (Hstatus : CdcCore.status_provider cfg = Some status)
  (Hset : CdcCore.set_time cfg = Some set_time)
  (Hrelease : CdcCore.release_accept cfg = Some release).

Lemma follows_command out_size id (args : J) cmd :
  follows_core (CdcCore.run_command out_size (Some (core_config device)) id args cmd)
    (CdcCore.run_command out_size (Some cfg) id args cmd).
Proof.
  unfold CdcCore.run_command, CdcCore.do_release, CdcCore.do_get_info, CdcCore.do_get_status,
    CdcCore.do_set_time, CdcCore.refuse, CdcCore.accept, core_config.
  cbn [mbind option_bind CdcCore.device_id CdcCore.status_provider CdcCore.set_time CdcCore.release_accept].
  rewrite Hdevice, Hstatus, Hset, Hrelease.
  repeat case_match; try apply follows_ret.
  - apply follows_bind; [apply follows_release|]. intros r. destruct r; apply follows_ret.
  - apply follows_bind; [apply follows_status|]. intros r. repeat case_match; apply follows_ret.
  - apply follows_bind; [apply follows_set_time|]. intros r. repeat case_match; apply follows_ret.
Qed.

Lemma follows_request out_size (root : J) :
  (CdcCore.run_request out_size (Some (core_config device)) root).1 =
  (CdcCore.run_request out_size (Some cfg) root).1 /\
  follows_core (CdcCore.run_request out_size (Some (core_config device)) root).2
    (CdcCore.run_request out_size (Some cfg) root).2.
Proof.
  unfold CdcCore.run_request. repeat case_match; split; try done; try apply follows_ret.
  apply follows_command.
Qed.

Lemma follows_process_line line len out_size :
  follows_core (CdcCore.usb_cdc_protocol_process_line (J := J) line len out_size (Some (core_config device)))
    (CdcCore.usb_cdc_protocol_process_line (J := J) line len out_size (Some cfg)).
Proof.
  unfold CdcCore.usb_cdc_protocol_process_line.
  case_match; [apply follows_ret|]. case_match; [apply follows_ret|]. destruct line; [|apply follows_ret].
  case_match; [apply follows_ret|]. destruct (CdcCore.cJSON_ParseWithOpts _) as [root|]; [|apply follows_ret].
  destruct (follows_request out_size root) as [E Hf].
  destruct (CdcCore.run_request _ (Some (core_config device)) root) as [id run].
  destruct (CdcCore.run_request _ (Some cfg) root) as [id' run']. cbn in E, Hf. subst id'.
  apply follows_bind; [done|]. intros a. apply follows_ret.
Qed.

(** Inside the firmware the request core runs call by call, with other tasks
    between its callbacks; nothing is lost: over callbacks that are single
    steps, the worker's program for a request line ends with exactly the
    answer, the effect and the state of the request core's function. *)
Theorem core_by_calls_exact line len out_size w :
  exists fuel,
    alone fuel (by_calls (fun _ => CdcCore.usb_cdc_protocol_process_line (J := J) line len out_size
                                     (Some (core_config device)))
                  (fun q => Atomic (fun _ => answer_core q) Done)) w =
    Some (CdcCore.usb_cdc_protocol_process_line (J := J) line len out_size (Some cfg) w).
Proof. apply by_calls_exact, follows_process_line. Qed.
End core_exact.

(** ** The response writer, call by call *)

(** How many more calls get a reply, and the one that gets none. *)
Definition calls_left (s : tx_script) : nat :=
  match asked s with Some _ => 0 | None => S (length (replies s)) end.

Lemma wp_ask {X} q (f : tx_reply -> X) (Q : X -> tx_script -> Prop) s :
  (forall x s', calls_left s' = (calls_left s - 1)%nat -> ((calls_left s <= 1)%nat -> x = f TxNothing) -> Q x s') ->
  wp (let* r := ask TxNothing q in ret (f r)) Q s.
Proof.
  intros HQ. unfold wp, bind. destruct s as [[|r rs] [a|]]; cbn; apply HQ; cbn; auto; lia.
Qed.

Ltac tx_asked :=
  intros; apply wp_ask; let x := fresh "x" in let u := fresh "u" in let Hl := fresh "Hl" in let Hx := fresh "Hx" in
  intros x u Hl Hx.
Ltac tx_call :=
  cbv beta; cbn [negb CdcTx.do_pause];
  lazymatch goal with
  | |- wp (bind _ _) _ _ => apply wp_bind
  | |- wp (ret _) _ _ => apply wp_ret
  | |- wp (tx_ask_bool _) _ _ => tx_asked
  | |- wp (tx_ask_number _) _ _ => tx_asked
  | |- wp (tx_ask_pointer _) _ _ => tx_asked
  | |- wp (tx_ask _) _ _ => apply (wp_ask _ (fun _ => tt)); intros
  end.

(** Loops end within the calls there are: a pass that gets no reply is the
    last. *)
Definition ends {X} (s : tx_script) (r : option X) (s' : tx_script) : Prop :=
  r <> None /\ (calls_left s' <= calls_left s)%nat.

Ltac tx_ends := repeat tx_call; split; [done|lia].

Section writer_calls.
Context (retry_ms generation : Z).
Abbreviation connected := (tx_ask_bool TxConnected).
Abbreviation current := (fun g => tx_ask_bool (TxCurrent g)).
Abbreviation put := (fun data => tx_ask_number (TxQueue data)).
Abbreviation put_char := (fun v => tx_ask_number (TxQueueChar v)).
Abbreviation push := (fun ms => tx_ask_bool (TxFlush ms)).
Abbreviation pause := (Some (tx_ask TxWait)).

Lemma wp_script_current (Q : bool -> tx_script -> Prop) s :
  (forall b s', (calls_left s' <= (calls_left s - 1))%nat -> ((calls_left s <= 1)%nat -> b = false) -> Q b s') ->
  wp (CdcTx.tx_is_current connected current generation) Q s.
Proof.
  intros HQ. unfold CdcTx.tx_is_current. repeat tx_call.
  destruct x; repeat tx_call; (apply HQ; [lia|intros Hs]); [by specialize (Hx Hs)|done].
Qed.

Lemma queue_loop_ends fuel : forall rest s, (calls_left s < fuel)%nat ->
  wp (CdcTx.queue_loop connected current put push pause retry_ms generation fuel rest) (ends s) s.
Proof.
  induction fuel as [|fuel IH]; intros rest s Hf; [lia|]. cbn [CdcTx.queue_loop].
  case_match; [tx_ends|]. tx_call. apply wp_script_current. intros [] s1 H1 Hb; [|tx_ends].
  cbn [negb]. assert (Hgo : forall rest s', (calls_left s' <= calls_left s1)%nat ->
    wp (CdcTx.queue_loop connected current put push pause retry_ms generation fuel rest) (ends s) s').
  { intros rest' s' Hs'. eapply wp_mono; [apply IH|].
    { destruct (decide (calls_left s <= 1)%nat) as [Hs|]; [by specialize (Hb Hs)|lia]. }
    intros ? ? [? ?]. split; [done|lia]. }
  repeat tx_call. case_match; [tx_ends|].
  case_match; [|apply Hgo; lia]. tx_call. apply wp_script_current. intros [] s3 H3 _; [|tx_ends].
  cbn [negb]. repeat tx_call. case_match; cbn [CdcTx.do_pause]; repeat tx_call; apply Hgo; lia.
Qed.

Lemma newline_loop_ends fuel : forall s, (calls_left s < fuel)%nat ->
  wp (CdcTx.newline_loop connected current put_char push pause retry_ms generation fuel) (ends s) s.
Proof.
  induction fuel as [|fuel IH]; intros s Hf; [lia|]. cbn [CdcTx.newline_loop].
  tx_call. apply wp_script_current. intros [] s1 H1 Hb; [|tx_ends]. cbn [negb].
  repeat tx_call. case_match; [tx_ends|].
  cbn [CdcTx.do_pause]. repeat tx_call. eapply wp_mono; [apply IH|].
  { destruct (decide (calls_left s <= 1)%nat) as [Hs|]; [by specialize (Hb Hs)|lia]. }
  intros ? ? [? ?]. split; [done|lia].
Qed.
End writer_calls.

Section final_calls.
Context {P : Type} `{CdcPlatform P}.
Context (ep_in generation before : Z).
Abbreviation current := (tx_ask_bool (TxCurrent generation)).
Abbreviation observe := (cdc_release_wait_sample ep_in).
Abbreviation now := (tx_ask_number TxNow).
Abbreviation delay := (fun ticks => tx_ask (TxDelay ticks)).

Lemma wp_script_sample (Q : bool -> tx_script -> Prop) s :
  (forall b s', (calls_left s' <= calls_left s)%nat -> Q b s') ->
  wp (CdcTx.tx_final_in_sample_ready observe before) Q s.
Proof.
  intros HQ. unfold CdcTx.tx_final_in_sample_ready, cdc_release_wait_sample. repeat tx_call. apply HQ. lia.
Qed.

Lemma final_loop_ends timeout grace fuel : forall start s, (calls_left s < fuel)%nat ->
  wp (CdcTx.final_loop current observe now delay before timeout grace fuel start) (ends s) s.
Proof.
  induction fuel as [|fuel IH]; intros start s Hf; [lia|]. cbn [CdcTx.final_loop].
  assert (Hgo : forall t s', (calls_left s' < calls_left s)%nat ->
    wp (if u32 (t - start) <? timeout
        then CdcTx.final_loop current observe now delay before timeout grace fuel start
        else ret (Some false)) (ends s) s').
  { intros t s' Hs'. case_match; [|tx_ends]. eapply wp_mono; [apply IH; lia|].
    intros ? ? [? ?]. split; [done|lia]. }
  tx_call. unfold CdcTx.final_pass. repeat tx_call.
  destruct (decide (calls_left s <= 1)%nat) as [Hs|Hs]; [rewrite (Hx Hs); tx_ends|].
  case_match; [tx_ends|]. tx_call. apply wp_script_sample. intros [] s2 H2; cycle 1.
  { repeat tx_call. apply Hgo. lia. }
  repeat tx_call. case_match; [tx_ends|]. tx_call. apply wp_script_sample. intros [] s5 H5; cbn [negb]; cycle 1.
  { repeat tx_call. apply Hgo. lia. }
  repeat tx_call. case_match; [tx_ends|]. tx_call. apply wp_script_sample. intros. tx_ends.
Qed.
Lemma wait_ends timeout grace fuel s : (calls_left s < fuel)%nat ->
  wp (CdcTx.usb_cdc_tx_wait_final_in fuel (Some (CdcTx.FinalWaitOps tx_script
        (Some current) (Some observe) (Some now) (Some delay) before timeout grace))) (ends s) s.
Proof.
  intros Hf. unfold CdcTx.usb_cdc_tx_wait_final_in. cbn [CdcTx.session_current CdcTx.sample CdcTx.now_ticks
    CdcTx.delay_ticks CdcTx.timeout_ticks CdcTx.callbacks_before CdcTx.host_grace_ticks].
  case_match; [tx_ends|]. repeat tx_call. eapply wp_mono; [apply final_loop_ends; lia|].
  intros ? ? [? ?]. split; [done|lia].
Qed.
End final_calls.

(** The fuel of the writer in the worker is enough: whatever the replies are, it
    comes to a verdict. *)
Lemma write_script_ends `{CdcPlatform P} response len generation before release_accepted rs :
  (write_script response len generation before release_accepted rs (Script rs None)).1 <> None.
Proof.
  set (s := Script rs None : tx_script). set (fuel := (2 + length rs)%nat).
  assert (Hf : (calls_left s < fuel)%nat) by (unfold s, fuel; cbn; lia).
  change (wp (write_script response len generation before release_accepted rs) (fun r _ => r <> None) s).
  unfold write_script, CdcTx.usb_cdc_tx_write_response, cdc_tx_ops. fold fuel.
  cbn [CdcTx.is_connected CdcTx.session_is_current CdcTx.queue CdcTx.queue_char CdcTx.flush CdcTx.wait
    CdcTx.retry_flush_timeout_ms default from_option id].
  rewrite bool_decide_eq_false_2 by done. cbn [andb]. tx_call.
  eapply wp_mono; [by apply queue_loop_ends|]. intros r1 s1 [Hr1 H1].
  destruct r1 as [[]|]; [|tx_call; done|done]. tx_call.
  eapply wp_mono; [apply newline_loop_ends; lia|]. intros r2 s2 [Hr2 H2].
  destruct r2 as [[]|]; [|tx_call; done|done]. unfold CdcTx.finish_response.
  cbn [CdcTx.await_endpoint CdcTx.final_flush_timeout_ms CdcTx.endpoint_timeout_ms].
  tx_call. apply wp_script_current. intros [] s3 H3 _; [|repeat tx_call; done].
  repeat tx_call. case_match; [repeat tx_call; done|]. tx_call.
  destruct release_accepted; repeat tx_call; [|done].
  unfold cdc_release_await_endpoint. repeat tx_call. case_match; [repeat tx_call; done|].
  tx_call. eapply wp_mono; [apply wait_ends; lia|]. intros r4 s4 _. repeat tx_call. case_match; by repeat tx_call.
Qed.

(** ** What the request core asks *)

(** The release attempt an effect reports as accepted. *)
Definition granted (e : CdcCore.usb_cdc_protocol_effect_t) : option bytes :=
  if CdcCore.release_accepted e then Some (CdcCore.release_attempt_id e) else None.

(** At most one call; an accepted release was asked for under its own id, and
    the reply accepted it. *)
Definition asks_once {X} (m : st core_script X) (effect : X -> CdcCore.usb_cdc_protocol_effect_t) : Prop :=
  (exists x, granted (effect x) = None /\ forall rs, m (Script rs None) = (x, Script rs None)) \/
  (exists q y f, m (Script [] None) = (y, Script [] (Some q)) /\
     forall r rs, m (Script (r :: rs) None) = (f r, Script rs None) /\
       forall id, granted (effect (f r)) = Some id ->
         q = CallRelease id /\ r = ReleaseReply CdcCore.USB_CDC_RELEASE_ACCEPTED).

Lemma asks_nothing {X} (x : X) effect : granted (effect x) = None -> asks_once (ret x) effect.
Proof. intros Hx. left. by exists x. Qed.

Lemma asks_then {X} q (f : core_reply -> X) (m : st core_script X) effect :
  (forall s, m s = bind (ask NoReply q) (fun r => ret (f r)) s) ->
  (forall r id, granted (effect (f r)) = Some id ->
     q = CallRelease id /\ r = ReleaseReply CdcCore.USB_CDC_RELEASE_ACCEPTED) ->
  asks_once m effect.
Proof.
  intros Hm Hf. right. exists q, (f NoReply), f. split; [by rewrite Hm|]. intros r rs. split; [by rewrite Hm|].
  apply Hf.
Qed.

Lemma asks_map {X Y} (m : st core_script X) (g : X -> Y) effect effect' :
  asks_once m effect -> (forall x id, granted (effect' (g x)) = Some id -> granted (effect x) = Some id) ->
  asks_once (let* x := m in ret (g x)) effect'.
Proof.
  intros [(x & Hx & Hm)|(q & y & f & Hq & Hf)] Hg.
  - left. exists (g x). split; [|intros rs; unfold bind; by rewrite Hm].
    destruct (granted (effect' (g x))) as [id|] eqn:E; [|done]. apply Hg in E. congruence.
  - right. exists q, (g y), (fun r => g (f r)). unfold bind. rewrite Hq. split; [done|]. intros r rs.
    destruct (Hf r rs) as [E Hid]. rewrite E. split; [done|]. intros id Hgr. by apply Hid, Hg.
Qed.

Section core_asks.
Context {J : Type} `{!CdcCore.Cjson J}.

Lemma command_asks_once out_size device id (args : J) cmd :
  asks_once (CdcCore.run_command out_size (Some (core_config device)) id args cmd) snd.
Proof.
  unfold CdcCore.run_command, CdcCore.do_release, CdcCore.do_get_info, CdcCore.do_get_status,
    CdcCore.do_set_time, CdcCore.refuse, CdcCore.accept, core_config.
  cbn [mbind option_bind CdcCore.device_id CdcCore.status_provider CdcCore.set_time CdcCore.release_accept].
  destruct (decide (cmd = txt "RELEASE_STORAGE")).
  { destruct (CdcCore.string_member args _) as [attempt|]; [|by apply asks_nothing].
    case_match; [by apply asks_nothing|].
    eapply asks_then with (q := CallRelease attempt) (f := fun r => match r with
      | ReleaseReply CdcCore.USB_CDC_RELEASE_ACCEPTED => _
      | ReleaseReply a => (CdcCore.cdc_error_response out_size (Some id) (CdcCore.cdc_release_error_code a), CdcCore.no_effect)
      | _ => _ end).
    - intros s. unfold bind. destruct (ask NoReply (CallRelease attempt) s) as [r s'].
      destruct r as [| | |[]]; reflexivity.
    - intros r id' Hid. destruct r as [| | |[]]; cbn in Hid; by simplify_eq. }
  set (internal := (CdcCore.cdc_error_response out_size (Some id) CdcCore.USB_CDC_ERROR_INTERNAL_ERROR,
    CdcCore.no_effect)).
  repeat case_match; try by apply asks_nothing.
  - eapply asks_then with (q := CallStatus) (f := fun r => match match r with StatusReply s => s | _ => None end with
      | None => internal | Some s => match CdcCore.state s, CdcCore.reason s with
          | Some st_, Some rs => (CdcCore.snprintf out_size (CdcCore.ok_text id (CdcCore.status_body st_ rs s)), CdcCore.no_effect)
          | _, _ => internal end end).
    + intros s. unfold bind. destruct (ask NoReply CallStatus s) as [r s'].
      destruct r as [|[u|]| |]; try reflexivity. cbn.
      by destruct (CdcCore.state u), (CdcCore.reason u).
    + intros r id' Hid. destruct r as [|[u|]| |]; try done. by destruct (CdcCore.state u), (CdcCore.reason u).
  - eapply asks_then with (q := CallSetTime l) (f := fun r =>
      match match r with SetTimeReply a => a | _ => (CdcCore.USB_CDC_SET_TIME_INTERNAL_ERROR, []) end with
      | (CdcCore.USB_CDC_SET_TIME_OK, normalized) =>
          (CdcCore.snprintf out_size (CdcCore.ok_text id (CdcCore.time_body normalized)), CdcCore.no_effect)
      | (result, _) => (CdcCore.cdc_error_response out_size (Some id) (CdcCore.cdc_set_time_error_code result), CdcCore.no_effect)
      end).
    + intros s. unfold bind. destruct (ask NoReply (CallSetTime l) s) as [r s'].
      destruct r as [| |[[] ?]|]; reflexivity.
    + intros r id' Hid. by destruct r as [| |[[] ?]|].
Qed.

Lemma process_line_asks_once line len out_size device :
  asks_once (CdcCore.usb_cdc_protocol_process_line (J := J) line len out_size (Some (core_config device))) snd.
Proof.
  unfold CdcCore.usb_cdc_protocol_process_line.
  case_match; [by apply asks_nothing|]. case_match; [by apply asks_nothing|].
  destruct line; [|by apply asks_nothing]. case_match; [by apply asks_nothing|].
  destruct (CdcCore.cJSON_ParseWithOpts _) as [root|]; [|by apply asks_nothing].
  destruct (CdcCore.run_request _ _ root) as [id run] eqn:Hrun.
  assert (Honce : asks_once run snd).
  { unfold CdcCore.run_request in Hrun. repeat case_match; simplify_eq;
      solve [by apply asks_nothing | apply command_asks_once]. }
  eapply asks_map; [exact Honce|]. intros a id' Hid. cbn in Hid. unfold CdcCore.finish in Hid.
  by destruct (_ || _).
Qed.
End core_asks.

(** ** Witness *)

#[local] Existing Instance CdcCore.tiny_cjson.

Lemma core_by_calls_exact_witness :
  exists fuel answer,
    alone fuel (by_calls (fun _ => CdcCore.usb_cdc_protocol_process_line (J := CdcCore.tiny_json)
        (Some CdcCore.sample_line) (zlen CdcCore.sample_line) 768
        (Some (core_config (txt "01234567-89ab-4cde-8f01-23456789abcd"))))
      (fun q => Atomic (fun _ => answer_core
        (fun s => (Some (CdcCore.CdcStatus (Some (txt "USB")) (Some (txt "NONE")) 3900 true false), s))
        (fun _ s => ((CdcCore.USB_CDC_SET_TIME_BUSY, []), s))
        (fun _ s => (CdcCore.USB_CDC_RELEASE_ACCEPTED, s + 1)) q) Done)) 0 = Some (answer, 1).
Proof.
  destruct (core_by_calls_exact CdcCore.sample_host (txt "01234567-89ab-4cde-8f01-23456789abcd")
    _ _ _ eq_refl eq_refl eq_refl eq_refl (Some CdcCore.sample_line) (zlen CdcCore.sample_line) 768 0)
    as [fuel Hfuel].
  exists fuel. eexists. refine (eq_trans Hfuel _). vm_compute. reflexivity.
Defined.
