(* ===== verification/Coordinator.v ===== *)
(** * Coordinator: USB ownership and shutdown around the recorder ([task49_runtime.c])

    The task that serves the events of UsbOwnership, the callbacks it gives the
    PC link, and the boot: the durable lifecycle byte decides whether the
    recorder starts at all; USB starts only behind a running recording.  Task
    priorities, logging and delays touch no state. *)

From stdpp Require Import functions.
From S2P Require Import Prelude Monad Nvs ShutdownArmed WakeRecovery Stdio.
From S2P Require Import RecorderConfig RecorderState Interleave SdMount UsbOwnership Recorder.
From S2P Require Import CdcSession CdcWorker.
From S2P Require CdcCore Calendar.
Open Scope prog_scope.

(** The power circuit. *)
Class PowerPlatform (P : Type) := {
  recorder_power_enable_hold : st P esp_err_t;
  recorder_power_manual_wake_asserted : st P (esp_err_t * bool);
  recorder_power_shutdown : st P esp_err_t;
}.

(** What the boot and the PC link use of [rtc_correction.c]. *)
Class RtcService (R N : Type) := {
  rtc_service_init : st (R * nvs_env N) esp_err_t;
  rtc_service_is_pending : st (R * nvs_env N) bool;
  rtc_service_apply : bytes -> st (R * nvs_env N) (Calendar.rtc_correction_result_t * bytes);
}.

(** The lifecycle, as the process and as the next boot see it, is not touched;
    a commit may make it durable. *)
Definition lifecycle_kept {N B} `{NvsOps N B} (e e' : nvs_env N) : Prop :=
  unlocked e' /\ current e' = current e /\ (next_boot e' = next_boot e \/ next_boot e' = current e).

(** What its client relies on, as in [RtcFlushLaws]. *)
Class RtcServiceLaws (R N B : Type) `{NvsOps N B, RtcService R N} := {
  rtc_init_kept : forall r e, unlocked e -> lifecycle_kept e (rtc_service_init (r, e)).2.2;
  rtc_pending_kept : forall r e, unlocked e -> lifecycle_kept e (rtc_service_is_pending (r, e)).2.2;
  rtc_apply_kept : forall req r e, unlocked e -> lifecycle_kept e (rtc_service_apply req (r, e)).2.2;
}.

Section coordinator.
Context {W H P R N : Type} `{UsbPlatform H, SdHost W H, UsbHost W}.
Context `{RecorderPlatform P, RecHost W P, CdcPlatform P, CdcHost W P, PowerPlatform P}.
Context `{NvsOps N bytes, NvsHost W N, RtcFlush R N, WakeHost W R N, RtcService R N}.

Abbreviation task := (@prog W).

Definition wake {X} (m : st (wake_world R N) X) : task X := Atomic (fun _ => on_wake m) Done.

(** The clock correction: its own lock makes a call one step. *)
Definition rtc {X} (m : st (R * nvs_env N) X) : task X := wake (on_rtc m).

(** ** The callbacks of the PC link *)

Definition recorder_cdc_release_accept (release_attempt_id : option bytes) :
    task CdcCore.usb_cdc_release_result_t :=
  result <- usb_msc_ownership_accept_release_storage release_attempt_id;
  Done (match result with
        | USB_MSC_RELEASE_STORAGE_ACCEPTED => CdcCore.USB_CDC_RELEASE_ACCEPTED
        | USB_MSC_RELEASE_STORAGE_INVALID_ARGS => CdcCore.USB_CDC_RELEASE_INVALID_ARGS
        | USB_MSC_RELEASE_STORAGE_WRONG_STATE => CdcCore.USB_CDC_RELEASE_WRONG_STATE
        | USB_MSC_RELEASE_STORAGE_CONFLICT => CdcCore.USB_CDC_RELEASE_CONFLICT
        end).

Definition recorder_cdc_release_response_complete (release_attempt_id : option bytes) : task bool :=
  usb_msc_ownership_release_response_complete release_attempt_id.

Definition recorder_cdc_command_admission_open : task bool :=
  usb_msc_ownership_release_command_admission_open.

Definition recorder_cdc_physical_session_cutoff : task unit := usb_cdc_protocol_close_session.

(** [None]: the state lock is not there. *)
Definition recorder_cdc_status : task (option CdcCore.usb_cdc_protocol_status_t) :=
  seen <- rec (get (fun r => (s_state_lock r, s_rec_state r, s_last_battery_mv r)));
  let '(lock, m, battery_mv) := seen in
  if negb lock then Done None else
  pending_ <- rtc rtc_service_is_pending;
  Done (Some (CdcCore.CdcStatus (Some (recorder_state_str (state m)))
    (Some (recorder_reason_str (reason m))) battery_mv (0 <? battery_mv) pending_)).

Definition recorder_cdc_set_time (requested_time : bytes) :
    task (CdcCore.usb_cdc_set_time_result_t * bytes) :=
  r <- rtc (rtc_service_apply requested_time);
  Done (match r.1 with
        | Calendar.RTC_CORRECTION_OK => CdcCore.USB_CDC_SET_TIME_OK
        | Calendar.RTC_CORRECTION_INVALID_ARGS => CdcCore.USB_CDC_SET_TIME_INVALID_ARGS
        | Calendar.RTC_CORRECTION_RANGE_ERROR => CdcCore.USB_CDC_SET_TIME_RANGE_ERROR
        | Calendar.RTC_CORRECTION_BUSY => CdcCore.USB_CDC_SET_TIME_BUSY
        | Calendar.RTC_CORRECTION_INTERNAL_ERROR => CdcCore.USB_CDC_SET_TIME_INTERNAL_ERROR
        end, r.2).

(** The configuration the boot gives the PC link. *)
Definition recorder_cdc_config : @worker_config W :=
  WorkerConfig (rec (get s_device_id)) recorder_cdc_status recorder_cdc_set_time
    (fun id => recorder_cdc_release_accept (Some id))
    (fun id => recorder_cdc_release_response_complete (Some id))
    recorder_cdc_command_admission_open.

(** ** The events *)

(** [xEventGroupWaitBits] for all of [bits], without clearing. *)
Definition wait_all (bits : Z) : task Z :=
  Loop (fun _ : unit =>
    b <- rec (get (fun r => default 0 (s_rec_events r)));
    if Z.land b bits =? bits then leave b else again tt) tt Done.

(** The last checks of the attach handler, and the publication. *)
Definition publish_when_finalized (done : Z) : task unit :=
  state <- (if negb (Z.land done REC_TASK_DONE_MASK =? REC_TASK_DONE_MASK) ||
               (Z.land done REC_BIT_WRITER_FINALIZED =? 0)
            then Done RECORDER_STATE_ERROR else recorder_current_state);
  released <- (if decide (state = RECORDER_STATE_USB_PREPARE) then sd_mount_device_fs_released
               else Done false);
  if negb released then recorder_enter_error RECORDER_REASON_USB else
  err <- usb_msc_ownership_note_prepare_complete true true true;
  when (negb (is_ok err)) (recorder_enter_error RECORDER_REASON_USB).

Definition recorder_handle_usb_attach : task unit :=
  usb_cdc_protocol_reset_session ;;'
  (state <- recorder_current_state;
   if decide (state <> RECORDER_STATE_RECORDING) then recorder_enter_error RECORDER_REASON_USB else
   err <- usb_msc_ownership_begin_prepare;
   if negb (is_ok err) then recorder_enter_error RECORDER_REASON_USB else
   ok <- recorder_transition_state RECORDER_STATE_USB_PREPARE RECORDER_REASON_USB 0;
   if negb ok then recorder_enter_error RECORDER_REASON_USB else
   err <- sd_mount_release_for_usb;
   if negb (is_ok err) then recorder_enter_error RECORDER_REASON_USB else
   recorder_request_usb_stop ;;'
   (done <- wait_all REC_TASK_DONE_MASK; publish_when_finalized done)).

(** The static [warned] only thins the log. *)
Definition recorder_flush_usb_scsi_trace : task unit :=
  usb_msc_ownership_flush_scsi_trace ;;' Done tt.

(** Still [expected], the card with the host: the first condition of three
    handlers. *)
Definition host_side (expected : recorder_state_t) : task bool :=
  state <- recorder_current_state;
  if decide (state <> expected) then Done false else
  mounted <- sd_mount_is_mounted;
  if (mounted : bool) then Done false else usb_msc_ownership_is_host_owned.

Definition recorder_handle_usb_host_owned : task unit :=
  ok <- host_side RECORDER_STATE_USB_PREPARE;
  if negb ok then recorder_enter_error RECORDER_REASON_USB else
  ok <- recorder_transition_state RECORDER_STATE_USB_SYNC RECORDER_REASON_USB 0;
  if negb ok then recorder_enter_error RECORDER_REASON_USB else
  usb_cdc_protocol_open_session ;;' recorder_flush_usb_scsi_trace.

Definition recorder_handle_usb_host_reattached : task unit :=
  ok <- host_side RECORDER_STATE_USB_SYNC;
  admitted <- (if (ok : bool) then usb_msc_ownership_release_command_admission_open else Done false);
  if negb admitted then recorder_enter_error RECORDER_REASON_USB else
  usb_cdc_protocol_reset_session ;;' usb_cdc_protocol_open_session.

Definition recorder_handle_usb_release : task unit :=
  ok <- host_side RECORDER_STATE_USB_SYNC;
  if negb ok then recorder_enter_error RECORDER_REASON_USB else
  usb_cdc_protocol_reset_session ;;'
  recorder_flush_usb_scsi_trace ;;'
  (err <- usb_msc_ownership_complete_release_quiesce;
   if negb (is_ok err) then recorder_enter_error RECORDER_REASON_USB else
   err <- dev recorder_power_shutdown;
   when (negb (is_ok err)) (recorder_enter_error RECORDER_REASON_INTERNAL)).

Definition recorder_shutdown_armed_now : task unit := dev recorder_power_shutdown ;;' Done tt.

Definition handle_event (event : usb_msc_ownership_event_t) : task unit :=
  match event with
  | USB_MSC_EVENT_ATTACH => recorder_handle_usb_attach
  | USB_MSC_EVENT_HOST_OWNED => recorder_handle_usb_host_owned
  | USB_MSC_EVENT_HOST_REATTACHED => recorder_handle_usb_host_reattached
  | USB_MSC_EVENT_RELEASE_REQUESTED => recorder_handle_usb_release
  | USB_MSC_EVENT_RELEASE_QUIESCED => Done tt
  | USB_MSC_EVENT_FAILED => recorder_enter_error RECORDER_REASON_USB
  | USB_MSC_EVENT_NONE => Done tt
  end.

Definition usb_event_pass (_ : unit) : task (unit + unit) :=
  event <- usb_msc_ownership_wait_event;
  handle_event event ;;' recorder_flush_usb_scsi_trace ;;' again tt.

Definition recorder_usb_event_task : task unit := Loop usb_event_pass tt Done.

(** ** The boot *)

Definition recorder_base_task (slot0 slot1 : bytes) : task unit :=
  err <- dev recorder_power_enable_hold;
  recorder_base_app_main slot0 slot1 err ;;' recorder_task49_delete rec_base.

(** Whether the recorder reached a recording, and proved it where it must. *)
Definition recorder_wait_initial_recording : task bool :=
  Loop (fun _ : unit =>
    there <- rec (get (fun r => s_state_lock r && match s_rec_events r with Some _ => true | None => false end));
    if negb there then again tt else
    state <- recorder_current_state;
    match state with
    | RECORDER_STATE_RECORDING =>
      id <- rec (get s_seg_rec_id);
      err <- wake (task87_wake_recovery_note_recording_started (negb (bool_decide (id = []))));
      if negb (is_ok err) then recorder_enter_error RECORDER_REASON_INTERNAL ;;' leave false
      else leave true
    | RECORDER_STATE_ERROR | RECORDER_STATE_LOW_BATTERY_STOP => leave false
    | _ => again tt
    end) tt Done.

(** [if (task87_wake_recovery_requires_shutdown (...)) recorder_shutdown_armed_now ()] *)
Definition shutdown_if_required : task unit :=
  required <- wake task87_wake_recovery_requires_shutdown;
  when required recorder_shutdown_armed_now.

(** [app_main] once the recorder runs: ownership, the PC link, the event task,
    the USB stack.  A deleted task is one that no schedule runs again. *)
Definition start_usb : task unit :=
  err <- usb_msc_ownership_init;
  err <- (if is_ok err then usb_msc_ownership_set_physical_session_cutoff true else Done err);
  err <- (if is_ok err then
            device_id <- rec (get s_device_id);
            usb_cdc_protocol_init (DeviceIdentity.device_identity_is_valid_uuid device_id)
          else Done err);
  if negb (is_ok err) then recorder_enter_error RECORDER_REASON_USB else
  created <- create_task rec_usb;
  if negb created then recorder_enter_error RECORDER_REASON_USB else
  err <- usb_msc_ownership_start;
  if negb (is_ok err) then recorder_enter_error RECORDER_REASON_USB else
  err <- usb_cdc_protocol_start;
  when (negb (is_ok err)) (recorder_enter_error RECORDER_REASON_USB).

(** [app_main] once the boot action allows a recording. *)
Definition boot_recorder (resume : bool) : task unit :=
  wake (task87_wake_recovery_init resume) ;;'
  (err <- (if resume then rtc rtc_service_init else Done ESP_OK);
   if negb (is_ok err) then recorder_shutdown_armed_now else
   created <- create_task rec_base;
   if negb created then shutdown_if_required else
   recording <- recorder_wait_initial_recording;
   if negb recording then shutdown_if_required else
   err <- (if resume then Done ESP_OK else rtc rtc_service_init);
   if negb (is_ok err) then recorder_enter_error RECORDER_REASON_INTERNAL else
   allowed <- wake task87_wake_recovery_usb_rearm_allowed;
   if negb allowed then recorder_enter_error RECORDER_REASON_INTERNAL ;;' recorder_shutdown_armed_now
   else start_usb).

Definition app_main : task unit :=
  err <- dev recorder_power_enable_hold;
  if negb (is_ok err) then Done tt else
  err <- settings recorder_nvs_init;
  if negb (is_ok err) then recorder_shutdown_armed_now else
  woken <- dev recorder_power_manual_wake_asserted;
  gate <- (if is_ok woken.1 then settings (shutdown_armed_boot_action woken.2)
           else Done (woken.1, SHUTDOWN_ARMED_BOOT_STAY_SHUTDOWN));
  if negb (is_ok gate.1) then recorder_shutdown_armed_now else
  match gate.2 with
  | SHUTDOWN_ARMED_BOOT_STAY_SHUTDOWN => recorder_shutdown_armed_now
  | SHUTDOWN_ARMED_BOOT_NORMAL => boot_recorder false
  | SHUTDOWN_ARMED_BOOT_MANUAL_RESUME => boot_recorder true
  end.
End coordinator.
