(* ===== verification/Device.v ===== *)
(** * Device: the tasks and callbacks of the firmware on one shared state

    The state of all components, and the threads that run on it: the boot, the
    recorder's tasks, the coordinator of the card's ownership, the worker of
    the PC link, and the callbacks of the USB stack.  A thread of the recorder
    does nothing before its task was created. *)

From stdpp Require Import functions.
From S2P Require Import Prelude Monad Nvs ShutdownArmed WakeRecovery Stdio.
From S2P Require Import RecorderState Interleave SdMount UsbOwnership Recorder CdcSession.
From S2P Require Import Calls CdcWorker Coordinator.
From S2P Require CdcCore SessionGate.
Open Scope prog_scope.

(** ** The state *)

(** [hw] is the card's bus, the storage object and the USB stack, [devices]
    the rest of the platform; [wakeup] holds the wake proof, the clock
    correction and the settings; [history] is newest first. *)
Record device (H P R N : Type) := Device {
  sd : sd_state;
  hw : H;
  usbs : usb_state;
  rcd : recorder;
  devices : P;
  link : cdc_state;
  wakeup : wake_world R N;
  history : list (usb_note + rec_note);
}.
Arguments Device {H P R N}.
Arguments sd {H P R N}.
Arguments hw {H P R N}.
Arguments usbs {H P R N}.
Arguments rcd {H P R N}.
Arguments devices {H P R N}.
Arguments link {H P R N}.
Arguments wakeup {H P R N}.
Arguments history {H P R N}.

Section hosts.
Context {H P R N : Type}.
Abbreviation dv := (device H P R N).

Definition dv_sd {X} (m : st sd_state X) : st dv X := fun d =>
  let (x, s) := m (sd d) in
  (x, Device s (hw d) (usbs d) (rcd d) (devices d) (link d) (wakeup d) (history d)).
Definition dv_hw {X} (m : st H X) : st dv X := fun d =>
  let (x, h) := m (hw d) in
  (x, Device (sd d) h (usbs d) (rcd d) (devices d) (link d) (wakeup d) (history d)).
Definition dv_usb {X} (m : st usb_state X) : st dv X := fun d =>
  let (x, u) := m (usbs d) in
  (x, Device (sd d) (hw d) u (rcd d) (devices d) (link d) (wakeup d) (history d)).
Definition dv_rec {X} (m : st recorder X) : st dv X := fun d =>
  let (x, r) := m (rcd d) in
  (x, Device (sd d) (hw d) (usbs d) r (devices d) (link d) (wakeup d) (history d)).
Definition dv_dev {X} (m : st P X) : st dv X := fun d =>
  let (x, p) := m (devices d) in
  (x, Device (sd d) (hw d) (usbs d) (rcd d) p (link d) (wakeup d) (history d)).
Definition dv_cdc {X} (m : st cdc_state X) : st dv X := fun d =>
  let (x, c) := m (link d) in
  (x, Device (sd d) (hw d) (usbs d) (rcd d) (devices d) c (wakeup d) (history d)).
Definition dv_wake {X} (m : st (wake_world R N) X) : st dv X := fun d =>
  let (x, w) := m (wakeup d) in
  (x, Device (sd d) (hw d) (usbs d) (rcd d) (devices d) (link d) w (history d)).
Definition dv_note (n : usb_note + rec_note) : st dv unit := fun d =>
  (tt, Device (sd d) (hw d) (usbs d) (rcd d) (devices d) (link d) (wakeup d) (n :: history d)).

#[export] Instance device_sd : SdHost dv H := {
  on_sd X := @dv_sd X;
  on_hw X := @dv_hw X;
}.
#[export] Instance device_usb : UsbHost dv := {
  on_usb X := @dv_usb X;
  on_history n := dv_note (inl n);
}.
#[export] Instance device_rec : RecHost dv P := {
  on_rec X := @dv_rec X;
  on_dev X := @dv_dev X;
  on_rec_history n := dv_note (inr n);
}.
#[export] Instance device_cdc : CdcHost dv P := {
  on_cdc X := @dv_cdc X;
  on_cdc_platform X := @dv_dev X;
  on_answer_sent id := dv_note (inl (AnswerSent id));
}.
#[export] Instance device_wake : WakeHost dv R N := { on_wake X := @dv_wake X }.
#[export] Instance device_nvs : NvsHost dv N := { on_nvs X m := dv_wake (on_settings m) }.

Definition nvs (d : dv) : nvs_env N := WakeRecovery.settings (wakeup d).
End hosts.

(** ** The threads *)

Section threads.
Context {H P R N : Type} `{UsbPlatform H}.
Context `{RecorderPlatform P, CdcPlatform P, PowerPlatform P}.
Context `{NvsOps N bytes, RtcFlush R N, RtcService R N}.
Context {J : Type} `{!CdcCore.Cjson J}.
Context (nvs_random : st N Z).

Abbreviation task := (@prog (device H P R N)).

(** The worker of the PC link runs from its creation on. *)
Definition worker_thread : task unit :=
  Loop (fun _ : unit =>
    created <- cdc_up s_worker;
    if (created : bool) then leave tt else again tt) tt
  (fun _ : unit => usb_cdc_worker_task J recorder_cdc_config).

Definition run_in_turn {X} (f : X -> task unit) : list X -> task unit :=
  fold_right (fun x p => f x ;;' p) (Done tt).

(** What the task of the USB stack calls: the device events, the MSC
    callbacks, the CDC callbacks. *)
Inductive stack_call :=
  | StackEvent (event : option tinyusb_event_id_t)
  | StackScsiComplete (scsi_cmd : option bytes)
  | StackStartStop (lun power_condition : Z) (start load_eject : bool)
  | StackTestUnitReady (lun : Z)
  | StackCapacity (lun : Z)
  | StackRead10 (lun lba offset bufsize : Z)
  | StackWrite10 (lun lba offset : Z) (buffer : bytes)
  | StackLineState (dtr rts : bool)
  | StackRx
  | StackTxComplete (itf : Z).

Definition run_stack_call (c : stack_call) : task unit :=
  match c with
  | StackEvent e => usb_device_event_cb recorder_cdc_physical_session_cutoff e
  | StackScsiComplete cmd => tud_msc_scsi_complete_cb cmd
  | StackStartStop lun p s l => wrap_tud_msc_start_stop_cb lun p s l ;;' Done tt
  | StackTestUnitReady lun => wrap_tud_msc_test_unit_ready_cb lun ;;' Done tt
  | StackCapacity lun => wrap_tud_msc_capacity_cb lun ;;' Done tt
  | StackRead10 lun lba o n => wrap_tud_msc_read10_cb lun lba o n ;;' Done tt
  | StackWrite10 lun lba o b => wrap_tud_msc_write10_cb lun lba o b ;;' Done tt
  | StackLineState dtr rts => usb_cdc_line_state_callback dtr rts
  | StackRx => usb_cdc_rx_callback
  | StackTxComplete itf => tud_cdc_tx_complete_cb itf
  end.

Definition coordinator_thread : task unit := after_creation rec_usb recorder_usb_event_task.
Definition writer_thread : task unit := after_creation rec_writer (recorder_writer_task nvs_random).
Definition base_thread (slot0 slot1 : bytes) : task unit :=
  after_creation rec_base (recorder_base_task slot0 slot1).

(** The firmware: the coordinator, the writer, the recorder's boot, the main
    task, the worker, the other tasks, and any number of callback sequences. *)
Definition firmware (slot0 slot1 : bytes) (callbacks : list (list stack_call)) : list (task unit) :=
  coordinator_thread :: writer_thread :: base_thread slot0 slot1 :: app_main ::
  worker_thread ::
  after_creation rec_capture recorder_capture_task ::
  after_creation rec_battery recorder_battery_task ::
  map (run_in_turn run_stack_call) callbacks.

(** Every static variable as its initialiser leaves it: the flags are clear,
    nothing is created; the settings have been kept. *)
Definition powered_on (h : H) (p : P) (r : R) (n : N) (card_ : Stdio.world) : device H P R N :=
  Device initial_flags h
    (UsbState None (fun _ => false) [] (fun _ => 0))
    (RecorderVars (PcmPipeline.pcm_pipeline_init [] []) false false None
       recorder_state_machine_init false false 0 [] [] card_ (fun _ => false))
    p (CdcState (fun _ => false) SessionGate.start_world 0)
    (WakeWorld (WakeContext false false false) r (NvsEnv MutexNull false n)) [].

(** A sequence of calls is made of steps of the calls. *)
Lemma steps_in_turn S {X} (f : X -> task unit) xs :
  (forall x, all_steps S (f x)) -> all_steps S (run_in_turn f xs).
Proof. intros Hf. induction xs as [|x xs IH]; cbn; [done|]. by apply all_steps_bind. Qed.
End threads.

(** ** Walking over the code of the device *)

Ltac head_of t := lazymatch t with ?f _ => head_of f | _ => t end.

(** A leaf of [walk] that knows no calls: it unfolds every function down to its
    atomic steps, which [step] solves. *)
Ltac unfold_leaf step :=
  first
  [ progress cbn [recorder_cdc_config cfg_device_id cfg_status_provider cfg_set_time cfg_release_accept
      cfg_release_response_complete cfg_command_admission_open]
  | lazymatch goal with
    | |- all_steps _ (Atomic _ _) => split; [intros _; cbn beta; step ()|intros ?]
    | |- all_steps _ (by_calls _ _) => apply all_steps_by_calls; intros ?
    | |- all_steps _ ?p => let f := head_of p in unfold f
    end ].
