(* ===== verification/Bench.v ===== *)
(** * Bench: a concrete device to run the firmware on

    The least platform with the documented behaviour: nothing fails, every read
    of the microphone gives the same sound, and the switch of the storage takes
    two events.  The witnesses of the theorems about whole runs evaluate on it. *)

From stdpp Require Import functions.
From S2P Require Import Prelude Monad Nvs ShutdownArmed WakeRecovery Stdio.
From S2P Require Import RecorderConfig RecorderState Interleave SdMount UsbOwnership Recorder.
From S2P Require Import CdcSession UsbDescriptor CdcWorker Coordinator Device.
From S2P Require Calendar CdcCore.

#[export] Existing Instance CdcCore.tiny_cjson.

(** What the PC sends, batch by batch. *)
Abbreviation pc := (list bytes).

(** How far the switch to the USB side has come: not begun, announced, done. *)
Inductive side := Ours | Announced | Theirs.

#[export] Instance bench_storage : StoragePlatform side := {
  spi_bus_initialize := ret ESP_OK;
  spi_bus_free := ret ESP_OK;
  sdspi_host_init := ret ESP_OK;
  sdspi_host_deinit := ret ESP_OK;
  sdspi_host_init_device := ret ESP_OK;
  sdspi_host_remove_device := ret ESP_OK;
  sdmmc_card_init := ret ESP_OK;
  make_directory _ := ret MkdirExists;
  tinyusb_msc_install_driver _ := ret ESP_OK;
  tinyusb_msc_uninstall_driver := ret ESP_OK;
  tinyusb_msc_new_storage_sdmmc _ := ret ESP_OK;
  tinyusb_msc_delete_storage _ := (ESP_OK, Ours);
  tinyusb_msc_set_storage_callback _ := ret ESP_OK;
  set_mount_point_progress _ h :=
    match h with
    | Ours => (inl (MscEvent TINYUSB_MSC_EVENT_MOUNT_START TINYUSB_MSC_STORAGE_MOUNT_APP), Announced)
    | Announced => (inl (MscEvent TINYUSB_MSC_EVENT_MOUNT_COMPLETE TINYUSB_MSC_STORAGE_MOUNT_USB), Theirs)
    | Theirs => (inr ESP_OK, Theirs)
    end;
  host_reach h := match h with Theirs => true | _ => false end;
}.

#[export] Instance bench_storage_laws : StorageLaws side.
Proof. by split; unfold no_reach; cbn. Qed.

#[export] Instance bench_usb : UsbPlatform side := {
  event_group_create := ret true;
  tinyusb_driver_install := ret ESP_OK;
  tinyusb_driver_uninstall := ret ESP_OK;
  tud_connect := ret true;
  tud_disconnect := ret true;
  tud_msc_set_sense _ := ret true;
  real_test_unit_ready _ := ret true;
  real_capacity _ := ret (1024, 512);
  real_read10 _ _ _ n := ret n;
  real_write10 _ _ _ data := ret (zlen data);
  real_start_stop _ _ _ _ := ret true;
}.

#[export] Instance bench_usb_laws : UsbPlatformLaws side.
Proof. by split; unfold no_reach; cbn. Qed.

(** Every read of the microphone gives [sound]. *)
Definition bench_hearing (sound : bytes) : RecorderPlatform pc := {|
  time_now := ret 1784332800;
  localtime_r _ := ret (Tm 126 6 18 0 0 0);
  xTaskGetTickCount := ret 0;
  configTICK_RATE_HZ := 100;
  esp_timer_get_time := ret 0;
  hw_random := ret 305419896;
  semaphore_create := ret true;
  rec_event_group_create := ret true;
  task_create _ := ret true;
  heap_free_size := ret 8000000;
  heap_largest_free_block := ret 4000000;
  esp_vfs_fat_info := ret (ESP_OK, 16000000000, 8000000000);
  pdm_capture_init := ret ESP_OK;
  pdm_capture_read := ret (None, sound);
  pdm_capture_drain_overflow := ret (0, 0);
  pdm_capture_stop_and_drain_final := ret (ESP_OK, (0, 0));
  pdm_capture_deinit := ret ESP_OK;
  recorder_power_init := ret ESP_OK;
  recorder_power_read_battery_mv := ret (ESP_OK, 4000);
  recorder_power_deinit := ret tt;
  recorder_status_led_init := ret ESP_OK;
  recorder_status_led_set_state _ := ret ESP_OK
|}.

#[export] Instance bench_recorder : RecorderPlatform pc := bench_hearing [].

#[export] Instance bench_cdc : CdcPlatform pc := {
  create_worker_task := ret true;
  pdMS_TO_TICKS ms := ms / 10;
  cdc_xTaskGetTickCount := ret 0;
  cdc_vTaskDelay _ := ret tt;
  tinyusb_cdcacm_init := ret ESP_OK;
  tinyusb_cdcacm_read _ p := match p with [] => (Some [], []) | chunk :: p => (Some chunk, p) end;
  tinyusb_cdcacm_write_queue data := ret (zlen data);
  tinyusb_cdcacm_write_queue_char _ := ret 1;
  tinyusb_cdcacm_write_flush _ := ret ESP_OK;
  CFG_TUD_CDC_TX_BUFSIZE := 512;
  tud_cdc_n_write_available := ret 512;
  usbd_edpt_busy _ := ret false;
  tud_descriptor_configuration_cb := ret (Some (concat (sample_head :: sample_descriptors)));
}.

#[export] Instance bench_power : PowerPlatform pc := {
  recorder_power_enable_hold := ret ESP_OK;
  recorder_power_manual_wake_asserted := ret (ESP_OK, false);
  recorder_power_shutdown := ret ESP_OK;
}.

Abbreviation bench_settings := (ReferenceNvs.store bytes).

#[export] Instance bench_flush : RtcFlush unit bench_settings := { flush_pending_event := None }.

#[export] Instance bench_flush_laws : RtcFlushLaws unit bench_settings bytes.
Proof. by split. Qed.

#[export] Instance bench_rtc : RtcService unit bench_settings := {
  rtc_service_init := ret ESP_OK;
  rtc_service_is_pending := ret false;
  rtc_service_apply req := ret (Calendar.RTC_CORRECTION_OK, req);
}.

#[export] Instance bench_rtc_laws : RtcServiceLaws unit bench_settings bytes.
Proof. split; (intros; split_and!; [done|done|by left]). Qed.

(** A card with the recorder's directories and nothing in them, and settings
    with nothing in them. *)
Definition blank_card : Stdio.world := clean_world
  (<[RECORDER_M5DAYLOG_DIR := NDir]> (<[RECORDER_RECORDINGS_DIR := NDir]>
    (<[RECORDER_QUARANTINE_DIR := NDir]> ∅))).

Definition blank_settings : bench_settings := ReferenceNvs.Store (fun _ => None) (fun _ => None) [].

Definition bench_random : st bench_settings Z := ret 305419896.

(** [n] steps of thread [i]. *)
Definition steps (i n : nat) : list (nat * bool) := replicate n (i, false).

Definition coordinator_id : nat := 0.
Definition writer_id : nat := 1.
Definition base_id : nat := 2.
Definition main_id : nat := 3.
Definition worker_id : nat := 4.
Definition capture_id : nat := 5.
Definition battery_id : nat := 6.
Definition callback_id : nat := 7.

(** The host enumerates the device and sends its first command. *)
Definition bench_callbacks : list stack_call :=
  [StackEvent (Some TINYUSB_EVENT_ATTACHED); StackScsiComplete (Some [USB_SCSI_CMD_TEST_UNIT_READY])].

(** From power-on to the publication of the card: the boot, the writer and the
    capture up to the recording, the start of USB, the host's first command,
    the coordinator, the end of the recording, the publication. *)
Definition to_recording : list (nat * bool) :=
  (steps main_id 30 ++ steps base_id 60 ++ steps writer_id 200 ++ steps capture_id 40 ++
   steps battery_id 20)%list.
Definition to_publication : list (nat * bool) :=
  (to_recording ++ steps main_id 80 ++ steps callback_id 40 ++ steps coordinator_id 100 ++
   steps capture_id 40 ++ steps battery_id 20 ++ steps writer_id 200 ++ steps coordinator_id 100)%list.

(** From there to the release of the card: the host enumerates the second time,
    opens the link and reads; the coordinator opens the session once the worker
    drained it; the PC sends the request of CdcCore; its response is
    transferred; the coordinator tears the stack down, and the host's last read
    is too late. *)
Definition bench_host : list stack_call :=
  [StackEvent (Some TINYUSB_EVENT_ATTACHED); StackLineState true true; StackTestUnitReady 0;
   StackTxComplete 0; StackRead10 0 0 0 512].
Definition bench_pc : pc := [[]; []; (CdcCore.sample_line ++ [10])%list].
Definition host_id : nat := 8.
Definition to_release : list (nat * bool) :=
  (to_publication ++ steps host_id 28 ++ steps coordinator_id 60 ++ steps worker_id 24 ++
   steps coordinator_id 100 ++ steps worker_id 3000 ++ steps host_id 8 ++ steps worker_id 200 ++
   steps coordinator_id 300)%list.

(** A microphone that is heard: the capture reads until one buffer is full, the
    writer stores it; then the host's first command ends the segment. *)
Definition to_one_buffer : list (nat * bool) :=
  (steps main_id 30 ++ steps base_id 60 ++ steps writer_id 200 ++ steps capture_id 17 ++
   steps writer_id 40 ++ steps capture_id 8 ++ steps writer_id 100)%list.
Definition to_finalization : list (nat * bool) :=
  (to_one_buffer ++ steps main_id 80 ++ steps callback_id 40 ++ steps coordinator_id 30 ++
   steps capture_id 40 ++ steps writer_id 6)%list.
