(* ===== verification/Handover.v ===== *)
(** * Handover: the card never has two masters

    What the host may reach, and what the firmware has then finished, for every
    schedule of the threads of Device, every request, callback and fault.  The
    proof is one invariant over the shared state and a claim per thread; most
    steps are [calm], they cannot touch what the invariant speaks of. *)

From stdpp Require Import functions.
From S2P Require Import Prelude Monad Nvs ShutdownArmed WakeRecovery Stdio.
From S2P Require Import RecorderState Interleave SdMount UsbOwnership Recorder CdcSession.
From S2P Require Import Calls CdcWorker DeviceIdentity Coordinator Device Bench.
From S2P Require CdcCore.
Open Scope prog_scope.

(** ** The segments of a history *)

(** Where the segments stand: all recorded, one open, one finalized. *)
Inductive status := Clean | Open (wav : bytes) | Final (wav : bytes) | Broken.

Definition advance (n : rec_note) (s : status) : status :=
  match n, s with
  | WriterGone _, s | MicRead _, s | AudioWritten _ _, s => s
  | SegmentOpened w _, Clean => Open w
  | SegmentFinalized _ _, Clean => Clean
  | SegmentFinalized w _, Open v | SegmentFinalized w _, Final v =>
      if decide (v = w) then Final w else Broken
  | SegmentRecorded _, Clean => Clean
  | SegmentRecorded w, Final v => if decide (v = w) then Clean else Broken
  | _, _ => Broken
  end.

(** The notes on segments and on the writer's end. *)
Definition segment_notes : list (usb_note + rec_note) -> list rec_note :=
  omap (fun n => match n with
                 | inl _ | inr (MicRead _) | inr (AudioWritten _ _) => None
                 | inr r => Some r
                 end).

(** Of a history, newest first. *)
Definition status_of (ns : list rec_note) : status := foldr advance Clean ns.

(** Every segment that was opened was later finalized, and then recorded. *)
Definition settled (ns : list rec_note) : Prop :=
  forall newer w d older, ns = newer ++ SegmentOpened w d :: older ->
  exists a b d' c, newer = a ++ SegmentRecorded w :: b ++ SegmentFinalized w d' :: c.

Definition opens (n : rec_note) : Prop := match n with SegmentOpened _ _ => True | _ => False end.

(** The notes since the segment [w] was opened, behind settled ones. *)
Definition since_opened (w : bytes) (ns newer : list rec_note) : Prop :=
  exists d older, ns = newer ++ SegmentOpened w d :: older /\ settled older /\
    Forall (fun n => ~ opens n) newer.

Definition status_means (s : status) (ns : list rec_note) : Prop :=
  match s with
  | Clean => settled ns
  | Open w => exists newer, since_opened w ns newer
  | Final w => exists newer b d c, since_opened w ns newer /\ newer = b ++ SegmentFinalized w d :: c
  | Broken => True
  end.

Lemma settled_cons n ns : ~ opens n -> settled ns -> settled (n :: ns).
Proof.
  intros Hn Hs [|m newer] w d older E; injection E as -> E; [by destruct Hn|].
  destruct (Hs _ _ _ _ E) as (a & b & d' & c & ->). by exists (m :: a), b, d', c.
Qed.

Lemma since_cons n w ns newer :
  ~ opens n -> since_opened w ns newer -> since_opened w (n :: ns) (n :: newer).
Proof. intros Hn (d & older & -> & Hs & Hall). exists d, older. by split_and!; [|..|constructor]. Qed.

Lemma since_recorded w ns b d c :
  since_opened w ns (b ++ SegmentFinalized w d :: c) -> settled (SegmentRecorded w :: ns).
Proof.
  intros (d0 & older & -> & Hs & Hall) [|m newer] v d1 rest E; [done|].
  injection E as <- E.
  apply app_mid in E as [(<- & [= -> _] & ->)|[(k & -> & ->)|(k & E & ->)]].
  - by exists [], b, d, c.
  - destruct (Hs k v d1 rest eq_refl) as (a' & b' & d' & c' & ->).
    exists (SegmentRecorded w :: (b ++ SegmentFinalized w d :: c) ++ SegmentOpened w d0 :: a'), b', d', c'.
    cbn. by rewrite <- !app_assoc.
  - rewrite E, Forall_app, Forall_cons in Hall. by destruct Hall as (_ & [] & _).
Qed.

Lemma status_cons n ns :
  ~ opens n -> (forall s, advance n s = s) -> status_means (status_of ns) ns ->
  status_means (status_of (n :: ns)) (n :: ns).
Proof.
  intros Hn Hadv IH. cbn [status_of foldr]. fold (status_of ns). rewrite Hadv.
  destruct (status_of ns); cbn [status_means] in *; [|..|done].
  - by apply settled_cons.
  - destruct IH as [newer H]. exists (n :: newer). by apply since_cons.
  - destruct IH as (newer & b & d & c & H & ->).
    exists (n :: b ++ SegmentFinalized wav d :: c), (n :: b), d, c. split; [by apply since_cons|done].
Qed.

Lemma status_sound ns : status_means (status_of ns) ns.
Proof.
  induction ns as [|n ns IH]; [by intros [|? ?] ? ? ?|].
  destruct n as [w f|w f|w|c|g|ok g]; try (by apply status_cons; [intros []|intros []|]);
    cbn [status_of foldr]; fold (status_of ns); destruct (status_of ns) as [|v|v|]; cbn [advance];
    try done; try (case_decide; [subst|done]); cbn [status_means] in *.
  - exists [], f, ns. by split_and!; [..|constructor].
  - apply settled_cons; [by intros []|done].
  - destruct IH as [newer H]. exists (SegmentFinalized w f :: newer), [], f, newer.
    split; [by apply since_cons; [intros []|]|done].
  - destruct IH as (newer & b & d & c & H & ->).
    exists (SegmentFinalized w f :: b ++ SegmentFinalized w d :: c), (SegmentFinalized w f :: b), d, c.
    split; [by apply since_cons; [intros []|]|done].
  - apply settled_cons; [by intros []|done].
  - destruct IH as (newer & b & d & c & H & ->). by eapply since_recorded.
Qed.

(** ** Settings the threads leave alone *)

Section nvs_calm.
Context {N : Type} `{NvsOps N bytes}.

(** Now and at the next boot, the host has the card. *)
Definition unresolved (e : nvs_env N) : Prop :=
  current e = Some SHUTDOWN_LIFECYCLE_HOST_UNRESOLVED /\
  next_boot e = Some SHUTDOWN_LIFECYCLE_HOST_UNRESOLVED.

(** The mutex is given back, and the host keeps the card. *)
Definition nvs_calm (e e' : nvs_env N) : Prop :=
  unlocked e -> unlocked e' /\ (unresolved e -> unresolved e').

#[export] Instance nvs_calm_preorder : PreOrder nvs_calm.
Proof.
  split; [by intros e ?|]. intros e1 e2 e3 H1 H2 Hu. destruct (H1 Hu) as [Hu2 H12].
  destruct (H2 Hu2) as [? ?]. auto.
Qed.

Lemma same_calm e e' : same_settings e e' -> unlocked e' -> nvs_calm e e'.
Proof.
  intros He Hu _. split; [done|]. unfold unresolved.
  by rewrite (same_current _ _ He), (same_next_boot _ _ He).
Qed.

Lemma kept_calm e e' : (unlocked e -> lifecycle_kept e e') -> nvs_calm e e'.
Proof.
  intros Hk Hu. destruct (Hk Hu) as (Hu' & Hc & Hd). split; [done|].
  intros [H1 H2]. split; [congruence|]. destruct Hd; congruence.
Qed.

Context `{!NvsLaws N bytes}.

Lemma op_calm o : o <> Commit -> along nvs_calm (run_op o).
Proof.
  intros Ho e Hu. destruct (wp_run_op o e Hu) as (Hu' & [Hc Hd] & _). split; [done|].
  intros [H1 H2]. unfold unresolved. rewrite H1, H2 in *. split.
  - destruct Hc as [?|(s & Hs & ->)]; [done|]. by inversion Hs; subst.
  - destruct Hd as [?|[?|(s & Hs & ->)]]; [done..|]. by inversion Hs; subst.
Qed.

(** A platform operation on other keys. *)
Definition elsewhere {A} (m : st N A) : Prop := forall n,
  nvs_view (m n).2 armed_key = nvs_view n armed_key /\
  (nvs_durable (m n).2 armed_key = nvs_durable n armed_key \/
   nvs_durable (m n).2 armed_key = nvs_view n armed_key).

Lemma harmless_elsewhere {A} (m : st N A) : harmless m -> elsewhere m.
Proof. intros Hm n. destruct (Hm n) as [-> ->]. auto. Qed.

Lemma elsewhere_ret {A} (x : A) : elsewhere (ret x).
Proof. intros n. auto. Qed.

Lemma elsewhere_bind {A C} (m : st N A) (k : A -> st N C) :
  elsewhere m -> (forall x, elsewhere (k x)) -> elsewhere (bind m k).
Proof.
  intros Hm Hk n. unfold bind. specialize (Hm n). destruct (m n) as [x n']. cbn in Hm.
  destruct Hm as [Hv Hd]. destruct (Hk x n') as [-> Hd']. rewrite Hv in *. split; [done|].
  destruct Hd' as [-> | ->]; auto.
Qed.

Lemma elsewhere_set k v : k <> armed_key -> elsewhere (nvs_set k v).
Proof.
  intros Hk n. destruct (set_effect k v n) as [Hv Hd].
  destruct (Hv armed_key) as [->|[? _]]; [|done]. destruct (Hd armed_key) as [->|[? _]]; [|done]. auto.
Qed.

Lemma elsewhere_commit ns : elsewhere (nvs_commit ns).
Proof. intros n. rewrite commit_view. split; [done|]. apply commit_effect. Qed.

Lemma elsewhere_platform {A} (m : st N A) e :
  elsewhere m -> nvs_lock (on_platform m e).2 = nvs_lock e /\
    (unresolved e -> unresolved (on_platform m e).2).
Proof.
  intros Hm. unfold on_platform. destruct (Hm (platform e)) as [Hv Hd].
  destruct (m (platform e)) as [x n]. split; [done|]. intros [H1 H2].
  unfold unresolved, current, next_boot, view, durable in *. cbn in *. rewrite Hv. split; [done|].
  by destruct Hd as [-> | ->].
Qed.

Lemma platform_calm {A} (m : st N A) : elsewhere m -> along nvs_calm (on_platform m).
Proof.
  intros Hm e Hu. destruct (elsewhere_platform m e Hm) as [Hl ?]. split; [|done].
  unfold unlocked in *. by rewrite Hl.
Qed.

(** A transaction on other keys. *)
Lemma transaction_calm ns w : elsewhere w -> along nvs_calm (nvs_transaction ns w).
Proof.
  intros Hw. apply along_wp. intros e. unfold wp. intros Hu. revert Hu.
  change (unlocked e -> wp (nvs_transaction ns w) (fun _ e' => unlocked e' /\ (unresolved e -> unresolved e')) e).
  intros Hu. unfold nvs_transaction. st_prim. apply wp_recorder_nvs_lock; [done|]. intros r e1 H1 Hl1.
  assert (He1 : unresolved e -> unresolved e1).
  { intros [? ?]. split; [by rewrite (same_current _ _ H1)|by rewrite (same_next_boot _ _ H1)]. }
  destruct (is_ok r) eqn:Hr; cbn [negb]; st_prim; [|done].
  assert (Hstep : forall A (m : st N A) e2 (Q : A -> nvs_env N -> Prop), elsewhere m ->
    nvs_lock e2 = MutexHeld -> (unresolved e -> unresolved e2) ->
    (forall x e3, nvs_lock e3 = MutexHeld -> (unresolved e -> unresolved e3) -> Q x e3) ->
    wp (on_platform m) Q e2).
  { intros A m e2 Q Hm Hl Hr2 HQ. destruct (elsewhere_platform m e2 Hm) as [Hl2 H2].
    unfold wp. apply HQ; [by rewrite Hl2|auto]. }
  assert (Hend : forall (x : esp_err_t) e2, nvs_lock e2 = MutexHeld -> (unresolved e -> unresolved e2) ->
    wp (recorder_nvs_unlock ;;; ret x) (fun _ e' => unlocked e' /\ (unresolved e -> unresolved e')) e2).
  { intros x e2 Hl2 H2. st_prim. apply wp_recorder_nvs_unlock; [done|]. intros e3 H3 Hu3. st_prim.
    split; [done|]. intros Hun. destruct (H2 Hun).
    split; [by rewrite (same_current _ _ H3)|by rewrite (same_next_boot _ _ H3)]. }
  apply Hstep; [apply harmless_elsewhere, open_harmless|done..|]. intros r2 e2 Hl2 H2. st_prim.
  destruct r2; cbn [is_ok]; st_prim; cbn [is_ok]; st_prim; try (by apply wp_unbind, Hend).
  apply Hstep; [done..|]. intros r3 e3 Hl3 H3. st_prim.
  destruct r3; cbn [is_ok]; st_prim; try (by apply wp_unbind, Hend).
  apply Hstep; [apply elsewhere_commit|done..|]. intros r4 e4 Hl4 H4. st_prim.
  by apply wp_unbind, Hend.
Qed.
End nvs_calm.

(** ** What a step may change *)

Section handover.
Context {H P R N : Type} `{UsbPlatform H, !StorageLaws H, !UsbPlatformLaws H}.
Context `{RecorderPlatform P, CdcPlatform P, PowerPlatform P}.
Context `{NvsOps N bytes, !NvsLaws N bytes, RtcFlush R N, !RtcFlushLaws R N bytes}.
Context `{RtcService R N, !RtcServiceLaws R N bytes}.
Context {J : Type} `{!CdcCore.Cjson J}.

Abbreviation dv := (device H P R N).
Abbreviation task := (@prog dv).

Definition failed (r : recorder) : Prop := state (s_rec_state r) = RECORDER_STATE_ERROR.
Definition finalized_bit (r : recorder) : bool := Z.testbit (default 0 (s_rec_events r)) 4.

(** The recorder's variables: the locks, the tasks, a failure stays. *)
Record rec_core (r r' : recorder) : Prop := RecCore {
  core_lock : s_state_lock r' = s_state_lock r;
  core_spawned : spawned r' rec_writer = spawned r rec_writer;
  core_failed : failed r -> failed r';
  core_bit : finalized_bit r' = true -> finalized_bit r = true;
}.

(** While the log is closed, the card stays as it is. *)
Record rec_quiet (r r' : recorder) : Prop := RecQuiet {
  quiet_ready : s_state_events_ready r' = s_state_events_ready r;
  quiet_card : s_state_events_ready r = false -> card r' = card r;
}.

Definition rec_calm (r r' : recorder) : Prop := rec_core r r' /\ rec_quiet r r'.

(** Nothing that reaches the host, undoes its claim, or speaks of segments. *)
Record core (d d' : dv) : Prop := Core {
  core_nvs : nvs_calm (nvs d) (nvs d');
  core_reach : host_reach (hw d') = true -> host_reach (hw d) = true;
  core_rcd : rec_core (rcd d) (rcd d');
  core_notes : segment_notes (history d') = segment_notes (history d);
}.

(** [core], and the card is left alone while the log is closed. *)
Definition tidy (d d' : dv) : Prop := core d d' /\ rec_quiet (rcd d) (rcd d').

(** [tidy], and the release of the file system is not touched. *)
Definition calm (d d' : dv) : Prop :=
  tidy d d' /\
  sd d' s_usb_release_requested = sd d s_usb_release_requested /\
  sd d' s_device_fs_released = sd d s_device_fs_released.

#[local] Instance rec_core_preorder : PreOrder rec_core.
Proof.
  split; [by split|]. intros r1 r2 r3 [] []. split; [congruence..| |]; auto.
Qed.

#[local] Instance rec_quiet_preorder : PreOrder rec_quiet.
Proof.
  split; [by split|]. intros r1 r2 r3 [E1 C1] [E2 C2]. split; [congruence|].
  intros E. rewrite C2, C1; congruence.
Qed.

#[local] Instance rec_calm_preorder : PreOrder rec_calm.
Proof. split; [by split|]. intros r1 r2 r3 [] []. by split; etransitivity. Qed.

#[local] Instance core_preorder : PreOrder core.
Proof.
  split; [by split|]. intros d1 d2 d3 [] []. split; [by etransitivity|auto|by etransitivity|congruence].
Qed.

#[local] Instance tidy_preorder : PreOrder tidy.
Proof. split; [by split|]. intros d1 d2 d3 [] []. by split; etransitivity. Qed.

#[local] Instance calm_preorder : PreOrder calm.
Proof.
  split; [by split|]. intros d1 d2 d3 (? & ? & ?) (? & ? & ?). split_and!; [by etransitivity|congruence..].
Qed.

Lemma along_sub {S A} (R1 R2 : S -> S -> Prop) (m : st S A) :
  (forall w w', R1 w w' -> R2 w w') -> along R1 m -> along R2 m.
Proof. unfold along. auto. Qed.

Lemma calm_tidy d d' : calm d d' -> tidy d d'.
Proof. by intros []. Qed.

Lemma tidy_core d d' : tidy d d' -> core d d'.
Proof. by intros []. Qed.

(** Steps on one part of the device. *)
Lemma calm_usb {X} (m : st usb_state X) : along calm (on_usb m).
Proof. intros d. unfold on_usb. cbn. unfold dv_usb. by destruct (m (usbs d)). Qed.

Lemma calm_history n : along calm (on_history n : st dv unit).
Proof. intros d. by split; [split|]. Qed.

Lemma calm_heard got : along calm (on_rec_history (MicRead got) : st dv unit).
Proof. intros d. by split; [split|]. Qed.

Lemma calm_written ok chunk : along calm (on_rec_history (AudioWritten ok chunk) : st dv unit).
Proof. intros d. by split; [split|]. Qed.

Lemma calm_dev {X} (m : st P X) : along calm (on_dev m : st dv X).
Proof. intros d. unfold on_dev. cbn. unfold dv_dev. by destruct (m (devices d)). Qed.

Lemma calm_cdc {X} (m : st cdc_state X) : along calm (on_cdc m : st dv X).
Proof. intros d. unfold on_cdc. cbn. unfold dv_cdc. by destruct (m (link d)). Qed.

Lemma calm_cdc_platform {X} (m : st P X) : along calm (on_cdc_platform m : st dv X).
Proof. apply calm_dev. Qed.

Lemma calm_hw {X} (m : st H X) : no_reach m -> along calm (on_hw m : st dv X).
Proof.
  intros Hm d. unfold on_hw. cbn. unfold dv_hw. specialize (Hm (hw d)). by destruct (m (hw d)).
Qed.

Lemma calm_rec {X} (m : st recorder X) : along rec_calm m -> along calm (on_rec m : st dv X).
Proof.
  intros Hm d. unfold on_rec. cbn. unfold dv_rec. specialize (Hm (rcd d)).
  destruct (m (rcd d)), Hm. by split; [split|].
Qed.

Lemma core_rec {X} (m : st recorder X) : along rec_core m -> along core (on_rec m : st dv X).
Proof.
  intros Hm d. unfold on_rec. cbn. unfold dv_rec. specialize (Hm (rcd d)).
  by destruct (m (rcd d)).
Qed.

Definition wake_calm (w w' : wake_world R N) : Prop := nvs_calm (WakeRecovery.settings w) (WakeRecovery.settings w').

Lemma calm_wake {X} (m : st (wake_world R N) X) : along wake_calm m -> along calm (on_wake m : st dv X).
Proof.
  intros Hm d. unfold on_wake. cbn. unfold dv_wake. specialize (Hm (wakeup d)).
  by destruct (m (wakeup d)).
Qed.

Lemma calm_nvs {X} (m : st (nvs_env N) X) : along nvs_calm m -> along calm (on_nvs m : st dv X).
Proof.
  intros Hm. apply calm_wake. intros w. unfold on_settings, wake_calm.
  specialize (Hm (WakeRecovery.settings w)). by destruct (m (WakeRecovery.settings w)).
Qed.

Lemma tidy_sd {X} (m : st sd_state X) : along tidy (on_sd m : st dv X).
Proof. intros d. unfold on_sd. cbn. unfold dv_sd. by destruct (m (sd d)). Qed.

Definition flags_kept (s s' : sd_state) : Prop :=
  s' s_usb_release_requested = s s_usb_release_requested /\
  s' s_device_fs_released = s s_device_fs_released.

Lemma calm_sd {X} (m : st sd_state X) : along flags_kept m -> along calm (on_sd m : st dv X).
Proof.
  intros Hm d. split; [apply tidy_sd|]. unfold on_sd. cbn. unfold dv_sd.
  specialize (Hm (sd d)). by destruct (m (sd d)).
Qed.
(** ** The invariant *)

(** Where the coordinator is in a publication: the writer is gone; and every
    segment recorded; and the host's claim durable; and the file system
    released; or the storage object is deleted. *)
Inductive coord_stage := CIdle | CGone | CClean | CUnres | CSwitch | CHidden.

(** The writer: not created; before the log opens; at work; failed; behind
    the log; gone. *)
Inductive writer_stage := WUnborn | WBorn | WLive (s : status) | WFailed | WQuiet | WGone.

(** The boot: before the state lock; behind it; past the writer's creation. *)
Inductive base_stage := BStart | BLocked | BDone.

Inductive claim := LC (c : coord_stage) | LW (v : writer_stage) | LB (b : base_stage) | LO.

Definition stands (d : dv) : status := status_of (segment_notes (history d)).
Definition lock (d : dv) : Prop := s_state_lock (rcd d) = true.
Definition log_closed (d : dv) : Prop := s_state_events_ready (rcd d) = false.
Definition requested (d : dv) : Prop := sd d s_usb_release_requested = true.
Definition released (d : dv) : Prop := sd d s_device_fs_released = true.

Definition coord_fact (c : coord_stage) (v : writer_stage) (d : dv) : Prop :=
  match c with
  | CIdle => True
  | CGone => v = WGone
  | CClean => v = WGone /\ stands d = Clean
  | CUnres => v = WGone /\ stands d = Clean /\ unresolved (nvs d)
  | CSwitch => v = WGone /\ stands d = Clean /\ unresolved (nvs d) /\ requested d /\ released d
  | CHidden => host_reach (hw d) = false
  end.

Definition writer_fact (v : writer_stage) (d : dv) : Prop :=
  match v with
  | WUnborn => stands d = Clean /\ log_closed d
  | WBorn => stands d = Clean /\ log_closed d /\ lock d
  | WLive s => stands d = s /\ lock d
  | WFailed => lock d /\ failed (rcd d)
  | WQuiet => log_closed d /\ lock d /\ (stands d = Clean \/ failed (rcd d))
  | WGone => log_closed d /\ lock d /\ (stands d = Clean \/ failed (rcd d)) /\
      head (segment_notes (history d)) = Some (WriterGone (card (rcd d)))
  end.

Definition base_fact (b : base_stage) (v : writer_stage) (d : dv) : Prop :=
  match b with
  | BStart => v = WUnborn /\ spawned (rcd d) rec_writer = false
  | BLocked => v = WUnborn /\ spawned (rcd d) rec_writer = false /\ lock d
  | BDone => True
  end.

Record facts (c : coord_stage) (v : writer_stage) (b : base_stage) (d : dv) : Prop := Facts {
  fact_unlocked : unlocked (nvs d);
  fact_spawned : spawned (rcd d) rec_writer = true -> lock d;
  fact_bit : finalized_bit (rcd d) = true -> v = WGone;
  fact_reach : host_reach (hw d) = true -> coord_fact CSwitch v d;
  fact_coord : coord_fact c v d;
  fact_writer : writer_fact v d;
  fact_base : base_fact b v d;
}.

Definition handover (d : dv) (ls : list claim) : Prop :=
  exists c v b rest, ls = LC c :: LW v :: LB b :: rest /\ Forall (eq LO) rest /\ facts c v b d.

(** Which claim a thread has. *)
Lemma at_coord c d ls i :
  ls !! i = Some (LC c) -> handover d ls ->
  exists v b, facts c v b d /\
    forall c' d', facts c' v b d' -> handover d' (<[i := LC c']> ls).
Proof.
  intros Hi (c0 & v & b & rest & -> & Hrest & Hf). destruct i as [|[|[|i]]]; cbn in Hi; simplify_eq.
  - exists v, b. split; [done|]. intros c' d' Hf'. by exists c', v, b, rest.
  - by rewrite Forall_lookup in Hrest; apply Hrest in Hi.
Qed.

Lemma at_writer v d ls i :
  ls !! i = Some (LW v) -> handover d ls ->
  exists c b, facts c v b d /\
    forall v' d', facts c v' b d' -> handover d' (<[i := LW v']> ls).
Proof.
  intros Hi (c & v0 & b & rest & -> & Hrest & Hf). destruct i as [|[|[|i]]]; cbn in Hi; simplify_eq.
  - exists c, b. split; [done|]. intros v' d' Hf'. by exists c, v', b, rest.
  - by rewrite Forall_lookup in Hrest; apply Hrest in Hi.
Qed.

Lemma at_base b d ls i :
  ls !! i = Some (LB b) -> handover d ls ->
  exists c v, facts c v b d /\
    forall b' d', facts c v b' d' -> handover d' (<[i := LB b']> ls).
Proof.
  intros Hi (c & v & b0 & rest & -> & Hrest & Hf). destruct i as [|[|[|i]]]; cbn in Hi; simplify_eq.
  - exists c, v. split; [done|]. intros b' d' Hf'. by exists c, v, b', rest.
  - by rewrite Forall_lookup in Hrest; apply Hrest in Hi.
Qed.

(** ** Steps that keep it *)

(** Facts that are kept one by one. *)
Local Ltac by_parts := destruct_and?; split_and?; auto; destruct_or?; auto.

Lemma core_stands d d' : core d d' -> stands d' = stands d.
Proof. intros []. unfold stands. congruence. Qed.

Lemma core_lock_kept d d' : core d d' -> lock d -> lock d'.
Proof. intros [_ _ [] _]. unfold lock. congruence. Qed.

Lemma core_base b v d d' : core d d' -> base_fact b v d -> base_fact b v d'.
Proof.
  intros Hd. pose proof (core_lock_kept _ _ Hd). destruct Hd as [_ _ [_ E _ _] _].
  destruct b; cbn; rewrite ?E; intros; by_parts.
Qed.

Lemma core_coord c v d d' :
  core d d' -> unlocked (nvs d) -> v <> WGone -> coord_fact c v d -> coord_fact c v d'.
Proof.
  intros [Hn Hr _ _] Hu Hv. destruct c; cbn; [done|done|by intros []..|].
  intros Hh. destruct (host_reach (hw d')); [|done]. by rewrite <- Hh, Hr.
Qed.

(** What is common to the three kinds of steps. *)
Lemma core_facts c v b d d' :
  core d d' -> facts c v b d ->
  (host_reach (hw d') = true -> coord_fact CSwitch v d') -> coord_fact c v d' -> writer_fact v d' ->
  facts c v b d'.
Proof.
  intros Hd [Hu Hs Hb _ _ _ Hba] Hreach Hc Hw.
  pose proof (core_lock_kept _ _ Hd). pose proof (core_base b v _ _ Hd Hba).
  destruct Hd as [Hn _ [_ E _ Hbit] _]. destruct (Hn Hu) as [Hu' _].
  split; try done; [|auto]. rewrite E. auto.
Qed.

Lemma calm_facts c v b d d' : calm d d' -> facts c v b d -> facts c v b d'.
Proof.
  intros Hd Hf. destruct Hd as [[Hd [Er Ec]] [E1 E2]]. pose proof Hf as [Hu _ _ Hr Hc Hw _].
  assert (Hcoord : forall c, coord_fact c v d -> coord_fact c v d').
  { pose proof (core_stands _ _ Hd) as Es. destruct Hd as [Hn Hreach _ _].
    destruct (Hn Hu) as [_ Hun]. unfold coord_fact, requested, released.
    rewrite Es, E1, E2. intros [] Hc'; destruct_and?; split_and?; auto.
    destruct (host_reach (hw d')); [|done]. by rewrite <- Hc', Hreach. }
  apply (core_facts c v b d); [done|done| |by apply Hcoord|].
  { intros Hh. apply Hcoord, Hr. by apply Hd. }
  pose proof (core_stands _ _ Hd) as Es. pose proof (core_lock_kept _ _ Hd) as Hl.
  destruct Hd as [_ _ [_ _ Hfail _] Hnotes].
  destruct v; cbn in *; unfold log_closed in *; rewrite ?Es, ?Er, ?Hnotes; try solve [by_parts].
  destruct Hw as (Hlog & Hlk & Hst & Hh). rewrite (Ec Hlog). by_parts.
Qed.

Lemma tidy_facts c v b d d' : v <> WGone -> tidy d d' -> facts c v b d -> facts c v b d'.
Proof.
  intros Hv [Hd [Er _]] Hf. pose proof Hf as [Hu _ _ Hr Hc Hw _].
  apply (core_facts c v b d); [done|done| |by eapply core_coord|].
  { intros Hh. apply Hd in Hh. apply Hr in Hh. by destruct Hh. }
  pose proof (core_stands _ _ Hd) as Es. pose proof (core_lock_kept _ _ Hd) as Hl.
  destruct Hd as [_ _ [_ _ Hfail _] Hnotes].
  destruct v; cbn in *; unfold log_closed in *; rewrite ?Es, ?Er; try done; by_parts.
Qed.

(** The writer at work, or failed. *)
Definition at_work (v : writer_stage) : Prop := match v with WLive _ | WFailed => True | _ => False end.

Lemma work_facts c v b d d' : at_work v -> core d d' -> facts c v b d -> facts c v b d'.
Proof.
  intros Hv Hd Hf. pose proof Hf as [Hu _ _ Hr Hc Hw _].
  apply (core_facts c v b d); [done|done| |by eapply core_coord; [..|destruct v|]|].
  { intros Hh. apply Hd in Hh. apply Hr in Hh. by destruct v, Hh. }
  pose proof (core_stands _ _ Hd) as Es. pose proof (core_lock_kept _ _ Hd) as Hl.
  destruct Hd as [_ _ [_ _ Hfail _] Hnotes]. destruct v; cbn in *; try done; rewrite ?Es; by_parts.
Qed.

(** Programs of such steps. *)
Abbreviation ok := (ok handover).

Lemma ok_calm {A} (p : @prog dv A) l (Q : A -> claim -> Prop) :
  all_steps (fun X => along calm) p -> (forall a, Q a l) -> ok p l Q.
Proof.
  intros Hp HQ. apply ok_keep; [|done]. eapply all_steps_mono; [|exact Hp].
  intros X f Hf d ls (c & v & b & rest & -> & Hrest & Hfacts). exists c, v, b, rest.
  split_and!; [done..|]. by eapply calm_facts; [apply Hf|].
Qed.

Lemma ok_writer {A} (Rel : dv -> dv -> Prop) v (p : @prog dv A) (Q : A -> claim -> Prop) :
  (forall c b d d', Rel d d' -> facts c v b d -> facts c v b d') ->
  all_steps (fun X => along Rel) p -> (forall a, Q a (LW v)) -> ok p (LW v) Q.
Proof.
  intros HR Hp HQ. eapply ok_mono; [instantiate (1 := fun _ l => l = LW v)|by intros a l ->]. clear HQ Q.
  induction p as [A a|X A f k IH|S B A body IHb s k IHk]; [done|..]; destruct Hp as [Hp1 Hp2].
  - intros flip d ls i Hi Hd. destruct (at_writer _ _ _ _ Hi Hd) as (c & b & Hf & Hset).
    exists (LW v). split; [|apply IH, Hp2]. apply Hset. eapply HR; [apply Hp1|done].
  - exists (fun _ l => l = LW v), (fun _ l => l = LW v). split_and!; [done|..].
    + intros s' l ->. eapply ok_mono; [apply IHb, Hp1|]. by intros [s2|b] l ->.
    + intros b l ->. apply IHk, Hp2.
Qed.

(** ** The steps of the functions *)

#[local] Arguments Z.testbit : simpl never.
#[local] Arguments Z.lor : simpl never.
#[local] Arguments Z.ldiff : simpl never.

Abbreviation calmly p := (all_steps (fun X => along calm) p).
Abbreviation tidily p := (all_steps (fun X => along tidy) p).
Abbreviation corely p := (all_steps (fun X => along core) p).

Lemma calmly_tidily {A} (p : @prog dv A) : calmly p -> tidily p.
Proof. apply all_steps_mono. intros X f. apply along_sub, calm_tidy. Qed.

Lemma tidily_corely {A} (p : @prog dv A) : tidily p -> corely p.
Proof. apply all_steps_mono. intros X f. apply along_sub, tidy_core. Qed.

Lemma rec_core_calm r r' :
  rec_core r r' -> s_state_events_ready r' = s_state_events_ready r -> card r' = card r -> rec_calm r r'.
Proof. intros. by split; [|split]. Qed.

Lemma rec_calm_same r r' :
  s_state_lock r' = s_state_lock r -> spawned r' = spawned r -> s_rec_state r' = s_rec_state r ->
  s_rec_events r' = s_rec_events r -> s_state_events_ready r' = s_state_events_ready r ->
  card r' = card r -> rec_calm r r'.
Proof.
  intros E1 E2 E3 E4 E5 E6. repeat split; unfold failed, finalized_bit; congruence.
Qed.

Lemma rec_calm_or bits : Z.testbit bits 4 = false ->
  along rec_calm (modify (fun r => set_rec_events ((fun b => Z.lor b bits) <$> s_rec_events r) r)).
Proof.
  intros Hb r. apply rec_core_calm; [|done..]. split; [done..|]. unfold finalized_bit. cbn.
  destruct (s_rec_events r); cbn; [|done]. by rewrite Z.lor_spec, Hb, orb_false_r.
Qed.

Lemma rec_calm_andnot bits :
  along rec_calm (modify (fun r => set_rec_events ((fun b => Z.ldiff b bits) <$> s_rec_events r) r)).
Proof.
  intros r. apply rec_core_calm; [|done..]. split; [done..|]. unfold finalized_bit. cbn.
  destruct (s_rec_events r); cbn; [|done]. rewrite Z.ldiff_spec. by intros [? _]%andb_prop.
Qed.

Lemma transition_from_failed m next r :
  state m = RECORDER_STATE_ERROR -> recorder_state_transition m next r = (false, m).
Proof.
  intros Hm. unfold recorder_state_transition, recorder_state_transition_allowed.
  by rewrite Hm, bool_decide_eq_true_2.
Qed.

Lemma transition_to_failed m r :
  state (recorder_state_transition m RECORDER_STATE_ERROR r).2 = RECORDER_STATE_ERROR.
Proof.
  unfold recorder_state_transition, recorder_state_transition_allowed. by destruct (state m) eqn:E.
Qed.

Lemma calm_device d r p :
  rec_calm (rcd d) r ->
  calm d (Device (sd d) (hw d) (usbs d) r p (link d) (wakeup d) (history d)).
Proof. intros [H1' H2']. by split; [split|]. Qed.

(** The critical section of a transition: a failure stays, and a transition to
    ERROR is one. *)
Lemma transition_locked_spec next reason mv d :
  let d' := (transition_locked next reason mv d : transition_outcome * dv).2 in
  calm d d' /\ (next = RECORDER_STATE_ERROR -> failed (rcd d')).
Proof.
  unfold transition_locked, append_state_event, on_card, bind, get, modify, ret. cbn.
  unfold dv_rec, dv_dev. cbn.
  assert (Hfrom : forall ok c, recorder_state_transition (s_rec_state (rcd d)) next reason = (ok, c) ->
    (failed (rcd d) -> ok = false) /\
    (next = RECORDER_STATE_ERROR -> if ok then state c = RECORDER_STATE_ERROR else failed (rcd d))).
  { intros ok c E. split.
    - intros Hf. rewrite (transition_from_failed _ _ _ Hf) in E. by injection E.
    - intros ->. pose proof (transition_to_failed (s_rec_state (rcd d)) reason) as Ht. rewrite E in Ht.
      unfold recorder_state_transition in E. unfold failed. destruct ok; [done|].
      by destruct (negb _); [|destruct (negb _)]; simplify_eq. }
  destruct (recorder_state_transition (s_rec_state (rcd d)) next reason) as [ok c].
  destruct (Hfrom ok c eq_refl) as [Hf He]. clear Hfrom.
  destruct (0 <? mv); cbn; destruct ok; cbn;
    try destruct (negb _ && _) eqn:Eready; cbn;
    try destruct (recorder_current_iso8601 (devices d)) as [t p]; cbn;
    try destruct (recorder_state_append_event _ _ _ _ _ _ _) as [[] crd]; cbn;
    (split; [apply calm_device; split; split; cbn; try done|]).
  all: try (intros Er; by rewrite Er, andb_false_r in Eready).
  all: unfold failed in *; cbn; auto using transition_to_failed.
  all: by intros ?%Hf.
Qed.

Lemma transition_calm next reason mv :
  along calm (transition_locked next reason mv : st dv transition_outcome).
Proof. intros d. apply transition_locked_spec. Qed.

(** A step on a part of the device. *)
Ltac sd_step :=
  solve [apply along_get, _
        |intros ?; split; cbn; rewrite ?fn_lookup_insert_ne by done; first [done | by repeat case_match]].
Ltac rec_step :=
  solve [apply along_get, _ | by intros ?; apply rec_calm_same
        |apply rec_calm_or; reflexivity | apply rec_calm_andnot | eauto with rec_steps nocore].
Ltac along_step :=
  lazymatch goal with
  | |- along _ (transition_locked _ _ _) => apply transition_calm
  | |- along _ (on_usb _) => apply calm_usb
  | |- along _ (on_history _) => apply calm_history
  | |- along _ (on_rec_history (MicRead _)) => apply calm_heard
  | |- along _ (on_answer_sent _) => apply calm_history
  | |- along _ (on_dev _) => apply calm_dev
  | |- along _ (on_cdc _) => apply calm_cdc
  | |- along _ (on_cdc_platform _) => apply calm_cdc_platform
  | |- along _ (on_hw _) => apply calm_hw; solve [eauto with reach]
  | |- along _ (on_sd _) => apply calm_sd; sd_step
  | |- along _ (on_rec _) => apply calm_rec; rec_step
  | |- along _ (on_nvs _) => apply calm_nvs; solve [eauto with settings]
  | |- along _ (on_wake _) => apply calm_wake; solve [eauto with settings]
  | |- along _ (bind _ _) => apply along_bind; [exact _| |intros ?]
  | |- along _ (ret _) => apply along_ret, _
  | |- along _ (match ?x with _ => _ end) => destruct x
  end.
Ltac steps_leaf :=
  first
  [ solve [eauto with steps nocore]
  | unfold_leaf ltac:(fun _ => repeat along_step) ].
Ltac by_steps := walk steps_leaf.

Create HintDb steps discriminated.
Create HintDb tidy_steps discriminated.
Create HintDb core_steps discriminated.
Create HintDb reach discriminated.
Create HintDb settings discriminated.
Create HintDb rec_steps discriminated.

#[local] Hint Resolve spi_bus_initialize_reach spi_bus_free_reach sdspi_host_init_reach
  sdspi_host_deinit_reach sdspi_host_init_device_reach sdspi_host_remove_device_reach
  sdmmc_card_init_reach make_directory_reach install_driver_reach uninstall_driver_reach
  new_storage_reach delete_storage_reach set_callback_reach event_group_create_reach
  driver_install_reach driver_uninstall_reach tud_connect_reach tud_disconnect_reach
  set_sense_reach real_test_unit_ready_reach real_capacity_reach real_read10_reach
  real_write10_reach real_start_stop_reach : reach.

(** *** [usb_msc_ownership.c] *)

Lemma write_trace_elsewhere entries :
  Forall (fun kv => kv.1 <> k_key) entries -> elsewhere (write_trace (N:=N) entries).
Proof.
  induction 1 as [|[key v] entries Hk _ IH]; cbn; [apply elsewhere_ret|].
  apply elsewhere_bind; [apply elsewhere_set; intros [= ?]; done|]. intros r.
  destruct (is_ok r); [done|apply elsewhere_ret].
Qed.

Lemma trace_calm seen :
  along nvs_calm (nvs_transaction k_namespace (write_trace (N:=N) (trace_entries seen))).
Proof.
  apply transaction_calm, write_trace_elsewhere. unfold trace_entries, trace_keys. cbn [map].
  repeat (apply Forall_cons; split; [by vm_compute|]). by apply Forall_nil.
Qed.
#[local] Hint Resolve trace_calm : settings.

Lemma mark_unresolved_calm : along nvs_calm (shutdown_armed_mark_host_unresolved (N:=N)).
Proof. by apply (op_calm MarkHostUnresolved). Qed.
#[local] Hint Resolve mark_unresolved_calm : settings.

Lemma steps_read_trace vars : forall seen, calmly (read_trace vars seen).
Proof. induction vars as [|v vars IH]; intros seen; cbn [read_trace]; by_steps. Qed.
#[local] Hint Resolve steps_read_trace : steps.

(** *** [usb_cdc_protocol.c] *)

Lemma steps_gate_call {X} (p : @prog SessionGate.gate_world X) : calmly (gate_call p).
Proof.
  apply all_steps_lift. intros Y f d. unfold on_session_gate, on_cdc. cbn. unfold dv_cdc.
  by destruct (f (s_session_gate (link d))).
Qed.
#[local] Hint Resolve steps_gate_call : steps.

(** *** [main.c], as every task uses it *)

Lemma steps_transition_state next reason mv : calmly (recorder_transition_state next reason mv).
Proof. unfold recorder_transition_state. by_steps. Qed.
#[local] Hint Resolve steps_transition_state : steps.

Lemma steps_enter_error reason : calmly (recorder_enter_error reason).
Proof. unfold recorder_enter_error. by_steps. Qed.
#[local] Hint Resolve steps_enter_error : steps.

Lemma spawn_calm t : t <> rec_writer -> along rec_calm (modify (set_spawned t)).
Proof.
  intros Ht r. apply rec_core_calm; [|done..]. split; cbn; rewrite ?fn_lookup_insert_ne by done; done.
Qed.
#[local] Hint Resolve spawn_calm : rec_steps.
#[local] Hint Extern 1 (_ <> rec_writer) => discriminate : rec_steps.

Lemma store_read_calm stalled snap got : along rec_calm (store_read stalled snap got).
Proof. intros r. unfold store_read. case_match. by apply rec_calm_same. Qed.
#[local] Hint Resolve store_read_calm : rec_steps.

(** *** [task49_runtime.c] and [task87_wake_recovery.c] *)

Lemma nvs_init_calm : along nvs_calm (recorder_nvs_init (N:=N)).
Proof.
  intros e Hu. apply (wp_recorder_nvs_init e (fun _ e' => unlocked e' /\ (unresolved e -> unresolved e'))); [done|].
  intros r e' He Hu' _. by apply same_calm.
Qed.

Lemma boot_action_calm m : along nvs_calm (shutdown_armed_boot_action (N:=N) m).
Proof.
  intros e Hu. apply (wp_boot_action m e (fun _ e' => unlocked e' /\ (unresolved e -> unresolved e'))); [done|].
  intros r a e' He Hu' _. by apply same_calm.
Qed.

Lemma rtc_kept_calm {X} (m : st (R * nvs_env N) X) :
  (forall r e, unlocked e -> lifecycle_kept e (m (r, e)).2.2) -> along wake_calm (on_rtc m).
Proof.
  intros Hm w. unfold on_rtc, wake_calm. specialize (Hm (rtc_part w) (WakeRecovery.settings w)).
  apply kept_calm in Hm. by destruct (m _) as [x [r e]].
Qed.

Lemma rtc_calm_init : along wake_calm (on_rtc (rtc_service_init (R:=R) (N:=N))).
Proof. apply rtc_kept_calm, rtc_init_kept. Qed.
Lemma rtc_calm_pending : along wake_calm (on_rtc (rtc_service_is_pending (R:=R) (N:=N))).
Proof. apply rtc_kept_calm, rtc_pending_kept. Qed.
Lemma rtc_calm_apply req : along wake_calm (on_rtc (rtc_service_apply (R:=R) (N:=N) req)).
Proof. apply rtc_kept_calm, rtc_apply_kept. Qed.

#[local] Instance wake_calm_preorder : PreOrder wake_calm.
Proof. split; unfold wake_calm; [by intros w|]. intros w1 w2 w3. by etransitivity. Qed.

Lemma wake_calm_settings {X} (m : st (nvs_env N) X) :
  along nvs_calm m -> along wake_calm (on_settings (R:=R) m).
Proof.
  intros Hm w. unfold on_settings, wake_calm. specialize (Hm (WakeRecovery.settings w)).
  by destruct (m _).
Qed.

Lemma wake_calm_modify f : (forall w, WakeRecovery.settings (f w) = WakeRecovery.settings w) ->
  along wake_calm (modify f).
Proof. intros Hf w. unfold wake_calm. cbn. by rewrite Hf. Qed.

Lemma note_started_calm b : along wake_calm (task87_wake_recovery_note_recording_started (R:=R) (N:=N) b).
Proof.
  unfold task87_wake_recovery_note_recording_started. pose proof (op_calm CompleteWakeRecovery) as Hop.
  repeat first [apply along_bind; [exact _|..|intros ?] | apply along_ret, _ | apply along_get, _
    | by apply wake_calm_settings, Hop | by apply wake_calm_modify | case_match].
Qed.

Lemma complete_recovery_calm path :
  along wake_calm (task87_wake_recovery_complete_device_recovery (R:=R) (N:=N) path).
Proof.
  unfold task87_wake_recovery_complete_device_recovery. pose proof (op_calm MarkWakeRecoveryPending) as Hop.
  apply along_bind; [exact _|apply along_get, _|intros c]. case_match; [apply along_ret, _|].
  apply along_bind; [exact _| |intros err].
  { destruct flush_pending_event as [f|] eqn:Hf; [|apply along_ret, _].
    apply rtc_kept_calm. intros r e Hu. by apply flush_keeps_lifecycle. }
  repeat first [apply along_bind; [exact _|..|intros ?] | apply along_ret, _ | apply along_get, _
    | by apply wake_calm_settings, Hop | by apply wake_calm_modify | case_match].
Qed.

Lemma wake_calm_init b : along wake_calm (task87_wake_recovery_init (R:=R) (N:=N) b).
Proof. by apply wake_calm_modify. Qed.
Lemma wake_calm_pending : along wake_calm (task87_wake_recovery_pending (R:=R) (N:=N)).
Proof. apply along_get, _. Qed.
Lemma wake_calm_required : along wake_calm (task87_wake_recovery_requires_shutdown (R:=R) (N:=N)).
Proof. apply along_get, _. Qed.
Lemma wake_calm_allowed : along wake_calm (task87_wake_recovery_usb_rearm_allowed (R:=R) (N:=N)).
Proof. apply along_get, _. Qed.

#[local] Hint Resolve nvs_init_calm boot_action_calm rtc_calm_init rtc_calm_pending rtc_calm_apply
  note_started_calm complete_recovery_calm wake_calm_init wake_calm_pending wake_calm_required
  wake_calm_allowed : settings.

(** ** The writer *)

Ltac tidy_leaf :=
  first
  [ solve [eauto with tidy_steps nocore]
  | solve [apply calmly_tidily; eauto with steps nocore]
  | unfold_leaf ltac:(fun _ => first [apply tidy_sd | apply (along_sub _ _ _ calm_tidy); repeat along_step]) ].
Ltac by_tidy_steps := walk tidy_leaf.

Lemma tidy_unmount : tidily sd_mount_unmount.
Proof. unfold sd_mount_unmount, unmount_driver, sd_mount_raw_cleanup. by_tidy_steps. Qed.

Lemma tidy_dirs : tidily ensure_recording_dirs.
Proof. unfold ensure_recording_dirs, dir_there. by_tidy_steps. Qed.

#[local] Hint Resolve tidy_unmount tidy_dirs : tidy_steps.

Lemma tidy_mount : tidily sd_mount_recordings.
Proof.
  unfold sd_mount_recordings, mount_storage, sd_mount_install_msc_driver, sd_mount_create_storage,
    sd_mount_raw_cleanup. by_tidy_steps.
Qed.

Lemma tidy_date_dir date : tidily (sd_mount_ensure_date_dir date).
Proof. unfold sd_mount_ensure_date_dir, fs_not_ours, dir_there. by_tidy_steps. Qed.

Lemma tidy_quarantine_dir : tidily sd_mount_ensure_quarantine_dir.
Proof. unfold sd_mount_ensure_quarantine_dir, fs_not_ours, dir_there. by_tidy_steps. Qed.

#[local] Hint Resolve tidy_mount tidy_date_dir tidy_quarantine_dir : tidy_steps.

Lemma core_card {X} (m : io X) : along rec_core (on_card m).
Proof. intros r. unfold on_card. by destruct (m (card r)). Qed.

Lemma core_same r r' :
  s_state_lock r' = s_state_lock r -> spawned r' = spawned r -> s_rec_state r' = s_rec_state r ->
  s_rec_events r' = s_rec_events r -> rec_core r r'.
Proof. intros E1 E2 E3 E4. split; unfold failed, finalized_bit; congruence. Qed.

Ltac core_leaf :=
  first
  [ solve [eauto with core_steps nocore]
  | solve [apply tidily_corely; eauto with tidy_steps nocore]
  | solve [apply tidily_corely, calmly_tidily; eauto with steps nocore]
  | unfold_leaf ltac:(fun _ => first
      [ apply core_rec; solve [apply core_card | intros ?; apply core_card | by intros ?; apply core_same
                              | by intros ?; case_match; apply core_same]
      | apply (along_sub _ _ _ tidy_core), (along_sub _ _ _ calm_tidy); repeat along_step ]) ].
Ltac by_core_steps := walk core_leaf.

Lemma core_record_wav path id started st_ : corely (recorder_manifest_record_wav path id started st_).
Proof. unfold recorder_manifest_record_wav. by_core_steps. Qed.

Lemma core_write_slot k i t0 t1 : corely (write_slot k i t0 t1).
Proof.
  split; [|done]. intros _ d. unfold bind, get. cbn. unfold dv_rec. cbn.
  pose proof (core_card (WavPart.sd_pcm_sink_write_chunk k (take (Z.to_nat RecorderConfig.RECORDER_BUFFER_BYTES)
    (PcmPipeline.data (PcmPipeline.slot (s_pipeline (rcd d)) i))) t0 t1) (rcd d)) as Hr.
  destruct (on_card _ _) as [[ok k'] r]. by split.
Qed.

Lemma core_admit : corely recorder_can_admit_segment.
Proof. unfold recorder_can_admit_segment. by_core_steps. Qed.

#[local] Hint Resolve core_record_wav core_write_slot core_admit : core_steps.

Lemma core_recover id : corely (writer_recover id).
Proof. unfold writer_recover, recorder_task87_manifest_sync_wav_dir. by_core_steps. Qed.

#[local] Hint Resolve core_recover : core_steps.

Context (nvs_random : st N Z) (random_harmless : harmless nvs_random).

Lemma device_id_elsewhere : elsewhere (device_identity_ensure_device_id nvs_random).
Proof.
  unfold device_identity_ensure_device_id, create_device_id, random16.
  repeat first
    [ apply elsewhere_bind; [|intros ?] | apply elsewhere_ret
    | apply elsewhere_set; discriminate | apply elsewhere_commit
    | apply harmless_elsewhere; first [exact random_harmless | apply flash_init_harmless
        | apply open_harmless | apply get_blob_harmless] | case_match ].
Qed.

Lemma core_identify : corely (writer_identify nvs_random).
Proof.
  pose proof (platform_calm _ device_id_elsewhere) as Hid.
  unfold writer_identify, recorder_ensure_manifest_exists. by_core_steps.
Qed.

#[local] Hint Resolve core_identify : core_steps.

(** Steps of a writer at work keep its claim. *)
Lemma ok_work {A} v (p : @prog dv A) (Q : A -> claim -> Prop) :
  at_work v -> corely p -> (forall a, Q a (LW v)) -> ok p (LW v) Q.
Proof. intros Hv. apply ok_writer. intros c b d d'. by apply work_facts. Qed.

Lemma ok_tidy {A} v (p : @prog dv A) (Q : A -> claim -> Prop) :
  v <> WGone -> tidily p -> (forall a, Q a (LW v)) -> ok p (LW v) Q.
Proof. intros Hv. apply ok_writer. intros c b d d'. by apply tidy_facts. Qed.

(** A note of a writer at work. *)
Definition after_note (n : rec_note) (v : writer_stage) : writer_stage :=
  match v with WLive s => WLive (advance n s) | v => v end.

Lemma note_facts c v b d n :
  at_work v -> facts c v b d -> facts c (after_note n v) b (on_rec_history n d : unit * dv).2.
Proof.
  intros Hv [Hu Hs Hb Hr Hc Hw Hba]. destruct v as [| |s| | |]; try done.
  - destruct Hw as [Hst Hl]. split; cbn; try done.
    + intros Hf. by apply Hb in Hf.
    + intros Hf. by apply Hr in Hf as [? _].
    + by destruct c; cbn in *; destruct_and?.
    + split; [|done]. unfold stands in *. cbn. rewrite <- Hst. by destruct n.
    + by destruct b; cbn in *; destruct_and?.
  - split; cbn; try done.
    + intros Hf. by apply Hr in Hf as [? _].
    + by destruct c; cbn in *; destruct_and?.
Qed.

(** One step of the writer. *)
Lemma ok_writer_step {X A} (m : st dv X) (k : X -> @prog dv A) v (Q : A -> claim -> Prop) :
  (forall c b d, facts c v b d -> exists v', facts c v' b (m d).2 /\ ok (k (m d).1) (LW v') Q) ->
  ok (Atomic (fun _ => m) k) (LW v) Q.
Proof.
  intros Hm flip d ls i Hi Hd. destruct (at_writer _ _ _ _ Hi Hd) as (c & b & Hf & Hset).
  destruct (Hm c b d Hf) as (v' & Hf' & Hk). exists (LW v'). split; [by apply Hset|done].
Qed.

Lemma ok_note n v (Q : unit -> claim -> Prop) :
  at_work v -> Q tt (LW (after_note n v)) -> ok (rec_note_step n) (LW v) Q.
Proof.
  intros Hv HQ. apply ok_writer_step. intros c b d Hf. exists (after_note n v).
  split; [by apply note_facts|done].
Qed.

Lemma ok_files_note (n : disk -> rec_note) n0 v (Q : unit -> claim -> Prop) :
  at_work v -> (forall files s, advance (n files) s = advance n0 s) ->
  Q tt (LW (after_note n0 v)) -> ok (files_note_step n) (LW v) Q.
Proof.
  intros Hv Hn HQ. apply ok_writer_step. intros c b d Hf. exists (after_note n0 v). split; [|done].
  pose proof (note_facts c v b d (n (w_disk (card (rcd d)))) Hv Hf) as Hf'.
  replace (after_note n0 v) with (after_note (n (w_disk (card (rcd d)))) v); [by destruct d|].
  destruct v; cbn; [..|done|done|done]; by rewrite ?Hn.
Qed.

(** The reported error: the machine is in ERROR. *)
Lemma fail_facts c v b d d' :
  at_work v -> calm d d' -> failed (rcd d') -> facts c v b d -> facts c WFailed b d'.
Proof.
  intros Hv Hd Hfail Hf. apply (calm_facts _ _ _ _ _ Hd) in Hf as [Hu Hs Hb Hr Hc Hw Hba].
  split; try done.
  - intros Hf. apply Hb in Hf. by subst.
  - intros Hf. apply Hr in Hf as [-> _]. done.
  - destruct c; cbn in *; destruct_and?; by subst.
  - split; [|done]. by destruct v; cbn in *; destruct_and?.
  - destruct b; cbn in *; destruct_and?; by subst.
Qed.

(** Behind the test of the lock. *)
Lemma locked_transition (m : st dv transition_outcome) d :
  lock d ->
  (let* lock := on_rec (get s_state_lock) in
   if negb lock then ret None else let* o := m in ret (Some o)) d = (Some (m d).1, (m d).2).
Proof.
  intros Hl. unfold lock in Hl. unfold bind. cbn. unfold dv_rec, get. cbn. rewrite Hl. cbn.
  destruct d. cbn. by destruct (m _).
Qed.

(** A writer at work that reports an error has failed. *)
Lemma ok_fail reason v (Q : unit -> claim -> Prop) :
  at_work v -> Q tt (LW WFailed) -> ok (recorder_enter_error reason) (LW v) Q.
Proof.
  intros Hv HQ. apply ok_bind, ok_bind, ok_writer_step. intros c b d Hf. exists WFailed.
  assert (Hlock : lock d) by (destruct v, Hf; cbn in *; by destruct_and?).
  rewrite locked_transition by done.
  destruct (transition_locked_spec RECORDER_STATE_ERROR reason 0 d) as [Hcalm Hfail]. split.
  - by eapply fail_facts; [| |apply Hfail|].
  - cbn [fst snd ok]. apply ok_calm; [by_steps|]. intros ok0. apply ok_calm; [by_steps|by intros []].
Qed.

(** *** The segments *)

Definition working (l : claim) : Prop := exists v, l = LW v /\ at_work v.
(** All segments recorded, or failed. *)
Definition clean_claim (l : claim) : Prop := l = LW (WLive Clean) \/ l = LW WFailed.
(** The segment of [g] open, or failed. *)
Definition open_claim (g : segment) (l : claim) : Prop :=
  l = LW (WLive (Open (seg_wav g))) \/ l = LW WFailed.
Definition final_claim (g : segment) (l : claim) : Prop :=
  l = LW (WLive (Final (seg_wav g))) \/ clean_claim l.

Lemma clean_works l : clean_claim l -> working l.
Proof. intros [-> | ->]; by eexists. Qed.

Lemma open_works g l : open_claim g l -> working l.
Proof. intros [-> | ->]; by eexists. Qed.

Lemma final_works g l : final_claim g l -> working l.
Proof. intros [-> | Hl]; [by eexists|by apply clean_works]. Qed.

(** A call of a writer at work, then the rest. *)
Lemma ok_call {A B} (p : @prog dv A) (k : A -> @prog dv B) l (Q : B -> claim -> Prop) :
  working l -> corely p -> (forall a, ok (k a) l Q) -> ok (pbind p k) l Q.
Proof. intros (v & -> & Hv) Hp Hk. apply ok_bind. by apply ok_work. Qed.

Lemma ok_report {B} reason (k : unit -> @prog dv B) l (Q : B -> claim -> Prop) :
  working l -> ok (k tt) (LW WFailed) Q -> ok (pbind (recorder_enter_error reason) k) l Q.
Proof. intros (v & -> & Hv) Hk. apply ok_bind. by apply ok_fail. Qed.

Ltac call_step := apply ok_call; [done|by_core_steps|intros ?]; cbn beta zeta.

Lemma ok_finalize g l :
  open_claim g l \/ clean_claim l ->
  ok (finalize_segment g) l (fun r l' => seg_wav r.2 = seg_wav g /\
    if r.1 then final_claim g l' else working l').
Proof.
  intros Hl. assert (Hw : working l) by (destruct Hl; eauto using open_works, clean_works).
  unfold finalize_segment. call_step. destruct a as [[[] t] k]; cbn [when].
  - apply ok_bind. destruct Hl as [[-> | ->]|[-> | ->]]; (apply (ok_files_note _ (SegmentFinalized (seg_wav g) ∅)); [done..|]; cbn; split; [done|]).
    + rewrite decide_True by done. by left.
    + by right; right.
    + by right; left.
    + by right; right.
  - done.
Qed.

Lemma ok_record g l :
  final_claim g l ->
  ok (record_segment g) l (fun r l' => if r then clean_claim l' else working l').
Proof.
  intros Hl. assert (Hw : working l) by eauto using final_works.
  unfold record_segment. call_step. call_step. destruct a0; cbn [when]; [|done].
  apply ok_bind. destruct Hl as [-> |[-> | ->]]; (apply ok_note; [done|]; cbn).
  - rewrite decide_True by done. by left.
  - by left.
  - by right.
Qed.

Lemma ok_finish g l :
  open_claim g l \/ clean_claim l ->
  ok (finish_segment g) l (fun r l' => seg_wav r.1 = seg_wav g /\
    match r.2 with None => clean_claim l' | Some _ => working l' end).
Proof.
  intros Hl. unfold finish_segment. apply ok_bind. eapply ok_mono; [by apply ok_finalize|].
  intros [[] g'] l' [Hg Hl']; cbn [fst snd negb] in *.
  - apply ok_bind. eapply ok_mono; [apply ok_record; unfold final_claim; by rewrite Hg|].
    intros [] l2 Hl2; cbn [negb]; [by split|]. unfold note_sd_error. by call_step.
  - unfold note_sd_error. by call_step.
Qed.

Lemma ok_open date time6 g l :
  clean_claim l ->
  ok (open_segment date time6 g) l (fun r l' =>
    match r.2 with None => open_claim r.1 l' | Some _ => clean_claim l' end).
Proof.
  intros Hl. assert (Hw : working l) by by apply clean_works.
  unfold open_segment. call_step. destruct a as [id|]; [|done].
  destruct (recorder_iso8601_from_parts _ _) as [started|]; [|done]. call_step.
  destruct (WavRotation.wav_rotation_build_part_path _ _ _ _) as [part|]; [|done].
  destruct (WavRotation.wav_rotation_build_wav_path _ _ _ _) as [wav|]; [|done]. call_step.
  destruct (is_ok a0); [cbn [negb]|done]. call_step. destruct a1; [cbn [negb]|done]. call_step.
  destruct a1 as [[] k]; [cbn [negb]|done]. apply ok_bind.
  destruct Hl as [-> | ->]; (apply (ok_files_note _ (SegmentOpened wav ∅)); [done..|]); cbn [after_note advance].
  - apply ok_call; [by eexists|by_core_steps|]. intros tick. by left.
  - apply ok_call; [by eexists|by_core_steps|]. intros tick. by right.
Qed.

Lemma ok_drain_pass g l :
  working l ->
  ok (drain_pass g) l (fun r l' => l' = l /\
    match r with inl g' | inr (g', _) => seg_wav g' = seg_wav g end).
Proof.
  intros Hw. unfold drain_pass. call_step. destruct a as [i|]; [|done].
  do 3 call_step. destruct a1 as [[] k]; cbn [negb].
  - unfold on_pipeline. call_step. destruct (_ <? _); [done|]. call_step.
    destruct a2 as [[] k2]; cbn [negb]; [done|]. unfold note_sd_error, on_pipeline. by do 2 call_step.
  - unfold note_sd_error, on_pipeline. by do 2 call_step.
Qed.

Lemma ok_rotate g l :
  open_claim g l ->
  ok (rotate_if_due g) l (fun r l' => open_claim r.1 l' \/ (r.2 = false /\ clean_claim l')).
Proof.
  intros Hl. assert (Hw : working l) by by eapply open_works.
  assert (Hdue : ok (finished <- finish_segment g;
      match finished with
      | (g, Some reason) => recorder_enter_error reason ;;' Done (g, false)
      | (g, None) =>
        now <- dev recorder_current_date_time;
        opened <- open_segment now.1 now.2 g;
        match opened with
        | (g, Some reason) => recorder_enter_error reason ;;' Done (g, false)
        | (g, None) => Done (g, true)
        end
      end) l (fun r l' => open_claim r.1 l' \/ (r.2 = false /\ clean_claim l'))).
  { apply ok_bind. eapply ok_mono; [apply ok_finish; by left|].
    intros [g' [reason|]] l' [Hg Hl']; cbn [fst snd] in *.
    - apply ok_report; [done|]. right. split; [done|by right].
    - assert (Hw' : working l') by by apply clean_works. call_step.
      apply ok_bind. eapply ok_mono; [by apply ok_open|].
      intros [g2 [reason|]] l2 Hl2; cbn [fst snd] in *; [|by left].
      apply ok_report; [by apply clean_works|]. right. split; [done|by right]. }
  unfold rotate_if_due. call_step. call_step.
  destruct (WavRotation.wav_rotation_should_rotate _ _ _ _); try (by left); exact Hdue.
Qed.

Lemma ok_writer_pass g l :
  open_claim g l ->
  ok (writer_pass g) l (fun r l' =>
    match r with inl g' => open_claim g' l' | inr g' => open_claim g' l' \/ clean_claim l' end).
Proof.
  intros Hl. assert (Hw : working l) by by eapply open_works.
  assert (Hmove : forall g', seg_wav g' = seg_wav g -> open_claim g' l)
    by (unfold open_claim; intros g' ->; done).
  unfold writer_pass. apply ok_call; [done| |intros _].
  { split; [intros _|done]. apply (along_sub _ _ _ tidy_core), (along_sub _ _ _ calm_tidy).
    repeat along_step. }
  exists (fun g' l' => l' = l /\ seg_wav g' = seg_wav g), (fun r l' => l' = l /\ seg_wav r.1 = seg_wav g).
  split_and!; [done|done| |].
  - intros g' l' [-> Hg]. eapply ok_mono; [by apply ok_drain_pass|].
    intros [g2|[g2 b]] l' [-> Hg2]; cbn; (split; [done|congruence]).
  - intros [g' running] l' [-> Hg]. cbn [fst] in Hg. call_step. destruct a; [left; by apply Hmove|].
    apply ok_bind. eapply ok_mono; [by apply ok_rotate, Hmove|].
    intros [g2 running'] l2 Hl2. cbn [fst snd] in Hl2.
    assert (Hw2 : working l2) by (destruct Hl2 as [?|[_ ?]]; eauto using open_works, clean_works).
    destruct running'; cbn [negb].
    + destruct Hl2 as [Hl2|[? _]]; [|done]. call_step. destruct (a || _); [by left|done].
    + destruct Hl2 as [Hl2|[_ Hl2]]; [by left|by right].
Qed.

(** *** Its end and its beginning *)

Definition clean_or_failed (v : writer_stage) : Prop := v = WLive Clean \/ v = WFailed.

(** Closing the log ends the work. *)
Lemma close_facts c v b d :
  clean_or_failed v -> facts c v b d ->
  facts c WQuiet b (on_rec (modify (fun r => if s_state_lock r then set_events_ready false r else r)) d : unit * dv).2.
Proof.
  intros Hv [Hu Hs Hb Hr Hc Hw Hba]. assert (Hl : s_state_lock (rcd d) = true).
  { by destruct Hv as [-> | ->], Hw. }
  cbn. unfold dv_rec, modify. rewrite Hl. split; cbn; try done.
  - intros Hf. apply Hb in Hf as ->. by destruct Hv.
  - intros Hf. apply Hr in Hf as [-> _]. by destruct Hv.
  - destruct c; cbn in *; destruct_and?; try done; subst; by destruct Hv.
  - split_and!; [done..|]. destruct Hv as [-> | ->], Hw; auto.
  - destruct b; cbn in *; destruct_and?; try done; subst; by destruct Hv.
Qed.

(** The last step before the deletion hook. *)
Lemma gone_facts c v b d :
  v = WBorn \/ v = WQuiet -> facts c v b d ->
  facts c WGone b ((let* c := on_rec (get card) in on_rec_history (WriterGone c)) d : unit * dv).2.
Proof.
  intros Hv [Hu Hs Hb Hr Hc Hw Hba]. assert (Hg : v <> WGone) by (by destruct Hv as [-> | ->]).
  split; cbn; try done.
  - intros Hf. by apply Hr in Hf as [? _].
  - destruct c; cbn in *; destruct_and?; try done.
  - destruct Hv as [-> | ->]; cbn in Hw; destruct_and?; split_and!; try done; by left.
  - destruct b; cbn in *; destruct_and?; try done; subst; by destruct Hv.
Qed.

Lemma ok_gone v (Q : unit -> claim -> Prop) :
  v = WBorn \/ v = WQuiet -> (forall l, Q tt l) ->
  ok (writer_gone ;;' recorder_task49_delete rec_writer) (LW v) Q.
Proof.
  intros Hv HQ. apply ok_writer_step. intros c b d Hf. exists WGone. split; [by eapply gone_facts|].
  apply ok_writer_step. intros c2 b2 d2 Hf2. exists WGone. split; [|apply HQ].
  destruct Hf2 as [Hu Hs _ Hr Hc Hw Hba]. by split.
Qed.

Lemma ok_quiet v (Q : unit -> claim -> Prop) :
  clean_or_failed v -> (forall l, Q tt l) ->
  ok (recorder_set_events_ready false ;;' sd_mount_unmount ;;' writer_gone ;;'
      recorder_task49_delete rec_writer) (LW v) Q.
Proof.
  intros Hv HQ. apply ok_writer_step. intros c b d Hf. exists WQuiet. split; [by eapply close_facts|].
  apply ok_bind, ok_tidy; [done|apply tidy_unmount|]. intros _. apply ok_gone; [by right|done].
Qed.

Lemma ok_abandon reason l (Q : unit -> claim -> Prop) :
  clean_claim l -> (forall l, Q tt l) -> ok (writer_abandon reason) l Q.
Proof.
  intros Hl HQ. apply ok_report; [by apply clean_works|]. apply ok_quiet; [by right|done].
Qed.

Lemma ok_writer_finish g l (Q : unit -> claim -> Prop) :
  open_claim g l \/ clean_claim l -> (forall l, Q tt l) -> ok (writer_finish g) l Q.
Proof.
  intros Hl HQ. apply ok_bind. eapply ok_mono; [by apply ok_finish|].
  intros [g' [reason|]] l' [Hg Hl']; cbn [fst snd] in *.
  - apply ok_report; [done|]. apply ok_call; [by eexists|by_core_steps|]. intros _.
    apply ok_quiet; [by right|done].
  - do 2 (apply ok_call; [by apply clean_works|by_core_steps|intros _]).
    destruct Hl' as [-> | ->]; (apply ok_quiet; [|done]); [by left|by right].
Qed.

(** Opening the log begins it. *)
Lemma open_log_facts c b d :
  facts c WBorn b d ->
  facts c (WLive Clean) b
    (on_rec (modify (fun r => if s_state_lock r then set_events_ready true r else r)) d : unit * dv).2.
Proof.
  intros [Hu Hs Hb Hr Hc Hw Hba]. destruct Hw as (Hst & _ & Hl). unfold lock in Hl.
  cbn. unfold dv_rec, modify. rewrite Hl. split; cbn; try done.
  - intros Hf. by apply Hb in Hf.
  - intros Hf. by apply Hr in Hf as [? _].
  - destruct c; cbn in *; destruct_and?; done.
  - destruct b; cbn in *; destruct_and?; done.
Qed.

Lemma ok_writer_task (Q : unit -> claim -> Prop) :
  (forall l, Q tt l) -> ok (recorder_writer_task nvs_random) (LW WBorn) Q.
Proof.
  intros HQ. apply ok_bind, ok_tidy; [done|apply tidy_mount|]. intros err.
  destruct (is_ok err); cbn [negb]; cycle 1.
  { apply ok_bind, ok_calm; [by_steps|]. intros _. apply ok_gone; [by left|done]. }
  apply ok_writer_step. intros c b d Hf. exists (WLive Clean). split; [by apply open_log_facts|].
  assert (Hclean : clean_claim (LW (WLive Clean))) by by left.
  assert (Hw : working (LW (WLive Clean))) by by eexists. clear c b d Hf.
  cbn [pbind]. call_step. destruct a; cbn [negb]; [|by apply ok_abandon].
  call_step. destruct a as [id|reason]; [|by apply ok_abandon].
  call_step. destruct a as [reason|]; [by apply ok_abandon|].
  call_step. call_step.
  apply ok_bind. eapply ok_mono; [by apply ok_open|].
  intros [g [reason|]] l Hl; cbn [fst snd] in *; [by apply ok_abandon|].
  apply ok_call; [by eapply open_works|by_core_steps|]. intros _.
  exists open_claim, (fun g l => open_claim g l \/ clean_claim l). split_and!; [done|..].
  - intros g' l' Hl'. by apply ok_writer_pass.
  - intros g' l' Hl'. by apply ok_writer_finish.
Qed.

Lemma ok_writer_thread : ok (writer_thread nvs_random) (LW WUnborn) (fun _ _ => True).
Proof.
  exists (fun _ l => l = LW WUnborn), (fun _ l => l = LW WBorn). split_and!; [done|..].
  - intros _ l ->. apply ok_writer_step. intros c b d Hf.
    unfold on_rec. cbn. unfold dv_rec, get.
    assert (E : Device (sd d) (hw d) (usbs d) (rcd d) (devices d) (link d) (wakeup d) (history d) = d)
      by (by destruct d). cbn. rewrite E. destruct (spawned (rcd d) rec_writer) eqn:Hsp; cbn.
    + exists WBorn. split; [|done]. destruct Hf as [Hu Hs Hb Hr Hc [Hst Hlog] Hba].
      split; try done.
      * intros Hbit. by apply Hb in Hbit.
      * intros Hh. by apply Hr in Hh as [? _].
      * destruct c; cbn in *; destruct_and?; done.
      * by split_and!; [..|apply Hs].
      * destruct b; cbn in *; destruct_and?; first [done|congruence].
    + by exists WUnborn.
  - intros _ l ->. by apply ok_writer_task.
Qed.

(** ** The boot *)

Lemma ok_base_step {X A} (m : st dv X) (k : X -> @prog dv A) b (Q : A -> claim -> Prop) :
  (forall c v d, facts c v b d -> exists b', facts c v b' (m d).2 /\ ok (k (m d).1) (LB b') Q) ->
  ok (Atomic (fun _ => m) k) (LB b) Q.
Proof.
  intros Hm flip d ls i Hi Hd. destruct (at_base _ _ _ _ Hi Hd) as (c & v & Hf & Hset).
  destruct (Hm c v d Hf) as (b' & Hf' & Hk). exists (LB b'). split; [by apply Hset|done].
Qed.

(** Before the writer exists, nothing is claimed of the machine or the lock. *)
Lemma unborn_facts c b b' d r :
  facts c WUnborn b d ->
  spawned r rec_writer = false -> s_rec_events r = s_rec_events (rcd d) ->
  s_state_events_ready r = s_state_events_ready (rcd d) ->
  (b' = BStart \/ (b' = BLocked /\ s_state_lock r = true)) ->
  facts c WUnborn b' (Device (sd d) (hw d) (usbs d) r (devices d) (link d) (wakeup d) (history d)).
Proof.
  intros [Hu Hs Hb Hr Hc Hw Hba] E1 E2 E3 Hb'. split; cbn; try done.
  - by rewrite E1.
  - unfold finalized_bit. rewrite E2. apply Hb.
  - destruct Hw. split; [done|]. unfold log_closed in *. cbn. by rewrite E3.
  - by destruct Hb' as [-> |[-> ?]].
Qed.

Lemma rec_calm_events (b : bool) :
  along rec_calm (modify (set_rec_events (if b then Some 0 else None))).
Proof. intros r. apply rec_core_calm; [|done..]. by destruct b; split. Qed.

#[local] Hint Resolve rec_calm_events : rec_steps.

Lemma ok_create_writer (Q : bool -> claim -> Prop) :
  (forall r b, Q r (LB b)) -> ok (create_task rec_writer) (LB BLocked) Q.
Proof.
  intros HQ. unfold create_task. apply ok_bind, ok_calm; [by_steps|]. intros [|]; cbn [when]; [|apply HQ].
  apply ok_bind, ok_base_step. intros c v d Hf. exists BDone. split; [|apply HQ].
  destruct Hf as [Hu Hs Hb Hr Hc Hw (-> & Hsp & Hl)]. by split.
Qed.

Lemma ok_base_thread slot0 slot1 : ok (base_thread slot0 slot1) (LB BStart) (fun _ _ => True).
Proof.
  exists (fun _ l => l = LB BStart), (fun _ l => l = LB BStart). split_and!; [done|..].
  { intros _ l ->. apply ok_calm; [by_steps|]. by intros [a|a]. }
  intros _ l ->. unfold recorder_base_task. apply ok_bind, ok_calm; [by_steps|]. intros err.
  apply ok_bind. eapply ok_mono; [instantiate (1 := fun _ _ => True)|].
  2: { intros _ l _. apply ok_calm; [by_steps|done]. }
  unfold recorder_base_app_main. apply ok_base_step. intros c v d Hf. exists BStart.
  pose proof (fact_base _ _ _ _ Hf) as [-> Hsp].
  split; [by apply (unborn_facts _ _ _ _ _ Hf); [..|left]|cbn [pbind]]. clear c d Hf Hsp.
  apply ok_bind, ok_calm; [by_steps|]. intros _. apply ok_bind, ok_calm; [by_steps|]. intros lock0.
  apply ok_base_step. intros c v d Hf. exists (if lock0 then BLocked else BStart).
  pose proof (fact_base _ _ _ _ Hf) as [-> Hsp].
  split; [apply (unborn_facts _ _ _ _ _ Hf); [done..|destruct lock0; [by right|by left]]|cbn [pbind]]. clear c d Hf Hsp.
  destruct lock0; cbn [negb]; [|done].
  apply ok_bind, ok_calm; [by_steps|]. intros events. apply ok_bind, ok_calm; [by_steps|]. intros _.
  destruct events; cbn [negb]; [|apply ok_calm; [by_steps|done]].
  destruct (is_ok err); cbn [negb]; [|apply ok_calm; [by_steps|done]].
  apply ok_bind, ok_calm; [by_steps|]. intros lock1. apply ok_bind, ok_calm; [by_steps|]. intros _.
  destruct lock1; cbn [negb]; [|apply ok_calm; [by_steps|done]].
  apply ok_bind, ok_calm; [by_steps|]. intros led.
  destruct (is_ok led); cbn [negb]; [|apply ok_calm; [by_steps|done]].
  apply ok_bind, ok_calm; [by_steps|]. intros _.
  apply ok_bind, ok_create_writer. intros r b. apply ok_calm; [by_steps|done].
Qed.

(** ** The coordinator *)

Lemma ok_coord_step {X A} (m : st dv X) (k : X -> @prog dv A) c (Q : A -> claim -> Prop) :
  (forall v b d, facts c v b d -> exists c', facts c' v b (m d).2 /\ ok (k (m d).1) (LC c') Q) ->
  ok (Atomic (fun _ => m) k) (LC c) Q.
Proof.
  intros Hm flip d ls i Hi Hd. destruct (at_coord _ _ _ _ Hi Hd) as (v & b & Hf & Hset).
  destruct (Hm v b d Hf) as (c' & Hf' & Hk). exists (LC c'). split; [by apply Hset|done].
Qed.

(** A step that touches nothing gives what it read. *)
Lemma ok_coord_read {X A} (m : st dv X) (k : X -> @prog dv A) c (Q : A -> claim -> Prop) :
  (forall d, (m d).2 = d) ->
  (forall v b d, facts c v b d -> exists c', coord_fact c' v d /\ ok (k (m d).1) (LC c') Q) ->
  ok (Atomic (fun _ => m) k) (LC c) Q.
Proof.
  intros Hm HQ. apply ok_coord_step. intros v b d Hf. destruct (HQ v b d Hf) as (c' & Hc' & Hk).
  exists c'. split; [|done]. rewrite Hm. by destruct Hf.
Qed.

Definition coordinating (l : claim) : Prop := exists c, l = LC c.

(** A calm call, then the rest. *)
Lemma ok_calm_bind {A B} (p : @prog dv A) (k : A -> @prog dv B) l (Q : B -> claim -> Prop) :
  calmly p -> (forall a, ok (k a) l Q) -> ok (pbind p k) l Q.
Proof. intros Hp Hk. by apply ok_bind, ok_calm. Qed.

Ltac calm_step := apply ok_calm_bind; [by_steps|intros ?]; cbn beta zeta.
Ltac calm_rest := apply ok_calm; [by_steps|by intros; eexists].

Lemma read_rec {X} (f : recorder -> X) (d : dv) :
  on_rec (get f) d = (f (rcd d), d).
Proof. by destruct d. Qed.

Lemma read_sd {X} (f : sd_state -> X) (d : dv) :
  on_sd (get f) d = (f (sd d), d).
Proof. by destruct d. Qed.

Lemma ok_release_for_usb c (Q : esp_err_t -> claim -> Prop) :
  (forall r, Q r (LC CIdle)) -> ok sd_mount_release_for_usb (LC c) Q.
Proof.
  intros HQ. apply ok_coord_step. intros v b d Hf. exists CIdle. split; [|apply HQ].
  destruct Hf as [Hu Hs Hb Hr Hc Hw Hba]. unfold on_sd. cbn. unfold dv_sd.
  destruct (_ || sd d s_usb_release_requested) eqn:E; cbn; [by destruct d|].
  apply orb_false_iff in E as [_ E]. split; try done. cbn.
  intros Hf. apply Hr in Hf as (_ & _ & _ & Hq & _). unfold requested in Hq. congruence.
Qed.

(** The barrier: all tasks are done, so the writer is gone. *)
Lemma ok_wait_done c (Q : Z -> claim -> Prop) :
  (forall b, (Z.land b REC_TASK_DONE_MASK =? REC_TASK_DONE_MASK) = true -> Q b (LC CGone)) ->
  ok (wait_all REC_TASK_DONE_MASK) (LC c) Q.
Proof.
  intros HQ. exists (fun _ l => l = LC c),
    (fun b l => (Z.land b REC_TASK_DONE_MASK =? REC_TASK_DONE_MASK) = true /\ l = LC CGone).
  split_and!; [done| |by intros b l [Hb ->]; apply HQ].
  intros _ l ->. apply ok_coord_read; [intros d; by rewrite read_rec|]. intros v b d Hf. rewrite read_rec.
  cbn [fst]. destruct (_ =? _) eqn:E; [|exists c; split; [apply Hf|done]].
  exists CGone. split; [|done]. cbn. apply (fact_bit _ _ _ _ Hf). unfold finalized_bit.
  apply Z.eqb_eq in E. apply (f_equal (fun z => Z.testbit z 4)) in E. rewrite Z.land_spec in E.
  by apply andb_prop in E as [? _].
Qed.

(** Gone, and in USB_PREPARE: every segment is recorded. *)
Lemma ok_prepared (Q : recorder_state_t -> claim -> Prop) :
  (forall s, s <> RECORDER_STATE_USB_PREPARE -> Q s (LC CGone)) ->
  Q RECORDER_STATE_USB_PREPARE (LC CClean) ->
  ok recorder_current_state (LC CGone) Q.
Proof.
  intros Hno Hyes. apply ok_coord_read; [intros d; by rewrite read_rec|]. intros v b d Hf. rewrite read_rec.
  cbn [fst]. pose proof (fact_coord _ _ _ _ Hf) as Hg. cbn in Hg. subst v.
  destruct (fact_writer _ _ _ _ Hf) as (_ & Hl & Hst & _). unfold lock in Hl. rewrite Hl.
  destruct (decide (state (s_rec_state (rcd d)) = RECORDER_STATE_USB_PREPARE)) as [E|E].
  - exists CClean. rewrite E. split; [|done]. split; [done|]. destruct Hst as [?|Hst]; [done|].
    unfold failed in Hst. congruence.
  - exists CGone. split; [done|]. by apply Hno.
Qed.

(** The host's claim, durable. *)
Lemma ok_mark (Q : esp_err_t -> claim -> Prop) :
  (forall r, r <> ESP_OK -> Q r (LC CClean)) -> Q ESP_OK (LC CUnres) ->
  ok (UsbOwnership.settings shutdown_armed_mark_host_unresolved) (LC CClean) Q.
Proof.
  intros Hno Hyes. apply ok_coord_step. intros v b d Hf.
  pose proof (calm_nvs _ mark_unresolved_calm d) as Hcalm.
  destruct (wp_write MarkHostUnresolved SHUTDOWN_LIFECYCLE_HOST_UNRESOLVED (nvs d) (nvs d))
    as (_ & _ & Hop); [apply (fact_unlocked _ _ _ _ Hf)|apply same_settings_refl|constructor|].
  revert Hcalm Hop. unfold on_nvs. cbn. unfold dv_wake, on_settings, nvs, shutdown_armed_mark_host_unresolved.
  destruct (shutdown_armed_write _ _) as [r e]. cbn. intros Hcalm Hop.
  apply (calm_facts _ _ _ _ _ Hcalm) in Hf. destruct (decide (r = ESP_OK)) as [->|Hr].
  - exists CUnres. split; [|done]. destruct Hf as [Hu Hs Hb Hr [-> Hst] Hw Hba]. split; try done.
    split_and!; [done..|]. by apply Hop.
  - exists CClean. split; [done|]. by apply Hno.
Qed.

(** The read of the release flags. *)
Lemma ok_transfer_ready (Q : bool -> claim -> Prop) :
  Q false (LC CUnres) -> Q true (LC CSwitch) -> ok (transfer_ready true) (LC CUnres) Q.
Proof.
  intros Hno Hyes. apply ok_coord_read; [intros d; by rewrite read_sd|]. intros v b d Hf. rewrite read_sd.
  cbn [fst]. pose proof (fact_coord _ _ _ _ Hf) as Hc.
  destruct (sd d s_usb_release_requested) eqn:E1, (sd d s_device_fs_released) eqn:E2;
    rewrite ?andb_false_r; try (exists CUnres; by split).
  destruct (sd d s_mounted); cbn [eqb andb]; [|exists CUnres; by split].
  exists CSwitch. split; [|done]. cbn in *. by destruct_and?.
Qed.

(** The switch: the one step that may let the host reach the card. *)
Lemma ok_switch (Q : tinyusb_msc_event_t + esp_err_t -> claim -> Prop) :
  (forall r, Q r (LC CSwitch)) ->
  ok (call (set_mount_point_progress TINYUSB_MSC_STORAGE_MOUNT_USB)) (LC CSwitch) Q.
Proof.
  intros HQ. apply ok_coord_step. intros v b d Hf. exists CSwitch. split; [|apply HQ].
  unfold on_hw. cbn. unfold dv_hw. destruct Hf as [Hu Hs Hb Hr Hc Hw Hba].
  destruct (set_mount_point_progress _ _) as [r h]. cbn. by split.
Qed.

Lemma ok_transfer (Q : esp_err_t -> claim -> Prop) :
  (forall r c, Q r (LC c)) ->
  ok (sd_mount_transfer_to_usb (run_storage_callback usb_storage_event_cb)) (LC CUnres) Q.
Proof.
  intros HQ. unfold sd_mount_transfer_to_usb. apply ok_bind, ok_transfer_ready; [by cbn|].
  calm_step. destruct a; cbn [negb]; [|apply HQ].
  apply ok_bind. eapply ok_mono; [instantiate (1 := fun _ l => l = LC CSwitch)|].
  - exists (fun _ l => l = LC CSwitch), (fun _ l => l = LC CSwitch). split_and!; [done| |by intros b l ->].
    intros _ l ->. apply ok_bind, ok_switch. intros [event|err]; [|done]. calm_step. exact eq_refl.
  - intros err l ->. destruct (is_ok err); cbn [negb]; [|apply HQ].
    apply ok_calm_bind; [unfold transfer_ready; by_steps|]. intros r. apply HQ.
Qed.

Lemma ok_publish (Q : bool -> claim -> Prop) :
  (forall r c, Q r (LC c)) -> ok (usb_msc_publish true true true) (LC CClean) Q.
Proof.
  intros HQ. unfold usb_msc_publish. calm_step. destruct a; [calm_step; apply HQ|].
  unfold publish_transfer. apply ok_bind, ok_mark.
  { intros r Hr. destruct r; [done|..]; cbn [is_ok negb]; calm_step; apply HQ. }
  cbn [is_ok negb]. do 5 calm_step. apply ok_bind, ok_transfer. intros err c.
  calm_step. calm_step. destruct a5; [calm_step; apply HQ|]. calm_step. destruct a5; cbn [negb]; [apply HQ|calm_step; apply HQ].
Qed.

Lemma ok_attach c :
  ok recorder_handle_usb_attach (LC c) (fun _ => coordinating).
Proof.
  assert (Herr : forall c, ok (recorder_enter_error RECORDER_REASON_USB) (LC c) (fun _ => coordinating))
    by (intros c0; calm_rest).
  unfold recorder_handle_usb_attach. do 2 calm_step. destruct (decide _); [apply Herr|].
  calm_step. destruct (is_ok a1); cbn [negb]; [|apply Herr].
  calm_step. destruct a2; cbn [negb]; [|apply Herr].
  apply ok_bind, ok_release_for_usb. intros err. destruct (is_ok err); cbn [negb]; [|apply Herr].
  calm_step. apply ok_bind, ok_wait_done. intros done _. unfold publish_when_finalized.
  apply ok_bind. destruct (_ || _).
  { cbn [ok]. rewrite decide_False by done. apply ok_bind. cbn [ok negb]. calm_rest. }
  apply ok_prepared.
  - intros s Hs. rewrite decide_False by done. apply ok_bind. cbn [ok negb]. calm_rest.
  - rewrite decide_True by done. apply ok_calm_bind; [by_steps|intros rel].
    destruct rel; cbn [negb]; [|apply Herr].
    unfold usb_msc_ownership_note_prepare_complete. apply ok_bind, ok_calm_bind; [by_steps|intros ini].
    destruct ini; cbn [negb]; [|cbn [ok]; calm_rest]. apply ok_bind, ok_publish. intros r c0. cbn [ok]. calm_rest.
Qed.

(** The deletion of the storage object takes the card back. *)
Lemma ok_delete_storage c (Q : esp_err_t -> claim -> Prop) :
  (forall r, r <> ESP_OK -> Q r (LC c)) -> Q ESP_OK (LC CHidden) ->
  ok (call tinyusb_msc_delete_storage) (LC c) Q.
Proof.
  intros Hno Hyes. apply ok_coord_step. intros v b d Hf.
  pose proof (calm_hw _ delete_storage_reach d) as Hcalm. pose proof (delete_storage_ok (hw d)) as Hdel.
  revert Hcalm. unfold on_hw. cbn. unfold dv_hw. destruct (tinyusb_msc_delete_storage (hw d)) as [r h].
  cbn in *. intros Hcalm. apply (calm_facts _ _ _ _ _ Hcalm) in Hf.
  destruct (decide (r = ESP_OK)) as [->|Hr]; [|exists c; auto].
  exists CHidden. split; [|done]. destruct Hf as [Hu Hs Hb Hreach Hc Hw Hba]. split; try done. by apply Hdel.
Qed.

Lemma ok_release_storage c (Q : esp_err_t -> claim -> Prop) :
  (forall r c, r <> ESP_OK -> Q r (LC c)) -> Q ESP_OK (LC CHidden) ->
  ok sd_mount_release_usb_storage (LC c) Q.
Proof.
  intros Hno Hyes. unfold sd_mount_release_usb_storage.
  apply ok_calm_bind; [unfold transfer_ready; by_steps|intros r1].
  apply ok_calm_bind; [by_steps|intros r2]. apply ok_calm_bind; [by_steps|intros r3].
  destruct r3; cbn [negb]; [|by apply Hno].
  apply ok_bind, ok_delete_storage.
  { intros r Hr. destruct r; [done|..]; by apply Hno. }
  cbn [is_ok negb]. calm_step. calm_step. destruct a0; cbn [is_ok negb]; try by apply Hno.
  calm_step; apply Hyes.
Qed.

(** With the card taken back, the byte may be armed. *)
Lemma ok_arm (Q : esp_err_t -> claim -> Prop) :
  (forall r, Q r (LC CHidden)) ->
  ok (UsbOwnership.settings shutdown_armed_commit) (LC CHidden) Q.
Proof.
  intros HQ. apply ok_coord_step. intros v b d Hf. exists CHidden. split; [|apply HQ].
  destruct (wp_run_op Commit (nvs d) (fact_unlocked _ _ _ _ Hf)) as (Hu' & _ & _).
  revert Hu'. cbn [run_op]. unfold on_nvs. cbn. unfold dv_wake, on_settings, nvs.
  destruct (shutdown_armed_commit _) as [r e]. cbn. intros Hu'.
  destruct Hf as [Hu Hs Hb Hr Hc Hw Hba]. split; try done. cbn in *. congruence.
Qed.

Lemma ok_quiesce c (Q : esp_err_t -> claim -> Prop) :
  (forall r c, Q r (LC c)) -> ok usb_msc_ownership_complete_release_quiesce (LC c) Q.
Proof.
  intros HQ. unfold usb_msc_ownership_complete_release_quiesce. calm_step. destruct a; [apply HQ|].
  calm_step. destruct (is_ok a); cbn [negb]; [|calm_step; apply HQ]. do 2 calm_step.
  apply ok_bind, ok_release_storage.
  { intros r c' Hr. destruct r; [done|..]; cbn [is_ok negb]; calm_step; apply HQ. }
  cbn [is_ok negb]. apply ok_bind, ok_arm. intros r. destruct (is_ok r); cbn [negb]; [|calm_step; apply HQ].
  do 2 calm_step; apply HQ.
Qed.

Lemma ok_release c : ok recorder_handle_usb_release (LC c) (fun _ => coordinating).
Proof.
  unfold recorder_handle_usb_release. calm_step. destruct a; cbn [negb]; [|calm_rest].
  do 2 calm_step. apply ok_bind, ok_quiesce. intros r c'. calm_rest.
Qed.

Lemma ok_handle_event e c : ok (handle_event e) (LC c) (fun _ => coordinating).
Proof. destruct e; [..|apply ok_attach| | |apply ok_release| |]; cbn [handle_event]; calm_rest. Qed.

Lemma ok_coordinator_thread : ok coordinator_thread (LC CIdle) (fun _ _ => True).
Proof.
  exists (fun _ => coordinating), (fun _ => coordinating). split_and!; [by eexists|..].
  { intros ? l [c ->]. apply ok_calm; [by_steps|]. intros [a|a]; by eexists. }
  intros ? l [c ->]. exists (fun _ => coordinating), (fun _ => coordinating).
  split_and!; [by eexists| |done]. intros ? l [c' ->]. unfold usb_event_pass. calm_step.
  apply ok_bind. eapply ok_mono; [apply ok_handle_event|]. intros ? l [c2 ->]. calm_step. by eexists.
Qed.

(** ** The theorem *)

(** Every thread keeps the invariant. *)
Lemma firmware_ok slot0 slot1 callbacks h p r n card_ :
  host_reach h = false ->
  pool_ok handover (firmware (J := J) nvs_random slot0 slot1 callbacks) (powered_on h p r n card_).
Proof.
  intros Hh. exists (LC CIdle :: LW WUnborn :: LB BStart :: replicate (4 + length callbacks) LO).
  split; [|split].
  - cbn. by rewrite length_map, length_replicate.
  - exists CIdle, WUnborn, BStart, (replicate (4 + length callbacks) LO). split_and!; [done| |].
    + by apply Forall_replicate.
    + split; cbn; try done; [by left|congruence].
  - intros i q l Hq Hl. destruct i as [|[|[|i]]]; cbn in Hq, Hl; simplify_eq.
    + apply ok_coordinator_thread.
    + apply ok_writer_thread.
    + apply ok_base_thread.
    + apply ok_calm; [|done].
      assert (Hall : Forall (fun q : task unit => calmly q)
        (app_main :: worker_thread (J := J) ::
         after_creation rec_capture recorder_capture_task ::
         after_creation rec_battery recorder_battery_task :: map (run_in_turn run_stack_call) callbacks)).
      { repeat (apply Forall_cons; split); [by_steps..|].
        apply Forall_map, Forall_true. intros cs. apply steps_in_turn. intros; by_steps. }
      rewrite Forall_lookup in Hall. by eapply Hall.
Qed.

(** C1: the card never has two masters.  For every schedule of the firmware's
    threads from power-on, whatever the PC sends, every sequence of callbacks
    of the USB stack, and every fault of a platform call: whenever
    the host can reach the card, every segment this boot opened has been
    finalized and then recorded in the manifest, the writer has left, and the
    card is exactly as it left it; the firmware's file system is released; and
    both now and at the next boot the lifecycle reads HOST_UNRESOLVED. *)
Theorem host_reach_is_exclusive slot0 slot1 callbacks h p r n card_ sched :
  host_reach h = false ->
  let d := (run sched (firmware (J := J) nvs_random slot0 slot1 callbacks) (powered_on h p r n card_)).2 in
  host_reach (hw d) = true ->
  settled (segment_notes (history d)) /\
  head (segment_notes (history d)) = Some (WriterGone (card (rcd d))) /\
  sd d s_usb_release_requested = true /\ sd d s_device_fs_released = true /\
  current (nvs d) = Some SHUTDOWN_LIFECYCLE_HOST_UNRESOLVED /\
  next_boot (nvs d) = Some SHUTDOWN_LIFECYCLE_HOST_UNRESOLVED.
Proof.
  intros Hh d Hd.
  destruct (run_ok handover sched _ _ (firmware_ok slot0 slot1 callbacks h p r n card_ Hh))
    as (ls & _ & (c & v & b & rest & _ & _ & Hf) & _).
  fold d in Hf. destruct (fact_reach _ _ _ _ Hf Hd) as (-> & Hst & [Hc Hn] & Hq & Hr).
  destruct (fact_writer _ _ _ _ Hf) as (_ & _ & _ & Hhead).
  pose proof (status_sound (segment_notes (history d))) as Hs. unfold stands in Hst. rewrite Hst in Hs.
  by split_and!.
Qed.
End handover.

(** ** Witness: a publication on the bench *)

Abbreviation bench_run sched :=
  (run sched (firmware (J := CdcCore.tiny_json) bench_random [] [] [bench_callbacks])
     (powered_on Ours [] tt blank_settings blank_card)).2.

Lemma bench_random_harmless : harmless bench_random.
Proof. by intros n. Qed.

Lemma host_reach_is_exclusive_witness :
  host_reach (hw (bench_run to_publication)) = true /\
  length (segment_notes (history (bench_run to_publication))) = 4%nat /\
  settled (segment_notes (history (bench_run to_publication))).
Proof.
  assert (Hreach : host_reach (hw (bench_run to_publication)) = true) by (vm_compute; reflexivity).
  split; [exact Hreach|]. split; [vm_compute; reflexivity|].
  exact (proj1 (host_reach_is_exclusive bench_random bench_random_harmless [] [] [bench_callbacks]
    Ours [] tt blank_settings blank_card to_publication eq_refl Hreach)).
Defined.
