(* ===== verification/ReleaseOrder.v ===== *)
(** * ReleaseOrder: the card comes back in order

    The history of the USB side is a run of one small machine, for every
    schedule of the threads of Device: the gate closes for one release attempt,
    its response completes, the stack stops, the shutdown is armed, and only
    then the gate opens again; a command of the host reaches the card only
    while the gate is open.  The proof is one invariant, as in Handover. *)

From stdpp Require Import functions.
From S2P Require Import Prelude Monad Nvs ShutdownArmed WakeRecovery Stdio.
From S2P Require Import RecorderState Interleave SdMount UsbOwnership Recorder CdcSession.
From S2P Require Import Calls CdcWorker Coordinator Device Bench.
From S2P Require CdcCore.
Open Scope prog_scope.

(** ** The machine *)

Inductive phase :=
  | GateOpen
  | GateClosedFor (id : bytes)
  | Sent (id : bytes)
  | Answered (id : bytes)
  | Stopped (id : bytes)
  | Armed (id : bytes).

Definition phase_step (n : usb_note) (p : phase) : option phase :=
  match n, p with
  | SwitchBegun, p => Some p
  | Admitted_io, GateOpen => Some GateOpen
  | GateClosed id, GateOpen => Some (GateClosedFor id)
  | AnswerSent id, GateClosedFor id' => if decide (id = id') then Some (Sent id) else None
  | ResponseCompleted id, Sent id' => if decide (id = id') then Some (Answered id) else None
  | StackStopped, Answered id => Some (Stopped id)
  | ShutdownCommitted, Stopped id => Some (Armed id)
  | GateReopened, Armed _ => Some GateOpen
  | _, _ => None
  end.

Definition usb_notes : list (usb_note + rec_note) -> list usb_note :=
  omap (fun n => match n with inl u => Some u | inr _ => None end).

Definition phase_next (n : usb_note) (p : option phase) : option phase := p ≫= phase_step n.

(** Of a history, newest first; [None] is no run of the machine. *)
Definition phase_of (ns : list usb_note) : option phase := foldr phase_next (Some GateOpen) ns.

Definition gate_open (p : phase) : bool := match p with GateOpen => true | _ => false end.

(** While the gate is closed, no command is admitted. *)
Definition no_io_behind_the_gate (ns : list usb_note) : Prop :=
  forall newer id older, ns = newer ++ GateClosed id :: older ->
  GateReopened ∉ newer -> Admitted_io ∉ newer.

Lemma phase_app newer older :
  phase_of (newer ++ older) = foldr phase_next (phase_of older) newer.
Proof. apply foldr_app. Qed.

Lemma closed_admits_nothing newer p q :
  gate_open p = false -> foldr phase_next (Some p) newer = Some q ->
  GateReopened ∉ newer -> (Admitted_io ∉ newer) /\ gate_open q = false.
Proof.
  intros Hp. revert q. induction newer as [|n newer IH]; intros q Hq Hno; cbn in Hq.
  { split; [apply not_elem_of_nil|congruence]. }
  apply not_elem_of_cons in Hno as [Hn Hno].
  destruct (foldr _ _ newer) as [r|] eqn:Hr; [|done]. cbn in Hq.
  destruct (IH r eq_refl Hno) as [Hio Hro]. rewrite not_elem_of_cons.
  destruct n, r; cbn in *; try done; try case_decide; by simplify_eq.
Qed.

Lemma run_admits_nothing ns p : phase_of ns = Some p -> no_io_behind_the_gate ns.
Proof.
  intros Hp newer id older -> Hno. rewrite phase_app in Hp.
  destruct (phase_of (GateClosed id :: older)) as [q|] eqn:Hq.
  - refine (proj1 (closed_admits_nothing newer q p _ Hp Hno)). cbn in Hq.
    destruct (foldr _ _ older) as [[]|]; cbn in Hq; by simplify_eq.
  - clear Hno Hq. exfalso. revert p Hp. induction newer as [|n newer IH]; cbn; [done|].
    intros p Hp. destruct (foldr _ _ newer) as [r|]; [by eapply IH|done].
Qed.

(** ** The invariant *)

Section release.
Context {H P R N : Type} `{UsbPlatform H}.
Context `{RecorderPlatform P, CdcPlatform P, PowerPlatform P}.
Context `{NvsOps N bytes, RtcFlush R N, RtcService R N}.
Context {J : Type} `{!CdcCore.Cjson J}.

Abbreviation dv := (device H P R N).
Abbreviation task := (@prog dv).

(** The coordinator: at the event of a completed response; with the event
    consumed; behind the teardown; behind the armed byte. *)
Inductive coord_stage := CIdle | CSeen | CAnswered | CStopped | CArmed.

(** The worker: behind the test of the initialisation; with a release
    accepted; with its response sent. *)
Inductive worker_stage :=
  | KIdle
  | KInit
  | KAccepted (id : bytes)
  | KSent (id : bytes).

(** The boot, until USB ownership is initialised. *)
Inductive main_stage := MBefore | MAfter.

Inductive claim := LC (c : coord_stage) | LK (k : worker_stage) | LM (m : main_stage) | LO.

Definition phase_now (d : dv) : option phase := phase_of (usb_notes (history d)).
Definition pending_now (d : dv) : bool := usb_flags (usbs d) s_release_pending.
Definition ready_now (d : dv) : bool := usb_flags (usbs d) s_initialized.
Definition requested_bit (u : usb_state) : bool := Z.testbit (default 0 (s_usb_events u)) 3.

Definition coord_fact (c : coord_stage) (d : dv) : Prop :=
  match c with
  | CIdle => True
  | CSeen => exists id, phase_now d = Some (Answered id)
  | CAnswered => (exists id, phase_now d = Some (Answered id)) /\ requested_bit (usbs d) = false
  | CStopped => exists id, phase_now d = Some (Stopped id)
  | CArmed => exists id, phase_now d = Some (Armed id)
  end.

Definition worker_fact (k : worker_stage) (d : dv) : Prop :=
  match k with
  | KIdle => True
  | KInit => ready_now d = true
  | KAccepted id => phase_now d = Some (GateClosedFor id)
  | KSent id => phase_now d = Some (Sent id)
  end.

Definition main_fact (m : main_stage) (d : dv) : Prop :=
  match m with MBefore => ready_now d = false | MAfter => True end.

Record facts (c : coord_stage) (k : worker_stage) (m : main_stage) (d : dv) : Prop := Facts {
  fact_run : exists p, phase_now d = Some p /\ pending_now d = negb (gate_open p);
  fact_bit : requested_bit (usbs d) = true -> exists id, phase_now d = Some (Answered id);
  fact_before : ready_now d = false -> phase_now d = Some GateOpen;
  fact_coord : coord_fact c d;
  fact_worker : worker_fact k d;
  fact_main : main_fact m d;
}.

(** The threads in the order of [firmware]. *)
Definition ordered (d : dv) (ls : list claim) : Prop :=
  exists c k m rest, ls = LC c :: LO :: LO :: LM m :: LK k :: rest /\ Forall (eq LO) rest /\ facts c k m d.

Lemma order_at_coord c d ls i :
  ls !! i = Some (LC c) -> ordered d ls ->
  exists k m, facts c k m d /\ forall c' d', facts c' k m d' -> ordered d' (<[i := LC c']> ls).
Proof.
  intros Hi (c0 & k & m & rest & -> & Hrest & Hf).
  destruct i as [|[|[|[|[|i]]]]]; cbn in Hi; simplify_eq.
  - exists k, m. split; [done|]. intros c' d' Hf'. by exists c', k, m, rest.
  - by rewrite Forall_lookup in Hrest; apply Hrest in Hi.
Qed.

Lemma at_worker k d ls i :
  ls !! i = Some (LK k) -> ordered d ls ->
  exists c m, facts c k m d /\ forall k' d', facts c k' m d' -> ordered d' (<[i := LK k']> ls).
Proof.
  intros Hi (c & k0 & m & rest & -> & Hrest & Hf).
  destruct i as [|[|[|[|[|i]]]]]; cbn in Hi; simplify_eq.
  - exists c, m. split; [done|]. intros k' d' Hf'. by exists c, k', m, rest.
  - by rewrite Forall_lookup in Hrest; apply Hrest in Hi.
Qed.

Lemma at_main m d ls i :
  ls !! i = Some (LM m) -> ordered d ls ->
  exists c k, facts c k m d /\ forall m' d', facts c k m' d' -> ordered d' (<[i := LM m']> ls).
Proof.
  intros Hi (c & k & m0 & rest & -> & Hrest & Hf).
  destruct i as [|[|[|[|[|i]]]]]; cbn in Hi; simplify_eq.
  - exists c, k. split; [done|]. intros m' d' Hf'. by exists c, k, m', rest.
  - by rewrite Forall_lookup in Hrest; apply Hrest in Hi.
Qed.
(** ** Steps that keep it *)

(** Nothing of the release protocol changes; the request bit may be cleared. *)
Record usb_calm (u u' : usb_state) : Prop := UsbCalm {
  calm_pending : usb_flags u' s_release_pending = usb_flags u s_release_pending;
  calm_ready : usb_flags u' s_initialized = usb_flags u s_initialized;
  calm_bit : requested_bit u' = true -> requested_bit u = true;
}.

Definition calm (d d' : dv) : Prop := usb_calm (usbs d) (usbs d') /\ phase_now d' = phase_now d.

#[local] Instance usb_calm_preorder : PreOrder usb_calm.
Proof. split; [by split|]. intros u1 u2 u3 [] []. split; [congruence..|auto]. Qed.

#[local] Instance calm_preorder : PreOrder calm.
Proof.
  split; [by split|]. intros d1 d2 d3 [? E1] [? E2]. split; [by etransitivity|congruence].
Qed.

Lemma quiet_facts c k m d d' : calm d d' -> facts c k m d -> facts c k m d'.
Proof.
  intros [[E1 E2 Hb] E3] [Hr Hbit Hbe Hc Hk Hm]. unfold pending_now, ready_now in *.
  split; unfold pending_now, ready_now; rewrite ?E1, ?E2, ?E3; auto.
  - destruct c; cbn in *; rewrite ?E3; try done. destruct Hc as [? Hnb]. split; [done|].
    apply not_true_is_false. intros ?%Hb. congruence.
  - destruct k; cbn in *; unfold ready_now in *; by rewrite ?E2, ?E3.
  - destruct m; cbn in *; unfold ready_now in *; by rewrite ?E2.
Qed.

(** A command admitted behind the test of the gate. *)
Definition keeps {X} (f : st dv X) : Prop := forall c k m d, facts c k m d -> facts c k m (f d).2.

Lemma calm_keeps {X} (f : st dv X) : along calm f -> keeps f.
Proof. intros Hf c k m d. by apply quiet_facts. Qed.

Abbreviation keepsly p := (all_steps (fun X => keeps) p).
Abbreviation ok := (ok ordered).

Lemma order_keeps {A} (p : @prog dv A) l (Q : A -> claim -> Prop) :
  keepsly p -> (forall a, Q a l) -> ok p l Q.
Proof.
  intros Hp HQ. apply ok_keep; [|done]. eapply all_steps_mono; [|exact Hp].
  intros X f Hf d ls (c & k & m & rest & -> & Hrest & Hfacts). exists c, k, m, rest.
  split_and!; [done..|]. by apply Hf.
Qed.

Lemma ok_keeps_bind {A B} (p : @prog dv A) (k : A -> @prog dv B) l (Q : B -> claim -> Prop) :
  keepsly p -> (forall a, ok (k a) l Q) -> ok (pbind p k) l Q.
Proof. intros Hp Hk. by apply ok_bind, order_keeps. Qed.

Lemma admits_keeps : keepsly gate_admits.
Proof.
  split; [intros _|done]. intros c k m d Hf.
  assert (Hadm : usb_flags (usbs d) s_release_pending = false -> phase_now d = Some GateOpen).
  { intros Hp. destruct (fact_run _ _ _ _ Hf) as (p & Hn & Hpe). unfold pending_now in Hpe.
    rewrite Hp in Hpe. by destruct p. }
  unfold bind, on_usb, on_history. cbn. unfold dv_usb. cbn.
  destruct (usb_flags (usbs d) s_release_pending); cbn; [by destruct d|]. specialize (Hadm eq_refl).
  eapply quiet_facts; [|exact Hf]. split; [done|]. unfold phase_now in *. cbn. fold (phase_of (usb_notes (history d))).
  by rewrite Hadm.
Qed.

(** A step on a part of the device. *)
Lemma quiet_usb {X} (m : st usb_state X) : along usb_calm m -> along calm (on_usb m : st dv X).
Proof.
  intros Hm d. unfold on_usb. cbn. unfold dv_usb. specialize (Hm (usbs d)). by destruct (m (usbs d)).
Qed.

Lemma quiet_sd {X} (m : st sd_state X) : along calm (on_sd m : st dv X).
Proof. intros d. unfold on_sd. cbn. unfold dv_sd. by destruct (m (sd d)). Qed.
Lemma quiet_hw {X} (m : st H X) : along calm (on_hw m : st dv X).
Proof. intros d. unfold on_hw. cbn. unfold dv_hw. by destruct (m (hw d)). Qed.
Lemma quiet_rec {X} (m : st recorder X) : along calm (on_rec m : st dv X).
Proof. intros d. unfold on_rec. cbn. unfold dv_rec. by destruct (m (rcd d)). Qed.
Lemma quiet_dev {X} (m : st P X) : along calm (on_dev m : st dv X).
Proof. intros d. unfold on_dev. cbn. unfold dv_dev. by destruct (m (devices d)). Qed.
Lemma quiet_cdc {X} (m : st cdc_state X) : along calm (on_cdc m : st dv X).
Proof. intros d. unfold on_cdc. cbn. unfold dv_cdc. by destruct (m (link d)). Qed.
Lemma quiet_wake {X} (m : st (wake_world R N) X) : along calm (on_wake m : st dv X).
Proof. intros d. unfold on_wake. cbn. unfold dv_wake. by destruct (m (wakeup d)). Qed.
Lemma calm_rec_history n : along calm (on_rec_history n : st dv unit).
Proof. intros d. by split. Qed.
Lemma calm_switch : along calm (on_history SwitchBegun : st dv unit).
Proof.
  intros d. split; [done|].
  change (phase_next SwitchBegun (phase_now d) = phase_now d).
  by destruct (phase_now d).
Qed.

Definition plain_flag (f : usb_flag) : bool :=
  match f with s_release_pending | s_initialized => false | _ => true end.

Lemma usb_calm_flag f b : plain_flag f = true -> along usb_calm (modify (set_usb_flag f b)).
Proof. intros Hf u. by destruct f; split; cbn; rewrite ?fn_lookup_insert_ne by done. Qed.

#[local] Arguments Z.testbit : simpl never.
#[local] Arguments Z.lor : simpl never.
#[local] Arguments Z.ldiff : simpl never.

Lemma usb_calm_or bits : Z.testbit bits 3 = false -> along usb_calm (modify (or_bits bits)).
Proof.
  intros Hb u. split; [done..|]. unfold requested_bit. cbn.
  destruct (s_usb_events u); cbn; [|done]. by rewrite Z.lor_spec, Hb, orb_false_r.
Qed.

Lemma usb_calm_clear bits : along usb_calm (modify (clear_bits bits)).
Proof.
  intros u. split; [done..|]. unfold requested_bit. cbn.
  destruct (s_usb_events u); cbn; [|done]. rewrite Z.ldiff_spec. by intros [? _]%andb_prop.
Qed.

Lemma usb_calm_same u u' :
  usb_flags u' = usb_flags u -> s_usb_events u' = s_usb_events u -> usb_calm u u'.
Proof. intros E1 E2. split; unfold requested_bit; by rewrite ?E1, ?E2. Qed.

Create HintDb release discriminated.

Ltac usb_step :=
  solve [apply along_get, _ | by intros ?; apply usb_calm_same | apply usb_calm_flag; reflexivity
        | apply usb_calm_or; reflexivity | apply usb_calm_clear].
Ltac along_step :=
  lazymatch goal with
  | |- along _ (on_usb _) => apply quiet_usb; usb_step
  | |- along _ (on_history SwitchBegun) => apply calm_switch
  | |- along _ (on_rec_history _) => apply calm_rec_history
  | |- along _ (on_dev _) => apply quiet_dev
  | |- along _ (on_cdc _) => apply quiet_cdc
  | |- along _ (on_session_gate _) => apply quiet_cdc
  | |- along _ (on_cdc_platform _) => apply quiet_dev
  | |- along _ (on_hw _) => apply quiet_hw
  | |- along _ (on_sd _) => apply quiet_sd
  | |- along _ (on_rec _) => apply quiet_rec
  | |- along _ (on_nvs _) => apply quiet_wake
  | |- along _ (on_wake _) => apply quiet_wake
  | |- along _ (transition_locked _ _ _) => unfold transition_locked, append_state_event
  | |- along _ (bind _ _) => apply along_bind; [exact _| |intros ?]
  | |- along _ (ret _) => apply along_ret, _
  | |- along _ (match ?x with _ => _ end) => destruct x
  end.
Ltac release_leaf :=
  first
  [ solve [eauto with release nocore]
  | unfold_leaf ltac:(fun _ => apply calm_keeps; repeat along_step) ].
Ltac by_steps := walk release_leaf.

#[local] Hint Resolve admits_keeps : release.

(** The calls that are no step of their own, and the two every task makes. *)

Lemma keeps_read_trace vars : forall seen, keepsly (read_trace vars seen).
Proof. induction vars as [|v vars IH]; intros seen; cbn [read_trace]; by_steps. Qed.
#[local] Hint Resolve keeps_read_trace : release.

Lemma keeps_gate_call {X} (p : @prog SessionGate.gate_world X) : keepsly (gate_call p).
Proof. apply all_steps_lift. intros Y f. apply calm_keeps, quiet_cdc. Qed.
#[local] Hint Resolve keeps_gate_call : release.

Lemma keeps_transition_state next reason mv : keepsly (recorder_transition_state next reason mv).
Proof. unfold recorder_transition_state. by_steps. Qed.
#[local] Hint Resolve keeps_transition_state : release.

Lemma keeps_enter_error reason : keepsly (recorder_enter_error reason).
Proof. unfold recorder_enter_error. by_steps. Qed.
#[local] Hint Resolve keeps_enter_error : release.

(** ** The steps of the release protocol *)

Definition with_usb (u : usb_state) (d : dv) : dv :=
  Device (sd d) (hw d) u (rcd d) (devices d) (link d) (wakeup d) (history d).

Lemma on_usb_run {X} (m : st usb_state X) (d : dv) :
  on_usb m d = ((m (usbs d)).1, with_usb (m (usbs d)).2 d).
Proof. unfold on_usb. cbn. unfold dv_usb. by destruct (m (usbs d)). Qed.

Lemma read_usb {X} (f : usb_state -> X) (d : dv) : on_usb (get f) d = (f (usbs d), d).
Proof. by destruct d. Qed.

(** *** The worker *)

Lemma ok_worker_step {X A} (f : st dv X) (k : X -> @prog dv A) s (Q : A -> claim -> Prop) :
  (forall c m d, facts c s m d -> exists s', facts c s' m (f d).2 /\ ok (k (f d).1) (LK s') Q) ->
  ok (Atomic (fun _ => f) k) (LK s) Q.
Proof.
  intros Hf flip d ls i Hi Hd. destruct (at_worker _ _ _ _ Hi Hd) as (c & m & Hfacts & Hset).
  destruct (Hf c m d Hfacts) as (s' & Hf' & Hk). exists (LK s'). split; [by apply Hset|done].
Qed.

(** A read of the variables gives what it saw. *)
Lemma ok_worker_read {X A} (f : usb_state -> X) (k : X -> @prog dv A) s (Q : A -> claim -> Prop) :
  (forall c m d, facts c s m d -> exists s', worker_fact s' d /\ ok (k (f (usbs d))) (LK s') Q) ->
  ok (pbind (usb (get f)) k) (LK s) Q.
Proof.
  intros Hf. apply ok_worker_step. intros c m d Hfacts. rewrite read_usb. cbn [fst snd pbind].
  destruct (Hf c m d Hfacts) as (s' & Hs & Hk). exists s'. split; [by destruct Hfacts|done].
Qed.

Ltac destruct_exists := repeat match goal with H : exists _, _ |- _ => destruct H end.

Definition serving (l : claim) : Prop := exists s, l = LK s.

Lemma serving_any {A} (a : A) s : (fun (_ : A) => serving) a (LK s).
Proof. by eexists. Qed.

Lemma ok_close_gate id (Q : bool -> claim -> Prop) :
  Q false (LK KInit) -> Q true (LK (KAccepted id)) -> ok (close_gate id) (LK KInit) Q.
Proof.
  intros Hno Hyes. apply ok_worker_step. intros c m d Hf. unfold bind. rewrite on_usb_run.
  destruct (usb_flags (usbs d) s_release_pending) eqn:Hp; cbn [fst snd].
  - exists KInit. split; [|done]. cbn. by destruct d.
  - exists (KAccepted id). split; [|done]. destruct Hf as [(p & Hn & Hpe) Hbit Hbe Hc Hk Hm].
    unfold pending_now in Hpe. rewrite Hp in Hpe. assert (p = GateOpen) as -> by (by destruct p).
    assert (Hnow : phase_now (Device (sd d) (hw d) (set_usb_flag s_release_pending true (usbs d)) (rcd d)
      (devices d) (link d) (wakeup d) (inl (GateClosed id) :: history d)) = Some (GateClosedFor id)).
    { change (phase_next (GateClosed id) (phase_now d) = Some (GateClosedFor id)). by rewrite Hn. }
    split; try exact Hnow.
    + exists (GateClosedFor id). split; [exact Hnow|done].
    + intros Hb. destruct (Hbit Hb) as (id' & Hp'). congruence.
    + intros Hr. cbn in Hk, Hr. unfold ready_now in *. cbn in Hr.
      rewrite fn_lookup_insert_ne in Hr by done. congruence.
    + destruct c; cbn in Hc; [done|..]; destruct_and?; destruct_exists; congruence.
    + destruct m; cbn in *; [|done]. unfold ready_now in *. congruence.
Qed.

(** What the acceptance leaves: the gate closed for the attempt. *)
Definition accepted_for (id : bytes) (accepted : bool) (l : claim) : Prop :=
  if accepted then l = LK (KAccepted id) else serving l.

Lemma ok_accept id s :
  ok (usb_msc_ownership_accept_release_storage (Some id)) (LK s)
    (fun r => accepted_for id (match r with USB_MSC_RELEASE_STORAGE_ACCEPTED => true | _ => false end)).
Proof.
  unfold usb_msc_ownership_accept_release_storage. destruct (usb_release_attempt_id_valid (Some id)); cbn [negb];
    [|by eexists].
  apply ok_bind. cbn [first_true]. apply ok_bind. unfold down at 1, negated, up at 1. apply ok_worker_read.
  intros c m d Hf. exists (if usb_flags (usbs d) s_initialized then KInit else s).
  destruct (usb_flags (usbs d) s_initialized) eqn:E; cbn [negb ok].
  - split; [done|]. clear c m d Hf E. apply order_keeps; [by_steps|]. intros [|]; [by eexists|].
    apply ok_bind, ok_close_gate; cbn [negb default from_option]; [by eexists|].
    do 2 (apply ok_keeps_bind; [by_steps|intros _]). done.
  - split; [by destruct Hf|]. by eexists.
Qed.

(** A step of the machine by the worker. *)
Lemma worker_note c s s' m d d' n p q :
  facts c s m d -> phase_now d = Some p -> phase_step n p = Some q -> gate_open p = false ->
  gate_open q = false -> (forall id, p <> Answered id /\ p <> Stopped id /\ p <> Armed id) ->
  history d' = inl n :: history d -> usb_flags (usbs d') = usb_flags (usbs d) ->
  (requested_bit (usbs d') = true -> exists id, q = Answered id) ->
  worker_fact s' d' -> facts c s' m d'.
Proof.
  intros [(p0 & Hn & Hpe) Hb Hbe Hc Hk Hm] Hp Hstep Hop Hoq Hne Hh Hfl Hbit Hs.
  assert (p0 = p) as -> by congruence.
  assert (Hnow : phase_now d' = Some q).
  { unfold phase_now. rewrite Hh. change (phase_next n (phase_now d) = Some q). by rewrite Hp. }
  unfold pending_now, ready_now in *. rewrite <- Hfl in *. split; unfold pending_now, ready_now; try done.
  - exists q. split; [done|]. by rewrite Hoq, <- Hop.
  - intros Hset. destruct (Hbit Hset) as [id ->]. by exists id.
  - intros Hr. apply Hbe in Hr. rewrite Hp in Hr. by simplify_eq.
  - destruct c; cbn in Hc; [done|..]; destruct_and?; destruct_exists;
      match goal with Hx : phase_now d = Some (_ ?x) |- _ => destruct (Hne x) as (? & ? & ?); congruence end.
  - destruct m; [|done]. cbn in *. unfold ready_now in *. by rewrite Hfl.
Qed.

Lemma ok_sent id (Q : unit -> claim -> Prop) :
  Q tt (LK (KSent id)) -> ok (answer_sent id) (LK (KAccepted id)) Q.
Proof.
  intros HQ. apply ok_worker_step. intros c m d Hf. exists (KSent id). split; [|done].
  pose proof (fact_worker _ _ _ _ Hf) as Hp. cbn in Hp.
  assert (Hstep : phase_step (AnswerSent id) (GateClosedFor id) = Some (Sent id)) by (cbn; by rewrite decide_True).
  eapply worker_note; try done.
  - intros Hb. destruct (fact_bit _ _ _ _ Hf Hb) as [id' ?]. congruence.
  - change (phase_next (AnswerSent id) (phase_now d) = Some (Sent id)). by rewrite Hp.
Qed.

Lemma order_report id (Q : unit -> claim -> Prop) :
  Q tt (LK KIdle) ->
  ok (usb_noted (modify (or_bits USB_BIT_RELEASE_REQUESTED)) (fun _ => Some (ResponseCompleted id)))
    (LK (KSent id)) Q.
Proof.
  intros HQ. apply ok_worker_step. intros c m d Hf. unfold bind. rewrite on_usb_run. exists KIdle.
  split; [|done]. pose proof (fact_worker _ _ _ _ Hf) as Hp. cbn in Hp.
  assert (Hstep : phase_step (ResponseCompleted id) (Sent id) = Some (Answered id)) by (cbn; by rewrite decide_True).
  eapply worker_note; try done. intros _. by exists id.
Qed.

Lemma ok_response id : ok (usb_msc_ownership_release_response_complete (Some id)) (LK (KSent id)) (fun _ => serving).
Proof.
  unfold usb_msc_ownership_release_response_complete. apply ok_keeps_bind; [by_steps|]. intros [|]; [by eexists|].
  apply ok_keeps_bind; [by_steps|intros _]. apply ok_bind, order_report. by eexists.
Qed.

(** What the answer to a request line leaves: the gate closed for the attempt it
    grants. *)
Definition answered_line (effect : CdcCore.usb_cdc_protocol_effect_t) (l : claim) : Prop :=
  match granted effect with Some id => l = LK (KAccepted id) | None => serving l end.

Definition replied (q : core_call) (r : core_reply) (l : claim) : Prop :=
  serving l /\ forall id, q = CallRelease id -> r = ReleaseReply CdcCore.USB_CDC_RELEASE_ACCEPTED ->
    l = LK (KAccepted id).

Lemma ok_perform_core q s : ok (perform_core recorder_cdc_config q) (LK s) (replied q).
Proof.
  destruct q as [|time|id]; cbn [perform_core recorder_cdc_config cfg_status_provider cfg_set_time cfg_release_accept].
  - apply ok_keeps_bind; [by_steps|]. intros a. split; [by eexists|done].
  - apply ok_keeps_bind; [by_steps|]. intros a. split; [by eexists|done].
  - apply ok_bind. unfold recorder_cdc_release_accept. apply ok_bind. eapply ok_mono; [apply ok_accept|].
    intros r l Hr. destruct r; cbn in Hr |- *; (split; [try (subst l; by eexists); exact Hr|intros; by simplify_eq]).
Qed.

Lemma ok_process_frame line len s :
  ok (process_frame J recorder_cdc_config line len) (LK s) (fun a => answered_line a.2).
Proof.
  unfold process_frame. cbn [recorder_cdc_config cfg_device_id].
  apply ok_keeps_bind; [by_steps|]. intros device. unfold answered_line.
  destruct (process_line_asks_once (J := J) line len CDC_RESPONSE_BYTES device)
    as [(x & Hx & Hm)|(q & y & f & Hq & Hf)].
  - apply ok_by_calls with (Inv := fun _ => serving); [by eexists|..]; intros rs l; [intros q a st|intros a st];
      rewrite Hm; intros [= <- <-]; [done|]. intros _ Hl. cbn in Hx |- *. by rewrite Hx.
  - apply ok_by_calls with (Inv := fun rs l => (rs = [] /\ serving l) \/ (exists r, rs = [r] /\ replied q r l)).
    + left. split; [done|by eexists].
    + intros rs l q' a st Hst Ha [[-> [s' ->]]|(r & -> & Hr)].
      * rewrite Hq in Hst. simplify_eq. cbn in Ha. simplify_eq.
        eapply ok_mono; [apply ok_perform_core|]. intros r l Hr. right. by exists r.
      * destruct (Hf r []) as [E _]. rewrite E in Hst. by simplify_eq.
    + intros rs l a st Hst Ha [[-> _]|(r & -> & Hs & Hr)].
      * rewrite Hq in Hst. by simplify_eq.
      * destruct (Hf r []) as [E Hg]. rewrite E in Hst. simplify_eq. cbn in Hg |- *.
        destruct (granted _) as [id|] eqn:Hgr; [|done]. destruct (Hg id eq_refl) as [-> ->]. by apply Hr.
Qed.

(** A part of the worker that gives its claim away. *)
Definition serves {A} (p : @prog dv A) : Prop := forall s, ok p (LK s) (fun _ => serving).

Lemma serves_done {A} (a : A) : serves (Done a).
Proof. by intros s; eexists. Qed.
Lemma serves_keeps {A} (p : @prog dv A) : keepsly p -> serves p.
Proof. intros Hp s. apply order_keeps; [done|]. by eexists. Qed.
Lemma serves_bind {A B} (p : @prog dv A) (k : A -> @prog dv B) :
  serves p -> (forall a, serves (k a)) -> serves (pbind p k).
Proof. intros Hp Hk s. apply ok_bind. eapply ok_mono; [apply Hp|]. intros a l [s' ->]. apply Hk. Qed.
Lemma serves_loop {S A B} (body : S -> @prog dv (S + B)) s0 (k : B -> @prog dv A) :
  (forall s, serves (body s)) -> (forall b, serves (k b)) -> serves (Loop body s0 k).
Proof.
  intros Hb Hk s. exists (fun _ => serving), (fun _ => serving). split_and!; [by eexists|..].
  - intros s1 l [s' ->]. eapply ok_mono; [apply Hb|]. intros [r|r] l Hl; exact Hl.
  - intros b l [s' ->]. apply Hk.
Qed.

(** The report finds the response sent, or does not happen. *)
Lemma ok_complete_release effect (complete : bool) l :
  (if complete then match granted effect with Some id => l = LK (KSent id) | None => serving l end
   else serving l) ->
  ok (complete_release recorder_cdc_config effect complete) l (fun _ => serving).
Proof.
  intros Hl. unfold complete_release, CdcTx.usb_cdc_tx_complete_accepted_release.
  assert (Hs : serving l).
  { destruct complete; [|done]. destruct (granted effect); [|done]. subst. by eexists. }
  unfold granted in Hl. destruct (CdcCore.release_accepted effect), complete; cbn [negb orb].
  2-4: apply ok_by_calls with (Inv := fun _ => serving); [done|by intros ? ? ? ? ? [= <- <-]|by intros ? ? ? ? [= <- <-]].
  subst l. apply ok_by_calls with (Inv := fun rs l =>
    serving l /\ (rs = [] -> l = LK (KSent (CdcCore.release_attempt_id effect)))).
  - split; [by eexists|done].
  - intros rs l q a st Hst Ha [_ Hl]. destruct rs as [|r rs]; cbn in Hst; simplify_eq.
    injection Ha as <-. rewrite (Hl eq_refl). cbn [recorder_cdc_config cfg_release_response_complete].
    unfold recorder_cdc_release_response_complete. eapply ok_mono; [apply ok_response|]. intros r l' Hl'.
    split; [exact Hl'|done].
  - intros rs l a st _ _ [Hl _]. exact Hl.
Qed.

Lemma serves_execute_frame g line len : serves (execute_frame J recorder_cdc_config g line len).
Proof.
  intros s. unfold execute_frame. apply ok_bind. eapply ok_mono; [apply ok_process_frame|].
  intros [[n response] effect] l Hl. cbn [fst snd] in Hl. apply ok_keeps_bind; [by_steps|]. intros connected.
  apply ok_keeps_bind; [by_steps|]. intros complete. apply ok_bind.
  assert (Hnext : forall l', (if complete then match granted effect with Some id => l' = LK (KSent id) | None => serving l' end
     else serving l') ->
    ok (gate_call SessionGate.usb_cdc_session_gate_command_end ;;'
        complete_release recorder_cdc_config effect complete ;;' Done tt) l' (fun _ => serving)).
  { intros l' Hl'. apply ok_keeps_bind; [by_steps|]. intros _. apply ok_bind.
    eapply ok_mono; [by apply ok_complete_release|]. intros ? ? ?. done. }
  unfold answered_line, granted in *. destruct complete, (CdcCore.release_accepted effect); cbn [andb when].
  - subst l. apply ok_sent. by apply Hnext.
  - by apply Hnext.
  - subst l. apply Hnext. by eexists.
  - by apply Hnext.
Qed.

Lemma keeps_reset_if_asked r : keepsly (reset_if_asked r).
Proof. unfold reset_if_asked. by_steps. Qed.
Lemma keeps_cdc_admission : keepsly (cfg_command_admission_open recorder_cdc_config).
Proof. cbn [recorder_cdc_config cfg_command_admission_open]. by_steps. Qed.
#[local] Hint Resolve keeps_reset_if_asked keeps_cdc_admission : release.

Lemma serves_byte_pass batch st : serves (byte_pass J recorder_cdc_config batch st).
Proof.
  unfold byte_pass. destruct st.1 as [|byte rest]; [apply serves_done|].
  apply serves_bind; [apply serves_keeps; unfold cdc_down; by_steps|]. intros refused.
  destruct refused; [apply serves_keeps; by_steps|].
  destruct (CdcCore.usb_cdc_protocol_framer_feed _ byte) as [[result [line len]] framer].
  assert (Hrun : forall g, serves (
    begun <- gate_call (SessionGate.usb_cdc_session_gate_command_begin g);
    if negb begun then again (rest, Receiver framer g) else
    execute_frame J recorder_cdc_config g line len ;;'
    (admitted <- cfg_command_admission_open recorder_cdc_config;
     if (admitted : bool) then again (rest, Receiver framer g) else leave (reset_framer (Receiver framer g)))
    : @prog dv ((bytes * receiver) + receiver))).
  { intros g. apply serves_bind; [apply serves_keeps; by_steps|]. intros [|]; cbn [negb]; [|apply serves_done].
    apply serves_bind; [apply serves_execute_frame|]. intros _. apply serves_keeps. by_steps. }
  destruct result; [apply serves_done|apply Hrun..].
Qed.

Lemma serves_worker_thread : serves (worker_thread (J := J)).
Proof.
  unfold worker_thread. apply serves_loop; [intros []; apply serves_keeps; by_steps|]. intros [].
  unfold usb_cdc_worker_task. apply serves_loop; [|by intros []; apply serves_done]. intros r. unfold worker_pass.
  apply serves_bind; [apply serves_keeps; by_steps|]. intros r1. apply serves_loop; [|intros; apply serves_done].
  clear r r1. intros r. unfold batch_pass.
  do 2 (apply serves_bind; [apply serves_keeps; by_steps|intros ?]).
  apply serves_bind; [apply serves_keeps; unfold transport; by_steps|]. intros [[|byte chunk]|]; [| |apply serves_done].
  - apply serves_keeps. by_steps.
  - apply serves_bind; [apply serves_keeps; by_steps|]. intros r1.
    apply serves_bind; [apply serves_keeps; unfold cdc_down; by_steps|]. intros [|]; [apply serves_done|].
    apply serves_loop; [intros; apply serves_byte_pass|intros; apply serves_done].
Qed.

(** *** The coordinator *)

Lemma order_coord_step {X A} (f : st dv X) (k : X -> @prog dv A) s (Q : A -> claim -> Prop) :
  (forall w m d, facts s w m d -> exists s', facts s' w m (f d).2 /\ ok (k (f d).1) (LC s') Q) ->
  ok (Atomic (fun _ => f) k) (LC s) Q.
Proof.
  intros Hf flip d ls i Hi Hd. destruct (order_at_coord _ _ _ _ Hi Hd) as (w & m & Hfacts & Hset).
  destruct (Hf w m d Hfacts) as (s' & Hf' & Hk). exists (LC s'). split; [by apply Hset|done].
Qed.

Definition coordinating (l : claim) : Prop := exists s, l = LC s.

Tactic Notation "any_step" := apply ok_keeps_bind; [by_steps|intros ?]; cbn beta zeta.
Tactic Notation "any_step" ident(x) := apply ok_keeps_bind; [by_steps|intros x]; cbn beta zeta.
Ltac any_rest := apply order_keeps; [by_steps|by intros; eexists].

Lemma bit_of_land b : negb (Z.land b USB_BIT_RELEASE_REQUESTED =? 0) = true -> Z.testbit b 3 = true.
Proof.
  intros Hb. destruct (Z.testbit b 3) eqn:E; [done|]. exfalso.
  apply negb_true_iff, Z.eqb_neq in Hb. apply Hb. apply Z.bits_inj'. intros n Hn.
  rewrite Z.land_spec, Z.bits_0. change USB_BIT_RELEASE_REQUESTED with (2 ^ 3).
  destruct (decide (n = 3)) as [->|Hne]; [by rewrite E|]. rewrite Z.pow2_bits_false by lia. apply andb_false_r.
Qed.

Lemma select_release bits s :
  select_event bits = (s, USB_MSC_EVENT_RELEASE_REQUESTED) ->
  s = USB_BIT_RELEASE_REQUESTED /\ Z.testbit bits 3 = true.
Proof.
  unfold select_event. repeat case_match; intros [=]; subst. split; [done|]. by apply bit_of_land.
Qed.

#[local] Instance event_eq_dec : EqDecision usb_msc_ownership_event_t.
Proof. solve_decision. Defined.

(** The event of a completed response is taken once. *)
Lemma ok_wait_event s (Q : usb_msc_ownership_event_t -> claim -> Prop) :
  (forall e s, e <> USB_MSC_EVENT_RELEASE_REQUESTED -> Q e (LC s)) ->
  Q USB_MSC_EVENT_RELEASE_REQUESTED (LC CAnswered) ->
  ok usb_msc_ownership_wait_event (LC s) Q.
Proof.
  intros Hany Hrel. unfold usb_msc_ownership_wait_event. any_step. destruct a; [cbn [ok]; by apply Hany|].
  apply order_coord_step. intros w m d Hf. rewrite read_usb. cbn [fst snd pbind].
  destruct (select_event (default 0 (s_usb_events (usbs d)))) as [sel e] eqn:Hsel.
  destruct (decide (e = USB_MSC_EVENT_RELEASE_REQUESTED)) as [->|He].
  2: { exists s. split; [done|]. any_step. cbn [ok]. by apply Hany. }
  apply select_release in Hsel as [-> Hbit]. exists CSeen. split.
  { destruct Hf as [Hr Hb Hbe Hc Hk Hm]. split; try done. by apply Hb. }
  clear w m d Hf Hbit. apply ok_bind.
  change (negb (USB_BIT_RELEASE_REQUESTED =? 0)) with true. cbn [when].
  apply order_coord_step. intros w m d [Hr Hb Hbe Hc Hk Hm]. rewrite on_usb_run. exists CAnswered. split; [|done].
  assert (Hclear : requested_bit (clear_bits USB_BIT_RELEASE_REQUESTED (usbs d)) = false).
  { unfold requested_bit. cbn. destruct (s_usb_events (usbs d)); cbn; [|done].
    rewrite Z.ldiff_spec. apply andb_false_r. }
  by split.
Qed.

(** A note of the coordinator: the machine steps from what the claim says. *)
Lemma machine_note s s' w m d n p q :
  facts s w m d -> phase_now d = Some p -> phase_step n p = Some q ->
  gate_open p = false -> gate_open q = false -> requested_bit (usbs d) = false ->
  (forall id, p <> GateClosedFor id /\ p <> Sent id) ->
  (phase_now (on_history n d : unit * dv).2 = Some q -> coord_fact s' (on_history n d : unit * dv).2) ->
  facts s' w m (on_history n d : unit * dv).2.
Proof.
  intros [(p0 & Hn & Hpe) Hb Hbe Hc Hk Hm] Hp Hstep Hop Hoq Hbit Hnc Hs.
  assert (p0 = p) as -> by congruence.
  assert (Hnow : phase_now (on_history n d : unit * dv).2 = Some q).
  { change (phase_next n (phase_now d) = Some q). by rewrite Hp. }
  assert (Hready : ready_now d = true).
  { destruct (ready_now d) eqn:E; [done|]. specialize (Hbe eq_refl). rewrite Hp in Hbe. by simplify_eq. }
  split; [| | |by apply Hs| |].
  - exists q. split; [done|]. by rewrite Hoq, <- Hop.
  - intros Hset. cbn in Hset. congruence.
  - intros Hr. cbn in Hr. unfold ready_now in *. cbn in *. congruence.
  - destruct w; cbn in *; try done;
      match goal with Hx : phase_now d = Some (_ ?x) |- _ => destruct (Hnc x) as (? & ?); congruence end.
  - by destruct m.
Qed.

Lemma ok_stopped (Q : unit -> claim -> Prop) :
  Q tt (LC CStopped) -> ok (note StackStopped) (LC CAnswered) Q.
Proof.
  intros HQ. apply order_coord_step. intros w m d Hf. exists CStopped. split; [|done].
  destruct (fact_coord _ _ _ _ Hf) as [[id Hp] Hbit]. eapply machine_note; [done..|]. by exists id.
Qed.

Lemma closed_bit s w m d p :
  facts s w m d -> phase_now d = Some p -> (forall id, p <> Answered id) -> requested_bit (usbs d) = false.
Proof.
  intros Hf Hp Hn. apply not_true_is_false. intros Hb.
  destruct (fact_bit _ _ _ _ Hf Hb) as [id Hid]. rewrite Hp in Hid. simplify_eq. by destruct (Hn id).
Qed.

Lemma ok_committed (Q : unit -> claim -> Prop) :
  Q tt (LC CArmed) -> ok (note ShutdownCommitted) (LC CStopped) Q.
Proof.
  intros HQ. apply order_coord_step. intros w m d Hf. exists CArmed. split; [|done].
  destruct (fact_coord _ _ _ _ Hf) as [id Hp]. pose proof (closed_bit _ _ _ _ _ Hf Hp ltac:(done)).
  eapply machine_note; [done..|]. by exists id.
Qed.

Lemma ok_reopened (Q : unit -> claim -> Prop) :
  Q tt (LC CIdle) ->
  ok (usb_noted (modify (set_usb_flag s_release_pending false)) (fun _ => Some GateReopened)) (LC CArmed) Q.
Proof.
  intros HQ. apply order_coord_step. intros w m d Hf. exists CIdle. split; [|done].
  destruct (fact_coord _ _ _ _ Hf) as [id Hp]. pose proof (closed_bit _ _ _ _ _ Hf Hp ltac:(done)) as Hbit.
  destruct Hf as [_ _ _ _ Hk Hm]. unfold bind. rewrite on_usb_run.
  set (d' := (on_history GateReopened (with_usb (modify (set_usb_flag s_release_pending false) (usbs d)).2 d)).2 : dv).
  assert (Hnow : phase_now d' = Some GateOpen).
  { change (phase_next GateReopened (phase_now d) = Some GateOpen). by rewrite Hp. }
  change (facts CIdle w m d'). split; try done.
  - exists GateOpen. split; [done|]. unfold pending_now. cbn. by rewrite fn_lookup_insert.
  - intros Hset. cbn in Hset. unfold requested_bit in *. cbn in Hset. congruence.
  - destruct w; cbn in Hk |- *; unfold ready_now in *; try congruence; done.
Qed.

Lemma order_quiesce (Q : esp_err_t -> claim -> Prop) :
  (forall e s, Q e (LC s)) -> ok usb_msc_ownership_complete_release_quiesce (LC CAnswered) Q.
Proof.
  intros HQ. unfold usb_msc_ownership_complete_release_quiesce. any_step. destruct a; [cbn [ok]; apply HQ|].
  any_step. destruct (is_ok a); cbn [negb]; [|any_step; cbn [ok]; apply HQ].
  apply ok_bind, ok_stopped. any_step. any_step. destruct (is_ok a1); cbn [negb]; [|any_step; cbn [ok]; apply HQ].
  any_step. destruct (is_ok a2); cbn [negb]; [|any_step; cbn [ok]; apply HQ].
  apply ok_bind, ok_committed, ok_bind. unfold quiesce_reset. do 2 any_step.
  apply ok_bind, ok_reopened. do 8 any_step. apply order_keeps; [by_steps|]. intros _. apply HQ.
Qed.

Lemma order_release : ok recorder_handle_usb_release (LC CAnswered) (fun _ => coordinating).
Proof.
  unfold recorder_handle_usb_release. any_step. destruct a; cbn [negb]; [|any_rest].
  do 2 any_step. apply ok_bind, order_quiesce. intros e s. any_rest.
Qed.

Lemma order_coordinator_thread : ok coordinator_thread (LC CIdle) (fun _ _ => True).
Proof.
  exists (fun _ => coordinating), (fun _ => coordinating). split_and!; [by eexists|..].
  { intros ? l [s ->]. apply order_keeps; [by_steps|]. intros [a|a]; by eexists. }
  intros ? l [s ->]. exists (fun _ => coordinating), (fun _ => coordinating).
  split_and!; [by eexists| |done]. intros ? l [s' ->]. unfold usb_event_pass.
  assert (Hend : forall l2, coordinating l2 ->
    ok (recorder_flush_usb_scsi_trace ;;' again tt : task (unit + unit)) l2
      (fun r l' => match r with inl _ => coordinating l' | inr _ => coordinating l' end)).
  { intros l2 [s2 ->]. any_step. by eexists. }
  apply ok_bind, ok_wait_event.
  - intros e s2 He. apply ok_bind. eapply ok_mono; [instantiate (1 := fun _ => coordinating)|intros ? ?; apply Hend].
    destruct e; cbn [handle_event]; try done; any_rest.
  - apply ok_bind. eapply ok_mono; [apply order_release|intros ? ?; apply Hend].
Qed.

(** *** The boot *)

Lemma ok_main_step {X A} (f : st dv X) (k : X -> @prog dv A) s (Q : A -> claim -> Prop) :
  (forall c w d, facts c w s d -> exists s', facts c w s' (f d).2 /\ ok (k (f d).1) (LM s') Q) ->
  ok (Atomic (fun _ => f) k) (LM s) Q.
Proof.
  intros Hf flip d ls i Hi Hd. destruct (at_main _ _ _ _ Hi Hd) as (c & w & Hfacts & Hset).
  destruct (Hf c w d Hfacts) as (s' & Hf' & Hk). exists (LM s'). split; [by apply Hset|done].
Qed.

Lemma keeps_events (o : option Z) : o = None \/ o = Some 0 -> keepsly (usb (modify (set_events o))).
Proof.
  intros Ho. split; [intros _|done]. apply calm_keeps, quiet_usb. intros u. split; try done.
  by destruct Ho as [-> | ->].
Qed.

(** Nothing is closed before the initialisation. *)
Lemma ok_store_open (Q : unit -> claim -> Prop) :
  Q tt (LM MBefore) -> ok (store s_release_pending false) (LM MBefore) Q.
Proof.
  intros HQ. apply ok_main_step. intros c w d Hf. exists MBefore. split; [|done].
  pose proof (fact_before _ _ _ _ Hf (fact_main _ _ _ _ Hf)) as Hopen.
  destruct (fact_run _ _ _ _ Hf) as (p & Hn & Hpe). rewrite Hopen in Hn. simplify_eq. cbn in Hpe.
  eapply quiet_facts; [|exact Hf]. rewrite on_usb_run. split; [|done].
  split; cbn; rewrite ?fn_lookup_insert, ?fn_lookup_insert_ne by done; done.
Qed.

Lemma ok_store_ready (Q : unit -> claim -> Prop) :
  Q tt (LM MAfter) -> ok (store s_initialized true) (LM MBefore) Q.
Proof.
  intros HQ. apply ok_main_step. intros c w d [Hr Hb Hbe Hc Hk Hm]. exists MAfter. split; [|done].
  rewrite on_usb_run. unfold ready_now in *.
  assert (Hset : usb_flags (usbs (with_usb (modify (set_usb_flag s_initialized true) (usbs d)).2 d)) s_initialized = true)
    by (cbn; by rewrite fn_lookup_insert).
  split; try done.
  by destruct w.
Qed.

Definition booting (l : claim) : Prop := exists s, l = LM s.

Lemma ok_init (Q : esp_err_t -> claim -> Prop) :
  (forall e s, Q e (LM s)) -> ok usb_msc_ownership_init (LM MBefore) Q.
Proof.
  intros HQ. unfold usb_msc_ownership_init.
  any_step ready. destruct ready; [cbn [ok]; apply HQ|].
  any_step mounted. destruct mounted; cbn [negb ok]; [|apply HQ]. any_step created.
  apply ok_keeps_bind; [apply keeps_events; destruct created; auto|intros _].
  destruct created; cbn [negb ok]; [|apply HQ]. any_step err. destruct (is_ok err); cbn [negb].
  2: { apply ok_keeps_bind; [apply keeps_events; auto|intros _]. cbn [ok]. apply HQ. }
  do 4 any_step. apply ok_bind, ok_store_open. do 8 any_step. apply ok_bind, ok_store_ready. cbn [ok]. apply HQ.
Qed.

Lemma ok_start_usb : ok start_usb (LM MBefore) (fun _ => booting).
Proof. unfold start_usb. apply ok_bind, ok_init. intros e s. any_rest. Qed.

Lemma ok_boot_recorder resume : ok (boot_recorder resume) (LM MBefore) (fun _ => booting).
Proof.
  unfold boot_recorder. any_step. any_step err. destruct (is_ok err); cbn [negb]; [|any_rest].
  any_step created. destruct created; cbn [negb]; [|any_rest].
  any_step recording. destruct recording; cbn [negb]; [|any_rest].
  any_step err'. destruct (is_ok err'); cbn [negb]; [|any_rest].
  any_step allowed. destruct allowed; cbn [negb]; [apply ok_start_usb|any_rest].
Qed.

Lemma ok_app_main : ok app_main (LM MBefore) (fun _ _ => True).
Proof.
  eapply ok_mono; [instantiate (1 := fun _ => booting)|done]. unfold app_main.
  any_step err. destruct (is_ok err); cbn [negb]; [|by eexists].
  any_step err'. destruct (is_ok err'); cbn [negb]; [|any_rest].
  any_step woken. any_step gate. destruct (is_ok gate.1); cbn [negb]; [|any_rest].
  destruct gate.2; [apply ok_boot_recorder|any_rest|apply ok_boot_recorder].
Qed.

(** ** The theorem *)

Lemma firmware_ordered nvs_random slot0 slot1 callbacks h p r n card_ :
  pool_ok ordered (firmware (J := J) nvs_random slot0 slot1 callbacks) (powered_on h p r n card_).
Proof.
  exists (LC CIdle :: LO :: LO :: LM MBefore :: LK KIdle :: replicate (2 + length callbacks) LO).
  split; [|split].
  - cbn. by rewrite length_map, length_replicate.
  - exists CIdle, KIdle, MBefore, (replicate (2 + length callbacks) LO).
    split_and!; [done|by apply Forall_replicate|]. split; cbn; try done. by exists GateOpen.
  - intros i q l Hq Hl. destruct i as [|[|[|[|[|i]]]]]; cbn in Hq, Hl; simplify_eq.
    + apply order_coordinator_thread.
    + apply order_keeps; [unfold writer_thread; by_steps|done].
    + apply order_keeps; [unfold base_thread; by_steps|done].
    + apply ok_app_main.
    + eapply ok_mono; [apply serves_worker_thread|done].
    + apply order_keeps; [|done].
      assert (Hall : Forall (fun q : task unit => keepsly q)
        (after_creation rec_capture recorder_capture_task ::
         after_creation rec_battery recorder_battery_task :: map (run_in_turn run_stack_call) callbacks)).
      { repeat (apply Forall_cons; split); [by_steps..|].
        apply Forall_map, Forall_true. intros cs. apply steps_in_turn. intros; by_steps. }
      rewrite Forall_lookup in Hall. by eapply Hall.
Qed.

End release.

(** ** Witness: a release on the bench *)

Abbreviation release_run :=
  (run to_release (firmware (J := CdcCore.tiny_json) bench_random [] [] [bench_callbacks; bench_host])
     (powered_on Ours bench_pc tt blank_settings blank_card)).2.

