(* ===== verification/AudioPath.v ===== *)
(** * AudioPath: from the microphone to the files, without a gap

    What the capture task reads, the ring buffer holds and the writer stores,
    for every schedule of the threads of Device and every fault.  The stream is
    followed through the history: the reads of the microphone, the buffers the
    sink accepted, and the card's files when a segment is opened and finalized.
    As in Handover, the proof is one invariant and a claim per thread; all the
    other threads take [calm] steps. *)

From stdpp Require Import functions.
From S2P Require Import Prelude Monad Nvs ShutdownArmed WakeRecovery Stdio RecorderConfig.
From S2P Require Import RecorderState PcmPipeline WavPart WavRotation Interleave.
From S2P Require Import SdMount UsbOwnership Recorder CdcSession Calls CdcWorker.
From S2P Require Import Coordinator Device Bench.
From S2P Require CdcCore SessionGate DeviceIdentity.
Open Scope prog_scope.

#[local] Arguments Z.to_nat : simpl never.

(** ** The stream in a history *)

Definition recorder_notes : list (usb_note + rec_note) -> list rec_note :=
  omap (fun n => match n with inl _ => None | inr r => Some r end).

(** What the microphone gave, oldest byte first. *)
Fixpoint heard (ns : list rec_note) : bytes :=
  match ns with
  | [] => []
  | MicRead got :: ns => heard ns ++ got
  | _ :: ns => heard ns
  end.

(** The same without the latest read. *)
Fixpoint heard_before (ns : list rec_note) : bytes :=
  match ns with
  | [] => []
  | MicRead _ :: ns => heard ns
  | _ :: ns => heard_before ns
  end.

(** What the sink accepted. *)
Fixpoint stored (ns : list rec_note) : bytes :=
  match ns with
  | [] => []
  | AudioWritten true chunk :: ns => stored ns ++ chunk
  | _ :: ns => stored ns
  end.

Definition boundary (n : rec_note) : Prop :=
  match n with SegmentOpened _ _ | SegmentFinalized _ _ => True | _ => False end.

Definition write_failed (n : rec_note) : Prop :=
  match n with AudioWritten false _ => True | _ => False end.

(** The file of a segment with the audio [pcm]: a header that says so, and the
    audio; behind it nothing, unless a write was cut short. *)
Definition segment_file (wav pcm : bytes) (cut : Prop) (d : disk) : Prop :=
  exists junk, d !! wav = Some (NFile (recorder_header (zlen pcm) ++ pcm ++ junk)) /\
    (~ cut -> junk = []).

(** The audio, and one more buffer, fit a WAV file. *)
Definition audio_fits (pcm : bytes) : Prop := zlen pcm + RECORDER_BUFFER_BYTES < 4294967296 - 44.

(** Whether a segment was opened and is not finalized. *)
Fixpoint in_segment (ns : list rec_note) : bool :=
  match ns with
  | [] => false
  | SegmentOpened _ _ :: _ => true
  | SegmentFinalized _ _ :: _ => false
  | _ :: ns => in_segment ns
  end.

(** Every buffer was written into the file of a segment. *)
Fixpoint audio_in_segments (ns : list rec_note) : Prop :=
  match ns with
  | [] => True
  | AudioWritten _ _ :: ns => in_segment ns = true /\ audio_in_segments ns
  | _ :: ns => audio_in_segments ns
  end.

(** Every segment that was finalized since its opening held, then, what the
    sink had accepted since: when its name was free and the audio fits. *)
Definition finalized_hold (ns : list rec_note) : Prop :=
  forall newer wav d1 since d0 older,
  ns = newer ++ SegmentFinalized wav d1 :: since ++ SegmentOpened wav d0 :: older ->
  Forall (fun n => ~ boundary n) since ->
  d0 !! wav = None -> audio_fits (stored since) ->
  segment_file wav (stored since) (Exists write_failed since) d1.

Definition files_hold (ns : list rec_note) : Prop := audio_in_segments ns /\ finalized_hold ns.

(** ** What a step may change *)

Section audio.
Context {H P R N : Type} `{UsbPlatform H}.
Context `{RecorderPlatform P, CdcPlatform P, PowerPlatform P}.
Context `{NvsOps N bytes, RtcFlush R N, RtcService R N}.
Context {J : Type} `{!CdcCore.Cjson J}.

Abbreviation dv := (device H P R N).
Abbreviation task := (@prog dv).

(** Only counters of the pipeline changed. *)
Record counts_only (p p' : pcm_pipeline_t) : Prop := CountsOnly {
  co_slot0 : slot0 p' = slot0 p;
  co_slot1 : slot1 p' = slot1 p;
  co_read : read_index p' = read_index p;
  co_write : write_index p' = write_index p;
  co_counters : counters_wf (counters p) -> counters_wf (counters p');
}.

(** Only the event log changed. *)
Definition log_only (c c' : Stdio.world) : Prop :=
  forall q, q <> RECORDER_EVENTS_PATH -> w_disk c' !! q = w_disk c !! q.

(** The audio and the tasks that handle it are left alone. *)
Record loose (r r' : recorder) : Prop := Loose {
  loose_counts : counts_only (s_pipeline r) (s_pipeline r');
  loose_writer : spawned r' rec_writer = spawned r rec_writer;
  loose_capture : spawned r' rec_capture = spawned r rec_capture;
}.

(** And the card, but for the log. *)
Definition quiet (r r' : recorder) : Prop := loose r r' /\ log_only (card r) (card r').

#[local] Instance counts_preorder : PreOrder counts_only.
Proof. split; [by split|]. intros p1 p2 p3 [] []. split; [congruence..|auto]. Qed.

#[local] Instance log_only_preorder : PreOrder log_only.
Proof. split; [by intros c q|]. intros c1 c2 c3 H12 H23 q Hq. by rewrite H23, H12. Qed.

#[local] Instance loose_preorder : PreOrder loose.
Proof.
  split; [by split|]. intros r1 r2 r3 [] []. split; [by etransitivity|congruence..].
Qed.

#[local] Instance quiet_preorder : PreOrder quiet.
Proof. split; [by split|]. intros r1 r2 r3 [] []. by split; etransitivity. Qed.

(** Steps of the device that change the recorder by [Rel] and add no note on
    the audio. *)
Record keeps_audio (Rel : recorder -> recorder -> Prop) (d d' : dv) : Prop := KeepsAudio {
  ka_rec : Rel (rcd d) (rcd d');
  ka_notes : recorder_notes (history d') = recorder_notes (history d);
}.

Abbreviation calm := (keeps_audio quiet).

#[local] Instance keeps_audio_preorder Rel `{!PreOrder Rel} : PreOrder (keeps_audio Rel).
Proof. split; [by split|]. intros d1 d2 d3 [] []. split; [by etransitivity|congruence]. Qed.

Section steps.
Context (Rel : recorder -> recorder -> Prop) `{!PreOrder Rel}.

Lemma ka_usb {X} (m : st usb_state X) : along (keeps_audio Rel) (on_usb m : st dv X).
Proof. intros d. unfold on_usb. cbn. unfold dv_usb. by destruct (m (usbs d)). Qed.
Lemma ka_sd {X} (m : st sd_state X) : along (keeps_audio Rel) (on_sd m : st dv X).
Proof. intros d. unfold on_sd. cbn. unfold dv_sd. by destruct (m (sd d)). Qed.
Lemma ka_hw {X} (m : st H X) : along (keeps_audio Rel) (on_hw m : st dv X).
Proof. intros d. unfold on_hw. cbn. unfold dv_hw. by destruct (m (hw d)). Qed.
Lemma ka_dev {X} (m : st P X) : along (keeps_audio Rel) (on_dev m : st dv X).
Proof. intros d. unfold on_dev. cbn. unfold dv_dev. by destruct (m (devices d)). Qed.
Lemma ka_cdc {X} (m : st cdc_state X) : along (keeps_audio Rel) (on_cdc m : st dv X).
Proof. intros d. unfold on_cdc. cbn. unfold dv_cdc. by destruct (m (link d)). Qed.
Lemma ka_wake {X} (m : st (wake_world R N) X) : along (keeps_audio Rel) (on_wake m : st dv X).
Proof. intros d. unfold on_wake. cbn. unfold dv_wake. by destruct (m (wakeup d)). Qed.
Lemma ka_note n : along (keeps_audio Rel) (on_history n : st dv unit).
Proof. intros d. by split. Qed.
Lemma ka_recorder {X} (m : st recorder X) : along Rel m -> along (keeps_audio Rel) (on_rec m : st dv X).
Proof.
  intros Hm d. unfold on_rec. cbn. unfold dv_rec. specialize (Hm (rcd d)). by destruct (m (rcd d)).
Qed.
End steps.

Lemma loose_same r r' :
  counts_only (s_pipeline r) (s_pipeline r') -> spawned r' = spawned r -> loose r r'.
Proof. intros Hp E. split; [done|congruence..]. Qed.

Lemma quiet_same r r' :
  counts_only (s_pipeline r) (s_pipeline r') -> spawned r' = spawned r -> card r' = card r -> quiet r r'.
Proof. intros Hp E1 E2. split; [by apply loose_same|]. intros q _. by rewrite E2. Qed.

(** The counters of the pipeline. *)
Lemma counts_overflow p e b : counts_only p (pcm_pipeline_note_driver_overflow p e b).
Proof. unfold pcm_pipeline_note_driver_overflow. destruct (_ && _); [done|]. split; try done. by intros []. Qed.
Lemma counts_stall p : counts_only p (pcm_pipeline_note_read_stall p).
Proof. split; try done. by intros []. Qed.
Lemma counts_sd_error p : counts_only p (pcm_pipeline_note_sd_error p).
Proof. split; try done. by intros []. Qed.
Lemma counts_sd_write p t : counts_only p (pcm_pipeline_note_sd_write p t).
Proof. unfold pcm_pipeline_note_sd_write. destruct (_ <? _); [|done]. split; try done. by intros []. Qed.
Lemma counts_account stalled snap p : counts_only p (account_read stalled snap p).
Proof.
  unfold account_read. transitivity (if stalled && negb (pending snap) then pcm_pipeline_note_read_stall p else p).
  - destruct (_ && _); [apply counts_stall|done].
  - destruct (pending snap); [apply counts_overflow|done].
Qed.

Create HintDb audio discriminated.
#[local] Hint Resolve counts_overflow counts_stall counts_sd_error counts_sd_write counts_account : audio.

(** The event log. *)
Lemma append_log_only t from to reason mv :
  along log_only (recorder_state_append_event RECORDER_EVENTS_PATH t from to reason mv).
Proof.
  intros c q Hq.
  enough (Hwp : wp (recorder_state_append_event RECORDER_EVENTS_PATH t from to reason mv)
    (fun _ c' => w_disk c' !! q = w_disk c !! q) c) by exact Hwp.
  unfold recorder_state_append_event. wp_auto; worlds; cbn in *; worlds; rewrite ?lookup_insert_ne by done; done.
Qed.

Lemma quiet_append t from to reason mv :
  along quiet (on_card (recorder_state_append_event RECORDER_EVENTS_PATH t from to reason mv)).
Proof.
  intros r. pose proof (append_log_only t from to reason mv (card r)) as Hc. unfold on_card.
  destruct (recorder_state_append_event _ _ _ _ _ _ _) as [ok c]. by split; [apply loose_same|].
Qed.

Lemma loose_card {X} (m : io X) : along loose (on_card m).
Proof. intros r. unfold on_card. by destruct (m (card r)). Qed.

Lemma quiet_spawn t : t <> rec_writer -> t <> rec_capture -> along quiet (modify (set_spawned t)).
Proof.
  intros H1' H2' r. split; [|done]. split; cbn; [done|..]; by rewrite fn_lookup_insert_ne.
Qed.

(** ** The threads that leave the audio alone *)

Ltac rec_step :=
  lazymatch goal with
  | |- along _ (get _) => apply along_get, _
  | |- along _ (modify (set_spawned _)) => apply quiet_spawn; discriminate
  | |- along loose (modify _) => intros ?; cbn [modify snd]; try case_match; (apply loose_same; [cbn; first [done|solve [auto with audio nocore]]|done])
  | |- along loose (on_card _) => apply loose_card
  | |- along loose (fun _ => on_card _ _) => intros ?; apply loose_card
  | |- along _ (modify _) => intros ?; cbn [modify snd]; try case_match; (apply quiet_same; [cbn; first [done|solve [auto with audio nocore]]|done..])
  | |- along _ (fun _ => on_card _ _) => intros ?; apply quiet_append
  end.
Ltac along_step :=
  lazymatch goal with
  | |- along _ (on_usb _) => apply ka_usb, _
  | |- along _ (on_history _) => apply ka_note, _
  | |- along _ (on_answer_sent _) => apply (ka_note _ (AnswerSent _))
  | |- along _ (on_dev _) => apply ka_dev, _
  | |- along _ (on_cdc _) => apply ka_cdc, _
  | |- along _ (on_session_gate _) => apply ka_cdc, _
  | |- along _ (on_cdc_platform _) => apply ka_dev, _
  | |- along _ (on_hw _) => apply ka_hw, _
  | |- along _ (on_sd _) => apply ka_sd, _
  | |- along _ (on_nvs _) => apply ka_wake, _
  | |- along _ (on_wake _) => apply ka_wake, _
  | |- along _ (on_rec _) => apply ka_recorder; rec_step
  | |- along _ (transition_locked _ _ _) => unfold transition_locked, append_state_event
  | |- along _ (bind _ _) => apply along_bind; [exact _| |intros ?]
  | |- along _ (ret _) => apply along_ret, _
  | |- along _ (match ?x with _ => _ end) => destruct x
  end.
Ltac calm_leaf :=
  first [ solve [eauto with audio nocore] | unfold_leaf ltac:(fun _ => repeat along_step) ].
Ltac by_steps := walk calm_leaf.

Abbreviation calmly p := (all_steps (fun X => along calm) p).

Lemma calm_gate_call {X} (p : @prog SessionGate.gate_world X) : calmly (gate_call p).
Proof. apply all_steps_lift. intros Y f. apply ka_cdc, _. Qed.

Lemma calm_read_trace vars : forall seen, calmly (read_trace vars seen).
Proof. induction vars as [|v vars IH]; intros seen; cbn [read_trace]; by_steps. Qed.

#[local] Hint Resolve calm_gate_call calm_read_trace : audio.

Lemma calm_transition next reason mv : calmly (recorder_transition_state next reason mv).
Proof. by_steps. Qed.

Lemma calm_error reason : calmly (recorder_enter_error reason).
Proof. by_steps. Qed.

#[local] Hint Resolve calm_transition calm_error : audio.

Lemma calm_battery : calmly (after_creation rec_battery recorder_battery_task).
Proof. by_steps. Qed.

Lemma calm_app_main : calmly app_main.
Proof. by_steps. Qed.

Lemma calm_coordinator : calmly coordinator_thread.
Proof. by_steps. Qed.

Lemma calm_worker : calmly (worker_thread (J := J)).
Proof. by_steps. Qed.

Lemma calm_stack_call c : calmly (run_stack_call c).
Proof. by_steps. Qed.

(** ** The invariant *)

(** What the writer holds of the ring buffer: nothing, the full slot it looked
    at, or one it has stored and not yet released. *)
Inductive held := HNone | HPeeked (i : bool) | HStored (i : bool).

(** The file being written: none yet, of a writer that may not exist; none; open on the card, not yet announced; open and
    sound; open but shut for audio, with [junk] behind it; finalized; or lost. *)
Inductive file_stage :=
  | FUnborn
  | FIdle
  | FReady (part wav : bytes) (k : sd_pcm_sink_t)
  | FOpen (part wav pcm : bytes) (k : sd_pcm_sink_t)
  | FShut (part wav pcm junk : bytes) (k : sd_pcm_sink_t)
  | FFinal (wav pcm junk : bytes)
  | FDead.

(** The capture task: nothing read that is not in the buffer; a read in hand;
    or no more reads. *)
Inductive mic := MUnborn | MIdle | MGot (got : bytes) | MDone.

(** The recorder's boot: before and behind the initialisation of the buffer. *)
Inductive boot := BUninit | BReady.

Inductive claim := LW (h : held) (f : file_stage) | LM (m : mic) | LB (b : boot) | LO.

Abbreviation notes d := (recorder_notes (history d)).
Abbreviation ring d := (s_pipeline (rcd d)).
Abbreviation files d := (w_disk (card (rcd d))).

(** The part of the buffer that is not stored. *)
Definition unstored (h : held) (p : pcm_pipeline_t) : bytes :=
  match h with HStored _ => drop (Z.to_nat CAP) (queued p) | _ => queued p end.

Definition held_fact (h : held) (p : pcm_pipeline_t) : Prop :=
  match h with HNone => True | HPeeked i | HStored i => full_index p = Some i end.

(** [taken]: the audio that went into the buffer. *)
Definition mic_fact (m : mic) (taken : bytes) (ns : list rec_note) : Prop :=
  match m with
  | MUnborn | MIdle => taken = heard ns
  | MGot got => heard ns = taken ++ got /\ heard_before ns = taken
  | MDone => heard_before ns `prefix_of` taken /\ taken `prefix_of` heard ns
  end.

Definition unopened (ns : list rec_note) : Prop :=
  forall since wav d0 older, ns = since ++ SegmentOpened wav d0 :: older ->
  Exists boundary since.

(** The latest segment is [wav]: opened when the files were [d0], not finalized,
    and the sink accepted [pcm] since. *)
Definition open_since (wav : bytes) (d0 : disk) (pcm junk : bytes) (ns : list rec_note) : Prop :=
  exists since older, ns = since ++ SegmentOpened wav d0 :: older /\
    Forall (fun n => ~ boundary n) since /\ stored since = pcm /\
    (~ Exists write_failed since -> junk = []).

Definition names_apart (part wav : bytes) : Prop :=
  part <> wav /\ part <> RECORDER_EVENTS_PATH /\ wav <> RECORDER_EVENTS_PATH.

Definition file_fact (f : file_stage) (ns : list rec_note) (c : Stdio.world) : Prop :=
  match f with
  | FUnborn | FIdle => unopened ns
  | FReady part wav k => unopened ns /\ names_apart part wav /\ sink_inv part [] k c
  | FOpen part wav pcm k => names_apart part wav /\ exists d0, open_since wav d0 pcm [] ns /\
      (audio_fits pcm -> sink_inv part pcm k c /\ (d0 !! wav = None -> w_disk c !! wav = None))
  | FShut part wav pcm junk k => names_apart part wav /\ exists d0, open_since wav d0 pcm junk ns /\
      (audio_fits pcm -> sink_live part (pcm ++ junk) k c /\ pcm_bytes (WavPart.wav k) = zlen pcm /\
         (d0 !! wav = None -> w_disk c !! wav = None))
  | FFinal wav pcm junk => wav <> RECORDER_EVENTS_PATH /\ exists d0, open_since wav d0 pcm junk ns /\
      (audio_fits pcm -> d0 !! wav = None ->
       w_disk c !! wav = Some (NFile (recorder_header (zlen pcm) ++ pcm ++ junk)))
  | FDead => True
  end.

Record facts (h : held) (f : file_stage) (b : boot) (m : mic) (d : dv) : Prop := Facts {
  fact_boot : b = BUninit -> h = HNone /\ f = FUnborn /\ m = MUnborn /\
    spawned (rcd d) rec_writer = false /\ spawned (rcd d) rec_capture = false /\ queued (ring d) = [];
  fact_wf : b = BReady -> wf (ring d);
  fact_held : held_fact h (ring d);
  fact_tape : exists taken, taken = stored (notes d) ++ unstored h (ring d) /\ mic_fact m taken (notes d);
  fact_file : file_fact f (notes d) (card (rcd d));
  fact_files : files_hold (notes d);
}.

Definition audio (d : dv) (ls : list claim) : Prop :=
  exists h f b m rest, ls = LO :: LW h f :: LB b :: LO :: LO :: LM m :: rest /\
    Forall (eq LO) rest /\ facts h f b m d.

(** Which claim a thread has. *)
Ltac find_claim Hi Hrest :=
  repeat match type of Hi with
  | (_ :: _) !! ?i = _ => destruct i as [|i]; cbn in Hi; simplify_eq
  end; try (by rewrite Forall_lookup in Hrest; apply Hrest in Hi).

Lemma audio_at_writer h f d ls i :
  ls !! i = Some (LW h f) -> audio d ls ->
  exists b m, facts h f b m d /\
    forall h' f' d', facts h' f' b m d' -> audio d' (<[i := LW h' f']> ls).
Proof.
  intros Hi (h0 & f0 & b & m & rest & -> & Hrest & Hf). find_claim Hi Hrest.
  exists b, m. split; [done|]. intros h' f' d' Hf'. by exists h', f', b, m, rest.
Qed.

Lemma at_boot b d ls i :
  ls !! i = Some (LB b) -> audio d ls ->
  exists h f m, facts h f b m d /\ forall b' d', facts h f b' m d' -> audio d' (<[i := LB b']> ls).
Proof.
  intros Hi (h & f & b0 & m & rest & -> & Hrest & Hf). find_claim Hi Hrest.
  exists h, f, m. split; [done|]. intros b' d' Hf'. by exists h, f, b', m, rest.
Qed.

Lemma at_mic m d ls i :
  ls !! i = Some (LM m) -> audio d ls ->
  exists h f b, facts h f b m d /\ forall m' d', facts h f b m' d' -> audio d' (<[i := LM m']> ls).
Proof.
  intros Hi (h & f & b & m0 & rest & -> & Hrest & Hf). find_claim Hi Hrest.
  exists h, f, b. split; [done|]. intros m' d' Hf'. by exists h, f, b, m', rest.
Qed.

(** ** Steps that keep it *)

Lemma counts_queued p p' : counts_only p p' -> queued p' = queued p.
Proof.
  intros [E0 E1 Er Ew _]. unfold queued, slot. by rewrite E0, E1, Er, Ew.
Qed.

Lemma counts_full p p' : counts_only p p' -> full_index p' = full_index p.
Proof. intros [E0 E1 Er _ _]. unfold full_index, slot. by rewrite E0, E1, Er. Qed.

Lemma counts_wf p p' : counts_only p p' -> wf p -> wf p'.
Proof.
  intros [E0 E1 Er Ew Hc] [H0' H1' Hi Hcs]. split; [by rewrite E0|by rewrite E1| |auto].
  unfold indices_wf, slot in *. by rewrite E0, E1, Er, Ew.
Qed.

Lemma sink_inv_disk part pcm k c c' :
  w_disk c' !! part = w_disk c !! part -> sink_inv part pcm k c -> sink_inv part pcm k c'.
Proof. intros E [? []]. split; [done|]. split; try done. by rewrite E. Qed.

Lemma sink_live_disk part body k c c' :
  w_disk c' !! part = w_disk c !! part -> sink_live part body k c -> sink_live part body k c'.
Proof. intros E [? []]. split; [done|]. split; try done. by rewrite E. Qed.

Lemma file_fact_log f ns c c' : log_only c c' -> file_fact f ns c -> file_fact f ns c'.
Proof.
  intros Hc. destruct f as [| |part wav k|part wav pcm k|part wav pcm junk k|wav pcm junk|]; cbn; [done|done|..|done].
  - intros (Hu & (? & ? & ?) & Hk). split_and!; [done..|]. by eapply sink_inv_disk; [apply Hc|].
  - intros ((? & ? & ?) & d0 & Ho & Hk). split; [done|]. exists d0. split; [done|].
    intros Hfit. destruct (Hk Hfit) as [Hk' Hn]. split; [by eapply sink_inv_disk; [apply Hc|]|]. by rewrite Hc.
  - intros ((? & ? & ?) & d0 & Ho & Hk). split; [done|]. exists d0. split; [done|].
    intros Hfit. destruct (Hk Hfit) as (Hk' & Hb & Hn).
    split_and!; [by eapply sink_live_disk; [apply Hc|]|done|]. by rewrite Hc.
  - intros (Hev & d0 & Ho & Hk). split; [done|]. exists d0. split; [done|]. by rewrite Hc.
Qed.

(** No file is being written. *)
Definition no_file (f : file_stage) : Prop := match f with FUnborn | FIdle | FDead => True | _ => False end.

(** Facts behind a step that adds no note and leaves the buffer alone. *)
Lemma loose_facts h f f' b m d d' :
  keeps_audio loose d d' -> facts h f b m d ->
  (b = BUninit -> f' = f) -> (file_fact f (notes d) (card (rcd d)) -> file_fact f' (notes d) (card (rcd d'))) ->
  facts h f' b m d'.
Proof.
  intros [[Hp Ew Ec] En] [Hb Hwf Hh (taken & Ht & Hm) Hf Hfs] Hf' Hff.
  pose proof (counts_queued _ _ Hp) as Eq. split.
  - intros Hu. rewrite Eq, Ew, Ec. destruct (Hb Hu) as (? & ? & ? & ? & ? & ?). rewrite (Hf' Hu). by split_and!.
  - intros Hr. by eapply counts_wf; [|apply Hwf].
  - destruct h; cbn in *; [done|..]; by rewrite (counts_full _ _ Hp).
  - exists taken. rewrite En. split; [|done]. rewrite Ht. f_equal. destruct h; cbn; by rewrite Eq.
  - rewrite En. by apply Hff.
  - by rewrite En.
Qed.

Lemma audio_calm_facts h f b m d d' : calm d d' -> facts h f b m d -> facts h f b m d'.
Proof.
  intros [[Hl Hc] En] Hf. eapply loose_facts; [by split|done|done|]. by apply file_fact_log.
Qed.

Abbreviation ok := (ok audio).

Lemma ok_audio_calm {A} (p : @prog dv A) l (Q : A -> claim -> Prop) :
  calmly p -> (forall a, Q a l) -> ok p l Q.
Proof.
  intros Hp HQ. apply ok_keep; [|done]. eapply all_steps_mono; [|exact Hp].
  intros X st Hst d ls (h & f & b & m & rest & -> & Hrest & Hf). exists h, f, b, m, rest.
  split_and!; [done..|]. by eapply audio_calm_facts; [apply Hst|].
Qed.

(** A calm call, then the rest. *)
Lemma ok_audio_calm_bind {A B} (p : @prog dv A) (k : A -> @prog dv B) l (Q : B -> claim -> Prop) :
  calmly p -> (forall a, ok (k a) l Q) -> ok (pbind p k) l Q.
Proof. intros Hp Hk. by apply ok_bind, ok_audio_calm. Qed.

Lemma ok_audio_writer_step {X A} (st : st dv X) (k : X -> @prog dv A) h f (Q : A -> claim -> Prop) :
  (forall b m d, facts h f b m d ->
    exists h' f', facts h' f' b m (st d).2 /\ ok (k (st d).1) (LW h' f') Q) ->
  ok (Atomic (fun _ => st) k) (LW h f) Q.
Proof.
  intros Hm flip d ls i Hi Hd. destruct (audio_at_writer _ _ _ _ _ Hi Hd) as (b & m & Hf & Hset).
  destruct (Hm b m d Hf) as (h' & f' & Hf' & Hk). exists (LW h' f'). split; [by apply Hset|done].
Qed.

Lemma ok_mic_step {X A} (st : st dv X) (k : X -> @prog dv A) m (Q : A -> claim -> Prop) :
  (forall h f b d, facts h f b m d ->
    exists m', facts h f b m' (st d).2 /\ ok (k (st d).1) (LM m') Q) ->
  ok (Atomic (fun _ => st) k) (LM m) Q.
Proof.
  intros Hm flip d ls i Hi Hd. destruct (at_mic _ _ _ _ Hi Hd) as (h & f & b & Hf & Hset).
  destruct (Hm h f b d Hf) as (m' & Hf' & Hk). exists (LM m'). split; [by apply Hset|done].
Qed.

Lemma ok_boot_step {X A} (st : st dv X) (k : X -> @prog dv A) b (Q : A -> claim -> Prop) :
  (forall h f m d, facts h f b m d ->
    exists b', facts h f b' m (st d).2 /\ ok (k (st d).1) (LB b') Q) ->
  ok (Atomic (fun _ => st) k) (LB b) Q.
Proof.
  intros Hm flip d ls i Hi Hd. destruct (at_boot _ _ _ _ Hi Hd) as (h & f & m & Hf & Hset).
  destruct (Hm h f m d Hf) as (b' & Hf' & Hk). exists (LB b'). split; [by apply Hset|done].
Qed.

(** A note that is no boundary. *)
Lemma unopened_cons n ns : ~ (exists w d, n = SegmentOpened w d) -> unopened ns -> unopened (n :: ns).
Proof.
  intros Hn Hu [|x since] w d0 older [= -> E]; [destruct Hn; eauto|]. apply Exists_cons. right. by eapply Hu.
Qed.

Lemma files_hold_cons n ns :
  match n with SegmentFinalized _ _ => False | AudioWritten _ _ => in_segment ns = true | _ => True end ->
  files_hold ns -> files_hold (n :: ns).
Proof.
  intros Hn [Hin Hu]. split; [by destruct n|].
  intros [|x newer] w d1 since d0 older [= -> E]; [done|]. by eapply Hu.
Qed.

Lemma open_since_in_segment wav d0 pcm junk ns : open_since wav d0 pcm junk ns -> in_segment ns = true.
Proof.
  intros (since & older & -> & Hb & _). induction since as [|n since IH]; [done|].
  apply Forall_cons in Hb as [Hn Hb]. specialize (IH Hb). destruct n; cbn in *; tauto.
Qed.

(** ** The capture task *)

(** A note on neither a segment nor a write. *)
Definition plain (n : rec_note) : Prop :=
  match n with SegmentOpened _ _ | SegmentFinalized _ _ | AudioWritten _ _ => False | _ => True end.

Lemma plain_boundary n : plain n -> ~ boundary n.
Proof. destruct n; cbn; tauto. Qed.

Lemma stored_plain n ns : plain n -> stored (n :: ns) = stored ns.
Proof. by destruct n. Qed.

Lemma open_since_plain wav d0 pcm junk n ns :
  plain n -> open_since wav d0 pcm junk ns -> open_since wav d0 pcm junk (n :: ns).
Proof.
  intros Hn (since & older & -> & Hb & <- & Hj). exists (n :: since), older.
  split_and!; [done|by constructor; [apply plain_boundary|]|by apply stored_plain|].
  intros Hno. apply Hj. contradict Hno. by apply Exists_cons_tl.
Qed.

Lemma file_fact_plain f n ns c : plain n -> file_fact f ns c -> file_fact f (n :: ns) c.
Proof.
  intros Hn. assert (Hu : unopened ns -> unopened (n :: ns)).
  { apply unopened_cons. intros (w & d & ->). done. }
  pose proof (fun wav d0 pcm junk => open_since_plain wav d0 pcm junk n ns Hn) as Ho.
  destruct f; cbn; naive_solver.
Qed.

Lemma files_hold_plain n ns : plain n -> files_hold ns -> files_hold (n :: ns).
Proof. intros Hn. apply files_hold_cons. by destruct n. Qed.

Lemma mic_ready h f b m d : facts h f b m d -> m <> MUnborn -> b = BReady.
Proof. intros Hf Hm. destruct b; [|done]. by destruct (fact_boot _ _ _ _ _ Hf eq_refl) as (_ & _ & ? & _). Qed.

(** The read itself. *)
Lemma read_facts h f b d got p' :
  facts h f b MIdle d ->
  facts h f b (MGot got) (Device (sd d) (hw d) (usbs d) (rcd d) p' (link d) (wakeup d)
    (inr (MicRead got) :: history d)).
Proof.
  intros Hf. pose proof (mic_ready _ _ _ _ _ Hf ltac:(done)) as ->.
  destruct Hf as [_ Hwf Hh (taken & Ht & Hm) Hff Hfs]. split; cbn; try done.
  - exists taken. split; [done|]. cbn in *. by rewrite Hm.
  - by apply file_fact_plain.
  - by apply files_hold_plain.
Qed.

Lemma ok_mic_read (Q : option esp_err_t * bytes -> claim -> Prop) :
  (forall r, Q r (LM (MGot r.2))) -> ok mic_read (LM MIdle) Q.
Proof.
  intros HQ. apply ok_mic_step. intros h f b d Hf. unfold bind, on_dev, on_rec_history. cbn.
  unfold dv_dev, dv_note. destruct (pdm_capture_read (devices d)) as [[err got] p']. cbn.
  exists (MGot got). split; [by apply read_facts|apply HQ].
Qed.

(** Steps on the ring buffer: what went in goes to the end of the stream. *)
Lemma unstored_app h p p' more :
  wf p -> held_fact h p -> queued p' = queued p ++ more -> unstored h p' = unstored h p ++ more.
Proof.
  intros Hwf Hh Hq. destruct h as [|i|i]; cbn in *; [done..|]. rewrite Hq.
  destruct (full_index_data p i Hwf Hh) as [Hl _]. rewrite drop_app_le; [done|].
  unfold zlen in Hl. lia.
Qed.

Lemma ring_facts h f b m m' d p' :
  facts h f b m d -> m <> MUnborn -> wf p' -> held_fact h p' ->
  (forall taken, taken = stored (notes d) ++ unstored h (ring d) -> mic_fact m taken (notes d) ->
     exists taken', taken' = stored (notes d) ++ unstored h p' /\ mic_fact m' taken' (notes d)) ->
  facts h f b m' (Device (sd d) (hw d) (usbs d) (set_pipeline p' (rcd d)) (devices d) (link d) (wakeup d)
    (history d)).
Proof.
  intros Hf Hm Hwf Hh Ht. pose proof (mic_ready _ _ _ _ _ Hf Hm) as ->.
  destruct Hf as [_ _ _ (taken & Et & Hmic) Hff Hfs]. split; cbn; try done. by eapply Ht.
Qed.

Lemma ok_store_read stalled snap got (Q : bool * bool -> claim -> Prop) :
  (forall r m, (pending snap = false -> r.1 = false -> m = MIdle) -> Q r (LM m)) ->
  ok (rec (store_read stalled snap got)) (LM (MGot got)) Q.
Proof.
  intros HQ. apply ok_mic_step. intros h f b d Hf.
  pose proof (mic_ready _ _ _ _ _ Hf ltac:(done)) as ->.
  pose proof (fact_wf _ _ _ _ _ Hf eq_refl) as Hwf. pose proof (fact_held _ _ _ _ _ Hf) as Hh.
  pose proof (counts_account stalled snap (ring d)) as Hc.
  unfold on_rec. cbn. unfold dv_rec, store_read.
  set (p1 := account_read stalled snap (ring d)) in *.
  pose proof (counts_wf _ _ Hc Hwf) as Hwf1.
  assert (Hh1 : held_fact h p1).
  { destruct h; cbn in *; [done|..]; by rewrite (counts_full _ _ Hc). }
  assert (Hu1 : unstored h p1 = unstored h (ring d)).
  { destruct h; cbn; by rewrite (counts_queued _ _ Hc). }
  destruct (negb (zlen got =? 0) && negb (pending snap)) eqn:Ekeep.
  - apply andb_prop in Ekeep as [Hgot Hpend]. apply negb_true_iff in Hpend.
    destruct (produce_spec p1 got Hwf1) as (ret & p2 & Hp2 & Hpost). rewrite Hp2. cbn.
    assert (Hh2 : held_fact h p2) by (destruct h; cbn in *; [done|..]; by eapply produce_keeps_full).
    destruct Hpost as (Hwf2 & Hq2 & Hret & _).
    rewrite !Z.sub_0_r in *. unfold slice in Hq2. cbn [Z.to_nat] in Hq2. rewrite drop_0 in Hq2.
    set (n := Z.min _ _) in *.
    pose proof (unstored_app h p1 p2 _ Hwf1 Hh1 Hq2) as Hu2. rewrite Hu1 in Hu2.
    exists (if ret =? 0 then MIdle else MDone). split.
    + eapply ring_facts; [done..|]. intros taken -> [Hheard Hbefore].
      eexists. split; [done|]. rewrite Hu2, app_assoc.
      destruct (Z.eqb_spec ret 0) as [Hz|Hz]; cbn.
      * rewrite Hheard. f_equal. rewrite take_ge; [done|]. unfold zlen in Hret. lia.
      * rewrite Hbefore, Hheard. split; [by apply prefix_app_r|]. apply prefix_app, prefix_take.
    + apply HQ. cbn. intros _ Hno. apply negb_false_iff in Hno. by rewrite Hno.
  - cbn. exists (if pending snap then MDone else MIdle). split.
    + eapply ring_facts; [done..|]. intros taken -> [Hheard Hbefore].
      eexists. split; [done|]. rewrite Hu1. destruct (pending snap); cbn.
      * rewrite Hbefore, Hheard. split; [done|by apply prefix_app_r].
      * rewrite andb_true_r in Ekeep. apply negb_false_iff, Z.eqb_eq in Ekeep.
        destruct got; [|rewrite zlen_cons in Ekeep; pose proof (zlen_nonneg got); lia].
        by rewrite Hheard, app_nil_r.
    + apply HQ. cbn. by intros ->.
Qed.

Definition capturing (l : claim) : Prop := exists m, l = LM m.

Ltac calm_step := apply ok_audio_calm_bind; [by_steps|intros ?]; cbn beta zeta.
Ltac calm_rest := apply ok_audio_calm; [by_steps|by intros; eexists].

Lemma ok_capture_pass u :
  ok (capture_pass u) (LM MIdle) (fun r l => match r with inl _ => l = LM MIdle | inr _ => capturing l end).
Proof.
  unfold capture_pass. calm_step. destruct a; [by eexists|].
  apply ok_bind, ok_mic_read. intros [err got]. cbn [snd]. calm_step. destruct (match err with Some e => negb (is_ok e) | None => false end).
  { calm_step. calm_step. by eexists. }
  calm_step. destruct a0; [calm_step; calm_step; by eexists|].
  apply ok_bind, ok_store_read. intros [loss full_] m Hm. cbn in Hm.
  destruct (pending a); [calm_step; by eexists|]. destruct loss; [calm_step; by eexists|].
  rewrite Hm by done. by calm_step.
Qed.

Lemma ok_capture_thread :
  ok (after_creation rec_capture recorder_capture_task) (LM MUnborn) (fun _ _ => True).
Proof.
  exists (fun _ l => l = LM MUnborn), (fun _ l => l = LM MIdle). split_and!; [done| |].
  - intros _ l ->. apply ok_mic_step. intros h f b d Hf. unfold on_rec. cbn. unfold dv_rec, get. cbn.
    assert (E : Device (sd d) (hw d) (usbs d) (rcd d) (devices d) (link d) (wakeup d) (history d) = d)
      by (by destruct d). rewrite E.
    destruct (spawned (rcd d) rec_capture) eqn:Hsp; [exists MIdle|by exists MUnborn]. split; [|done].
    destruct Hf as [Hb Hwf Hh Ht Hff Hfs]. split; try done. intros Hu. destruct (Hb Hu) as (_ & _ & _ & _ & Hno & _).
    congruence.
  - intros _ l ->. unfold recorder_capture_task. calm_step. destruct (_ || _).
    { apply ok_audio_calm; [by_steps|done]. }
    calm_step. destruct (negb _); [apply ok_audio_calm; [by_steps|done]|].
    calm_step. calm_step. exists (fun _ l => l = LM MIdle), (fun _ => capturing). split_and!; [done|..].
    + intros u l ->. apply ok_capture_pass.
    + intros u l [m ->]. apply ok_audio_calm; [by_steps|done].
Qed.

(** ** The writer *)

Abbreviation loosely p := (all_steps (fun X => along (keeps_audio loose)) p).

Lemma ok_loose {A} f (p : @prog dv A) (Q : A -> claim -> Prop) :
  no_file f -> loosely p -> (forall a, Q a (LW HNone f)) -> ok p (LW HNone f) Q.
Proof.
  intros Hf Hp HQ. eapply ok_mono; [instantiate (1 := fun _ l => l = LW HNone f)|by intros a l ->]. clear HQ Q.
  induction p as [A a|X A st k IH|S B A body IHb s k IHk]; [done|..]; destruct Hp as [Hp1 Hp2].
  - intros flip d ls i Hi Hd. destruct (audio_at_writer _ _ _ _ _ Hi Hd) as (b & m & Hfs & Hset).
    exists (LW HNone f). split; [|apply IH, Hp2]. apply Hset. eapply loose_facts; [apply Hp1|done..|].
    by destruct f.
  - exists (fun _ l => l = LW HNone f), (fun _ l => l = LW HNone f). split_and!; [done|..].
    + intros s' l ->. eapply ok_mono; [apply IHb, Hp1|]. by intros [s2|b] l ->.
    + intros b l ->. apply IHk, Hp2.
Qed.

Lemma ok_loose_bind {A B} f (p : @prog dv A) (k : A -> @prog dv B) (Q : B -> claim -> Prop) :
  no_file f -> loosely p -> (forall a, ok (k a) (LW HNone f) Q) -> ok (pbind p k) (LW HNone f) Q.
Proof. intros Hf Hp Hk. by apply ok_bind, ok_loose. Qed.

Ltac loose_step := apply ok_loose_bind; [done|by_steps|intros ?]; cbn beta zeta.

(** An operation on the card, and what it makes of the file. *)
Lemma ok_card_step {X} (m : io X) f (Q : X -> claim -> Prop) :
  f <> FUnborn ->
  (forall ns c, file_fact f ns c ->
     exists f', file_fact f' ns (m c).2 /\ Q (m c).1 (LW HNone f')) ->
  ok (on_card_task m) (LW HNone f) Q.
Proof.
  intros Hborn Hm. apply ok_audio_writer_step. intros b n d Hf.
  destruct (Hm (notes d) (card (rcd d)) (fact_file _ _ _ _ _ Hf)) as (f' & Hf' & HQ).
  exists HNone, f'. unfold on_rec. cbn. unfold dv_rec, on_card.
  destruct (m (card (rcd d))) as [x c]. cbn in *. split; [|done].
  apply (loose_facts _ f _ _ _ d); [by split; [by apply loose_same|]|done| |done].
  intros Hu. by destruct (fact_boot _ _ _ _ _ Hf Hu) as (_ & ? & _).
Qed.

(** A note on the files. *)
Lemma audio_note_facts n h f f' b m d :
  match n with MicRead _ | AudioWritten _ _ => False | _ => True end ->
  facts h f b m d -> f <> FUnborn ->
  file_fact f' (n :: notes d) (card (rcd d)) -> files_hold (n :: notes d) ->
  facts h f' b m (Device (sd d) (hw d) (usbs d) (rcd d) (devices d) (link d) (wakeup d) (inr n :: history d)).
Proof.
  intros Hn [Hb Hwf Hh (taken & Et & Hm) Hff Hfs] Hborn Hf' Hfs'. split; cbn; try done.
  - intros Hu. by destruct (Hb Hu) as (_ & ? & _).
  - exists taken. split; [by destruct n|]. by destruct n, m.
Qed.

Lemma ok_audio_files_note (n : disk -> rec_note) f f' (Q : unit -> claim -> Prop) :
  (forall files, match n files with SegmentOpened _ _ | SegmentFinalized _ _ => True | _ => False end) ->
  f <> FUnborn ->
  (forall ns c, file_fact f ns c -> files_hold ns ->
     file_fact f' (n (w_disk c) :: ns) c /\ files_hold (n (w_disk c) :: ns)) ->
  Q tt (LW HNone f') -> ok (files_note_step n) (LW HNone f) Q.
Proof.
  intros Hn Hborn Hm HQ. apply ok_audio_writer_step. intros b m d Hf. exists HNone, f'. split; [|done].
  destruct (Hm (notes d) (card (rcd d))) as [Hf' Hfs'];
    [by eapply fact_file|by eapply fact_files|].
  unfold bind, on_rec. cbn. unfold dv_rec, get. cbn.
  eapply audio_note_facts; [|exact Hf|done..]. specialize (Hn (files d)). by destruct (n (files d)).
Qed.

(** The writer's segment and the file it stands for. *)
Definition seg_at (g : segment) (f : file_stage) : Prop :=
  match f with
  | FOpen part wav _ k | FShut part wav _ _ k =>
      sink g = k /\ seg_wav g = wav /\ seg_state g = RotState part wav false false
  | FDead => finalize_called (seg_state g) = true /\ finalized_ok (seg_state g) = false
  | FIdle => True
  | _ => False
  end.

Definition idle (l : claim) : Prop := l = LW HNone FIdle.
(** A segment is open and takes audio. *)
Definition recording (g : segment) (l : claim) : Prop :=
  exists part wav pcm k, l = LW HNone (FOpen part wav pcm k) /\ seg_at g (FOpen part wav pcm k).
(** No more audio will come. *)
Definition ending (g : segment) (l : claim) : Prop := exists f, l = LW HNone f /\ seg_at g f.

Lemma recording_ending g l : recording g l -> ending g l.
Proof. intros (part & wav & pcm & k & -> & Hg). by eexists. Qed.

Lemma idle_ending g l : idle l -> ending g l.
Proof. intros ->. by exists FIdle. Qed.

Lemma seg_born g f : seg_at g f -> f <> FUnborn.
Proof. by destruct f. Qed.

Lemma segment_names date time6 id part wav :
  wav_rotation_build_part_path RECORDER_MAX_PATH_LEN date time6 id = Some part ->
  wav_rotation_build_wav_path RECORDER_MAX_PATH_LEN date time6 id = Some wav ->
  names_apart part wav /\ has_part_suffix part = true /\
  wav_rotation_state_init part wav = RotState part wav false false.
Proof.
  intros Hp Hw. destruct (segment_paths_consistent _ _ _ _ Hp) as (w & Hw' & Hpw & Hinit).
  rewrite Hw in Hw'. injection Hw' as <-.
  destruct (part_to_wav_Some _ _ _ Hpw) as (Hws & -> & _).
  assert (Hps : has_part_suffix (wav ++ txt ".part")%list = true).
  { apply has_suffix_spec in Hws as [stem ->]. apply has_suffix_spec. exists stem. by rewrite <- app_assoc. }
  split_and!; [|done..]. split_and!.
  - intros E%(f_equal length). rewrite length_app in E. change (length (txt ".part")) with 5%nat in E. lia.
  - intros E. rewrite E in Hps. by vm_compute in Hps.
  - intros ->. by vm_compute in Hws.
Qed.

Lemma open_facts ns c part k :
  unopened ns -> has_part_suffix part = true ->
  forall wav, names_apart part wav ->
  exists f', file_fact f' ns (sd_pcm_sink_open k part c).2 /\
    f' = if (sd_pcm_sink_open k part c).1.1 then FReady part wav (sd_pcm_sink_open k part c).1.2 else FIdle.
Proof.
  intros Hu Hs wav Hn.
  assert (Hopen : wp (sd_pcm_sink_open k part) (fun r c' => r.1 = true -> sink_inv part [] r.2 c') c).
  { unfold sd_pcm_sink_open. wp_prim. eapply wp_mono; [by apply part_open_spec|].
    intros [[] w] c' (Hok & _); wp_prim; [|done]. intros _. split; [done|]. by apply Hok. }
  unfold wp in Hopen. destruct (sd_pcm_sink_open k part c) as [[[] k'] c']; cbn in *; [|by exists FIdle].
  exists (FReady part wav k'). split; [|done]. split; [done|]. split; [done|]. by apply Hopen.
Qed.

Lemma opened_facts part wav k ns c :
  file_fact (FReady part wav k) ns c -> files_hold ns ->
  file_fact (FOpen part wav [] k) (SegmentOpened wav (w_disk c) :: ns) c /\
  files_hold (SegmentOpened wav (w_disk c) :: ns).
Proof.
  intros (Hu & Hn & Hk) Hfs. split.
  - split; [done|]. exists (w_disk c). split; [|done]. exists [], ns. by split_and!; [..|constructor].
  - by apply files_hold_cons.
Qed.

Lemma ok_audio_open date time6 g :
  ok (open_segment date time6 g) (LW HNone FIdle) (fun r l =>
    match r.2 with None => recording r.1 l | Some _ => idle l end).
Proof.
  unfold open_segment. loose_step. destruct a as [id|]; [|done].
  destruct (recorder_iso8601_from_parts _ _) as [started|]; [|done]. loose_step.
  destruct (wav_rotation_build_part_path _ _ _ _) as [part|] eqn:Hpart; [|done].
  destruct (wav_rotation_build_wav_path _ _ _ _) as [wav|] eqn:Hwav; [|done].
  destruct (segment_names _ _ _ _ _ Hpart Hwav) as (Hn & Hs & Hinit).
  loose_step. destruct (is_ok a0); [cbn [negb]|done]. loose_step. destruct a1; [cbn [negb]|done].
  apply ok_bind, ok_card_step; [done|]. intros ns c Hu. cbn [sink with_started].
  destruct (open_facts ns c part (sink g) Hu Hs wav Hn) as (f' & Hf' & Ef').
  exists f'. split; [done|]. rewrite Ef'. destruct (sd_pcm_sink_open (sink g) part c) as [[[] k'] c'];
    cbn [fst snd negb]; [|done].
  apply ok_bind, (ok_audio_files_note _ _ (FOpen part wav [] k')); [done|done|apply opened_facts|].
  apply ok_audio_calm_bind; [by_steps|intros tick]. rewrite Hinit. by exists part, wav, [], k'.
Qed.

(** *** The end of a segment *)

Lemma open_shut_facts part wav pcm k ns c :
  file_fact (FOpen part wav pcm k) ns c -> file_fact (FShut part wav pcm [] k) ns c.
Proof.
  intros (Hn & d0 & Ho & Hk). split; [done|]. exists d0. split; [done|]. intros Hfit.
  destruct (Hk Hfit) as [[Hs Hi] Hd]. rewrite app_nil_r.
  split_and!; [by split; [|apply inv_live]|by destruct Hi|done].
Qed.

(** The verdict of the finalization on a segment that is shut. *)
Definition after_finalize (ok_ : bool) (wav pcm junk : bytes) : file_stage :=
  if ok_ then FFinal wav pcm junk else FDead.

Lemma finalize_facts part wav pcm junk k ns c :
  file_fact (FShut part wav pcm junk k) ns c ->
  let '(ok_, t, _, c') := wav_rotation_finalize_once (RotState part wav false false) k c in
  t = RotState part wav true ok_ /\ file_fact (after_finalize ok_ wav pcm junk) ns c'.
Proof.
  intros ((Hne & Hpe & Hwe) & d0 & Ho & Hk).
  pose proof (finalize_once_state part wav k c) as Ht.
  pose proof (fun body Hl => finalize_once_stores part wav body k c Hl Hne) as Hd. unfold wp in *.
  destruct (wav_rotation_finalize_once _ _ _) as [[[ok_ t] k'] c']. cbn in *. split; [done|].
  destruct ok_; cbn; [|done]. split; [done|]. exists d0. split; [done|]. intros Hfit Hfree.
  destruct (Hk Hfit) as (Hl & Hb & Hn). rewrite <- Hb. auto.
Qed.

Lemma finalized_unopened wav d1 ns : unopened (SegmentFinalized wav d1 :: ns).
Proof.
  intros [|x since] w d0 older E; [done|]. injection E as <- E. by apply Exists_cons_hd.
Qed.

Lemma files_hold_finalized wav d1 ns :
  files_hold ns ->
  (forall since d0 older, ns = since ++ SegmentOpened wav d0 :: older ->
     Forall (fun n => ~ boundary n) since -> d0 !! wav = None -> audio_fits (stored since) ->
     segment_file wav (stored since) (Exists write_failed since) d1) ->
  files_hold (SegmentFinalized wav d1 :: ns).
Proof.
  intros [Hin Hfs] Hnew. split; [done|].
  intros [|x newer] w d2 since d0 older E; injection E as; subst; [by eapply Hnew|by eapply Hfs].
Qed.

Lemma finalized_note_facts wav pcm junk ns c :
  file_fact (FFinal wav pcm junk) ns c -> files_hold ns ->
  file_fact FIdle (SegmentFinalized wav (w_disk c) :: ns) c /\
  files_hold (SegmentFinalized wav (w_disk c) :: ns).
Proof.
  intros (Hwe & d0 & (since & older & -> & Hb & <- & Hj) & Hk) Hfs. split.
  - apply finalized_unopened.
  - apply files_hold_finalized; [done|]. intros since' d0' older' E' Hb' Hfree Hfit. apply app_mid in E' as [(<- & [= <-] & <-)|[(l & -> & _)|(l & -> & _)]].
    + exists junk. auto.
    + rewrite Forall_app, Forall_cons in Hb'. by destruct Hb' as (_ & [] & _).
    + rewrite Forall_app, Forall_cons in Hb. by destruct Hb as (_ & [] & _).
Qed.

Lemma again_note_facts wav ns c :
  file_fact FIdle ns c -> files_hold ns ->
  file_fact FIdle (SegmentFinalized wav (w_disk c) :: ns) c /\
  files_hold (SegmentFinalized wav (w_disk c) :: ns).
Proof.
  intros Hu Hfs. split.
  - apply finalized_unopened.
  - apply files_hold_finalized; [done|]. intros since d0 older E Hb.
    apply Hu, Exists_exists in E as (x & Hx & Hbx). rewrite Forall_forall in Hb. by destruct (Hb x Hx).
Qed.

(** The finalization of the writer's segment, whatever became of it. *)
Lemma finalize_stage g f ns c :
  seg_at g f -> file_fact f ns c ->
  let '(ok_, t, k, c') := wav_rotation_finalize_once (seg_state g) (sink g) c in
  exists f', file_fact f' ns c' /\
    if ok_ then f' = FIdle \/ exists pcm junk, f' = FFinal (seg_wav g) pcm junk
    else seg_at (with_state k t g) f'.
Proof.
  assert (Hshut : forall part wav pcm junk k, seg_at g (FShut part wav pcm junk k) ->
    file_fact (FShut part wav pcm junk k) ns c ->
    let '(ok_, t, k', c') := wav_rotation_finalize_once (seg_state g) (sink g) c in
    exists f', file_fact f' ns c' /\
      if ok_ then f' = FIdle \/ exists pcm junk, f' = FFinal (seg_wav g) pcm junk
      else seg_at (with_state k' t g) f').
  { intros part wav pcm junk k (-> & -> & ->) Hf%finalize_facts.
    destruct (wav_rotation_finalize_once _ _ _) as [[[ok_ t] k'] c']. destruct Hf as [-> Hf].
    exists (after_finalize ok_ wav pcm junk). split; [done|]. destruct ok_; cbn; eauto. }
  intros Hg Hf. destruct f as [| | |part wav pcm k|part wav pcm junk k| |]; try done.
  - destruct (wav_rotation_finalize_once _ _ _) as [[[ok_ t] k'] c']. exists FIdle.
    split; [done|]. destruct ok_; [by left|done].
  - eapply Hshut; [|by eapply open_shut_facts]. exact Hg.
  - by eapply Hshut.
  - destruct Hg as [Hc Ho]. unfold wav_rotation_finalize_once. rewrite Hc, Ho. cbn.
    by exists FDead.
Qed.

(** Finalized and noted, or not finalized. *)
Lemma ok_audio_finalize g l :
  ending g l -> ok (finalize_segment g) l (fun r l' => if r.1 then idle l' else ending r.2 l').
Proof.
  intros (f & -> & Hg). unfold finalize_segment. apply ok_bind, ok_card_step; [by eapply seg_born|].
  intros ns c Hf. pose proof (finalize_stage g f ns c Hg Hf) as Hstage.
  destruct (wav_rotation_finalize_once _ _ _) as [[[ok_ t] k] c']. destruct Hstage as (f' & Hf' & Hok).
  exists f'. split; [done|]. cbn [fst]. destruct ok_; cbn [when]; [|by exists f'].
  apply ok_bind. destruct Hok as [-> |(pcm & junk & ->)]; apply (ok_audio_files_note _ _ FIdle); try done.
  - intros ns' c2. apply again_note_facts.
  - intros ns' c2. apply finalized_note_facts.
Qed.

Lemma ok_audio_record g : ok (record_segment g) (LW HNone FIdle) (fun _ => idle).
Proof.
  unfold record_segment. loose_step. loose_step. apply ok_bind. destruct a0; cbn [when]; [|done].
  apply ok_audio_writer_step. intros b m d Hf. exists HNone, FIdle. split; [|done].
  eapply audio_note_facts; [done|exact Hf|done| |].
  - by apply file_fact_plain, (fact_file _ _ _ _ _ Hf).
  - by apply files_hold_plain, (fact_files _ _ _ _ _ Hf).
Qed.

Lemma ok_audio_finish g l :
  ending g l ->
  ok (finish_segment g) l (fun r l' => match r.2 with None => idle l' | Some _ => ending r.1 l' end).
Proof.
  intros Hl. unfold finish_segment. apply ok_bind. eapply ok_mono; [by apply ok_audio_finalize|].
  intros [[] g'] l' Hl'; cbn [fst snd negb] in *.
  - rewrite Hl'. apply ok_bind. eapply ok_mono; [apply ok_audio_record|]. intros [] l2 Hl2; cbn [negb]; [done|].
    apply ok_audio_calm_bind; [by_steps|intros _]. by apply idle_ending.
  - apply ok_audio_calm_bind; [by_steps|intros _]. done.
Qed.

(** *** A buffer *)

Lemma fits_app pcm chunk : audio_fits (pcm ++ chunk) -> audio_fits pcm.
Proof. unfold audio_fits. rewrite zlen_app. pose proof (zlen_nonneg chunk). lia. Qed.

Lemma open_since_written wav d0 pcm ok_ chunk junk ns :
  (ok_ = true -> junk = []) -> open_since wav d0 pcm [] ns ->
  open_since wav d0 (if ok_ then pcm ++ chunk else pcm) junk (AudioWritten ok_ chunk :: ns).
Proof.
  intros Hj (since & older & -> & Hb & <- & _). exists (AudioWritten ok_ chunk :: since), older.
  split_and!; [done|by constructor; [tauto|]|by destruct ok_|].
  destruct ok_; [auto|]. intros Hno. destruct Hno. by apply Exists_cons_hd.
Qed.

Lemma write_stage part wav pcm k chunk t0 t1 ns c :
  zlen chunk = RECORDER_BUFFER_BYTES -> file_fact (FOpen part wav pcm k) ns c ->
  let '(ok_, k', c') := sd_pcm_sink_write_chunk k chunk t0 t1 c in
  if ok_ then file_fact (FOpen part wav (pcm ++ chunk) k') (AudioWritten true chunk :: ns) c'
  else exists junk, file_fact (FShut part wav pcm junk k') (AudioWritten false chunk :: ns) c'.
Proof.
  intros Hl (Hn & d0 & Ho & Hk). pose proof Hn as (Hne & _ & _).
  assert (Hw : audio_fits pcm -> wp (sd_pcm_sink_write_chunk k chunk t0 t1) (fun '(ok_, k') c' =>
    (d0 !! wav = None -> w_disk c' !! wav = None) /\
    if ok_ then sink_inv part (pcm ++ chunk) k' c'
    else exists junk, sink_live part (pcm ++ junk) k' c' /\ pcm_bytes (WavPart.wav k') = zlen pcm) c).
  { intros Hfit. destruct (Hk Hfit) as [Hi Hd]. eapply wp_mono.
    - apply (sink_write_spec part pcm); [done..|].
      unfold audio_fits, payload_fits in *. rewrite zlen_app. lia.
    - intros [ok_ k'] c' [Hq Hok]. rewrite Hq by congruence. split; [done|].
      destruct ok_; [done|]. destruct Hok as [[junk Hj] Hb]. by exists junk. }
  unfold wp in Hw. destruct (sd_pcm_sink_write_chunk k chunk t0 t1 c) as [[[] k'] c']; cbn [fst snd] in Hw.
  - split; [done|]. exists d0. split; [by apply (open_since_written _ _ _ true)|].
    intros Hfit. by destruct (Hw (fits_app _ _ Hfit)).
  - destruct (decide (audio_fits pcm)) as [Hfit|Hno].
    + destruct (Hw Hfit) as (Hd & junk & Hj & Hb). exists junk. split; [done|]. exists d0.
      split; [by apply (open_since_written _ _ _ false)|done].
    + exists []. split; [done|]. exists d0. split; [by apply (open_since_written _ _ _ false)|done].
Qed.

Lemma flush_stage part wav pcm k ns c :
  file_fact (FOpen part wav pcm k) ns c ->
  let '(ok_, k', c') := sd_pcm_sink_flush k c in
  file_fact (if ok_ then FOpen part wav pcm k' else FShut part wav pcm [] k') ns c'.
Proof.
  intros (Hn & d0 & Ho & Hk). pose proof Hn as (Hne & _ & _).
  pose proof (sink_flush_count k c) as Hcount.
  assert (Hw : audio_fits pcm -> let '(ok_, k', c') := sd_pcm_sink_flush k c in
    (d0 !! wav = None -> w_disk c' !! wav = None) /\ sink_live part pcm k' c' /\
    (ok_ = true -> sink_inv part pcm k' c')).
  { intros Hfit. destruct (Hk Hfit) as [Hi Hd]. assert (Hpf : payload_fits pcm).
    { unfold audio_fits, payload_fits in *. change RECORDER_BUFFER_BYTES with 32768 in Hfit. lia. }
    pose proof (sink_flush_spec part pcm k c Hi Hpf) as H1'. destruct Hi as [Hs Hi].
    pose proof (sink_flush_live part pcm k c (conj Hs (inv_live _ _ _ _ Hi))) as H2'.
    unfold wp in *. destruct (sd_pcm_sink_flush k c) as [[ok_ k'] c']. cbn in *.
    destruct H1' as (_ & _ & Hok), H2' as [Hoh Hl].
    split_and!; [|done|intros E; by destruct (Hok E)]. by rewrite (only_header_frame _ _ _ _ wav Hoh). }
  assert (Hb : audio_fits pcm -> pcm_bytes (WavPart.wav k) = zlen pcm).
  { intros Hfit. destruct (Hk Hfit) as [[_ Hi] _]. by destruct Hi. }
  destruct (sd_pcm_sink_flush k c) as [[[] k'] c']; cbn in *; (split; [done|]); exists d0; (split; [done|]);
    intros Hfit; destruct (Hw Hfit) as (Hd & Hl & Hi).
  - auto.
  - rewrite app_nil_r, Hcount. auto.
Qed.

(** The writer looks at the slot, stores it, and releases it. *)
Lemma ok_peek f (Q : option bool -> claim -> Prop) :
  Q None (LW HNone f) -> (forall i, Q (Some i) (LW (HPeeked i) f)) -> f <> FUnborn ->
  ok (rec (get (fun r => full_index (s_pipeline r)))) (LW HNone f) Q.
Proof.
  intros Hnone Hsome Hborn. apply ok_audio_writer_step. intros b m d Hf.
  assert (E : (on_rec (get (fun r => full_index (s_pipeline r))) d) = (full_index (ring d), d)) by (by destruct d).
  rewrite E. cbn [fst snd]. destruct (full_index (ring d)) as [i|] eqn:Hi; [|by exists HNone, f].
  exists (HPeeked i), f. split; [|apply Hsome]. destruct Hf as [Hb Hwf _ Ht Hff Hfs]. split; try done.
  intros Hu. by destruct (Hb Hu) as (_ & ? & _).
Qed.

Lemma written_facts i ok_ chunk f f' m d c' :
  facts (HPeeked i) f BReady m d -> in_segment (notes d) = true -> (ok_ = true -> chunk = take (Z.to_nat CAP) (queued (ring d))) ->
  file_fact f' (AudioWritten ok_ chunk :: notes d) c' ->
  facts (if ok_ then HStored i else HNone) f' BReady m
    (Device (sd d) (hw d) (usbs d) (set_card c' (rcd d)) (devices d) (link d) (wakeup d)
       (inr (AudioWritten ok_ chunk) :: history d)).
Proof.
  intros [_ Hwf Hi (taken & Et & Hm) _ Hfs] Hin Hchunk Hf'.
  apply Facts; cbn [rcd set_card s_pipeline history recorder_notes omap]; [done|exact Hwf| | |exact Hf'|].
  - destruct ok_; [exact Hi|done].
  - exists taken. split; [|by destruct m]. rewrite Et. destruct ok_; [|done].
    change (stored (notes d) ++ queued (ring d) =
      (stored (notes d) ++ chunk) ++ drop (Z.to_nat CAP) (queued (ring d))).
    by rewrite (Hchunk eq_refl), <- app_assoc, take_drop.
  - by apply files_hold_cons.
Qed.

Lemma ok_write_slot part wav pcm k i t0 t1 (Q : bool * sd_pcm_sink_t -> claim -> Prop) :
  (forall k' pcm', Q (true, k') (LW (HStored i) (FOpen part wav pcm' k'))) ->
  (forall k' junk, Q (false, k') (LW HNone (FShut part wav pcm junk k'))) ->
  ok (write_slot k i t0 t1) (LW (HPeeked i) (FOpen part wav pcm k)) Q.
Proof.
  intros Hyes Hno. apply ok_audio_writer_step. intros b m d Hf.
  destruct b; [by destruct (fact_boot _ _ _ _ _ Hf eq_refl) as (_ & ? & _)|].
  destruct (full_index_data _ _ (fact_wf _ _ _ _ _ Hf eq_refl) (fact_held _ _ _ _ _ Hf)) as (Hq & Hl & Hd).
  assert (Hin : in_segment (notes d) = true).
  { destruct (fact_file _ _ _ _ _ Hf) as (_ & d0 & Ho & _). by eapply open_since_in_segment. }
  unfold bind, on_rec. cbn. unfold dv_rec, get, on_card. cbn.
  change (Z.to_nat RECORDER_BUFFER_BYTES) with (Z.to_nat CAP).
  assert (Hcl : zlen (take (Z.to_nat CAP) (data (slot (ring d) i))) = CAP)
    by (apply zlen_take; rewrite Hl, CAP_val; lia).
  rewrite Hd in Hcl |- *. clear Hl Hd. revert Hcl. remember (take (Z.to_nat CAP) (queued (ring d))) as chunk eqn:Hchunk.
  intros Hcl. pose proof (write_stage part wav pcm k chunk t0 t1 _ _ Hcl (fact_file _ _ _ _ _ Hf)) as Hst.
  destruct (sd_pcm_sink_write_chunk k chunk t0 t1 (card (rcd d))) as [[[] k'] c']; cbn [fst snd] in *.
  - exists (HStored i), (FOpen part wav (pcm ++ chunk) k'). split; [|apply Hyes].
    exact (written_facts i true chunk _ _ m d c' Hf Hin (fun _ => Hchunk) Hst).
  - destruct Hst as [junk Hst]. exists HNone, (FShut part wav pcm junk k'). split; [|apply Hno].
    exact (written_facts i false chunk _ _ m d c' Hf Hin (fun _ => Hchunk) Hst).
Qed.

Lemma release_facts i t f m d :
  facts (HStored i) f BReady m d ->
  facts HNone f BReady m
    (Device (sd d) (hw d) (usbs d)
       (set_pipeline (pcm_pipeline_release_full (pcm_pipeline_note_sd_write (ring d) t)) (rcd d))
       (devices d) (link d) (wakeup d) (history d)).
Proof.
  intros [_ Hwf Hi (taken & Et & Hm) Hff Hfs]. specialize (Hwf eq_refl). cbn in Hi.
  pose proof (counts_sd_write (ring d) t) as Hc. pose proof (counts_wf _ _ Hc Hwf) as Hwf'.
  destruct (full_index_data _ _ Hwf Hi) as (Hq & _). rewrite <- (counts_queued _ _ Hc) in Hq.
  destruct (release_spec _ Hwf' Hq) as (_ & Hwf2 & Hq2). rewrite (counts_queued _ _ Hc) in Hq2.
  apply Facts; cbn [rcd set_pipeline s_pipeline history card].
  - discriminate.
  - intros _. exact Hwf2.
  - exact I.
  - exists taken. split; [|exact Hm]. rewrite Et. f_equal. symmetry. exact Hq2.
  - exact Hff.
  - exact Hfs.
Qed.

Lemma ok_release_slot i t f (Q : unit -> claim -> Prop) :
  f <> FUnborn -> Q tt (LW HNone f) ->
  ok (on_pipeline (fun p => pcm_pipeline_release_full (pcm_pipeline_note_sd_write p t))) (LW (HStored i) f) Q.
Proof.
  intros Hborn HQ. apply ok_audio_writer_step. intros b m d Hf. exists HNone, f. split; [|exact HQ].
  destruct b; [by destruct (fact_boot _ _ _ _ _ Hf eq_refl) as (_ & ? & _)|exact (release_facts i t f m d Hf)].
Qed.

Lemma ok_flush part wav pcm k (Q : bool * sd_pcm_sink_t -> claim -> Prop) :
  (forall k', Q (true, k') (LW HNone (FOpen part wav pcm k'))) ->
  (forall k', Q (false, k') (LW HNone (FShut part wav pcm [] k'))) ->
  ok (on_card_task (sd_pcm_sink_flush k)) (LW HNone (FOpen part wav pcm k)) Q.
Proof.
  intros Hyes Hno. apply ok_card_step; [done|]. intros ns c Hf%flush_stage.
  destruct (sd_pcm_sink_flush k c) as [[[] k'] c']; eauto.
Qed.

Lemma ok_audio_drain_pass g l :
  recording g l ->
  ok (drain_pass g) l (fun r l' =>
    match r with inl g' | inr (g', true) => recording g' l' | inr (g', false) => ending g' l' end).
Proof.
  intros (part & wav & pcm & k & -> & Hg). pose proof Hg as (<- & Hw & Hs).
  assert (Hrec : forall pcm' k' n n', recording (with_counts n n' (with_sink k' g)) (LW HNone (FOpen part wav pcm' k'))).
  { intros pcm' k' n n'. by exists part, wav, pcm', k'. }
  unfold drain_pass. apply ok_bind, ok_peek; [by exists part, wav, pcm, (sink g)| |done].
  intros i. do 2 (apply ok_audio_calm_bind; [by_steps|intros ?]).
  apply ok_bind, ok_write_slot; cbn [negb].
  - intros k' pcm'. apply ok_bind, ok_release_slot; [done|].
    destruct (_ <? _); [apply Hrec|]. apply ok_bind, ok_flush; cbn [negb].
    + intros k2. apply (Hrec pcm' k2).
    + intros k2. do 2 (apply ok_audio_calm_bind; [by_steps|intros _]). by exists (FShut part wav pcm' [] k2).
  - intros k' junk. do 2 (apply ok_audio_calm_bind; [by_steps|intros _]). by exists (FShut part wav pcm junk k').
Qed.

(** *** The writer's loop *)

(** What the segment of a pass is: [running] tells whether it takes audio. *)
Definition segment_of (running : bool) (g : segment) (l : claim) : Prop :=
  if running then recording g l else ending g l.

Lemma segment_ending running g l : segment_of running g l -> ending g l.
Proof. destruct running; [apply recording_ending|done]. Qed.

Lemma ok_audio_rotate running g l :
  segment_of running g l ->
  ok (rotate_if_due g) l (fun r l' => segment_of (running && r.2) r.1 l').
Proof.
  intros Hl. assert (Hdue : ok (finished <- finish_segment g;
      match finished with
      | (g, Some reason) => recorder_enter_error reason ;;' Done (g, false)
      | (g, None) =>
        now <- dev recorder_current_date_time;
        opened <- open_segment now.1 now.2 g;
        match opened with
        | (g, Some reason) => recorder_enter_error reason ;;' Done (g, false)
        | (g, None) => Done (g, true)
        end
      end) l (fun r l' => segment_of (running && r.2) r.1 l')).
  { apply ok_bind. eapply ok_mono; [by eapply ok_audio_finish, segment_ending|].
    intros [g' [reason|]] l' Hl'; cbn [fst snd] in *.
    - apply ok_audio_calm_bind; [by_steps|intros _]. cbn. by rewrite andb_false_r.
    - rewrite Hl'. loose_step. apply ok_bind. eapply ok_mono; [apply ok_audio_open|].
      intros [g2 [reason|]] l2 Hl2; cbn [fst snd] in *.
      + apply ok_audio_calm_bind; [by_steps|intros _]. cbn. rewrite andb_false_r. by apply idle_ending.
      + cbn. rewrite andb_true_r. destruct running; [done|by apply recording_ending]. }
  unfold rotate_if_due. apply ok_audio_calm_bind; [by_steps|intros now].
  apply ok_audio_calm_bind; [by_steps|intros tick].
  destruct (wav_rotation_should_rotate _ _ _ _); try exact Hdue; cbn; rewrite ?andb_true_r, ?andb_false_r; try done;
    by eapply segment_ending.
Qed.

Lemma ok_audio_writer_pass g l :
  recording g l ->
  ok (writer_pass g) l (fun r l' => match r with inl g' => recording g' l' | inr g' => ending g' l' end).
Proof.
  intros Hl. unfold writer_pass. apply ok_audio_calm_bind; [by_steps|intros _].
  exists recording, (fun r l' => segment_of r.2 r.1 l'). split_and!; [done| |].
  - intros g' l' Hl'. eapply ok_mono; [by apply ok_audio_drain_pass|]. by intros [g2|[g2 []]] l2.
  - intros [g' running] l' Hl'. cbn [fst snd] in Hl'. apply ok_audio_calm_bind; [by_steps|intros stop].
    destruct stop; [by eapply segment_ending|]. apply ok_bind. eapply ok_mono; [by apply ok_audio_rotate|].
    intros [g2 running2] l2 Hl2. cbn [fst snd] in Hl2.
    destruct running2; cbn [negb]; [|by eapply segment_ending].
    rewrite andb_true_r in Hl2. apply ok_audio_calm_bind; [by_steps|intros stop].
    destruct stop, running; try done; by eapply recording_ending.
Qed.

(** The end of the writer touches no file of its own. *)
Lemma ok_gone_calm l (Q : unit -> claim -> Prop) :
  (exists f, l = LW HNone f /\ f <> FUnborn) -> (forall l, Q tt l) ->
  ok (writer_gone ;;' recorder_task49_delete rec_writer) l Q.
Proof.
  intros (f & -> & Hf) HQ. apply ok_audio_writer_step. intros b m d Hfs. exists HNone, f. split.
  - unfold bind, on_rec. cbn. unfold dv_rec, get. cbn. eapply audio_note_facts; [done|exact Hfs|done| |].
    + by apply file_fact_plain, (fact_file _ _ _ _ _ Hfs).
    + by apply files_hold_plain, (fact_files _ _ _ _ _ Hfs).
  - apply ok_audio_calm; [by_steps|intros []; apply HQ].
Qed.

Lemma ok_audio_abandon reason (Q : unit -> claim -> Prop) :
  (forall l, Q tt l) -> ok (writer_abandon reason) (LW HNone FIdle) Q.
Proof.
  intros HQ. unfold writer_abandon. do 3 loose_step. apply ok_gone_calm; [by exists FIdle|done].
Qed.

Lemma ok_audio_writer_finish g l (Q : unit -> claim -> Prop) :
  ending g l -> (forall l, Q tt l) -> ok (writer_finish g) l Q.
Proof.
  intros Hl HQ. unfold writer_finish. apply ok_bind. eapply ok_mono; [by apply ok_audio_finish|].
  intros [g' r] l' Hl'. assert (Hend : ending g' l') by (destruct r; [done|by apply idle_ending]).
  destruct Hend as (f & -> & Hg). clear Hl'. apply ok_audio_calm_bind; [by_steps|intros _].
  do 3 (apply ok_audio_calm_bind; [by_steps|intros _]). apply ok_gone_calm; [|done].
  exists f. split; [done|by eapply seg_born].
Qed.

Context (nvs_random : st N Z).

Lemma ok_audio_writer_task (Q : unit -> claim -> Prop) :
  (forall l, Q tt l) -> ok (recorder_writer_task nvs_random) (LW HNone FIdle) Q.
Proof.
  intros HQ. unfold recorder_writer_task. loose_step. destruct (negb _).
  { loose_step. apply ok_gone_calm; [by exists FIdle|done]. }
  loose_step. loose_step. destruct a1; cbn [negb]; [|by apply ok_audio_abandon].
  loose_step. destruct a1 as [id|reason]; [|by apply ok_audio_abandon].
  loose_step. destruct a1 as [reason|]; [by apply ok_audio_abandon|].
  loose_step. loose_step.
  apply ok_bind. eapply ok_mono; [apply ok_audio_open|].
  intros [g [reason|]] l Hl; cbn [fst snd] in *; [rewrite Hl; by apply ok_audio_abandon|].
  apply ok_audio_calm_bind; [by_steps|intros _].
  exists recording, ending. split_and!; [done|..].
  - intros g' l' Hl'. by apply ok_audio_writer_pass.
  - intros g' l' Hl'. by apply ok_audio_writer_finish.
Qed.

Lemma ok_audio_writer_thread : ok (writer_thread nvs_random) (LW HNone FUnborn) (fun _ _ => True).
Proof.
  exists (fun _ l => l = LW HNone FUnborn), (fun _ l => l = LW HNone FIdle). split_and!; [done|..].
  - intros _ l ->. apply ok_audio_writer_step. intros b m d Hf.
    assert (E : on_rec (get (fun r => spawned r rec_writer)) d = (spawned (rcd d) rec_writer, d)) by (by destruct d).
    rewrite E. cbn [fst snd]. destruct (spawned (rcd d) rec_writer) eqn:Hsp; [|by exists HNone, FUnborn].
    exists HNone, FIdle. split; [|done]. destruct Hf as [Hb Hwf Hh Ht Hff Hfs]. split; try done.
    intros Hu. destruct (Hb Hu) as (_ & _ & _ & Hno & _). congruence.
  - intros _ l ->. by apply ok_audio_writer_task.
Qed.

(** ** The boot *)

Section boot.
Context (slot0 slot1 : bytes) (Hslot0 : zlen slot0 = CAP) (Hslot1 : zlen slot1 = CAP).

Lemma initialised_facts h f m d :
  facts h f BUninit m d ->
  facts h f BReady m (Device (sd d) (hw d) (usbs d)
    (set_pipeline (pcm_pipeline_init slot0 slot1) (rcd d)) (devices d) (link d) (wakeup d) (history d)).
Proof.
  intros [Hb _ _ (taken & Et & Hm) Hff Hfs]. destruct (Hb eq_refl) as (-> & -> & -> & _ & _ & Hq).
  apply Facts; cbn [rcd set_pipeline s_pipeline history card].
  - discriminate.
  - intros _. by apply init_wf.
  - exact I.
  - exists taken. split; [|exact Hm]. rewrite Et. f_equal. exact Hq.
  - exact Hff.
  - exact Hfs.
Qed.

Lemma spawned_facts t h f m d :
  facts h f BReady m d ->
  facts h f BReady m (Device (sd d) (hw d) (usbs d) (set_spawned t (rcd d)) (devices d) (link d) (wakeup d)
    (history d)).
Proof. intros [_ Hwf Hh Ht Hff Hfs]. by apply Facts. Qed.

(** The boot takes the claims [BReady] and [BUninit] only here. *)
Lemma ok_audio_create t (Q : bool -> claim -> Prop) :
  (forall created, Q created (LB BReady)) -> ok (create_task t) (LB BReady) Q.
Proof.
  intros HQ. unfold create_task. apply ok_audio_calm_bind; [by_steps|intros created].
  destruct created; cbn [when pbind]; [|apply HQ]. apply ok_boot_step. intros h f m d Hf.
  exists BReady. split; [by apply spawned_facts|apply HQ].
Qed.

Lemma ok_audio_create_tasks : ok create_tasks (LB BReady) (fun _ _ => True).
Proof.
  assert (Herr : forall reason, ok (recorder_enter_error reason) (LB BReady) (fun _ _ => True)).
  { intros reason. by apply ok_audio_calm; [by_steps|]. }
  unfold create_tasks. do 3 (apply ok_bind, ok_audio_create; intros []; cbn [negb]; [|apply Herr]). done.
Qed.

Lemma ok_audio_base_thread : ok (base_thread slot0 slot1) (LB BUninit) (fun _ _ => True).
Proof.
  exists (fun _ l => l = LB BUninit), (fun _ l => l = LB BUninit). split_and!; [done|..].
  { intros _ l ->. apply ok_audio_calm; [by_steps|]. by intros [a|a]. }
  intros _ l ->. unfold recorder_base_task. calm_step. apply ok_bind.
  eapply ok_mono; [instantiate (1 := fun _ _ => True)|].
  2: { intros _ l _. by apply ok_audio_calm; [by_steps|]. }
  unfold recorder_base_app_main. calm_step. apply ok_boot_step. intros h f m d Hf.
  exists BReady. split; [by apply initialised_facts|]. cbn [fst]. clear h f m d Hf.
  calm_step. calm_step. destruct (negb _); [done|]. calm_step. calm_step.
  destruct (negb _); [by apply ok_audio_calm; [by_steps|]|].
  destruct (negb _); [by apply ok_audio_calm; [by_steps|]|]. calm_step. calm_step.
  destruct (negb _); [by apply ok_audio_calm; [by_steps|]|]. calm_step.
  destruct (negb _); [by apply ok_audio_calm; [by_steps|]|]. calm_step. apply ok_audio_create_tasks.
Qed.

(** ** The whole firmware *)

(** The claims at power-on. *)
Definition powered_on_claims (n : nat) : list claim :=
  LO :: LW HNone FUnborn :: LB BUninit :: LO :: LO :: LM MUnborn :: replicate n LO.

Lemma audio_firmware_ok callbacks h p r n card_ :
  pool_ok audio (firmware (J := J) nvs_random slot0 slot1 callbacks) (powered_on h p r n card_).
Proof.
  exists (powered_on_claims (1 + length callbacks)). split; [|split].
  - cbn. by rewrite length_map, length_replicate.
  - exists HNone, FUnborn, BUninit, MUnborn, (replicate (1 + length callbacks) LO).
    split_and!; [done|by apply Forall_replicate|]. apply Facts; try done.
    + by exists [].
    + by intros [|x since] w d0 older.
    + split; [done|]. by intros [|x newer] w d1 since d0 older.
  - assert (Hcalm : forall q : task unit, calmly q -> ok q LO (fun _ _ => True)).
    { intros q Hq. by apply ok_audio_calm. }
    intros i q l Hq Hl. destruct i as [|[|[|[|[|[|i]]]]]]; cbn in Hq, Hl; simplify_eq.
    + apply Hcalm, calm_coordinator.
    + apply ok_audio_writer_thread.
    + apply ok_audio_base_thread.
    + apply Hcalm, calm_app_main.
    + apply Hcalm, calm_worker.
    + apply ok_capture_thread.
    + change (replicate (1 + length callbacks) LO !! i = Some l) in Hl.
      apply lookup_replicate in Hl as [-> _]. apply Hcalm.
      assert (Hall : Forall (fun q : task unit => calmly q)
        (after_creation rec_battery recorder_battery_task :: map (run_in_turn run_stack_call) callbacks)).
      { constructor; [apply calm_battery|]. apply Forall_map, Forall_true. intros cs.
        apply steps_in_turn, calm_stack_call. }
      rewrite Forall_lookup in Hall. by eapply Hall.
Qed.

Lemma heard_before_prefix ns : heard_before ns `prefix_of` heard ns.
Proof. induction ns as [|[] ns IH]; cbn; try done. by apply prefix_app_r. Qed.

(** The ring buffer as the invariant has it. *)
Lemma ring_length h f b m d : facts h f b m d -> zlen (queued (ring d)) <= 2 * CAP.
Proof.
  intros Hf. destruct b.
  - destruct (fact_boot _ _ _ _ _ Hf eq_refl) as (_ & _ & _ & _ & _ & ->). by rewrite CAP_val.
  - by apply queued_bounds, (fact_wf _ _ _ _ _ Hf).
Qed.

(** What the writer has stored and not released. *)
Definition unreleased (h : held) : Z := match h with HStored _ => CAP | _ => 0 end.

Lemma unstored_drop h p : unstored h p = drop (Z.to_nat (unreleased h)) (queued p).
Proof. destruct h; [symmetry; apply drop_0..|reflexivity]. Qed.

Lemma facts_without_gap h f b m d :
  facts h f b m d -> exists kept taken, (kept = 0 \/ kept = CAP) /\
    taken = stored (notes d) ++ drop (Z.to_nat kept) (queued (ring d)) /\
    heard_before (notes d) `prefix_of` taken /\ taken `prefix_of` heard (notes d) /\
    zlen taken <= zlen (stored (notes d)) + 2 * CAP.
Proof.
  intros Hf. destruct (fact_tape _ _ _ _ _ Hf) as (taken & Et & Hm). rewrite unstored_drop in Et.
  pose proof (ring_length _ _ _ _ _ Hf) as Hlen. pose proof (heard_before_prefix (notes d)) as Hpre.
  exists (unreleased h), taken. split; [destruct h; [left|left|right]; reflexivity|]. split; [exact Et|].
  apply and_assoc. split.
  - destruct m; cbn in Hm; [rewrite Hm; split; [exact Hpre|done]..| |exact Hm].
    destruct Hm as [-> ->]. split; [done|]. by apply prefix_app_r.
  - rewrite Et, zlen_app. apply Z.add_le_mono_l. etransitivity; [|exact Hlen].
    unfold zlen. rewrite length_drop. lia.
Qed.

Lemma run_facts callbacks h p r n card_ sched :
  exists held f b m, facts held f b m
    (run sched (firmware (J := J) nvs_random slot0 slot1 callbacks) (powered_on h p r n card_)).2.
Proof.
  destruct (run_ok audio sched _ _ (audio_firmware_ok callbacks h p r n card_))
    as (ls & _ & (held & f & b & m & rest & _ & _ & Hf) & _).
  by exists held, f, b, m.
Qed.
End boot.

(** C4: no audio is lost, repeated or reordered between the microphone and the
    sink.  For every schedule of the firmware's threads from power-on, whatever
    the PC sends and every fault of the card, the microphone or another
    device: the buffers the sink accepted, then the ring buffer (less one full slot the
    writer has stored and not yet released), are a prefix of what the
    microphone gave, and at most its last read is missing; so what is not on
    the card is at most two buffers and the last read. *)
Theorem audio_without_gap slot0 slot1 callbacks h p r n card_ sched :
  zlen slot0 = CAP -> zlen slot1 = CAP ->
  let d := (run sched (firmware (J := J) nvs_random slot0 slot1 callbacks) (powered_on h p r n card_)).2 in
  let ns := recorder_notes (history d) in
  exists kept taken, (kept = 0 \/ kept = CAP) /\
    taken = stored ns ++ drop (Z.to_nat kept) (queued (s_pipeline (rcd d))) /\
    heard_before ns `prefix_of` taken /\ taken `prefix_of` heard ns /\
    zlen taken <= zlen (stored ns) + 2 * CAP.
Proof.
  intros H0' H1' d ns. destruct (run_facts slot0 slot1 H0' H1' callbacks h p r n card_ sched) as (? & ? & ? & ? & Hf).
  exact (facts_without_gap _ _ _ _ _ Hf).
Qed.

(** C5: the files hold exactly what the sink accepted.  For every schedule
    from power-on and every fault: every buffer was written into the file of a
    segment that was opened and not yet finalized; and when a segment has been
    finalized under a name that was free when it was opened, its file is the
    44-byte header for the audio the sink accepted since, and that audio, with
    nothing behind it unless a write to it was cut short (for audio that fits
    the 32-bit sizes of the header, with one buffer to spare). *)
Theorem segments_hold_the_audio slot0 slot1 callbacks h p r n card_ sched :
  zlen slot0 = CAP -> zlen slot1 = CAP ->
  let d := (run sched (firmware (J := J) nvs_random slot0 slot1 callbacks) (powered_on h p r n card_)).2 in
  files_hold (recorder_notes (history d)).
Proof.
  intros H0' H1' d. destruct (run_facts slot0 slot1 H0' H1' callbacks h p r n card_ sched) as (? & ? & ? & ? & Hf).
  exact (fact_files _ _ _ _ _ Hf).
Qed.
End audio.

(** ** Witnesses: a recording on the bench *)

Definition bench_slot : bytes := replicate (Z.to_nat CAP) 0.

#[local] Instance hearing_recorder : RecorderPlatform pc := bench_hearing (replicate (Z.to_nat 20000) 7).

Abbreviation hearing_run sched :=
  (run sched (firmware (J := CdcCore.tiny_json) bench_random bench_slot bench_slot [bench_callbacks])
     (powered_on Ours [] tt blank_settings blank_card)).2.

Lemma bench_slot_length : zlen bench_slot = CAP.
Proof. by vm_compute. Qed.

Lemma audio_without_gap_witness :
  zlen (stored (recorder_notes (history (hearing_run to_one_buffer)))) = 32768 /\
  zlen (heard (recorder_notes (history (hearing_run to_one_buffer)))) = 60000 /\
  exists kept taken, (kept = 0 \/ kept = CAP) /\
    taken = stored (recorder_notes (history (hearing_run to_one_buffer))) ++
      drop (Z.to_nat kept) (queued (s_pipeline (rcd (hearing_run to_one_buffer)))) /\
    heard_before (recorder_notes (history (hearing_run to_one_buffer))) `prefix_of` taken /\
    taken `prefix_of` heard (recorder_notes (history (hearing_run to_one_buffer))) /\
    zlen taken <= zlen (stored (recorder_notes (history (hearing_run to_one_buffer)))) + 2 * CAP.
Proof.
  split; [vm_compute; reflexivity|]. split; [vm_compute; reflexivity|].
  exact (audio_without_gap bench_random bench_slot bench_slot [bench_callbacks]
    Ours [] tt blank_settings blank_card to_one_buffer bench_slot_length bench_slot_length).
Defined.

(** The file of the latest note, when it is of a finalization. *)
Definition latest_file (ns : list rec_note) : option node :=
  match ns with SegmentFinalized wav files :: _ => files !! wav | _ => None end.

Lemma segments_hold_the_audio_witness :
  match latest_file (recorder_notes (history (hearing_run to_finalization))) with
  | Some (NFile body) => zlen body = 44 + 32768 /\ zlen (filter (eq 7) body) = 32768
  | _ => False
  end /\
  files_hold (recorder_notes (history (hearing_run to_finalization))).
Proof.
  split; [vm_compute; by split|].
  exact (segments_hold_the_audio bench_random bench_slot bench_slot [bench_callbacks]
    Ours [] tt blank_settings blank_card to_finalization bench_slot_length bench_slot_length).
Defined.
