(* ===== verification/Finished.v ===== *)
(** * Finished: finished recordings stay as they are

    A file with the name of a finished recording is never written, renamed or
    removed by the firmware, whatever happens, and survives power cuts once its
    bytes are on the medium.  [spares m Q]: in every state it passes through,
    the card operation [m] leaves the finished recordings alone, and its result
    satisfies [Q]; the results matter because a stream is written through its
    handle.  The operations of the card are walked over call by call ([spare]),
    those of the tasks step by step ([within]).  The clock correction's flush,
    which [Device] keeps apart from the card, touches only the event log:
    [RtcEvent]. *)

From S2P Require Import Prelude Monad Nvs ShutdownArmed WakeRecovery Stdio RecorderConfig.
From S2P Require Import RecorderState PcmPipeline WavPart WavRotation WavRecovery RecoveryScan.
From S2P Require Import Sha256 DeviceIdentity ManifestText ManifestStore ManifestScan Interleave.
From S2P Require Import SdMount UsbOwnership Recorder CdcSession Calls CdcWorker Coordinator Device.
From S2P Require Import Bench.
From S2P Require CdcCore SessionGate ManifestCrash.

(** ** What an operation of the card may change *)

Abbreviation finished := has_wav_suffix_local.

Abbreviation card_state := (disk * gset bytes)%type.
Abbreviation card_of w := (w_disk w, w_dirty w).

(** Every finished recording is as it was, and on the medium if it was. *)
Definition intact (s s' : card_state) : Prop :=
  forall p n, finished p = true -> s.1 !! p = Some n -> s'.1 !! p = Some n /\ (p ∈ s'.2 -> p ∈ s.2).

#[export] Instance intact_preorder : PreOrder intact.
Proof.
  split; [by intros s p n|]. intros s1 s2 s3 H12 H23 p n Hp Hn.
  destruct (H12 p n Hp Hn) as [Hn2 Hx2]. destruct (H23 p n Hp Hn2) as [Hn3 Hx3]. auto.
Qed.

(** On a card whose rename does not replace, every state since then spares the
    finished recordings. *)
Record kept (w w' : world) : Prop := Kept {
  kept_over : w_rename_over w' = w_rename_over w;
  kept_states : exists newer, w_hist w' = (newer ++ w_hist w)%list /\
    (w_rename_over w = false -> Forall (intact (card_of w)) (card_of w' :: newer));
}.

#[export] Instance kept_preorder : PreOrder kept.
Proof.
  split.
  - intros w. split; [done|]. exists []. by split; [|constructor].
  - intros w1 w2 w3 [Ho1 (s1 & Hs1 & H1)] [Ho2 (s2 & Hs2 & H2)]. split; [congruence|].
    exists (s2 ++ s1)%list. split; [by rewrite Hs2, Hs1, app_assoc|]. intros Ho.
    specialize (H1 Ho). apply Forall_cons in H1 as [H12 H1]. rewrite Ho1 in H2.
    rewrite app_comm_cons. apply Forall_app. split; [|done].
    eapply Forall_impl; [by apply H2|]. intros s Hs. by etransitivity.
Qed.

Lemma kept_keeps w w' : keeps w w' -> kept w w'.
Proof.
  intros [Hd Hx Ho Hh _ _]. split; [done|]. exists []. split; [done|]. intros _.
  rewrite Hd, Hx. by repeat constructor.
Qed.

Lemma kept_moves w d x w' :
  moves w d x w' -> (w_rename_over w = false -> intact (card_of w) (d, x)) -> kept w w'.
Proof.
  intros [Hd Hx Ho Hh _ _] Hs. split; [done|]. exists [card_of w]. split; [done|]. intros Hover.
  rewrite Hd, Hx. constructor; [by apply Hs|]. by repeat constructor.
Qed.

Definition spares {X} (m : io X) (Q : X -> Prop) : Prop := forall w, kept w (m w).2 /\ Q (m w).1.

Abbreviation spares_any m := (spares m (fun _ => True)).

Lemma spares_wp {X} (m : io X) (Q : X -> Prop) :
  (forall w, wp m (fun x w' => kept w w' /\ Q x) w) -> spares m Q.
Proof. done. Qed.

Lemma spares_ret {X} (x : X) (Q : X -> Prop) : Q x -> spares (ret x) Q.
Proof. by intros Hx w. Qed.

Lemma spares_mono {X} (m : io X) (Q Q' : X -> Prop) : spares m Q -> (forall x, Q x -> Q' x) -> spares m Q'.
Proof. intros Hm HQ w. destruct (Hm w). auto. Qed.

Lemma spares_bind {X Y} (m : io X) (k : X -> io Y) (R : X -> Prop) (Q : Y -> Prop) :
  spares m R -> (forall x, R x -> spares (k x) Q) -> spares (bind m k) Q.
Proof.
  intros Hm Hk w. unfold bind. specialize (Hm w). destruct (m w) as [x w']. destruct Hm as [H1 Hx].
  destruct (Hk x Hx w') as [H2 Hy]. split; [by etransitivity|done].
Qed.

(** *** The library calls *)

Definition at_path (p : bytes) (f : option handle) : Prop :=
  match f with Some h => h_path h = p | None => True end.
Definition handle_safe (h : option handle) : Prop :=
  match h with Some h => finished (h_path h) = false | None => True end.

Section calls.
Context (p : bytes) (Hp : finished p = false).

Lemma intact_insert d x n : intact (d, x) (<[p := n]> d, {[p]} ∪ x).
Proof using Hp.
  intros q n' Hq Hd. assert (p <> q) by congruence. cbn. rewrite lookup_insert_ne by done. set_solver.
Qed.

Lemma intact_delete d x : intact (d, x) (delete p d, x ∖ {[p]}).
Proof using Hp.
  intros q n' Hq Hd. assert (p <> q) by congruence. cbn. rewrite lookup_delete_ne by done. set_solver.
Qed.

Lemma spares_fopen_wb : spares (fopen_wb p) (at_path p).
Proof using Hp.
  apply spares_wp. intros w. apply wp_fopen_wb; [intros w' Hk _|intros w' Hm]; (split; [|done]).
  - by apply kept_keeps.
  - eapply kept_moves; [done|]. intros _. apply intact_insert.
Qed.

Lemma spares_fopen_append : spares (fopen_append p) (at_path p).
Proof using Hp.
  apply spares_wp. intros w.
  apply wp_fopen_append; [intros w' Hk _|intros w' c Hk _|intros w' _ Hm]; (split; [|done]).
  1,2: by apply kept_keeps.
  eapply kept_moves; [done|]. intros _. apply intact_insert.
Qed.

Lemma spares_rename new : spares_any (rename p new).
Proof using Hp.
  apply spares_wp. intros w. apply wp_rename; [intros w' e Hk _|intros w' n Hn Hfree Hm]; (split; [|done]).
  - by apply kept_keeps.
  - eapply kept_moves; [done|]. intros Ho q n' Hq Hd. cbn in *.
    assert (p <> q) by congruence. assert (new <> q) by (intros ->; destruct Hfree; congruence).
    rewrite lookup_insert_ne, lookup_delete_ne by done. split; [done|].
    unfold renamed_dirty. case_bool_decide; set_solver.
Qed.

Lemma spares_remove : spares_any (remove p).
Proof using Hp.
  apply spares_wp. intros w. apply wp_remove; [intros w' e Hk _|intros w' n Hn Hm]; (split; [|done]).
  - by apply kept_keeps.
  - eapply kept_moves; [done|]. intros _. apply intact_delete.
Qed.

Lemma spares_truncate k : spares_any (truncate p k).
Proof using Hp.
  apply spares_wp. intros w. apply wp_truncate; intros; (split; [|done]); try (by apply kept_keeps).
  eapply kept_moves; [done|]. intros _. by apply intact_insert.
Qed.
End calls.

Lemma spares_fwrite h data :
  finished (h_path h) = false -> spares (fwrite h data) (fun r => h_path r.2 = h_path h).
Proof.
  intros Hh. apply spares_wp. intros w. apply wp_fwrite. intros w' ok stored Hm _ _ _. split; [|done].
  eapply kept_moves; [done|]. intros _. by apply intact_insert.
Qed.

Lemma spares_fopen_existing p : spares (fopen_existing p) (at_path p).
Proof.
  apply spares_wp. intros w. apply wp_fopen_existing; intros; (split; [by apply kept_keeps|done]).
Qed.

Lemma spares_fseek h pos : spares (fseek h pos) (at_path (h_path h)).
Proof. apply spares_wp. intros w. apply wp_fseek; intros; (split; [by apply kept_keeps|done]). Qed.

Lemma spares_fseek_end h : spares (fseek_end h) (at_path (h_path h)).
Proof. apply spares_wp. intros w. apply wp_fseek_end; intros; (split; [by apply kept_keeps|done]). Qed.

Lemma spares_fread h n : spares (fread h n) (fun r => h_path r.2 = h_path h).
Proof. apply spares_wp. intros w. apply wp_fread; intros; (split; [by apply kept_keeps|done]). Qed.

Lemma spares_fflush h : spares_any (fflush h).
Proof. apply spares_wp. intros w. apply wp_fflush; intros; (split; [by apply kept_keeps|done]). Qed.
Lemma spares_fclose h : spares_any (fclose h).
Proof. apply spares_wp. intros w. apply wp_fclose; intros; (split; [by apply kept_keeps|done]). Qed.
Lemma spares_ftell h : spares_any (ftell h).
Proof. apply spares_wp. intros w. apply wp_ftell; intros; (split; [by apply kept_keeps|done]). Qed.
Lemma spares_stat p : spares_any (stat p).
Proof. apply spares_wp. intros w. apply wp_stat; intros; (split; [by apply kept_keeps|done]). Qed.

Lemma spares_fsync h : spares_any (fsync h).
Proof.
  apply spares_wp. intros w. apply wp_fsync; intros; (split; [|done]); [by apply kept_keeps|].
  eapply kept_moves; [done|]. intros _ q n _ Hn. cbn. set_solver.
Qed.

Lemma spares_mkdir p : spares_any (mkdir p).
Proof.
  apply spares_wp. intros w. apply wp_mkdir; [intros w' e Hk _|intros w' Hn Hm]; (split; [|done]).
  - by apply kept_keeps.
  - eapply kept_moves; [done|]. intros _ q n _ Hd. cbn in *.
    by rewrite lookup_insert_ne by congruence.
Qed.

Create HintDb spares discriminated.
#[export] Hint Resolve spares_fopen_wb spares_fopen_append spares_rename spares_remove spares_truncate
  spares_fwrite spares_fopen_existing spares_fseek spares_fseek_end spares_fread spares_fflush
  spares_fclose spares_ftell spares_stat spares_fsync spares_mkdir : spares.

(** A part file is no finished recording. *)
Lemma part_not_finished p : has_part_suffix_local p = true -> finished p = false.
Proof.
  intros [stem ->]%has_suffix_spec. unfold has_wav_suffix_local, has_suffix.
  rewrite length_app. change (length RECORDER_PART_SUFFIX) with 9%nat.
  change (length RECORDER_WAV_SUFFIX) with 4%nat.
  rewrite skipn_app, (skipn_all2 stem) by lia.
  replace (length stem + 9 - 4 - length stem)%nat with 5%nat by lia.
  rewrite andb_false_iff. right. by vm_compute.
Qed.

(** The path of a handle, by the results that led to it. *)
Ltac split_guards :=
  repeat match goal with
  | H : at_path _ (Some _) |- _ => cbn [at_path] in H
  | H : negb _ = false |- _ => apply negb_false_iff in H
  | H : _ || _ = false |- _ => apply orb_false_elim in H as [? ?]
  end.
Ltac path_is_other :=
  cbn [fst snd at_path handle_safe] in *;
  repeat match goal with H : h_path ?h = _ |- context [h_path ?h] => rewrite H end;
  repeat match goal with H : fp ?p = _ |- context [fp ?p] => rewrite H end;
  first [ congruence | assumption | exact I | by apply part_not_finished | by vm_compute ].
#[export] Hint Extern 5 (finished _ = false) => path_is_other : spares.

(** Walking over an operation: the calls it knows, and otherwise down to them. *)
Ltac spare_step :=
  cbn beta zeta;
  lazymatch goal with
  | |- spares (ret _) _ => apply spares_ret; first [exact I|done|solve [cbn; path_is_other]|idtac]
  | |- spares (bind _ _) _ =>
      eapply spares_bind; [first [solve [eauto with spares nocore] | instantiate (1 := fun _ => True)]|intros ? ?]
  | |- spares (match ?x with _ => _ end) _ => destruct x eqn:?; split_guards
  | |- spares ?m ?Q =>
      first [ solve [eapply spares_mono; [eauto with spares nocore|done]]
            | let f := head_of m in unfold f ]
  end.
Ltac spare := repeat spare_step.

(** ** The operations of the components *)

Lemma spares_append_line p line : finished p = false -> spares_any (append_line p line).
Proof. intros Hp. spare. Qed.


(** *** What only reads *)

Lemma spares_next_fault : spares_any next_fault.
Proof. apply spares_wp. intros w. apply wp_next_fault. intros w' Hk. split; [by apply kept_keeps|done]. Qed.
Lemma spares_get_disk : spares_any get_disk.
Proof. by intros w. Qed.
#[export] Hint Resolve spares_next_fault spares_get_disk : spares.

Lemma spares_list_dir p : spares_any (list_dir p).
Proof. spare. Qed.

Lemma spares_read_file p n : spares_any (read_file_bounded p n).
Proof. spare. Qed.

Lemma spares_hash_loop fuel : forall h c, spares_any (hash_loop fuel h c).
Proof. induction fuel as [|fuel IH]; intros h c; cbn [hash_loop]; spare. Qed.
#[export] Hint Resolve spares_list_dir spares_read_file spares_hash_loop : spares.

Lemma spares_hash_wav p : spares_any (device_manifest_hash_wav_file p).
Proof. spare. Qed.
#[export] Hint Resolve spares_append_line spares_hash_wav : spares.

(** *** The manifest *)

Lemma suffixed_not_finished p s :
  has_wav_suffix_local s = false -> (4 <= length s)%nat -> finished (p ++ s)%list = false.
Proof.
  intros Hs Hl. unfold has_wav_suffix_local, has_suffix in *. change (length RECORDER_WAV_SUFFIX) with 4%nat in *.
  rewrite length_app, skipn_app, (skipn_all2 p) by lia.
  replace (length p + length s - 4 - length p)%nat with (length s - 4)%nat by lia.
  apply andb_false_iff in Hs as [Hs|Hs]; [by apply Nat.leb_gt in Hs; lia|].
  cbn [app]. by rewrite Hs, andb_false_r.
Qed.

Lemma backup_not_finished m b : manifest_backup_path m = Some b -> finished b = false.
Proof.
  unfold manifest_backup_path, snprintf_fit. case_match; [|done]. intros [= <-].
  by apply suffixed_not_finished.
Qed.
#[export] Hint Resolve backup_not_finished : spares.

Section manifest.
Context (man tmp id : bytes) (Hman : finished man = false) (Htmp : finished tmp = false).

Lemma spares_upsert now entry : spares_any (device_manifest_upsert_file man tmp id now entry).
Proof using Hman Htmp. spare. Qed.

Lemma spares_recover_tmp : spares_any (device_manifest_recover_tmp man tmp id).
Proof using Hman Htmp. spare. Qed.
End manifest.
#[export] Hint Resolve spares_upsert spares_recover_tmp : spares.

Lemma spares_append_room man id : spares_any (device_manifest_has_append_room man id).
Proof. spare. Qed.

Lemma spares_no_artifacts ps : spares_any (no_artifacts ps).
Proof. induction ps as [|p ps IH]; cbn [no_artifacts]; spare. Qed.
#[export] Hint Resolve spares_append_room spares_no_artifacts : spares.

Lemma spares_ensure_manifest id now : spares_any (ensure_manifest id now).
Proof. spare. Qed.
#[export] Hint Resolve spares_ensure_manifest : spares.

Section scan.
Context (man tmp id now state : bytes) (Hman : finished man = false) (Htmp : finished tmp = false).

Lemma spares_ensure_one_wav wav rel date base c :
  spares_any (ensure_one_wav wav rel date base man tmp id now state c).
Proof using Hman Htmp. spare. Qed.
#[local] Hint Resolve spares_ensure_one_wav : spares.

Lemma spares_walk_date child date failed : forall names c,
  spares_any (walk_date child date names failed man tmp id now state c).
Proof using Hman Htmp. induction names as [|name names IH]; intros c; cbn [walk_date]; spare. Qed.
#[local] Hint Resolve spares_walk_date : spares.

Lemma spares_walk_recordings dir failed : forall names c,
  spares_any (walk_recordings dir names failed man tmp id now state c).
Proof using Hman Htmp. induction names as [|name names IH]; intros c; cbn [walk_recordings]; spare. Qed.
#[local] Hint Resolve spares_walk_recordings : spares.

Lemma spares_sync_wav_dir dir : spares_any (device_manifest_sync_wav_dir dir man tmp id now state).
Proof using Hman Htmp. spare. Qed.
End scan.

(** *** The device's identity, the log and the boot recovery *)

Lemma spares_device_json p id model version local :
  finished p = false -> spares_any (device_identity_ensure_device_json p id model version local).
Proof. intros Hp. spare. Qed.

Lemma spares_append_event p t from to reason mv :
  finished p = false -> spares_any (recorder_state_append_event p t from to reason mv).
Proof. intros Hp. spare. Qed.
#[export] Hint Resolve spares_sync_wav_dir spares_device_json spares_append_event : spares.

Section recovery.
Context (dir : bytes) (events : option bytes)
  (Hevents : match events with Some e => finished e = false | None => True end).

Lemma spares_quarantine_numbered n part : has_part_suffix_local part = true ->
  forall i, spares_any (quarantine_numbered n i part dir).
Proof. intros Hp. induction n as [|n IH]; intros i; cbn [quarantine_numbered]; spare. Qed.
#[local] Hint Resolve spares_quarantine_numbered : spares.

Lemma spares_recover_file part wav : spares_any (wav_recovery_recover_file part wav dir).
Proof. spare. Qed.
#[local] Hint Resolve spares_recover_file : spares.

Lemma spares_handle_one_part part s : spares_any (handle_one_part part dir events s).
Proof using Hevents. spare. Qed.
#[local] Hint Resolve spares_handle_one_part : spares.

Lemma spares_scan_sub child : forall names s, spares_any (scan_sub child names dir events s).
Proof using Hevents. induction names as [|name names IH]; intros s; cbn [scan_sub]; spare. Qed.
#[local] Hint Resolve spares_scan_sub : spares.

Lemma spares_scan_top top : forall names s, spares_any (scan_top top names dir events s).
Proof using Hevents. induction names as [|name names IH]; intros s; cbn [scan_top]; spare. Qed.
#[local] Hint Resolve spares_scan_top : spares.

Lemma spares_scan_recordings top : spares_any (wav_recovery_scan_recordings top dir events).
Proof using Hevents. spare. Qed.
End recovery.
#[export] Hint Resolve spares_scan_recordings : spares.

(** *** The sink, which writes through the handle it keeps *)

Abbreviation part_safe p := (handle_safe (fp p)).
Abbreviation sink_safe k := (part_safe (wav k)).

Lemma spares_rewrite_header p h : finished (h_path h) = false ->
  spares (wav_part_rewrite_header p h) (fun r => h_path r.2 = h_path h).
Proof. intros Hh. spare. Qed.
#[export] Hint Resolve spares_rewrite_header : spares.

Lemma spares_part_open p path rate ch bits : part_safe p ->
  spares (wav_part_open p path rate ch bits) (fun r => part_safe r.2).
Proof. intros Hp. spare. Qed.

Lemma spares_part_write p pcm : part_safe p -> spares (wav_part_write p pcm) (fun r => part_safe r.2).
Proof. intros Hp. spare. Qed.

Lemma spares_part_flush p : part_safe p -> spares (wav_part_flush p) (fun r => part_safe r.2).
Proof. intros Hp. spare. Qed.

Lemma spares_part_close p : part_safe p -> spares (wav_part_close p) (fun r => part_safe r.2).
Proof. intros Hp. spare. Qed.
#[export] Hint Resolve spares_part_open spares_part_write spares_part_flush spares_part_close : spares.

Section sink.
Context (k : sd_pcm_sink_t) (Hk : sink_safe k).

Lemma spares_sink_open path : spares (sd_pcm_sink_open k path) (fun r => sink_safe r.2).
Proof using Hk. spare. Qed.

Lemma spares_sink_write chunk t0 t1 : spares (sd_pcm_sink_write_chunk k chunk t0 t1) (fun r => sink_safe r.2).
Proof using Hk. spare. Qed.

Lemma spares_sink_flush : spares (sd_pcm_sink_flush k) (fun r => sink_safe r.2).
Proof using Hk. spare. Qed.

Lemma spares_sink_close : spares (sd_pcm_sink_close k) (fun r => sink_safe r.2).
Proof using Hk. spare. Qed.
#[local] Hint Resolve spares_sink_close : spares.

Lemma spares_finalize_once g : spares (wav_rotation_finalize_once g k) (fun r => sink_safe r.2).
Proof using Hk. spare. Qed.
End sink.
#[export] Hint Resolve spares_sink_open spares_sink_write spares_sink_flush spares_sink_close
  spares_finalize_once : spares.

(** ** The firmware *)

Section firmware.
Context {H P R N : Type} `{UsbPlatform H}.
Context `{RecorderPlatform P, CdcPlatform P, PowerPlatform P}.
Context `{NvsOps N bytes, RtcFlush R N, RtcService R N}.
Context {J : Type} `{!CdcCore.Cjson J}.

Abbreviation dv := (device H P R N).
Abbreviation task := (@prog dv).
Abbreviation card_in d := (card (rcd d)).

Definition card_kept (r r' : recorder) : Prop := kept (card r) (card r').
Definition still (d d' : dv) : Prop := kept (card_in d) (card_in d').

#[local] Instance card_kept_preorder : PreOrder card_kept.
Proof. split; [intros r; unfold card_kept; reflexivity|]. intros r1 r2 r3 H12 H23. unfold card_kept in *. by etransitivity. Qed.

#[local] Instance still_preorder : PreOrder still.
Proof. split; [intros d; unfold still; reflexivity|]. intros d1 d2 d3 H12 H23. unfold still in *. by etransitivity. Qed.

Lemma still_same d d' : card_in d' = card_in d -> still d d'.
Proof. unfold still. by intros ->. Qed.

Lemma still_usb {X} (m : st usb_state X) : along still (on_usb m : st dv X).
Proof. intros d. apply still_same. unfold on_usb. cbn. unfold dv_usb. by destruct (m (usbs d)). Qed.
Lemma still_sd {X} (m : st sd_state X) : along still (on_sd m : st dv X).
Proof. intros d. apply still_same. unfold on_sd. cbn. unfold dv_sd. by destruct (m (sd d)). Qed.
Lemma still_hw {X} (m : st H X) : along still (on_hw m : st dv X).
Proof. intros d. apply still_same. unfold on_hw. cbn. unfold dv_hw. by destruct (m (hw d)). Qed.
Lemma still_dev {X} (m : st P X) : along still (on_dev m : st dv X).
Proof. intros d. apply still_same. unfold on_dev. cbn. unfold dv_dev. by destruct (m (devices d)). Qed.
Lemma still_cdc {X} (m : st cdc_state X) : along still (on_cdc m : st dv X).
Proof. intros d. apply still_same. unfold on_cdc. cbn. unfold dv_cdc. by destruct (m (link d)). Qed.
Lemma still_wake {X} (m : st (wake_world R N) X) : along still (on_wake m : st dv X).
Proof. intros d. apply still_same. unfold on_wake. cbn. unfold dv_wake. by destruct (m (wakeup d)). Qed.
Lemma still_rec {X} (m : st recorder X) : along card_kept m -> along still (on_rec m : st dv X).
Proof. intros Hm d. unfold on_rec. cbn. unfold dv_rec. specialize (Hm (rcd d)). by destruct (m (rcd d)). Qed.

Lemma card_kept_on_card {X} (m : io X) (Q : X -> Prop) : spares m Q -> along card_kept (on_card m).
Proof. intros Hm r. unfold on_card. specialize (Hm (card r)). destruct (m (card r)). apply Hm. Qed.

(** *** Code that keeps no stream *)

Ltac rec_still :=
  lazymatch goal with
  | |- along _ (get _) => apply along_get, _
  | |- along _ (on_card _) => eapply card_kept_on_card; solve [eauto with spares nocore]
  | |- along _ (fun _ => on_card _ _) => intros ?; eapply card_kept_on_card; solve [eauto with spares nocore]
  | |- along _ _ => intros ?; unfold card_kept, store_read; cbn [modify snd]; repeat case_match; reflexivity
  end.
Ltac still_step :=
  lazymatch goal with
  | |- along _ (on_usb _) => apply still_usb
  | |- along _ (on_history _) => by intros ?; apply still_same
  | |- along _ (on_rec_history _) => by intros ?; apply still_same
  | |- along _ (on_answer_sent _) => by intros ?; apply still_same
  | |- along _ (on_dev _) => apply still_dev
  | |- along _ (on_cdc _) => apply still_cdc
  | |- along _ (on_session_gate _) => apply still_cdc
  | |- along _ (on_cdc_platform _) => apply still_dev
  | |- along _ (on_hw _) => apply still_hw
  | |- along _ (on_sd _) => apply still_sd
  | |- along _ (on_nvs _) => apply still_wake
  | |- along _ (on_wake _) => apply still_wake
  | |- along _ (on_rec _) => apply still_rec; rec_still
  | |- along _ (transition_locked _ _ _) => unfold transition_locked, append_state_event
  | |- along _ (bind _ _) => apply along_bind; [exact _| |intros ?]
  | |- along _ (ret _) => apply along_ret, _
  | |- along _ (match ?x with _ => _ end) => destruct x
  end.
Create HintDb still discriminated.
Ltac still_leaf :=
  first [ solve [eauto with still nocore] | unfold_leaf ltac:(fun _ => repeat still_step) ].
Ltac by_steps := walk still_leaf.

Abbreviation stills p := (all_steps (fun X => along still) p).

Lemma still_gate_call {X} (p : @prog SessionGate.gate_world X) : stills (gate_call p).
Proof. apply all_steps_lift. intros Y f. apply still_cdc. Qed.

Lemma still_read_trace vars : forall seen, stills (read_trace vars seen).
Proof. induction vars as [|v vars IH]; intros seen; cbn [read_trace]; by_steps. Qed.

#[local] Hint Resolve still_gate_call still_read_trace : still.

Lemma still_transition next reason mv : stills (recorder_transition_state next reason mv).
Proof. by_steps. Qed.

Lemma still_error reason : stills (recorder_enter_error reason).
Proof. by_steps. Qed.

#[local] Hint Resolve still_transition still_error : still.

Lemma still_battery : stills (after_creation rec_battery recorder_battery_task).
Proof. by_steps. Qed.

Lemma still_capture : stills (after_creation rec_capture recorder_capture_task).
Proof. by_steps. Qed.

Lemma still_app_main : stills app_main.
Proof. by_steps. Qed.

Lemma still_base slot0 slot1 : stills (base_thread slot0 slot1).
Proof. by_steps. Qed.

Lemma still_coordinator : stills coordinator_thread.
Proof. by_steps. Qed.

Lemma still_worker : stills (worker_thread (J := J)).
Proof. by_steps. Qed.

Lemma still_stack_call c : stills (run_stack_call c).
Proof. by_steps. Qed.

(** *** The writer, which keeps a stream *)

Abbreviation within := (within still).
Abbreviation safe g := (sink_safe (sink g)).

Lemma within_stills {A} (p : @prog dv A) : stills p -> within p (fun _ => True).
Proof. intros Hp. by apply within_steps. Qed.

Lemma within_card {X} (m : io X) Q : spares m Q -> within (on_card_task m : task X) Q.
Proof.
  intros Hm flip d. cbn. unfold dv_rec, on_card. destruct (Hm (card (rcd d))) as [Hk HQ].
  by destruct (m (card (rcd d))) as [x c].
Qed.

Lemma within_write_slot k i t0 t1 : sink_safe k ->
  within (write_slot k i t0 t1 : task _) (fun r => sink_safe r.2).
Proof.
  intros Hk flip d. cbn. unfold bind, dv_rec, dv_note, on_card, get. cbn.
  match goal with |- context [sd_pcm_sink_write_chunk k ?data t0 t1 ?c] =>
    destruct (spares_sink_write k Hk data t0 t1 c) as [Hc HQ];
    by destruct (sd_pcm_sink_write_chunk k data t0 t1 c) as [x c']
  end.
Qed.

#[local] Hint Resolve within_card within_write_slot : still.
#[local] Hint Resolve spares_sink_open spares_sink_flush spares_finalize_once spares_scan_recordings
  spares_sync_wav_dir spares_device_json : still.

Ltac within_step :=
  cbn beta zeta;
  lazymatch goal with
  | |- within (Done _) _ => try (cbn in *; first [done|tauto])
  | |- within (leave _) _ => try (cbn in *; first [done|tauto])
  | |- within (again _) _ => try (cbn in *; first [done|tauto])
  | |- within (match ?x with _ => _ end) _ => destruct x eqn:?; cbn [fst snd] in *
  | |- within (pbind _ _) _ =>
      eapply within_bind; [first [solve [eauto with still nocore] | apply within_stills; solve [by_steps]]|intros ? ?]
  | |- within _ _ => eapply within_mono; [apply within_stills; solve [by_steps]|done]
  end.

Lemma within_open date time6 g : safe g ->
  within (open_segment date time6 g) (fun r => safe r.1).
Proof. intros Hg. unfold open_segment. repeat within_step. Qed.

Lemma within_finalize g : safe g -> within (finalize_segment g) (fun r => safe r.2).
Proof. intros Hg. unfold finalize_segment. repeat within_step. Qed.
#[local] Hint Resolve within_open within_finalize : still.

Lemma within_finish g : safe g -> within (finish_segment g) (fun r => safe r.1).
Proof. intros Hg. unfold finish_segment. repeat within_step. Qed.
#[local] Hint Resolve within_finish : still.

Definition safe_drained (r : segment + segment * bool) : Prop :=
  match r with inl g => safe g | inr r => safe r.1 end.
Definition safe_pass (r : segment + segment) : Prop :=
  match r with inl g | inr g => safe g end.

Lemma within_drain g : safe g -> within (drain_pass g) safe_drained.
Proof. intros Hg. unfold drain_pass. repeat within_step. Qed.

Lemma within_rotate g : safe g -> within (rotate_if_due g) (fun r => safe r.1).
Proof. intros Hg. unfold rotate_if_due. repeat within_step. Qed.
#[local] Hint Resolve within_rotate : still.

Lemma within_pass g : safe g -> within (writer_pass g) safe_pass.
Proof.
  intros Hg. unfold writer_pass. within_step.
  exists (fun g => safe g), (fun r => safe r.1). split; [done|]. split.
  - intros g' Hg'. eapply within_mono; [by apply within_drain|]. by intros [g2|[g2 running]].
  - intros [g' running] Hg'. repeat within_step.
Qed.

Lemma within_writer_finish g : safe g -> within (writer_finish g) (fun _ => True).
Proof. intros Hg. unfold writer_finish. repeat within_step. Qed.

Context (nvs_random : st N Z).

Lemma within_writer_task : within (recorder_writer_task nvs_random) (fun _ => True).
Proof.
  unfold recorder_writer_task. repeat within_step.
  exists (fun g => safe g), (fun g => safe g). split; [done|]. split.
  - intros g Hg. eapply within_mono; [by apply within_pass|]. by intros [].
  - apply within_writer_finish.
Qed.

Lemma within_writer_thread : within (writer_thread nvs_random) (fun _ => True).
Proof.
  exists (fun _ => True), (fun _ => True). split; [done|]. split.
  - intros _ _. eapply within_mono; [apply within_stills; by_steps|]. by intros [].
  - intros _ _. apply within_writer_task.
Qed.

Lemma firmware_within slot0 slot1 callbacks :
  Forall (fun p => within p (fun _ => True)) (firmware (J := J) nvs_random slot0 slot1 callbacks).
Proof.
  unfold firmware. repeat (apply Forall_cons; split).
  - apply within_stills, still_coordinator.
  - apply within_writer_thread.
  - apply within_stills, still_base.
  - apply within_stills, still_app_main.
  - apply within_stills, still_worker.
  - apply within_stills, still_capture.
  - apply within_stills, still_battery.
  - apply Forall_map, Forall_true. intros cs. apply within_stills, steps_in_turn, still_stack_call.
Qed.

(** ** Over the lives of a card *)

(** The card [now] became [later], and power was lost in a state in between,
    with the unsynced files torn in any way: [left] is what the next boot
    finds; its calls may fail in any way. *)
Definition power_lost (now later left : world) : Prop :=
  exists newer s, w_hist later = (newer ++ w_hist now)%list /\ s ∈ card_of later :: newer /\
    ManifestCrash.torn s.1 s.2 (w_disk left) /\ w_dirty left = ∅ /\ w_rename_over left = false.

(** Any number of boots of the firmware on the card, each with devices,
    settings, callbacks and a schedule of its own, and cut short anywhere. *)
Inductive lives (c : world) : world -> Prop :=
  | same_card : lives c c
  | next_life c1 slot0 slot1 callbacks h p r n sched c2 :
      lives c c1 ->
      power_lost c1 (card (rcd (run sched (firmware (J := J) nvs_random slot0 slot1 callbacks)
                                   (powered_on h p r n c1)).2)) c2 ->
      lives c c2.

Lemma power_lost_keeps now later left path n :
  kept now later -> w_rename_over now = false -> power_lost now later left ->
  finished path = true -> w_disk now !! path = Some n -> path ∉ w_dirty now ->
  w_disk left !! path = Some n.
Proof.
  intros [_ (newer & Hnewer & Hall)] Ho (newer' & s & Hnewer' & Hs & Htorn & _) Hp Hn Hx.
  rewrite Hnewer in Hnewer'. apply app_inv_tail in Hnewer' as <-.
  specialize (Hall Ho). rewrite Forall_forall in Hall. destruct (Hall s Hs path n Hp Hn) as [Hsn Hsx].
  destruct Htorn as [Htorn _]. rewrite Htorn; [done|]. cbn in Hsx. auto.
Qed.

Lemma firmware_still slot0 slot1 callbacks h p r n card_ before after :
  let s := run before (firmware (J := J) nvs_random slot0 slot1 callbacks) (powered_on h p r n card_) in
  kept card_ (card_in s.2) /\ kept (card_in s.2) (card_in (run after s.1 s.2).2).
Proof.
  intros s. pose proof (firmware_within slot0 slot1 callbacks) as Hpool.
  destruct (run_within still before _ (powered_on h p r n card_) Hpool) as [H1' Hpool'].
  split; [exact H1'|]. by apply (run_within still after _ s.2) in Hpool' as [H2' _].
Qed.

Lemma lives_keep c c' path n :
  lives c c' -> w_rename_over c = false -> finished path = true ->
  w_disk c !! path = Some n -> path ∉ w_dirty c ->
  w_rename_over c' = false /\ w_disk c' !! path = Some n /\ path ∉ w_dirty c'.
Proof.
  intros Hl Ho Hp Hn Hx. induction Hl as [|c1 slot0 slot1 callbacks h p r m sched c2 _ (Ho1 & Hn1 & Hx1) Hlost].
  - done.
  - destruct (firmware_still slot0 slot1 callbacks h p r m c1 sched []) as [Hk _].
    pose proof (power_lost_keeps _ _ _ _ _ Hk Ho1 Hlost Hp Hn1 Hx1) as Hn2.
    destruct Hlost as (? & ? & _ & _ & _ & Hx2 & Ho2). rewrite Hx2. split_and!; [done..|]. set_solver.
Qed.

(** C6: finished recordings stay as they are.  On a card whose rename does not
    replace (FAT), for every schedule of the firmware's threads from power-on,
    whatever the PC sends and every fault: a file with the name of a finished
    recording that is on the card after some steps is there, unchanged, after
    any more; and if its bytes were on the medium, it is still there after
    power was lost anywhere since, with the unsynced files torn in any way, and
    after any number of further boots that end like that. *)
Theorem finished_recordings_stay slot0 slot1 callbacks h p r n card_ before after :
  w_rename_over card_ = false ->
  let s := run before (firmware (J := J) nvs_random slot0 slot1 callbacks) (powered_on h p r n card_) in
  let c := card (rcd s.2) in
  let c' := card (rcd (run after s.1 s.2).2) in
  forall path node, finished path = true -> w_disk c !! path = Some node ->
  w_disk c' !! path = Some node /\
  (path ∉ w_dirty c -> forall card1 card2, power_lost c c' card1 -> lives card1 card2 ->
   w_disk card2 !! path = Some node).
Proof.
  intros Ho s c c' path node Hp Hn.
  destruct (firmware_still slot0 slot1 callbacks h p r n card_ before after) as [[Hoc _] Hk].
  fold s c c' in Hk. fold s c in Hoc. rewrite <- Hoc in Ho. split.
  - destruct Hk as [_ (newer & _ & Hall)]. specialize (Hall Ho). apply Forall_cons in Hall as [Hall _].
    by destruct (Hall path node Hp Hn).
  - intros Hx card1 card2 Hlost Hlives.
    pose proof (power_lost_keeps _ _ _ _ _ Hk Ho Hlost Hp Hn Hx) as Hn1.
    destruct Hlost as (? & ? & _ & _ & _ & Hx1 & Ho1).
    eapply lives_keep; [done..|]. rewrite Hx1. set_solver.
Qed.
End firmware.

(** ** Witness: a recording on the bench, and the publication behind it *)

Abbreviation bench_start :=
  (run (to_recording ++ steps main_id 80 ++ steps callback_id 40 ++ steps coordinator_id 100 ++
        steps capture_id 40 ++ steps battery_id 20 ++ steps writer_id 2)%list
     (firmware (J := CdcCore.tiny_json) bench_random [] [] [bench_callbacks])
     (powered_on Ours [] tt blank_settings blank_card)).
Abbreviation bench_finish := (run (steps writer_id 200 ++ steps coordinator_id 100)%list bench_start.1 bench_start.2).
Abbreviation bench_card s := (card (rcd s.2)).

Definition bench_recording : bytes :=
  txt "/sdcard/M5DAYLOG/recordings/2026-07-18/000000_12345678-1234-4678-9234-567812345678.wav".

(** Power is lost at the end, and the log with it. *)
Definition bench_left : world := clean_world (delete RECORDER_EVENTS_PATH (w_disk (bench_card bench_finish))).

Lemma bench_unsynced : w_dirty (bench_card bench_finish) = {[RECORDER_EVENTS_PATH]}.
Proof. apply (bool_decide_eq_true_1 _). by vm_compute. Qed.

Lemma bench_lost : power_lost (bench_card bench_start) (bench_card bench_finish) bench_left.
Proof.
  pose proof (firmware_still (J := CdcCore.tiny_json) bench_random [] [] [bench_callbacks] Ours [] tt blank_settings blank_card
    (to_recording ++ steps main_id 80 ++ steps callback_id 40 ++ steps coordinator_id 100 ++
      steps capture_id 40 ++ steps battery_id 20 ++ steps writer_id 2)%list
    (steps writer_id 200 ++ steps coordinator_id 100)%list) as [_ [_ (newer & E & _)]].
  exists newer, (card_of (bench_card bench_finish)).
  split; [exact E|]. split; [apply list_elem_of_here|]. split; [|by split].
  split; cbn [fst snd]; rewrite bench_unsynced; unfold bench_left; cbn [w_disk clean_world]; intros p Hp.
  - apply lookup_delete_ne. intros <-. by apply Hp, elem_of_singleton.
  - apply elem_of_singleton in Hp as ->. by rewrite lookup_delete_eq.
Qed.

Lemma finished_recordings_stay_witness :
  exists body, zlen body = 44 /\ w_disk (bench_card bench_start) !! bench_recording = Some (NFile body) /\
    w_disk (bench_card bench_finish) !! bench_recording = Some (NFile body) /\
    w_disk bench_left !! bench_recording = Some (NFile body).
Proof.
  assert (Hlen : match w_disk (bench_card bench_start) !! bench_recording with
    | Some (NFile body) => zlen body =? 44 | _ => false end = true) by (vm_compute; reflexivity).
  assert (Hsynced : bench_recording ∉ w_dirty (bench_card bench_start))
    by (apply (bool_decide_eq_true_1 _); vm_compute; reflexivity).
  destruct (w_disk (bench_card bench_start) !! bench_recording) as [[body|]|] eqn:E; [|discriminate Hlen..].
  destruct (finished_recordings_stay (J := CdcCore.tiny_json) bench_random [] [] [bench_callbacks] Ours [] tt blank_settings blank_card
    (to_recording ++ steps main_id 80 ++ steps callback_id 40 ++ steps coordinator_id 100 ++
      steps capture_id 40 ++ steps battery_id 20 ++ steps writer_id 2)%list
    (steps writer_id 200 ++ steps coordinator_id 100)%list eq_refl bench_recording (NFile body) eq_refl E) as [H1 H2].
  exists body. split; [by apply Z.eqb_eq|]. split; [reflexivity|]. split; [exact H1|].
  exact (H2 Hsynced bench_left bench_left bench_lost (same_card (J := CdcCore.tiny_json) bench_random bench_left)).
Defined.
