(* ===== verification/Stopping.v ===== *)
(** * Stopping: a requested stop can always be completed

    The coordinator waits for the writer, the capture and the battery task
    before it gives the card away.  Wherever these three are interrupted, once
    a stop was requested each of them ends when it runs, and then its bit is
    set: nothing they wait for can fail to come. *)

From stdpp Require Import functions.
From S2P Require Import Prelude Monad Nvs ShutdownArmed WakeRecovery Stdio RecorderConfig.
From S2P Require Import RecorderState PcmPipeline WavPart WavRotation Interleave Ends.
From S2P Require Import SdMount UsbOwnership Recorder CdcSession Calls CdcWorker.
From S2P Require Import Coordinator Device Bench.
From S2P Require CdcCore SessionGate DeviceIdentity.
Open Scope prog_scope.

Section stopping.
Context {H P R N : Type} `{UsbPlatform H}.
Context `{RecorderPlatform P, CdcPlatform P, PowerPlatform P}.
Context `{NvsOps N bytes, RtcFlush R N, RtcService R N}.
Context {J : Type} `{!CdcCore.Cjson J}.

Abbreviation dv := (device H P R N).
Abbreviation task := (@prog dv).
Abbreviation events d := (s_rec_events (rcd d)).

(** ** What the steps keep *)

(** The tasks a stop waits for, and the number of the bit each sets. *)
Definition awaited (t : task_name) : option Z :=
  match t with rec_writer => Some 4 | rec_capture => Some 5 | rec_battery => Some 6 | _ => None end.

(** Bits other than the slot's stay set. *)
Definition events_stay (e e' : option Z) : Prop :=
  match e with
  | Some b => exists b', e' = Some b' /\ forall i, i <> 0 -> Z.testbit b i = true -> Z.testbit b' i = true
  | None => True
  end.

(** The full slots of the pipeline. *)
Definition full_slots (p : pcm_pipeline_t) : nat :=
  (if full (slot0 p) then 1 else 0) + (if full (slot1 p) then 1 else 0).

(** [strict]: the pipeline keeps its full slots, too. *)
Record tame_rec (strict : bool) (r r' : recorder) : Prop := TameRec {
  tame_events : events_stay (s_rec_events r) (s_rec_events r');
  tame_spawned : forall t, awaited t <> None -> spawned r' t = spawned r t;
  tame_full : strict = true -> full_slots (s_pipeline r') = full_slots (s_pipeline r);
}.
Definition tame (strict : bool) (d d' : dv) : Prop := tame_rec strict (rcd d) (rcd d').

#[local] Instance events_stay_preorder : PreOrder events_stay.
Proof.
  split.
  - intros [b|]; cbn; [|done]. by exists b.
  - intros [b|] e2 e3 H1' H2'; cbn in *; [|done]. destruct H1' as (b2 & -> & H12). cbn in H2'.
    destruct H2' as (b3 & -> & H23). exists b3. auto.
Qed.

#[local] Instance tame_rec_preorder strict : PreOrder (tame_rec strict).
Proof.
  split; [by intros r; split|]. intros r1 r2 r3 [E1 T1 F1] [E2 T2 F2].
  split; [by etransitivity|intros t Ht; by rewrite T2, T1|intros Hs; by rewrite F2, F1].
Qed.

#[local] Instance tame_preorder strict : PreOrder (tame strict).
Proof.
  split; [intros d; unfold tame; reflexivity|]. intros d1 d2 d3 H12 H23. unfold tame in *. by etransitivity.
Qed.

Lemma tame_same strict d d' : rcd d' = rcd d -> tame strict d d'.
Proof. unfold tame. by intros ->. Qed.

Lemma tame_usb strict {X} (m : st usb_state X) : along (tame strict) (on_usb m : st dv X).
Proof. intros d. apply tame_same. unfold on_usb. cbn. unfold dv_usb. by destruct (m (usbs d)). Qed.
Lemma tame_sd strict {X} (m : st sd_state X) : along (tame strict) (on_sd m : st dv X).
Proof. intros d. apply tame_same. unfold on_sd. cbn. unfold dv_sd. by destruct (m (sd d)). Qed.
Lemma tame_hw strict {X} (m : st H X) : along (tame strict) (on_hw m : st dv X).
Proof. intros d. apply tame_same. unfold on_hw. cbn. unfold dv_hw. by destruct (m (hw d)). Qed.
Lemma tame_dev strict {X} (m : st P X) : along (tame strict) (on_dev m : st dv X).
Proof. intros d. apply tame_same. unfold on_dev. cbn. unfold dv_dev. by destruct (m (devices d)). Qed.
Lemma tame_cdc strict {X} (m : st cdc_state X) : along (tame strict) (on_cdc m : st dv X).
Proof. intros d. apply tame_same. unfold on_cdc. cbn. unfold dv_cdc. by destruct (m (link d)). Qed.
Lemma tame_wake strict {X} (m : st (wake_world R N) X) : along (tame strict) (on_wake m : st dv X).
Proof. intros d. apply tame_same. unfold on_wake. cbn. unfold dv_wake. by destruct (m (wakeup d)). Qed.
Lemma tame_on_rec strict {X} (m : st recorder X) : along (tame_rec strict) m -> along (tame strict) (on_rec m : st dv X).
Proof. intros Hm d. unfold on_rec. cbn. unfold dv_rec. specialize (Hm (rcd d)). by destruct (m (rcd d)). Qed.

Lemma tame_rec_same strict r r' :
  s_rec_events r' = s_rec_events r -> spawned r' = spawned r ->
  (strict = true -> full_slots (s_pipeline r') = full_slots (s_pipeline r)) -> tame_rec strict r r'.
Proof. intros E1 E2 E3. split; [by rewrite E1|by rewrite E2|done]. Qed.

Lemma tame_card strict {X} (m : io X) : along (tame_rec strict) (on_card m).
Proof. intros r. unfold on_card. destruct (m (card r)). by apply tame_rec_same. Qed.

Lemma tame_or strict bits : along (tame_rec strict) (modify (fun r => set_rec_events ((fun b => Z.lor b bits) <$> s_rec_events r) r)).
Proof.
  intros r. cbn [modify snd]. split; [|done..]. cbn. destruct (s_rec_events r) as [b|]; cbn; [|done].
  eexists. split; [done|]. intros i _ Hi. by rewrite Z.lor_spec, Hi.
Qed.

Lemma tame_clear strict : along (tame_rec strict)
  (modify (fun r => set_rec_events ((fun b => Z.ldiff b REC_BIT_SLOT_FULL) <$> s_rec_events r) r)).
Proof.
  intros r. cbn [modify snd]. split; [|done..]. cbn. destruct (s_rec_events r) as [b|]; cbn; [|done].
  eexists. split; [done|]. intros i Hi Hb. rewrite Z.ldiff_spec, Hb.
  change REC_BIT_SLOT_FULL with (2 ^ 0). by rewrite Z.pow2_bits_false.
Qed.

Lemma tame_spawn strict t : awaited t = None -> along (tame_rec strict) (modify (set_spawned t)).
Proof.
  intros Ht r. cbn [modify snd]. split; [done| |done]. intros t' Ht'. cbn.
  apply fn_lookup_insert_ne. congruence.
Qed.

Lemma full_overflow p e b : full_slots (pcm_pipeline_note_driver_overflow p e b) = full_slots p.
Proof. unfold pcm_pipeline_note_driver_overflow. by destruct (_ && _). Qed.

Lemma full_sd_write p t : full_slots (pcm_pipeline_note_sd_write p t) = full_slots p.
Proof. unfold pcm_pipeline_note_sd_write. by destruct (_ <? _). Qed.

(** A release frees a slot. *)
Lemma full_release p : full_index p <> None -> full_slots p = S (full_slots (pcm_pipeline_release_full p)).
Proof.
  destruct p as [[d0 f0 []] [d1 f1 []] [] wi c]; cbn; first [done|reflexivity|congruence].
Qed.

Definition halting (d : dv) : Prop :=
  (exists b, events d = Some b /\ Z.testbit b 1 = true) /\
  forall t, awaited t <> None -> spawned (rcd d) t = true.

Lemma tame_halting strict d d' : tame strict d d' -> halting d -> halting d'.
Proof.
  intros [E T _] [(b & Hb & H1') Hs]. rewrite Hb in E. destruct E as (b' & Hb' & Hstay). split.
  - exists b'. split; [done|]. by apply Hstay.
  - intros t Ht. rewrite T by done. auto.
Qed.

(** ** Walking over the tasks *)

Create HintDb stopping discriminated.

Ltac tame_rec_step :=
  lazymatch goal with
  | |- along _ (get _) => apply along_get, _
  | |- along _ (on_card _) => apply tame_card
  | |- along _ (fun _ => on_card _ _) => intros ?; apply tame_card
  | |- along _ (modify (set_spawned _)) => apply tame_spawn; reflexivity
  | |- along _ (modify (fun r => set_rec_events ((fun b => Z.lor b _) <$> _) r)) => apply tame_or
  | |- along _ (modify (fun r => set_rec_events ((fun b => Z.ldiff b _) <$> _) r)) => apply tame_clear
  | |- along _ _ => intros ?; unfold store_read; cbn [modify snd]; repeat case_match;
      (apply tame_rec_same; [reflexivity..|first [discriminate|
        intros _; cbn; first [reflexivity|solve [auto using full_overflow, full_sd_write]]]])
  end.
Ltac tame_step :=
  lazymatch goal with
  | |- along _ (on_usb _) => apply tame_usb
  | |- along _ (on_history _) => by intros ?; apply tame_same
  | |- along _ (on_rec_history _) => by intros ?; apply tame_same
  | |- along _ (on_answer_sent _) => by intros ?; apply tame_same
  | |- along _ (on_dev _) => apply tame_dev
  | |- along _ (on_cdc _) => apply tame_cdc
  | |- along _ (on_session_gate _) => apply tame_cdc
  | |- along _ (on_cdc_platform _) => apply tame_dev
  | |- along _ (on_hw _) => apply tame_hw
  | |- along _ (on_sd _) => apply tame_sd
  | |- along _ (on_nvs _) => apply tame_wake
  | |- along _ (on_wake _) => apply tame_wake
  | |- along _ (on_rec _) => apply tame_on_rec; tame_rec_step
  | |- along _ (transition_locked _ _ _) => unfold transition_locked, append_state_event
  | |- along _ (bind _ _) => apply along_bind; [exact _| |intros ?]
  | |- along _ (ret _) => apply along_ret, _
  | |- along _ (match ?x with _ => _ end) => destruct x
  end.
Ltac tame_leaf :=
  first [ solve [eauto with stopping nocore] | unfold_leaf ltac:(fun _ => repeat tame_step) ].
Ltac by_steps := walk tame_leaf.

Abbreviation tamely strict p := (all_steps (fun X => along (tame strict)) p).

Ltac loopless_step :=
  cbn beta zeta;
  lazymatch goal with
  | |- loopless (Done _) => exact I
  | |- loopless (leave _) => exact I
  | |- loopless (again _) => exact I
  | |- loopless (pbind _ _) => apply loopless_bind; [|intros ?]
  | |- loopless (when _ _) => apply loopless_when
  | |- loopless (Atomic _ _) => intros ?
  | |- loopless (match ?x with _ => _ end) => destruct x
  | |- loopless ?p => first [ solve [eauto with stopping nocore] | let f := head_of p in unfold f ]
  end.
Ltac by_loopless := repeat loopless_step.

Lemma tame_gate_call strict {X} (p : @prog SessionGate.gate_world X) : tamely strict (gate_call p).
Proof. apply all_steps_lift. intros Y f. apply tame_cdc. Qed.

Lemma tame_read_trace strict vars : forall seen, tamely strict (read_trace vars seen).
Proof. induction vars as [|v vars IH]; intros seen; cbn [read_trace]; by_steps. Qed.
#[local] Hint Resolve tame_gate_call tame_read_trace : stopping.

Lemma tame_error strict reason : tamely strict (recorder_enter_error reason).
Proof. by_steps. Qed.
Lemma loopless_error reason : loopless (recorder_enter_error reason : task unit).
Proof. by_loopless. Qed.
Lemma tame_transition strict next reason mv : tamely strict (recorder_transition_state next reason mv).
Proof. by_steps. Qed.
Lemma loopless_transition next reason mv : loopless (recorder_transition_state next reason mv : task bool).
Proof. by_loopless. Qed.
#[local] Hint Resolve tame_error loopless_error tame_transition loopless_transition : stopping.

(** ** Every loop ends once a stop was requested *)

Abbreviation stops p := (stoppable halting p).

Lemma stops_steps {A} (p : @prog dv A) : tamely false p -> loopless p -> stops p.
Proof. intros Hp Hl. eapply (stoppable_steps halting (tame false)); [apply tame_halting|done..]. Qed.

(** A stretch without loops that leaves the full slots alone. *)
Lemma wpt_tame {A} (p : @prog dv A) d :
  tamely true p -> loopless p -> wpt p (fun _ d' => tame true d d') d.
Proof. intros Hp Hl. by apply wpt_steps; [exact _|..]. Qed.

Lemma wpt_rec_get {X A} (f : recorder -> X) (k : X -> @prog dv A) Q d :
  wpt (k (f (rcd d))) Q d -> wpt (x <- rec (get f); k x) Q d.
Proof. intros Hk. cbn. unfold dv_rec. cbn. by destruct d. Qed.

Lemma stop_bit b : Z.testbit b 1 = true -> (Z.land b REC_BIT_STOP =? 0) = false.
Proof.
  intros Hb. apply Z.eqb_neq. intros E.
  assert (Ht : Z.testbit (Z.land b REC_BIT_STOP) 1 = false) by (by rewrite E, Z.bits_0).
  rewrite Z.land_spec, Hb in Ht. by vm_compute in Ht.
Qed.

Lemma wpt_stop_requested {A} (k : bool -> @prog dv A) Q d :
  halting d -> wpt (k true) Q d -> wpt (stop <- recorder_stop_requested; k stop) Q d.
Proof.
  intros [(b & Hb & H1') _] Hk. unfold recorder_stop_requested. apply wpt_rec_get.
  by rewrite Hb, (stop_bit b H1').
Qed.

Lemma stops_wait bits : Z.land bits REC_BIT_STOP = REC_BIT_STOP -> stops (wait_any bits : task Z).
Proof.
  intros Hbits. split; [|split]; [intros ?; apply stops_steps; [by_steps|by_loopless]|done|].
  exists (fun _ _ => O). intros [] d Hd. apply wpt_rec_get. destruct Hd as [(b & Hb & H1') Hs].
  assert (E : (Z.land b bits =? 0) = false).
  { apply Z.eqb_neq. intros E. pose proof (stop_bit b H1') as Hne.
    rewrite <- Hbits, Z.land_assoc, E in Hne. by vm_compute in Hne. }
  rewrite Hb. cbn. rewrite E. split; [|done]. split; [by exists b|done].
Qed.

Lemma stops_created t body : awaited t <> None -> stops body -> stops (after_creation t body : task unit).
Proof.
  intros Ht Hbody. split; [|split]; [intros ?; apply stops_steps; [by_steps|by_loopless]|done|].
  exists (fun _ _ => O). intros [] d Hd. apply wpt_rec_get. by rewrite (proj2 Hd t Ht).
Qed.

(** *** The writer *)

Abbreviation full_in d := (full_slots (s_pipeline (rcd d))).

(** A pass of the inner loop frees a slot or leaves. *)
Definition drained (d : dv) (r : segment + segment * bool) (d' : dv) : Prop :=
  halting d' /\ match r with inl _ => (full_in d' < full_in d)%nat | inr _ => True end.

Ltac tame_bind x d' Hd' :=
  apply wpt_bind; eapply wpt_mono; [apply wpt_tame; [by_steps|by_loopless]|intros x d' Hd'].

Lemma wpt_release {A} f (k : unit -> @prog dv A) Q d :
  (forall d', events d' = events d -> spawned (rcd d') = spawned (rcd d) ->
    s_pipeline (rcd d') = f (s_pipeline (rcd d)) -> wpt (k tt) Q d') ->
  wpt (pbind (on_pipeline f) k) Q d.
Proof. intros Hk. cbn. by apply Hk. Qed.

Lemma full_index_slots p : full_index p <> None <-> (0 < full_slots p)%nat.
Proof. destruct p as [[d0 f0 []] [d1 f1 []] [] wi c]; cbn; split; first [congruence|lia|done]. Qed.

Lemma drain_ends g d : halting d -> wpt (drain_pass g) (drained d) d.
Proof.
  intros Hd. unfold drain_pass. apply wpt_rec_get.
  destruct (full_index (s_pipeline (rcd d))) as [i|] eqn:Hi; [|by split].
  assert (Hfull : (0 < full_in d)%nat) by (apply full_index_slots; congruence).
  tame_bind t0 d1 Hd1. tame_bind t1 d2 Hd2. tame_bind written d3 Hd3.
  assert (Ht : tame true d d3) by (transitivity d1; [done|]; by transitivity d2).
  assert (Hh : halting d3) by (by eapply tame_halting). clear d1 d2 Hd1 Hd2 Hd3.
  destruct written as [ok k]. destruct ok; cbn [negb].
  2: { tame_bind x4 d4 Hd4. tame_bind x5 d5 Hd5. split; [|done].
       exact (tame_halting _ _ _ Hd5 (tame_halting _ _ _ Hd4 Hh)). }
  apply wpt_release. intros d4 Ee Es Ep.
  assert (Hh4 : halting d4) by (by unfold halting; rewrite Ee, Es).
  assert (Hlt : (full_in d4 < full_in d)%nat).
  { pose proof (tame_full _ _ _ Ht eq_refl) as Ef. rewrite Ep.
    pose proof (full_sd_write (s_pipeline (rcd d3)) (u32 (t1 - t0))) as Eq.
    pose proof (full_release (pcm_pipeline_note_sd_write (s_pipeline (rcd d3)) (u32 (t1 - t0)))) as Er.
    rewrite full_index_slots in Er. lia. }
  clear Ee Es Ep Ht Hh d3. destruct (_ <? _); [by split|]. tame_bind flushed d5 Hd5.
  pose proof (tame_halting _ _ _ Hd5 Hh4) as Hh5. pose proof (tame_full _ _ _ Hd5 eq_refl) as Ef.
  destruct flushed as [ok2 k2]. destruct ok2; cbn [negb]; [split; [done|by rewrite Ef]|].
  tame_bind x6 d6 Hd6. tame_bind x7 d7 Hd7. split; [|done].
  exact (tame_halting _ _ _ Hd7 (tame_halting _ _ _ Hd6 Hh5)).
Qed.

Lemma stops_drain g : stops (drain_pass g).
Proof. apply stops_steps; [by_steps|by_loopless]. Qed.

Lemma stops_drain_loop {A} g (k : segment * bool -> @prog dv A) :
  (forall b, stops (k b)) -> stops (Loop drain_pass g k).
Proof.
  intros Hk. split; [intros ?; apply stops_drain|split; [done|]].
  exists (fun _ d => full_in d). intros g' d Hd. by apply drain_ends.
Qed.

Lemma tame_open date time6 g : tamely false (open_segment date time6 g).
Proof. by_steps. Qed.
Lemma loopless_open date time6 g : loopless (open_segment date time6 g : task _).
Proof. by_loopless. Qed.
Lemma tame_finish g : tamely false (finish_segment g).
Proof. by_steps. Qed.
Lemma loopless_finish g : loopless (finish_segment g : task _).
Proof. by_loopless. Qed.
#[local] Hint Resolve tame_open loopless_open tame_finish loopless_finish : stopping.

Lemma stops_rotate g : stops (rotate_if_due g).
Proof. apply stops_steps; [by_steps|by_loopless]. Qed.

(** A pass of the outer loop leaves, whatever the buffer holds. *)
Lemma writer_pass_ends g d :
  halting d -> wpt (writer_pass g) (fun r d' => halting d' /\ match r with inl _ => False | inr _ => True end) d.
Proof.
  intros Hd. unfold writer_pass. tame_bind x d1 Hd1. pose proof (tame_halting _ _ _ Hd1 Hd) as Hh.
  exists (fun n _ d => halting d /\ full_in d = n). split; [by exists (full_in d1)|].
  intros n g' d2 [Hh2 <-]. eapply wpt_mono; [by apply drain_ends|].
  intros [g3|[g3 running]] d3 [Hh3 Hlt]; [by exists (full_in d3)|].
  apply wpt_stop_requested; [done|]. by split.
Qed.

Lemma stops_writer_pass g : stops (writer_pass g).
Proof.
  unfold writer_pass. apply stoppable_bind; [apply stops_steps; [by_steps|by_loopless]|intros _].
  apply stops_drain_loop. intros [g' running].
  assert (Hstop : stops recorder_stop_requested) by (apply stops_steps; [by_steps|by_loopless]).
  apply stoppable_bind; [done|]. intros []; [done|]. apply stoppable_bind; [apply stops_rotate|].
  intros [g2 running']. destruct (negb running'); [done|]. apply stoppable_bind; [done|].
  intros stop. by destruct (_ || _).
Qed.

Ltac by_stops := apply stops_steps; [by_steps|by_loopless].
Ltac stops_step :=
  cbn beta zeta;
  lazymatch goal with
  | |- stops (Done _) => exact I
  | |- stops (leave _) => exact I
  | |- stops (again _) => exact I
  | |- stops (match ?x with _ => _ end) => destruct x
  | |- stops (pbind _ _) => apply stoppable_bind; [solve [eauto with stopping nocore|by_stops]|intros ?]
  | |- stops _ => solve [by_stops]
  end.

Context (nvs_random : st N Z).

Lemma stops_writer : stops (writer_thread nvs_random).
Proof.
  apply stops_created; [discriminate|]. unfold recorder_writer_task. repeat stops_step.
  split; [apply stops_writer_pass|split; [intros ?; by_stops|]].
  exists (fun _ _ => O). intros g d Hd. eapply wpt_mono; [by apply writer_pass_ends|]. by intros [] d' [Hh ?].
Qed.

(** *** The capture and the battery task *)

(** The driver stops when asked. *)
Context (Hdeinit : forall x, (pdm_capture_deinit x).1 = ESP_OK).

Lemma stops_wait_capture : stops (wait_any (Z.lor REC_BIT_WRITER_READY REC_BIT_STOP) : task Z).
Proof. by apply stops_wait. Qed.
Lemma stops_wait_battery : stops (wait_any (Z.lor REC_BIT_RECORDING_READY REC_BIT_STOP) : task Z).
Proof. by apply stops_wait. Qed.
#[local] Hint Resolve stops_wait_capture stops_wait_battery : stopping.

Lemma stops_teardown : stops capture_teardown.
Proof using Hdeinit.
  unfold capture_teardown. repeat stops_step.
  split; [intros [deinit_err attempt]; by_stops|split; [intros ?; by_stops|]].
  exists (fun s _ => if is_ok s.1 then O else 1%nat). intros [deinit_err attempt] d Hd. cbn [fst].
  destruct (is_ok deinit_err); [by split|].
  apply wpt_bind. eapply wpt_mono; [apply wpt_tame; [by_steps|by_loopless]|]. intros x d1 Hd1.
  pose proof (tame_halting _ _ _ Hd1 Hd) as Hh. cbn. unfold dv_dev. pose proof (Hdeinit (devices d1)) as E.
  destruct (pdm_capture_deinit (devices d1)) as [r p']. cbn in *. rewrite E. split; [done|]. cbn. lia.
Qed.

Lemma stops_capture : stops (after_creation rec_capture recorder_capture_task).
Proof using Hdeinit.
  apply stops_created; [discriminate|]. unfold recorder_capture_task. repeat stops_step.
  split; [intros ?; by_stops|split; [intros ?; apply stops_teardown|]].
  exists (fun _ _ => O). intros [] d Hd. unfold capture_pass. by apply wpt_stop_requested.
Qed.

Lemma stops_battery : stops (after_creation rec_battery recorder_battery_task).
Proof.
  apply stops_created; [discriminate|]. unfold recorder_battery_task. repeat stops_step.
  split; [intros ?; by_stops|split; [intros ?; by_stops|]].
  exists (fun _ _ => O). intros low d Hd. unfold battery_pass. by apply wpt_stop_requested.
Qed.

(** ** A task that ended has set its bit *)

Inductive phase := Waiting | Running | Ended.

(** A task a stop waits for; the boot, before and behind the creation of the
    event group; any other thread. *)
Inductive claim := LT (t : task_name) (c : phase) | LB (made : bool) | LO.

Definition bit_set (t : task_name) (d : dv) : Prop :=
  exists b i, events d = Some b /\ awaited t = Some i /\ Z.testbit b i = true.

Record known (d : dv) (ls : list claim) (made : bool) : Prop := Known {
  known_boot : ls !! 2%nat = Some (LB made);
  known_one : forall i m, ls !! i = Some (LB m) -> i = 2%nat;
  known_before : made = false -> forall t, awaited t <> None -> spawned (rcd d) t = false;
  known_events : made = true -> is_Some (events d);
  known_task : forall i t c, ls !! i = Some (LT t c) ->
    awaited t <> None /\ (c <> Waiting -> made = true) /\ (c = Ended -> bit_set t d);
}.
Definition bits_known (d : dv) (ls : list claim) : Prop := exists made, known d ls made.

Lemma awaited_bit t i : awaited t = Some i -> 4 <= i <= 6.
Proof. destruct t; intros [= <-]; lia. Qed.

Lemma tame_known d d' ls made : tame false d d' -> known d ls made -> known d' ls made.
Proof.
  intros [E T _] [Hb H1' Hbefore Hev Htask]. split; [done|done|..].
  - intros Hm t Ht. rewrite T by done. auto.
  - intros Hm. destruct (Hev Hm) as [b Hbits]. rewrite Hbits in E. destruct E as (b' & -> & _). by eexists.
  - intros i t c Hi. destruct (Htask i t c Hi) as (Ht & Hm & He). split_and!; [done..|].
    intros Hc. destruct (He Hc) as (b & ix & Hbits & Hix & Hset). rewrite Hbits in E.
    destruct E as (b' & Hb' & Hstay). exists b', ix. split_and!; [done..|]. apply Hstay; [|done].
    pose proof (awaited_bit t ix Hix). lia.
Qed.

Abbreviation ok := (ok bits_known).

Lemma ok_tame {A} (p : @prog dv A) l (Q : A -> claim -> Prop) :
  tamely false p -> (forall a, Q a l) -> ok p l Q.
Proof.
  intros Hp HQ. apply ok_keep; [|done]. eapply all_steps_mono; [|exact Hp].
  intros X f Hf d ls [made Hk]. exists made. eapply tame_known; [apply Hf|done].
Qed.

Lemma ok_tame_bind {A B} (p : @prog dv A) (k : A -> @prog dv B) l (Q : B -> claim -> Prop) :
  tamely false p -> (forall a, ok (k a) l Q) -> ok (pbind p k) l Q.
Proof. intros Hp Hk. by apply ok_bind, ok_tame. Qed.

(** The phase of a task changes. *)
Lemma known_phase d ls made i t c c' :
  ls !! i = Some (LT t c) -> (c' <> Waiting -> made = true) -> (c' = Ended -> bit_set t d) ->
  known d ls made -> known d (<[i := LT t c']> ls) made.
Proof.
  intros Hi Hm He [Hb H1' Hbefore Hev Htask].
  assert (Hne : i <> 2%nat) by congruence. split; [by rewrite list_lookup_insert_ne| |done|done|].
  - intros j m Hj. destruct (decide (i = j)) as [->|Hij].
    + rewrite list_lookup_insert_eq in Hj by (by eapply lookup_lt_Some). done.
    + rewrite list_lookup_insert_ne in Hj by done. by eapply H1'.
  - intros j t' c2 Hj. destruct (decide (i = j)) as [->|Hij].
    + rewrite list_lookup_insert_eq in Hj by (by eapply lookup_lt_Some). injection Hj as <- <-.
      destruct (Htask j t c Hi) as (Ht & _). by split_and!.
    + rewrite list_lookup_insert_ne in Hj by done. by eapply Htask.
Qed.

Definition finishes (t : task_name) (p : task unit) : Prop := ok p (LT t Running) (fun _ l => l = LT t Ended).

Lemma finishes_bind t {A} (p : @prog dv A) (k : A -> task unit) :
  tamely false p -> (forall a, finishes t (k a)) -> finishes t (pbind p k).
Proof. apply ok_tame_bind. Qed.

Lemma finishes_loop t {S B} (body : S -> @prog dv (S + B)) s (k : B -> task unit) :
  (forall s, tamely false (body s)) -> (forall b, finishes t (k b)) -> finishes t (Loop body s k).
Proof.
  intros Hb Hk. exists (fun _ l => l = LT t Running), (fun _ l => l = LT t Running).
  split_and!; [done| |intros b l ->; apply Hk].
  intros s' l ->. apply ok_tame; [done|]. by intros [].
Qed.

Lemma finishes_delete t : finishes t (recorder_task49_delete t).
Proof.
  intros flip d ls i Hi [made Hk]. exists (LT t Ended). split; [|done]. exists made.
  destruct (known_task _ _ _ Hk i t Running Hi) as (Ht & Hm & _).
  assert (Hmade : made = true) by by apply Hm.
  destruct (known_events _ _ _ Hk Hmade) as [b Hb].
  assert (Htame : tame false d (on_rec (modify (fun r =>
    set_rec_events ((fun b => Z.lor b (done_bit t)) <$> s_rec_events r) r)) d).2).
  { apply (tame_on_rec false (X := unit)), tame_or. }
  eapply known_phase; [done|done| |by eapply tame_known]. intros _.
  destruct (awaited t) as [ix|] eqn:Hix; [|done]. exists (Z.lor b (done_bit t)), ix.
  split; [cbn; by rewrite Hb|]. split; [done|]. rewrite Z.lor_spec, orb_true_iff. right.
  by destruct t; cbn in Hix; simplify_eq.
Qed.

Lemma ok_created t body : finishes t body -> ok (after_creation t body) (LT t Waiting) (fun _ l => l = LT t Ended).
Proof.
  intros Hbody. exists (fun _ l => l = LT t Waiting), (fun _ l => l = LT t Running).
  split_and!; [done| |by intros _ l ->].
  intros _ l -> flip d ls i Hi [made Hk].
  assert (E : on_rec (get (fun r => spawned r t)) d = (spawned (rcd d) t, d)) by (by destruct d).
  rewrite E. cbn [fst snd]. destruct (spawned (rcd d) t) eqn:Hs.
  - exists (LT t Running). split; [|done]. exists made.
    destruct (known_task _ _ _ Hk i t Waiting Hi) as (Ht & _). eapply known_phase; [done| |done|done].
    intros _. destruct made; [done|]. by rewrite (known_before _ _ _ Hk eq_refl t Ht) in Hs.
  - exists (LT t Waiting). split; [|done]. rewrite list_insert_id by done. by exists made.
Qed.

Ltac finish_step :=
  cbn beta zeta;
  lazymatch goal with
  | |- finishes _ (recorder_task49_delete _) => apply finishes_delete
  | |- finishes _ (pbind _ _) => apply finishes_bind; [solve [by_steps]|intros ?]
  | |- finishes _ (match ?x with _ => _ end) => destruct x
  | |- finishes _ (Loop _ _ _) => apply finishes_loop; [intros ?; solve [by_steps]|intros ?]
  | |- finishes _ ?p => let f := head_of p in unfold f
  end.

Lemma finishes_writer : finishes rec_writer (recorder_writer_task nvs_random).
Proof. repeat finish_step. Qed.
Lemma finishes_capture : finishes rec_capture recorder_capture_task.
Proof. repeat finish_step. Qed.
Lemma finishes_battery : finishes rec_battery recorder_battery_task.
Proof. repeat finish_step. Qed.

(** *** The boot *)

Lemma ok_made {X A} (st : st dv X) (k : X -> @prog dv A) made (Q : A -> claim -> Prop) :
  (forall d ls, ls !! 2%nat = Some (LB made) -> known d ls made ->
    exists made', known (st d).2 (<[2%nat := LB made']> ls) made' /\ ok (k (st d).1) (LB made') Q) ->
  ok (Atomic (fun _ => st) k) (LB made) Q.
Proof.
  intros Hm flip d ls i Hi [m Hk]. pose proof (known_one _ _ _ Hk i made Hi) as ->.
  assert (m = made) as -> by (pose proof (known_boot _ _ _ Hk); congruence).
  destruct (Hm d ls Hi Hk) as (made' & Hk' & Hok). exists (LB made'). split; [by exists made'|done].
Qed.

(** The group is created, or not, while no task exists. *)
Lemma known_create d d' ls made :
  known d ls false -> s_rec_events (rcd d') = (if made : bool then Some 0 else None) ->
  spawned (rcd d') = spawned (rcd d) -> known d' (<[2%nat := LB made]> ls) made.
Proof.
  intros [Hb H1' Hbefore Hev Htask] Ee Es.
  assert (Hlt : (2 < length ls)%nat) by (by eapply lookup_lt_Some). split.
  - by rewrite list_lookup_insert_eq.
  - intros i m Hi. destruct (decide (i = 2%nat)) as [->|Hne]; [done|].
    rewrite list_lookup_insert_ne in Hi by done. by eapply H1'.
  - intros _ t Ht. rewrite Es. auto.
  - intros ->. by rewrite Ee.
  - intros i t c Hi. destruct (decide (i = 2%nat)) as [->|Hne].
    + by rewrite list_lookup_insert_eq in Hi.
    + rewrite list_lookup_insert_ne in Hi by done. destruct (Htask i t c Hi) as (Ht & Hm & _).
      split_and!; [done| |].
      * intros Hc. by specialize (Hm Hc).
      * intros ->. by specialize (Hm ltac:(discriminate)).
Qed.

Lemma known_spawn d d' ls :
  known d ls true -> events d' = events d -> known d' ls true.
Proof.
  intros [Hb H1' Hbefore Hev Htask] Ee. split; [done|done|done|by rewrite Ee|].
  intros i t c Hi. destruct (Htask i t c Hi) as (Ht & Hm & He). split_and!; [done..|].
  intros Hc. destruct (He Hc) as (b & ix & Hb' & ?). exists b, ix. by rewrite Ee.
Qed.

Lemma ok_create_task t (Q : bool -> claim -> Prop) :
  (forall created, Q created (LB true)) -> ok (create_task t) (LB true) Q.
Proof.
  intros HQ. unfold create_task. apply ok_tame_bind; [by_steps|intros created].
  destruct created; cbn [when pbind]; [|apply HQ]. apply ok_made. intros d ls Hi Hk.
  exists true. rewrite list_insert_id by done. split; [by eapply known_spawn|apply HQ].
Qed.

Lemma ok_create_tasks : ok create_tasks (LB true) (fun _ _ => True).
Proof.
  unfold create_tasks. do 3 (apply ok_bind, ok_create_task; intros []; cbn [negb]; [|by apply ok_tame; [by_steps|]]).
  done.
Qed.

Ltac boot_step := apply ok_tame_bind; [by_steps|intros ?].
Ltac boot_error := by apply ok_tame; [by_steps|].

Lemma ok_base slot0 slot1 : ok (base_thread slot0 slot1) (LB false) (fun _ _ => True).
Proof.
  exists (fun _ l => l = LB false), (fun _ l => l = LB false). split_and!; [done|..].
  { intros _ l ->. apply ok_tame; [by_steps|]. by intros [a|a]. }
  intros _ l ->. unfold recorder_base_task. boot_step. apply ok_bind.
  eapply ok_mono; [instantiate (1 := fun _ _ => True)|].
  2: { intros _ l _. boot_error. }
  unfold recorder_base_app_main. do 4 boot_step. destruct (negb _); [done|].
  apply ok_tame_bind; [by_steps|intros made].
  apply ok_made. intros d ls Hi Hk. exists made. split; [by apply (known_create d)|]. cbn [fst].
  destruct made; cbn [negb]; [|boot_error]. destruct (negb _); [boot_error|]. do 2 boot_step.
  destruct (negb _); [boot_error|]. boot_step. destruct (negb _); [boot_error|]. boot_step.
  apply ok_create_tasks.
Qed.

(** ** The whole firmware *)

Definition powered_on_claims (n : nat) : list claim :=
  LO :: LT rec_writer Waiting :: LB false :: LO :: LO :: LT rec_capture Waiting ::
  LT rec_battery Waiting :: replicate n LO.

(** The number of its thread. *)
Definition thread_of (t : task_name) : nat :=
  match t with rec_writer => 1 | rec_capture => 5 | _ => 6 end.

Lemma powered_on_known h p r n card_ k :
  known (powered_on h p r n card_) (powered_on_claims k) false.
Proof.
  split; [done| |done|done|].
  - intros [|[|[|[|[|[|[|i]]]]]]] m Hi; try discriminate Hi; [done|].
    change (replicate k LO !! i = Some (LB m)) in Hi. by apply lookup_replicate in Hi as [? _].
  - intros [|[|[|[|[|[|[|i]]]]]]] t c Hi; try discriminate Hi; try (by injection Hi as <- <-).
    change (replicate k LO !! i = Some (LT t c)) in Hi. by apply lookup_replicate in Hi as [? _].
Qed.

Definition task_of (i : nat) : option task_name :=
  match i with 1 => Some rec_writer | 5 => Some rec_capture | 6 => Some rec_battery | _ => None end%nat.

(** A thread that ends has this claim. *)
Definition ended_as (i : nat) (l : claim) : Prop :=
  match task_of i with Some t => l = LT t Ended | None => True end.

Lemma tame_coordinator : tamely false coordinator_thread.
Proof. by_steps. Qed.
Lemma tame_app_main : tamely false app_main.
Proof. by_steps. Qed.
Lemma tame_worker : tamely false (worker_thread (J := J)).
Proof. by_steps. Qed.
Lemma tame_stack_call c : tamely false (run_stack_call c).
Proof. by_steps. Qed.

Lemma firmware_bits slot0 slot1 callbacks h p r n card_ :
  pool_ok_to bits_known ended_as (firmware (J := J) nvs_random slot0 slot1 callbacks) (powered_on h p r n card_).
Proof.
  exists (powered_on_claims (length callbacks)). split; [cbn; by rewrite length_map, length_replicate|].
  split; [exists false; apply powered_on_known|].
  intros i q l Hq Hl. destruct i as [|[|[|[|[|[|[|i]]]]]]]; cbn in Hq, Hl; simplify_eq.
  - apply ok_tame; [apply tame_coordinator|done].
  - apply ok_created, finishes_writer.
  - eapply ok_mono; [apply ok_base|done].
  - apply ok_tame; [apply tame_app_main|done].
  - apply ok_tame; [apply tame_worker|done].
  - apply ok_created, finishes_capture.
  - apply ok_created, finishes_battery.
  - change (replicate (length callbacks) LO !! i = Some l) in Hl. apply lookup_replicate in Hl as [-> _].
    apply list_lookup_fmap_Some in Hq as (cs & -> & _).
    apply ok_tame; [apply steps_in_turn, tame_stack_call|done].
Qed.

Lemma firmware_stops slot0 slot1 callbacks t :
  awaited t <> None -> exists q,
  firmware (J := J) nvs_random slot0 slot1 callbacks !! thread_of t = Some q /\ stops q.
Proof using Hdeinit.
  intros Ht. destruct t; try done; eexists; (split; [done|]).
  - apply stops_writer.
  - apply stops_capture.
  - apply stops_battery.
Qed.

(** The mask holds the three bits and no other. *)
Lemma mask_bits b :
  Z.testbit b 4 = true -> Z.testbit b 5 = true -> Z.testbit b 6 = true ->
  Z.land b REC_TASK_DONE_MASK = REC_TASK_DONE_MASK.
Proof.
  intros H4' H5' H6'. apply Z.bits_inj'. intros i Hi. rewrite Z.land_spec.
  destruct (decide (i < 7)) as [Hlt|Hge].
  - assert (i = 0 \/ i = 1 \/ i = 2 \/ i = 3 \/ i = 4 \/ i = 5 \/ i = 6) as Hcases by lia.
    destruct Hcases as [->|[->|[->|[->|[->|[->| ->]]]]]]; rewrite ?H4', ?H5', ?H6'; try done; apply andb_false_r.
  - assert (Habove : Z.testbit REC_TASK_DONE_MASK i = false).
    { apply Z.bits_above_log2; [done|]. change (Z.log2 REC_TASK_DONE_MASK) with 6. lia. }
    rewrite Habove. apply andb_false_r.
Qed.

Section run.
Context (slot0 slot1 : bytes) (callbacks : list (list stack_call)) (h : H) (p : P) (r : R) (n : N)
  (card_ : Stdio.world).

Abbreviation started sched :=
  (run sched (firmware (J := J) nvs_random slot0 slot1 callbacks) (powered_on h p r n card_)).

Lemma ended_bit sched t :
  awaited t <> None -> (started sched).1 !! thread_of t = Some (Done tt) -> bit_set t (started sched).2.
Proof.
  intros Ht Hdone. pose proof (firmware_bits slot0 slot1 callbacks h p r n card_) as Hpool.
  apply (run_ok_to bits_known ended_as sched) in Hpool as (ls & Hlen & [made Hk] & Hall).
  destruct (lookup_lt_is_Some_2 ls (thread_of t)) as [l Hl].
  { rewrite Hlen. by eapply lookup_lt_Some. }
  pose proof (Hall _ _ _ Hdone Hl) as Hend. cbn in Hend. unfold ended_as in Hend.
  assert (Htask : task_of (thread_of t) = Some t) by by destruct t.
  rewrite Htask in Hend. subst l. by apply (known_task _ _ _ Hk _ _ _ Hl).
Qed.

(** One of the three is run to its end. *)
Lemma end_one sched t :
  awaited t <> None -> halting (started sched).2 -> exists k,
  let s := started (sched ++ steps (thread_of t) k)%list in
  halting s.2 /\ s.1 = <[thread_of t := Done tt]> (started sched).1.
Proof using Hdeinit.
  intros Ht Hh. destruct (firmware_stops slot0 slot1 callbacks t Ht) as (q & Hq & Hstop).
  destruct ((started sched).1 !! thread_of t) as [q'|] eqn:Hq'.
  - assert (Hstop' : stops q').
    { eapply (stoppable_run halting sched (thread_of t)); [|exact Hq'].
      intros q2 Hq2. rewrite Hq in Hq2. by injection Hq2 as <-. }
    destruct (stoppable_ends halting (thread_of t) q' (started sched).1 (started sched).2 Hstop' Hh Hq')
      as (k & d' & Hrun & Hh'). exists k. cbn zeta. rewrite run_app. unfold steps. by rewrite Hrun.
  - apply lookup_ge_None in Hq'. rewrite run_length in Hq'. apply lookup_lt_Some in Hq. lia.
Qed.
End run.

(** C7: a requested stop can always be completed.  In every state the firmware
    reaches from power-on, by any schedule, whatever the PC sends and every
    fault, provided the microphone's driver stops when asked: once a stop was
    requested and the writer, the capture and the battery task exist, running
    these three, wherever they were interrupted, ends them, and then the event
    group holds the three bits the coordinator waits for before it gives the
    card away. *)
Theorem stop_can_be_completed slot0 slot1 callbacks h p r n card_ sched :
  let s := run sched (firmware (J := J) nvs_random slot0 slot1 callbacks) (powered_on h p r n card_) in
  halting s.2 ->
  exists n1 n2 n3 b,
    s_rec_events (rcd (run (steps (thread_of rec_writer) n1 ++ steps (thread_of rec_capture) n2 ++
      steps (thread_of rec_battery) n3)%list s.1 s.2).2) = Some b /\
    Z.land b REC_TASK_DONE_MASK = REC_TASK_DONE_MASK.
Proof using Hdeinit.
  intros s Hh.
  destruct (end_one slot0 slot1 callbacks h p r n card_ sched rec_writer) as (n1 & Hh1 & E1); [done..|].
  destruct (end_one slot0 slot1 callbacks h p r n card_ _ rec_capture ltac:(done) Hh1) as (n2 & Hh2 & E2).
  destruct (end_one slot0 slot1 callbacks h p r n card_ _ rec_battery ltac:(done) Hh2) as (n3 & Hh3 & E3).
  exists n1, n2, n3. unfold s. rewrite <- run_app, !app_assoc. rewrite E2, E1 in E3. clear Hh Hh1 Hh2 Hh3 E1 E2.
  set (all := (((sched ++ _) ++ _) ++ _)%list) in *.
  assert (Hlen : (7 <= length (run sched (firmware (J := J) nvs_random slot0 slot1 callbacks)
    (powered_on h p r n card_)).1)%nat) by (rewrite run_length; cbn; lia).
  assert (Hbits : forall t, awaited t <> None ->
    bit_set t (run all (firmware (J := J) nvs_random slot0 slot1 callbacks) (powered_on h p r n card_)).2).
  { intros t Ht. apply ended_bit; [done|]. rewrite E3. destruct t; try done; cbn [thread_of];
      rewrite ?list_lookup_insert_ne by done; apply list_lookup_insert_eq; rewrite ?length_insert; lia. }
  destruct (Hbits rec_writer) as (b & i4 & Hb & [= <-] & H4'); [done|].
  destruct (Hbits rec_capture) as (b5 & i5 & Hb5 & [= <-] & H5'); [done|].
  destruct (Hbits rec_battery) as (b6 & i6 & Hb6 & [= <-] & H6'); [done|].
  exists b. split; [done|]. apply mask_bits; congruence.
Qed.
End stopping.

(** ** Witness: the host's first command on the bench *)

Abbreviation bench_asked :=
  (run (to_recording ++ steps main_id 80 ++ steps callback_id 40 ++ steps coordinator_id 100)%list
     (firmware (J := CdcCore.tiny_json) bench_random [] [] [bench_callbacks])
     (powered_on Ours [] tt blank_settings blank_card)).

(** The stop is requested, the tasks exist, none has ended. *)
Lemma bench_halting :
  match s_rec_events (rcd bench_asked.2) with
  | Some b => Z.testbit b 1 && (Z.land b REC_TASK_DONE_MASK =? 0)
  | None => false
  end = true /\ halting bench_asked.2.
Proof.
  assert (Hs : match s_rec_events (rcd bench_asked.2) with
    | Some b => Z.testbit b 1 && (Z.land b REC_TASK_DONE_MASK =? 0)
    | None => false
    end = true) by (vm_compute; reflexivity).
  split; [exact Hs|]. split.
  - destruct (s_rec_events (rcd bench_asked.2)) as [b|]; [|done]. exists b. by apply andb_prop in Hs as [? _].
  - intros t Ht. destruct t; try done; vm_compute; reflexivity.
Qed.

Lemma stop_can_be_completed_witness :
  match s_rec_events (rcd bench_asked.2) with
  | Some b => Z.testbit b 1 && (Z.land b REC_TASK_DONE_MASK =? 0)
  | None => false
  end = true /\
  exists n1 n2 n3 b,
    s_rec_events (rcd (run (steps (thread_of rec_writer) n1 ++ steps (thread_of rec_capture) n2 ++
      steps (thread_of rec_battery) n3)%list bench_asked.1 bench_asked.2).2) = Some b /\
    Z.land b REC_TASK_DONE_MASK = REC_TASK_DONE_MASK.
Proof.
  split; [exact (proj1 bench_halting)|].
  exact (stop_can_be_completed (J := CdcCore.tiny_json) bench_random (fun _ => eq_refl) [] [] [bench_callbacks]
    Ours [] tt blank_settings blank_card
    (to_recording ++ steps main_id 80 ++ steps callback_id 40 ++ steps coordinator_id 100)%list
    (proj2 bench_halting)).
Defined.
